(* ===== verification/_CoqProject ===== *)
-Q . S2P
Prelude.v
Arith.v
SoftFloat.v
SoftF32.v
SoftF64.v
SoftConv.v
Ieee.v
Sticky.v
SoftFacts.v
SoftFields.v
SoftCompare.v
SoftAdd.v
SoftMul.v
SoftAdd32.v
SoftAdd64.v
SoftDiv64.v
SoftConvFacts.v
SoftIntFacts.v
SoftToInt.v
SoftProps.v
Encoding.v
Decode.v
Opcodes.v
Decoder.v
State.v
Processor.v
Pmp.v
Mmu.v
Csr.v
TrapEntry.v
Macros.v
Base.v
Float.v
Compressed.v
System.v
Fetch.v
Execute.v
Fields.v
CsrFacts.v
CsrProps.v
MmuFacts.v
Registers.v
Hoare.v
InsnFacts.v
InsnProps.v
FetchFacts.v
TrapFacts.v
StepFacts.v
StepProps.v
InsnRuns.v
Alu.v
Control.v
Expand.v
Precise.v
TrapReturn.v
Isolation.v
FloatProps.v
Tlb.v
Atomics.v
Sim.v
DebugDefines.v
DebugAsm.v
DebugModule.v
DebugFacts.v
DebugFrame.v
DebugLive.v
DebugProgram.v
DebugProps.v
Jtag.v
JtagProps.v
Examples.v
