(* ===== verification/Prelude.v ===== *)
(** * The RISC-V instruction-set simulator of DifuzzRTL, verified

    This library models the C++ core of the fuzzer's golden model, the modified
    Spike under [src/difuzz-rtl/Fuzzer/ISASim/riscv-isa-sim] (paths below are
    relative to it), and proves what makes it correct.  Definitions keep the
    names of the source and are executable; integers are [Z] with the wrap-around
    of the C type written out; member functions run in a state-and-exception
    monad over one hart, in which a [throw] keeps the changes made before it.
    The build is the repository's: commit log, dirty-bit update, misaligned
    access and histogram off, a little-endian 64-bit host.

    ** The parts of the program and the files that model them

    - [Prelude]: machine words ([uw], [sw], the 64-bit operators [+w], [<<w],
      ...), bit lemmas, record update, the shared tactics.
    - [Arith]: [riscv/arith.h] and the bit counters [ctz], [cto].
    - [SoftFloat], [SoftF32], [SoftF64], [SoftConv]: [softfloat/], the part the
      F and D instructions call: environment and primitives, the arithmetic of
      the two formats, conversions.  The environment of rounding mode and
      exception flags is global in C and explicit here ([SF A]).
    - [Encoding], [Decode], [Opcodes], [Decoder]: the constants of
      [riscv/encoding.h]; [insn_t] of [riscv/decode.h]; the instruction table
      and [decode_insn] with its cache and move-to-front search.
    - [State], [Processor]: [state_t], [processor_t], [mmu_t], trap classes, the
      monad; extension tests, privilege legalisation, debug triggers
      ([riscv/processor.h]).  [hart] also holds SoftFloat's environment.
    - [Pmp], [Mmu]: [riscv/mmu.cc], [riscv/mmu.h]: PMP checks, both stages of
      translation, TLBs, loads, stores, atomics, reservations.
    - [Csr], [TrapEntry]: [set_csr], [get_csr], [set_privilege], [take_trap],
      [take_interrupt], [enter_debug_mode], [reset] ([riscv/processor.cc],
      [riscv/psint.cc]).
    - [Macros], [Base], [Float], [Compressed], [System]: the macros of
      [riscv/decode.h] and one definition per file [riscv/insns/NAME.h] of
      I, M, A; F, D; C; and the privileged and hypervisor instructions.
    - [Fetch], [Execute]: instruction fetch and cache; dispatch and
      [processor_t::step] with its exception handlers ([riscv/execute.cc]).
    - [Sim]: the platform behind [simif_t] ([riscv/sim.cc], [devices.cc],
      [clint.cc], [rom.cc]).
    - [DebugDefines], [DebugAsm], [DebugModule]: the debug module
      ([riscv/debug_defines.h], the assembler of [riscv/opcodes.h],
      [riscv/debug_module.cc] and [.h]): its arrays, registers, abstract
      commands, bus master and the window the harts access.
    - [Jtag]: the test access port over it ([riscv/jtag_dtm.cc] and [.h]).

    They interact as in the code: [step] fetches through the MMU, the decoder
    names the function of the word, its body calls macros, CSR code, the MMU or
    SoftFloat, and a thrown trap is caught by [step], which calls [take_trap].
    The MMU and everything above it see the platform only through the class
    [SimIf] (the members of [simif_t] with the laws their callers rely on);
    [Sim] gives the instance.  The bodies of instructions that are not modelled
    are the parameter [other] of [Execute].

    The debug module runs in a monad of its own ([DM]) over a machine of all
    harts, the debug MMU and the generator of challenges; a command writes a program to [debug_abstract] and raises a flag,
    the hart fetches it through [load] and reports through [store], and
    [dmcontrol] sets and clears the halt requests in the harts' processors.  The
    class [Platform] is what it needs of the machine's platform; [Jtag] calls
    [dmi_read], [dmi_write] and [run_test_idle].  The hart's side of a debug
    session, the debug ROM's program, appears in the theorems as the loads and
    stores it makes.

    ** What the theorems show

    - Safety of the simulator ([InsnProps], [FetchFacts], [TrapFacts],
      [StepFacts], [StepProps], over the logic of [Hoare] and the invariant
      [machine_ok] of [InsnFacts]), for processors configured without the
      hypervisor extension: every modelled instruction keeps the machine legal;
      if the bodies of the unmodelled ones do too (the hypothesis [body_ok] on
      [other]), from reset [step] stays in legal states under any program and
      interrupts, reaches [abort()] only through a reserved trigger action, and
      returns unless a debug trigger fires.  [Hoare] and [StepFacts] have the
      rules for the two monads.
    - Instructions against the manual: [Alu] (I and M on XLEN-bit operands),
      [Control] (branches and jumps), [Expand] (C as expansions of base
      instructions), [Precise] (a trapping instruction has changed nothing),
      [FloatProps] (F and D arithmetic, comparisons and conversions against
      [Ieee]).  [InsnRuns] has the equations that run a body.
    - SoftFloat against IEEE 754: [Ieee] defines the reference on exact
      rationals rounded once; [Sticky] shows that a significand with a sticky
      bit is enough to round; [SoftFacts], [SoftFields], [SoftCompare],
      [SoftAdd], [SoftAdd32], [SoftAdd64], [SoftMul], [SoftDiv64],
      [SoftConvFacts], [SoftIntFacts] and [SoftToInt] lead to the theorems of
      [SoftProps].
    - Privileged architecture: [CsrFacts] and [CsrProps] (legal values, PMP
      locks, interrupt choice), [TrapReturn] (a trap and its return are inverse),
      [Isolation] (what unprivileged code can touch of the privileged state:
      of the machine level only the dirty bits and, in [mip], what the devices
      drive and a delegated SSIP), [Fields] (the bit-field macros).  Legal
      states are again those of processors without H.
    - Memory: [Pmp] (a homogeneous page has one verdict), [MmuFacts] (what a
      translation permits), [Tlb] (the TLBs simulate a machine that translates
      every access, as long as no store changes a translation), [Atomics] (AMO
      and LR/SC contracts).
    - [Decoder]: cache and reordering are invisible; the most specific encoding
      wins.  [Arith], [Sim]: high halves, saturation, bit counters, CLINT.
    - Debugging: [DebugFacts] (the invariant [dm_ok] and a logic for [DM]: no
      access leaves an array, no assertion fails), [DebugFrame] (what each
      operation leaves alone: a busy command, a locked module), [DebugLive] (a
      command that its hart takes up and finishes ends), [DebugProgram] (the
      words of a command decode, by [Decoder]'s table and [Decode]'s fields, to
      its program), [DebugProps] (the properties), [JtagProps] (the bit-serial
      scans are the word-level accesses).
    - [Examples]: the properties at concrete machines.

    ** Bounds and fuel

    Loops that are not structural take fuel.  [ctz] and [cto] take the width of
    the register, page-table walks the number of levels, loops over PMP entries
    and triggers their count: each is the bound of the C loop.  The inner loops
    of [step] take [n] iterations, because each iteration counts one
    instruction; its outer loop takes [4n + 4], which is enough from every legal
    state unless a debug trigger fires ([StepProps.step_returns]).  SoftFloat
    has no loops.  Machine widths are 32 and 64.  [DM]'s loops run over the
    harts, the words of a buffer or the bits of a width.

    The theorems on the debug module are for up to 1024 harts, the number of
    flags it has; those whose operations could use the bus master are for a
    configuration without one ([max_bus_master_bits < 8], the default).  They
    bound the program buffer by 32 words where it is about memory safety, so
    that [autoexecprogbuf >> i] is a shift C defines, and by 16, the registers
    the specification gives it, where the meaning of addresses matters: with
    more, the buffer's registers cover [authdata].  Harts are assumed to store
    hart numbers in range to the debug ROM's three entry words, which the code
    does not check.

    ** Not modelled

    - The instructions of Q, Zfh and V (parameter [other]), and with them the
      half- and quadruple-precision functions of [softfloat/] and the vector
      unit's state; of the modelled F and D functions, square root and fused
      multiply-add have no theorem against [Ieee].
    - The sockets of the remote bitbang transport (its command loop is in
      [Jtag]) and [fdt/] (device-tree blobs, third-party code).
    - [fesvr/] (host I/O and ELF loading), [spike_main/] (option parsing, the
      disassembler), logging and the interactive debugger: input and output.
    - The Python fuzzer and the FIRRTL passes under [src/difuzz-rtl]: other
      languages. *)
From Stdlib Require Import ZArith Lia Bool List.
From stdpp Require Import base list gmap.
Import ListNotations.
#[local] Open Scope Z_scope.

(** ** C integers as [Z]

    A value of an unsigned [w]-bit C type is the [Z] in [[0, 2^w)] it denotes;
    [uw w] is the conversion to that type, [sw w] the conversion to the signed
    type of the same width (two's complement, as [decode.h] requires). *)

Definition uw (w x : Z) : Z := x mod 2 ^ w.

Definition sw (w x : Z) : Z :=
  if uw w x <? 2 ^ (w - 1) then uw w x else uw w x - 2 ^ w.

Abbreviation u8 := (uw 8).
Abbreviation u16 := (uw 16).
Abbreviation u32 := (uw 32).
Abbreviation u64 := (uw 64).
Abbreviation s8 := (sw 8).
Abbreviation s16 := (sw 16).
Abbreviation s32 := (sw 32).
Abbreviation s64 := (sw 64).

(** [bool] used as an integer, and an integer used as a condition. *)
Definition b2z (b : bool) : Z := if b then 1 else 0.
Definition z2b (x : Z) : bool := negb (x =? 0).

(** Arithmetic of [uint64_t] (and of [reg_t]). *)
Definition add64 (a b : Z) : Z := u64 (a + b).
Definition sub64 (a b : Z) : Z := u64 (a - b).
Definition mul64 (a b : Z) : Z := u64 (a * b).
Definition neg64 (a : Z) : Z := u64 (- a).
Definition not64 (a : Z) : Z := u64 (Z.lnot a).
Definition shl64 (a n : Z) : Z := u64 (Z.shiftl a n).

Declare Scope word_scope.
Delimit Scope word_scope with word.
Notation "a +w b" := (add64 a b) (at level 50, left associativity) : word_scope.
Notation "a -w b" := (sub64 a b) (at level 50, left associativity) : word_scope.
Notation "a *w b" := (mul64 a b) (at level 40, left associativity) : word_scope.
Notation "a <<w n" := (shl64 a n) (at level 39, left associativity) : word_scope.
Notation "a >>w n" := (Z.shiftr a n) (at level 39, left associativity) : word_scope.
Notation "a &w b" := (Z.land a b) (at level 41, left associativity) : word_scope.
Notation "a |w b" := (Z.lor a b) (at level 52, left associativity) : word_scope.
Notation "a ^w b" := (Z.lxor a b) (at level 51, left associativity) : word_scope.

(** [w]-bit unsigned and signed ranges. *)
Definition fits (w x : Z) : Prop := 0 <= x < 2 ^ w.
Definition sfits (w x : Z) : Prop := - 2 ^ (w - 1) <= x < 2 ^ (w - 1).

(** ** Lemmas on conversions *)

Lemma pow2_pos w : 0 <= w -> 0 < 2 ^ w.
Proof. intros. now apply Z.pow_pos_nonneg. Qed.

Lemma pow2_half w : 0 < w -> 2 ^ w = 2 * 2 ^ (w - 1).
Proof. intros. rewrite <- Z.pow_succ_r by lia. f_equal; lia. Qed.

Lemma uw_fits w x : 0 <= w -> fits w (uw w x).
Proof. intros. apply Z.mod_pos_bound. now apply pow2_pos. Qed.

Lemma uw_small w x : fits w x -> uw w x = x.
Proof. apply Z.mod_small. Qed.

Lemma uw_idem w x : uw w (uw w x) = uw w x.
Proof. apply Z.mod_mod_divide. apply Z.divide_refl. Qed.

Lemma uw_sub_pow w x : 0 <= w -> uw w (x - 2 ^ w) = uw w x.
Proof.
  intros. unfold uw. replace (x - 2 ^ w) with (x + (-1) * 2 ^ w) by lia.
  apply Z.mod_add. apply Z.pow_nonzero; lia.
Qed.

Lemma uw_sw w x : 0 < w -> uw w (sw w x) = uw w x.
Proof.
  intros. unfold sw. destruct (_ <? _); [apply uw_idem|].
  rewrite uw_sub_pow by lia. apply uw_idem.
Qed.

Lemma sw_uw w x : sw w (uw w x) = sw w x.
Proof. unfold sw. now rewrite uw_idem. Qed.

Lemma sw_fits w x : 0 < w -> sfits w (sw w x).
Proof.
  intros Hw. unfold sw, sfits. pose proof (uw_fits w x ltac:(lia)) as [? ?].
  pose proof (pow2_half w Hw). pose proof (pow2_pos (w - 1) ltac:(lia)).
  destruct (Z.ltb_spec (uw w x) (2 ^ (w - 1))); lia.
Qed.

(** The signed reading is the unique representative in the signed range. *)
Lemma sw_unique w x y : 0 < w -> sfits w y -> uw w x = uw w y -> sw w x = y.
Proof.
  intros Hw [? ?] E. unfold sw. rewrite E. unfold uw.
  pose proof (pow2_half w Hw). pose proof (pow2_pos (w - 1) ltac:(lia)).
  destruct (Z.ltb_spec (y mod 2 ^ w) (2 ^ (w - 1))) as [L|L].
  - destruct (Z_lt_le_dec y 0).
    + rewrite <- (Z.mod_add y 1) in L by lia.
      rewrite Z.mod_small in L by lia. lia.
    + apply Z.mod_small. lia.
  - destruct (Z_lt_le_dec y 0).
    + rewrite <- (Z.mod_add y 1) by lia. rewrite Z.mod_small by lia. lia.
    + rewrite Z.mod_small in L by lia. lia.
Qed.

Lemma sw_small w x : 0 < w -> sfits w x -> sw w x = x.
Proof. intros. now apply sw_unique. Qed.

Lemma sw_nonneg w x : 0 < w -> 0 <= x < 2 ^ (w - 1) -> sw w x = x.
Proof.
  intros. apply sw_small; [lia|]. unfold sfits.
  pose proof (pow2_pos (w - 1) ltac:(lia)). lia.
Qed.

Lemma uw_congr w x y : 0 <= w -> (exists k, x = y + k * 2 ^ w) -> uw w x = uw w y.
Proof. intros ? [k ->]. apply Z.mod_add. apply Z.pow_nonzero; lia. Qed.

Lemma uw_add_l w x y : uw w (uw w x + y) = uw w (x + y).
Proof. apply Zplus_mod_idemp_l. Qed.
Lemma uw_add_r w x y : uw w (x + uw w y) = uw w (x + y).
Proof. apply Zplus_mod_idemp_r. Qed.
Lemma uw_sub_l w x y : uw w (uw w x - y) = uw w (x - y).
Proof. apply Zminus_mod_idemp_l. Qed.
Lemma uw_sub_r w x y : uw w (x - uw w y) = uw w (x - y).
Proof. apply Zminus_mod_idemp_r. Qed.
Lemma uw_mul_l w x y : uw w (uw w x * y) = uw w (x * y).
Proof. apply Zmult_mod_idemp_l. Qed.
Lemma uw_mul_r w x y : uw w (x * uw w y) = uw w (x * y).
Proof. apply Zmult_mod_idemp_r. Qed.

Lemma sw_add_l w x y : sw w (uw w x + y) = sw w (x + y).
Proof. now rewrite <- sw_uw, uw_add_l, sw_uw. Qed.
Lemma sw_add_r w x y : sw w (x + uw w y) = sw w (x + y).
Proof. now rewrite <- sw_uw, uw_add_r, sw_uw. Qed.
Lemma sw_mul_l w x y : sw w (uw w x * y) = sw w (x * y).
Proof. now rewrite <- sw_uw, uw_mul_l, sw_uw. Qed.

(** Narrowing a wider conversion. *)
Lemma uw_uw v w x : 0 <= v <= w -> uw v (uw w x) = uw v x.
Proof.
  intros. unfold uw. apply Z.mod_mod_divide.
  exists (2 ^ (w - v)). rewrite <- Z.pow_add_r by lia. f_equal; lia.
Qed.

Lemma sw_of_uw v w x : 0 < v <= w -> sw v (uw w x) = sw v x.
Proof. intros. unfold sw. now rewrite uw_uw by lia. Qed.

Lemma uw_of_sw v w x : 0 < v <= w -> uw v (sw w x) = uw v x.
Proof. intros. rewrite <- (uw_uw v w (sw w x)), uw_sw, uw_uw by lia. reflexivity. Qed.

Lemma b2z_fits b w : 1 <= w -> fits w (b2z b).
Proof.
  intros. unfold fits. pose proof (Z.pow_le_mono_r 2 1 w ltac:(lia) ltac:(lia)).
  destruct b; simpl; lia.
Qed.

Lemma z2b_true x : z2b x = true <-> x <> 0.
Proof. unfold z2b. rewrite negb_true_iff, Z.eqb_neq. reflexivity. Qed.
Lemma z2b_false x : z2b x = false <-> x = 0.
Proof. unfold z2b. rewrite negb_false_iff, Z.eqb_eq. reflexivity. Qed.

(** Scaling commutes with the signed reading. *)
Lemma sw_mul_pow w k x : 0 < w -> 0 <= k -> sw (w + k) (x * 2 ^ k) = sw w x * 2 ^ k.
Proof.
  intros Hw Hk. pose proof (sw_fits w x Hw) as [L H]. pose proof (pow2_pos k Hk).
  apply sw_unique; [lia| |].
  - unfold sfits. replace (w + k - 1) with (w - 1 + k) by lia. rewrite Z.pow_add_r by lia. nia.
  - pose proof (uw_sw w x Hw) as E. unfold uw in *. rewrite !Z.pow_add_r by lia.
    pose proof (pow2_pos w ltac:(lia)).
    rewrite !Z.mul_mod_distr_r by lia. now rewrite E.
Qed.

Lemma div_mod_pow w k z : 0 <= w -> 0 <= k -> (z / 2 ^ k) mod 2 ^ w = (z mod 2 ^ (w + k)) / 2 ^ k.
Proof.
  intros. pose proof (pow2_pos k ltac:(lia)). pose proof (pow2_pos w ltac:(lia)).
  rewrite (Z.add_comm w k), Z.pow_add_r, Z.rem_mul_r by lia.
  rewrite Z.add_comm, (Z.mul_comm (2 ^ k) ((z / 2 ^ k) mod 2 ^ w)), Z.div_add_l by lia.
  rewrite (Z.div_small (z mod 2 ^ k)) by (apply Z.mod_pos_bound; lia). lia.
Qed.

Lemma sw_div_pow w k x : 0 < w -> 0 <= k -> sw (w + k) x / 2 ^ k = sw w (x / 2 ^ k).
Proof.
  intros Hw Hk. pose proof (sw_fits (w + k) x ltac:(lia)) as [L H]. pose proof (pow2_pos k Hk).
  pose proof (pow2_pos w ltac:(lia)).
  symmetry. apply sw_unique; [lia| |].
  - unfold sfits. replace (w + k - 1) with (w - 1 + k) in * by lia.
    rewrite Z.pow_add_r in * by lia. split.
    + apply Z.div_le_lower_bound; lia.
    + apply Z.div_lt_upper_bound; lia.
  - pose proof (uw_sw (w + k) x ltac:(lia)) as E. set (y := sw (w + k) x) in *. unfold uw in *.
    rewrite !div_mod_pow by lia. now rewrite E.
Qed.

(** ** Bitwise operators as arithmetic *)

Lemma uw_land w x : 0 <= w -> uw w x = Z.land x (Z.ones w).
Proof. intros. symmetry. now apply Z.land_ones. Qed.

Lemma uw_testbit w x i : 0 <= w -> 0 <= i ->
  Z.testbit (uw w x) i = (i <? w) && Z.testbit x i.
Proof.
  intros. unfold uw. destruct (Z.ltb_spec i w); simpl.
  - now apply Z.mod_pow2_bits_low.
  - now apply Z.mod_pow2_bits_high.
Qed.

Lemma fits_testbit w x i : fits w x -> w <= i -> 0 <= w -> Z.testbit x i = false.
Proof.
  intros F ? ?. rewrite <- (uw_small w x F), uw_testbit by lia.
  now replace (i <? w) with false by lia.
Qed.

Lemma fits_mono v w x : v <= w -> fits v x -> fits w x.
Proof.
  unfold fits. intros ? [? ?]. split; [lia|].
  destruct (Z_lt_le_dec v 0).
  - rewrite (Z.pow_neg_r 2 v) in * by lia. lia.
  - pose proof (Z.pow_le_mono_r 2 v w). lia.
Qed.

Lemma fits_bits w x : 0 <= w -> 0 <= x -> (forall i, w <= i -> Z.testbit x i = false) -> fits w x.
Proof.
  intros Hw Hx H. split; [lia|].
  assert (x = uw w x) as ->; [|apply uw_fits; lia].
  apply Z.bits_inj'. intros i Hi. rewrite uw_testbit by lia.
  destruct (Z.ltb_spec i w); simpl; [reflexivity|]. now apply H.
Qed.

Lemma land_fits_l w x y : 0 <= w -> fits w x -> fits w (Z.land x y).
Proof.
  intros Hw F. apply fits_bits; [lia|apply Z.land_nonneg; left; apply F|].
  intros i ?. now rewrite Z.land_spec, (fits_testbit w x) by (auto; lia).
Qed.

Lemma land_fits_r w x y : 0 <= w -> fits w y -> fits w (Z.land x y).
Proof. intros. rewrite Z.land_comm. now apply land_fits_l. Qed.

Lemma lor_fits w x y : 0 <= w -> fits w x -> fits w y -> fits w (Z.lor x y).
Proof.
  intros Hw Fx Fy. apply fits_bits; [lia|apply Z.lor_nonneg; split; [apply Fx|apply Fy]|].
  intros i ?. rewrite Z.lor_spec, (fits_testbit w x), (fits_testbit w y) by (auto; lia). reflexivity.
Qed.

Lemma lxor_fits w x y : 0 <= w -> fits w x -> fits w y -> fits w (Z.lxor x y).
Proof.
  intros Hw Fx Fy. apply fits_bits; [lia| |].
  - apply Z.lxor_nonneg. split; intros; [apply Fy|apply Fx].
  - intros i ?. rewrite Z.lxor_spec, (fits_testbit w x), (fits_testbit w y) by (auto; lia). reflexivity.
Qed.

Lemma shiftr_fits w x n : 0 <= n -> 0 <= w -> fits w x -> fits w (Z.shiftr x n).
Proof.
  intros ? ? F. rewrite Z.shiftr_div_pow2 by lia. destruct F as [? ?].
  pose proof (pow2_pos n ltac:(lia)). split; [apply Z.div_pos; lia|].
  apply Z.div_lt_upper_bound; [lia|]. nia.
Qed.

(** Disjoint bit patterns: [|] is [+]. *)
Lemma shiftl_land_low x n y : 0 <= n -> fits n y -> Z.land (Z.shiftl x n) y = 0.
Proof.
  intros Hn Hy. apply Z.bits_inj'. intros i Hi. rewrite Z.land_spec, Z.bits_0.
  destruct (Z_lt_le_dec i n).
  - now rewrite Z.shiftl_spec_low by lia.
  - rewrite (fits_testbit n y i) by (auto; lia). apply andb_false_r.
Qed.

Lemma lor_add_shift x n y : 0 <= n -> fits n y -> Z.lor (Z.shiftl x n) y = x * 2 ^ n + y.
Proof.
  intros. rewrite <- Z.shiftl_mul_pow2, <- Z.lxor_lor, <- Z.add_nocarry_lxor
    by (try apply shiftl_land_low; auto). reflexivity.
Qed.

(** Testing one bit. *)
Lemma z2b_land_pow2 x i : 0 <= i -> z2b (Z.land x (2 ^ i)) = Z.testbit x i.
Proof.
  intros Hi. unfold z2b. destruct (Z.testbit x i) eqn:E.
  - apply negb_true_iff, Z.eqb_neq. intros H.
    assert (T : Z.testbit (Z.land x (2 ^ i)) i = true) by (rewrite Z.land_spec, E, Z.pow2_bits_true; auto).
    rewrite H, Z.bits_0 in T. discriminate.
  - apply negb_false_iff, Z.eqb_eq. apply Z.bits_inj'. intros j ?.
    rewrite Z.land_spec, Z.bits_0, Z.pow2_bits_eqb by auto.
    destruct (Z.eqb_spec i j) as [->|]; [now rewrite E|apply andb_false_r].
Qed.

Create HintDb word.
#[export] Hint Resolve uw_fits sw_fits land_fits_l lor_fits lxor_fits shiftr_fits b2z_fits : word.
Create Rewrite HintDb word_rw.
#[export] Hint Rewrite uw_idem sw_uw uw_add_l uw_add_r uw_sub_l uw_sub_r uw_mul_l uw_mul_r
  sw_add_l sw_add_r sw_mul_l : word_rw.

(** [bits i] turns an equality of integers into one per bit. *)
Ltac bits i :=
  apply Z.bits_inj'; intros i ?.

(** Case analysis on the boolean comparisons of the goal and the hypotheses. *)
Ltac bcases :=
  repeat match goal with
  | |- context [?a <? ?b] => destruct (Z.ltb_spec a b)
  | |- context [?a <=? ?b] => destruct (Z.leb_spec a b)
  | |- context [?a =? ?b] => destruct (Z.eqb_spec a b)
  | H : context [?a <? ?b] |- _ => destruct (Z.ltb_spec a b)
  | H : context [?a <=? ?b] |- _ => destruct (Z.leb_spec a b)
  | H : context [?a =? ?b] |- _ => destruct (Z.eqb_spec a b)
  end.

(** ** Little-endian byte sequences *)

Fixpoint le_bytes (n : nat) (x : Z) : list Z :=
  match n with
  | O => []
  | S n' => u8 x :: le_bytes n' (Z.shiftr x 8)
  end.

Fixpoint le_value (bs : list Z) : Z :=
  match bs with
  | [] => 0
  | b :: bs' => b + 2 ^ 8 * le_value bs'
  end.

Lemma le_bytes_length n x : length (le_bytes n x) = n.
Proof. revert x; induction n; intros; simpl; auto. Qed.

Lemma le_value_bytes n x : le_value (le_bytes n x) = uw (8 * Z.of_nat n) x.
Proof.
  revert x; induction n as [|n IH]; intros x.
  - simpl. unfold uw. now rewrite Z.mod_1_r.
  - cbn [le_bytes le_value]. rewrite IH, Z.shiftr_div_pow2 by lia.
    unfold uw. replace (8 * Z.of_nat (S n)) with (8 + 8 * Z.of_nat n) by lia.
    rewrite Z.pow_add_r by lia. rewrite Z.rem_mul_r by (pose proof (pow2_pos (8 * Z.of_nat n)); lia). reflexivity.
Qed.

Lemma le_bytes_value bs : Forall (fits 8) bs -> le_bytes (length bs) (le_value bs) = bs.
Proof.
  induction 1 as [|b bs Hb _ IH]; [reflexivity|]. cbn [length le_bytes le_value].
  unfold fits in Hb. f_equal.
  - unfold uw. rewrite Z.mul_comm, Z.mod_add by lia. now apply Z.mod_small.
  - rewrite Z.shiftr_div_pow2 by lia. etransitivity; [|exact IH]. f_equal.
    rewrite Z.mul_comm, Z.div_add by lia. rewrite Z.div_small by lia. reflexivity.
Qed.
