(* ===== verification/Arith.v ===== *)
(** * Arith: the integer helpers of [riscv/arith.h] and the bit counters

    High-half multiplication ([mulhu], [mulh], [mulhsu]), saturating
    arithmetic ([sat_add] ... [sat_subu], one definition per template, the
    width being that of the template argument), bit-field extraction, and the
    counting loops [ctz] ([processor.cc]) and [cto] ([processor.h]). *)
From Stdlib Require Import ZArith Lia Bool List.
From stdpp Require Import base list.
From S2P Require Import Prelude.
#[local] Open Scope Z_scope.
#[local] Open Scope word_scope.

Definition mulhu (a b : Z) : Z :=
  let a0 := u32 a in let a1 := a >>w 32 in
  let b0 := u32 b in let b1 := b >>w 32 in
  let t := (a1 *w b0) +w ((a0 *w b0) >>w 32) in
  let y1 := u32 t in
  let y2 := u32 (t >>w 32) in
  let t := (a0 *w b1) +w y1 in
  let y1 := u32 t in
  let t := ((a1 *w b1) +w y2) +w (t >>w 32) in
  let y2 := u32 t in
  let y3 := u32 (t >>w 32) in
  (y3 <<w 32) |w y2.

Definition mulh (a b : Z) : Z :=
  let negate := xorb (a <? 0) (b <? 0) in
  let res := mulhu (u64 (if a <? 0 then - a else a)) (u64 (if b <? 0 then - b else b)) in
  s64 (if negate then not64 res +w b2z (s64 (a * b) =? 0) else res).

Definition mulhsu (a b : Z) : Z :=
  let negate := a <? 0 in
  let res := mulhu (u64 (if a <? 0 then - a else a)) b in
  s64 (if negate then not64 res +w b2z (u64 a *w b =? 0) else res).

(** [sat_add<T, UT>]: [w] is the width of [T] and [UT]; the result is the pair
    of the value and of the reference parameter [sat].  [ux'] is [ux] after its
    second assignment. *)
Definition sat_add (w x y : Z) : Z * bool :=
  let ux := uw w x in
  let uy := uw w y in
  let res := uw w (ux + uy) in
  let sh := w - 1 in
  let ux' := uw w (Z.shiftr ux sh + (Z.shiftl 1 sh - 1)) in
  if 0 <=? sw w (Z.lor (Z.lxor ux' uy) (Z.lnot (Z.lxor uy res)))
  then (sw w ux', true)
  else (sw w res, false).

Definition sat_sub (w x y : Z) : Z * bool :=
  let ux := uw w x in
  let uy := uw w y in
  let res := uw w (ux - uy) in
  let sh := w - 1 in
  let ux' := uw w (Z.shiftr ux sh + (Z.shiftl 1 sh - 1)) in
  if sw w (Z.land (Z.lxor ux' uy) (Z.lxor ux' res)) <? 0
  then (sw w ux', true)
  else (sw w res, false).

Definition sat_addu (w x y : Z) : Z * bool :=
  let res := uw w (x + y) in
  let sat := res <? x in
  (uw w (Z.lor res (- b2z (res <? x))), sat).

Definition sat_subu (w x y : Z) : Z * bool :=
  let res := uw w (x - y) in
  let sat := negb (res <=? x) in
  (uw w (Z.land res (- b2z (res <=? x))), sat).

(** [None] is the failed [assert]. *)
Definition extract64 (val pos len : Z) : option Z :=
  if (0 <=? pos) && (0 <? len) && (len <=? 64 - pos)
  then Some ((val >>w pos) &w (not64 0 >>w (64 - len)))
  else None.

Definition make_mask64 (pos len : Z) : option Z :=
  if (0 <=? pos) && (0 <? len) && (pos <? 64) && (len <=? 64)
  then Some (((2 ^ 64 - 1) >>w (64 - len)) <<w pos)
  else None.

(** The loop of [ctz]; 64 iterations are enough for a nonzero [reg_t]. *)
Fixpoint ctz_loop (fuel : nat) (val res : Z) : Z :=
  match fuel with
  | O => res
  | S fuel' => if Z.land val 1 =? 0 then ctz_loop fuel' (val >>w 1) (res + 1) else res
  end.

Definition ctz (val : Z) : Z := if z2b val then ctz_loop 64 val 0 else 0.

(** The loop of [cto]; it stops at the latest after 64 shifts. *)
Fixpoint cto_loop (fuel : nat) (val res : Z) : Z :=
  match fuel with
  | O => res
  | S fuel' => if Z.land val 1 =? 1 then cto_loop fuel' (val >>w 1) (res + 1) else res
  end.

Definition cto (val : Z) : Z := cto_loop 65 val 0.

(** ** High halves of products *)

Lemma mul_bound_32 x y : 0 <= x < 2 ^ 32 -> 0 <= y < 2 ^ 32 -> 0 <= x * y <= (2 ^ 32 - 1) * (2 ^ 32 - 1).
Proof. intros. split; [nia|]. apply Z.mul_le_mono_nonneg; lia. Qed.

Lemma mulhu_div a b : fits 64 a -> fits 64 b -> mulhu a b = a * b / 2 ^ 64.
Proof.
  unfold fits. intros Ha Hb. unfold mulhu, shl64, add64, mul64. cbv zeta.
  rewrite !Z.shiftr_div_pow2 by lia. rewrite Z.shiftl_mul_pow2 by lia. unfold uw.
  set (a0 := a mod 2 ^ 32). set (a1 := a / 2 ^ 32).
  set (b0 := b mod 2 ^ 32). set (b1 := b / 2 ^ 32).
  assert (Ea : a = a1 * 2 ^ 32 + a0) by (unfold a1, a0; Z.div_mod_to_equations; lia).
  assert (Eb : b = b1 * 2 ^ 32 + b0) by (unfold b1, b0; Z.div_mod_to_equations; lia).
  assert (Ra0 : 0 <= a0 < 2 ^ 32) by (apply Z.mod_pos_bound; lia).
  assert (Rb0 : 0 <= b0 < 2 ^ 32) by (apply Z.mod_pos_bound; lia).
  assert (Ra1 : 0 <= a1 < 2 ^ 32) by (unfold a1; Z.div_mod_to_equations; lia).
  assert (Rb1 : 0 <= b1 < 2 ^ 32) by (unfold b1; Z.div_mod_to_equations; lia).
  clearbody a0 a1 b0 b1. subst a b. clear Ha Hb.
  replace ((a1 * 2 ^ 32 + a0) * (b1 * 2 ^ 32 + b0))
    with ((a1 * b1) * 2 ^ 64 + ((a1 * b0) + (a0 * b1)) * 2 ^ 32 + a0 * b0) by ring.
  pose proof (mul_bound_32 a0 b0 Ra0 Rb0). pose proof (mul_bound_32 a0 b1 Ra0 Rb1).
  pose proof (mul_bound_32 a1 b0 Ra1 Rb0). pose proof (mul_bound_32 a1 b1 Ra1 Rb1).
  set (p00 := a0 * b0) in *. set (p01 := a0 * b1) in *.
  set (p10 := a1 * b0) in *. set (p11 := a1 * b1) in *. clearbody p00 p01 p10 p11.
  rewrite !(Z.mod_small _ (2 ^ 64)) by (Z.div_mod_to_equations; lia).
  rewrite <- Z.shiftl_mul_pow2, lor_add_shift by (try apply Z.mod_pos_bound; lia).
  Z.div_mod_to_equations. lia.
Qed.

(** [~res + (lo == 0)] is the high half of the negated product. *)
Lemma neg_high p : 0 <= p ->
  - (p / 2 ^ 64) - 1 + b2z (p mod 2 ^ 64 =? 0) = (- p) / 2 ^ 64.
Proof.
  intros. bcases; cbn [b2z]; Z.div_mod_to_equations; lia.
Qed.

Lemma s64_eqb_0 x : (s64 x =? 0) = (x mod 2 ^ 64 =? 0).
Proof.
  unfold sw, uw. pose proof (Z.mod_pos_bound x (2 ^ 64) ltac:(lia)). bcases; lia.
Qed.

Lemma not64_add r z : not64 r +w z = u64 (- r - 1 + z).
Proof. unfold add64, not64. rewrite uw_add_l. reflexivity. Qed.

Lemma abs_if x : (if x <? 0 then - x else x) = Z.abs x.
Proof. bcases; lia. Qed.

Lemma mod_opp_eqb0 p : ((- p) mod 2 ^ 64 =? 0) = (p mod 2 ^ 64 =? 0).
Proof. bcases; Z.div_mod_to_equations; lia. Qed.

Lemma mulh_div a b : sfits 64 a -> sfits 64 b -> mulh a b = a * b / 2 ^ 64.
Proof.
  unfold sfits. intros Ha Hb. unfold mulh. rewrite !abs_if.
  rewrite (uw_small 64 (Z.abs a)), (uw_small 64 (Z.abs b)) by (unfold fits; lia).
  rewrite mulhu_div by (unfold fits; lia).
  assert (Hp : - 2 ^ 126 <= a * b <= 2 ^ 126) by nia.
  assert (Habs : Z.abs a * Z.abs b = Z.abs (a * b)) by (symmetry; apply Z.abs_mul).
  rewrite Habs. destruct (xorb (a <? 0) (b <? 0)) eqn:E; cbv zeta.
  - assert (a * b <= 0) by (bcases; simpl in E; try discriminate; nia).
    rewrite Z.abs_neq by lia. rewrite not64_add, s64_eqb_0, sw_uw.
    rewrite <- mod_opp_eqb0, neg_high by lia. rewrite Z.opp_involutive.
    apply sw_small; [lia|]. unfold sfits. Z.div_mod_to_equations; lia.
  - assert (0 <= a * b) by (bcases; simpl in E; try discriminate; nia).
    rewrite Z.abs_eq by lia. apply sw_small; [lia|]. unfold sfits. Z.div_mod_to_equations; lia.
Qed.

Lemma mulhsu_div a b : sfits 64 a -> fits 64 b -> mulhsu a b = a * b / 2 ^ 64.
Proof.
  unfold sfits, fits. intros Ha Hb. unfold mulhsu. rewrite !abs_if.
  rewrite (uw_small 64 (Z.abs a)) by (unfold fits; lia).
  rewrite mulhu_div by (unfold fits; lia).
  assert (Hp : - 2 ^ 127 <= a * b < 2 ^ 127) by (split; nia).
  unfold mul64. rewrite uw_mul_l. destruct (Z.ltb_spec a 0); cbv zeta.
  - assert (a * b <= 0) by nia. replace (Z.abs a * b) with (- (a * b)) by lia.
    rewrite not64_add. unfold uw at 2. rewrite <- mod_opp_eqb0, sw_uw, neg_high by lia.
    rewrite Z.opp_involutive. apply sw_small; [lia|]. unfold sfits. Z.div_mod_to_equations; lia.
  - assert (0 <= a * b) by nia. rewrite Z.abs_eq by lia.
    apply sw_small; [lia|]. unfold sfits. Z.div_mod_to_equations; lia.
Qed.

(** ** Sign bits *)

Lemma uw_top_bit w x : 0 < w -> Z.testbit x (w - 1) = negb (uw w x <? 2 ^ (w - 1)).
Proof.
  intros Hw. transitivity (Z.testbit (uw w x) (w - 1)).
  { rewrite uw_testbit by lia. now replace (w - 1 <? w) with true by lia. }
  pose proof (uw_fits w x ltac:(lia)) as F. unfold fits in F.
  pose proof (pow2_half w Hw). rewrite Z.testbit_odd, Z.shiftr_div_pow2 by lia.
  destruct (Z.ltb_spec (uw w x) (2 ^ (w - 1))); simpl.
  - now rewrite Z.div_small by lia.
  - replace (uw w x / 2 ^ (w - 1)) with 1; [reflexivity|].
    apply Z.div_unique with (uw w x - 2 ^ (w - 1)); lia.
Qed.

Lemma sw_neg_bit w x : 0 < w -> (sw w x <? 0) = Z.testbit x (w - 1).
Proof.
  intros Hw. rewrite uw_top_bit by lia. unfold sw.
  pose proof (uw_fits w x ltac:(lia)) as F. unfold fits in F.
  pose proof (pow2_half w Hw). bcases; simpl; lia.
Qed.

(** The bits of the signed reading: from the top bit on, the sign. *)
Lemma sw_testbit w x i : 0 < w -> 0 <= i ->
  Z.testbit (sw w x) i = Z.testbit x (if i <? w then i else w - 1).
Proof.
  intros Hw Hi. destruct (Z.ltb_spec i w).
  - pose proof (uw_sw w x Hw) as E. apply (f_equal (fun y => Z.testbit y i)) in E. cbv beta in E.
    rewrite !uw_testbit in E by lia. replace (i <? w) with true in E by lia. exact E.
  - rewrite <- (sw_neg_bit w x Hw). pose proof (sw_fits w x Hw) as [L H'].
    set (y := sw w x) in *. pose proof (Z.pow_le_mono_r 2 (w - 1) i ltac:(lia) ltac:(lia)).
    replace (Z.testbit y i) with (Z.odd (y / 2 ^ i))
      by (rewrite <- Z.bit0_odd, Z.div_pow2_bits by lia; now rewrite Z.add_0_l).
    destruct (Z.ltb_spec y 0).
    + replace (y / 2 ^ i) with (-1); [reflexivity|]. apply (Z.div_unique_pos _ _ _ (y + 2 ^ i)); lia.
    + rewrite Z.div_small by lia. reflexivity.
Qed.

Lemma sw_nonneg_bit w x : 0 < w -> (0 <=? sw w x) = negb (Z.testbit x (w - 1)).
Proof. intros. rewrite <- sw_neg_bit by lia. bcases; simpl; lia. Qed.

Lemma sfits_top_bit w x : 0 < w -> sfits w x -> Z.testbit x (w - 1) = (x <? 0).
Proof. intros Hw F. rewrite <- sw_neg_bit by lia. now rewrite sw_small. Qed.

(** The value both saturating templates compute for an overflow: the largest
    value when [x] is not negative, the smallest otherwise. *)
Lemma sat_limit w x : 1 < w -> sfits w x ->
  sw w (uw w (Z.shiftr (uw w x) (w - 1) + (Z.shiftl 1 (w - 1) - 1)))
  = if x <? 0 then - 2 ^ (w - 1) else 2 ^ (w - 1) - 1.
Proof.
  intros Hw F. rewrite sw_uw, Z.shiftl_1_l, Z.shiftr_div_pow2 by lia.
  pose proof (pow2_half w ltac:(lia)). pose proof (pow2_pos (w - 1) ltac:(lia)).
  unfold sfits in F.
  assert (uw w x / 2 ^ (w - 1) = b2z (x <? 0)) as ->.
  { rewrite (uw_congr w x (if x <? 0 then x + 2 ^ w else x)) by
      (lia || (destruct (x <? 0); [exists (-1)|exists 0]; lia)).
    destruct (Z.ltb_spec x 0); rewrite uw_small by (unfold fits; lia); cbn [b2z].
    - symmetry. apply Z.div_unique with (x + 2 ^ (w - 1)); lia.
    - apply Z.div_small. lia. }
  destruct (Z.ltb_spec x 0); cbn [b2z].
  - apply sw_unique; [lia|unfold sfits; lia|]. apply uw_congr; [lia|]. exists 1. lia.
  - apply sw_small; [lia|]. unfold sfits. lia.
Qed.

(** It has the sign bit of [x]. *)
Lemma sat_limit_top w x : 1 < w -> sfits w x ->
  Z.testbit (uw w (Z.shiftr (uw w x) (w - 1) + (Z.shiftl 1 (w - 1) - 1))) (w - 1) = (x <? 0).
Proof.
  intros Hw F. rewrite <- sw_neg_bit by lia. rewrite sat_limit by assumption.
  pose proof (pow2_pos (w - 1) ltac:(lia)). bcases; lia || reflexivity.
Qed.

Definition clamp (lo hi x : Z) : Z := Z.max lo (Z.min hi x).

(** Signed overflow is a sum outside the signed range. *)
Definition in_range (w x : Z) : bool := (- 2 ^ (w - 1) <=? x) && (x <? 2 ^ (w - 1)).

Lemma uw_top_sum w z : 1 < w -> - 2 ^ w <= z < 2 ^ w ->
  Z.testbit (uw w z) (w - 1) = (if in_range w z then z <? 0 else 0 <=? z).
Proof.
  intros Hw Hz. rewrite uw_top_bit, uw_idem by lia. unfold in_range.
  pose proof (pow2_half w ltac:(lia)).
  rewrite (uw_congr w z (if z <? 0 then z + 2 ^ w else z)) by
      (lia || (destruct (z <? 0); [exists (-1)|exists 0]; lia)).
  destruct (Z.ltb_spec z 0); rewrite uw_small by (unfold fits; lia); bcases; simpl; lia.
Qed.

Lemma sat_add_clamp w x y : 1 < w -> sfits w x -> sfits w y ->
  sat_add w x y = (clamp (- 2 ^ (w - 1)) (2 ^ (w - 1) - 1) (x + y), negb (in_range w (x + y))).
Proof.
  intros Hw Fx Fy. unfold sat_add. rewrite sw_nonneg_bit by lia.
  rewrite uw_add_l, uw_add_r. unfold sfits in *. pose proof (pow2_half w ltac:(lia)).
  rewrite Z.lor_spec, Z.lnot_spec, !Z.lxor_spec by lia.
  rewrite (uw_top_sum w (x + y)), sat_limit_top by (unfold sfits; lia). rewrite !uw_testbit by lia.
  replace (w - 1 <? w) with true by lia. cbn [andb].
  rewrite (sfits_top_bit w y) by (unfold sfits; lia).
  rewrite sat_limit by (unfold sfits; lia). rewrite sw_uw.
  destruct (in_range w (x + y)) eqn:E; unfold in_range in E.
  - rewrite (sw_small w (x + y)) by (unfold sfits; lia). unfold clamp.
    bcases; cbn in *; try discriminate; try lia; f_equal; lia.
  - unfold clamp. bcases; cbn in *; try discriminate; try lia; f_equal; lia.
Qed.

Lemma sat_sub_clamp w x y : 1 < w -> sfits w x -> sfits w y ->
  sat_sub w x y = (clamp (- 2 ^ (w - 1)) (2 ^ (w - 1) - 1) (x - y), negb (in_range w (x - y))).
Proof.
  intros Hw Fx Fy. unfold sat_sub. rewrite sw_neg_bit by lia.
  rewrite uw_sub_l, uw_sub_r. unfold sfits in *. pose proof (pow2_half w ltac:(lia)).
  rewrite Z.land_spec, !Z.lxor_spec by lia.
  rewrite (uw_top_sum w (x - y)), sat_limit_top by (unfold sfits; lia). rewrite !uw_testbit by lia.
  replace (w - 1 <? w) with true by lia. cbn [andb].
  rewrite (sfits_top_bit w y) by (unfold sfits; lia).
  rewrite sat_limit by (unfold sfits; lia). rewrite sw_uw.
  destruct (in_range w (x - y)) eqn:E; unfold in_range in E.
  - rewrite (sw_small w (x - y)) by (unfold sfits; lia). unfold clamp.
    bcases; cbn in *; try discriminate; try lia; f_equal; lia.
  - unfold clamp. bcases; cbn in *; try discriminate; try lia; f_equal; lia.
Qed.

Lemma sat_addu_clamp w x y : 0 <= w -> fits w x -> fits w y ->
  sat_addu w x y = (Z.min (2 ^ w - 1) (x + y), 2 ^ w <=? x + y).
Proof.
  unfold fits. intros Hw Fx Fy. unfold sat_addu.
  assert (E : uw w (x + y) = if 2 ^ w <=? x + y then x + y - 2 ^ w else x + y).
  { rewrite (uw_congr w _ (if 2 ^ w <=? x + y then x + y - 2 ^ w else x + y)) by
      (lia || (destruct (_ <=? _); [exists 1|exists 0]; lia)).
    apply uw_small. unfold fits. bcases; lia. }
  rewrite E. destruct (Z.leb_spec (2 ^ w) (x + y)).
  - replace (x + y - 2 ^ w <? x) with true by lia. change (- b2z true) with (-1).
    rewrite Z.lor_m1_r. f_equal. change (uw w (Z.opp 1)) with (uw w (-1)). rewrite (uw_congr w (-1) (2 ^ w - 1)) by (lia || (exists (-1); lia)).
    rewrite uw_small by (unfold fits; lia). lia.
  - replace (x + y <? x) with false by lia. change (- b2z false) with 0. rewrite Z.lor_0_r.
    f_equal. rewrite uw_small by (unfold fits; lia). lia.
Qed.

Lemma sat_subu_clamp w x y : 0 <= w -> fits w x -> fits w y ->
  sat_subu w x y = (Z.max 0 (x - y), x <? y).
Proof.
  unfold fits. intros Hw Fx Fy. unfold sat_subu.
  assert (E : uw w (x - y) = if x <? y then x - y + 2 ^ w else x - y).
  { rewrite (uw_congr w _ (if x <? y then x - y + 2 ^ w else x - y)) by
      (lia || (destruct (_ <? _); [exists (-1)|exists 0]; lia)).
    apply uw_small. unfold fits. bcases; lia. }
  rewrite E. destruct (Z.ltb_spec x y).
  - replace (x - y + 2 ^ w <=? x) with false by lia. change (- b2z false) with 0. rewrite Z.land_0_r.
    f_equal. rewrite uw_small by (unfold fits; lia). lia.
  - replace (x - y <=? x) with true by lia. change (- b2z true) with (-1). rewrite Z.land_m1_r.
    f_equal. rewrite uw_small by (unfold fits; lia). lia.
Qed.

(** ** Bit counters *)

Lemma land_1_testbit x : Z.land x 1 = b2z (Z.testbit x 0).
Proof.
  change 1 with (Z.ones 1) at 1. rewrite Z.land_ones, Z.bit0_odd, Zmod_odd by lia. reflexivity.
Qed.

Lemma ctz_loop_spec fuel : forall val res,
  val <> 0 -> fits (Z.of_nat fuel) val ->
  exists k, ctz_loop fuel val res = res + k /\ 0 <= k /\ Z.testbit val k = true /\
            forall i, 0 <= i < k -> Z.testbit val i = false.
Proof.
  induction fuel as [|fuel IH]; intros val res Hnz F.
  - unfold fits in F. simpl in F. lia.
  - cbn [ctz_loop]. rewrite land_1_testbit. destruct (Z.testbit val 0) eqn:B0; cbn [b2z].
    + exists 0. change (1 =? 0) with false. cbn iota. repeat split; try lia; exact B0.
    + change (0 =? 0) with true. cbn iota.
      assert (E : val = 2 * Z.shiftr val 1).
      { rewrite Z.shiftr_div_pow2 by lia. rewrite Z.bit0_odd in B0.
        pose proof (Zmod_odd val) as M. rewrite B0 in M. change (2 ^ 1) with 2.
        Z.div_mod_to_equations; lia. }
      destruct (IH (Z.shiftr val 1) (res + 1)) as (k & -> & Hk & Bk & Lk).
      { lia. }
      { unfold fits in *. rewrite Nat2Z.inj_succ, Z.pow_succ_r in F by lia. lia. }
      exists (k + 1). repeat split; try lia.
      * rewrite <- Bk, Z.shiftr_spec by lia. reflexivity.
      * intros i Hi. destruct (Z.eqb_spec i 0) as [->|]; [exact B0|].
        rewrite <- (Lk (i - 1)), Z.shiftr_spec by lia. f_equal; lia.
Qed.

(** [ctz] is the index of the lowest set bit. *)
Lemma ctz_lowest val : val <> 0 -> fits 64 val ->
  0 <= ctz val < 64 /\ Z.testbit val (ctz val) = true /\
  forall i, 0 <= i < ctz val -> Z.testbit val i = false.
Proof.
  intros Hnz F. unfold ctz. rewrite (proj2 (z2b_true val) Hnz).
  destruct (ctz_loop_spec 64 val 0 Hnz F) as (k & -> & Hk & Bk & Lk).
  rewrite Z.add_0_l. split; [|split; assumption]. split; [lia|].
  destruct (Z_lt_le_dec k 64); [lia|]. now rewrite (fits_testbit 64 val k) in Bk by (auto; lia).
Qed.

Lemma cto_loop_spec fuel : forall val res,
  fits (Z.of_nat fuel - 1) val ->
  exists k, cto_loop fuel val res = res + k /\ 0 <= k < Z.of_nat fuel /\ Z.testbit val k = false /\
            forall i, 0 <= i < k -> Z.testbit val i = true.
Proof.
  induction fuel as [|fuel IH]; intros val res F.
  - exfalso. unfold fits in F. rewrite Z.pow_neg_r in F by lia. lia.
  - cbn [cto_loop]. rewrite land_1_testbit. destruct (Z.testbit val 0) eqn:B0; cbn [b2z].
    + change (1 =? 1) with true. cbn iota.
      destruct fuel as [|fuel'].
      { unfold fits in F. simpl in F. assert (val = 0) by lia. subst. discriminate. }
      destruct (IH (Z.shiftr val 1) (res + 1)) as (k & -> & Hk & Bk & Lk).
      { unfold fits in *. rewrite Z.shiftr_div_pow2 by lia.
        replace (Z.of_nat (S (S fuel')) - 1) with (Z.succ (Z.of_nat (S fuel') - 1)) in F by lia.
        rewrite Z.pow_succ_r in F by lia. change (2 ^ 1) with 2. Z.div_mod_to_equations; lia. }
      exists (k + 1). repeat split; try lia.
      * rewrite <- Bk, Z.shiftr_spec by lia. reflexivity.
      * intros i Hi. destruct (Z.eqb_spec i 0) as [->|]; [exact B0|].
        rewrite <- (Lk (i - 1)), Z.shiftr_spec by lia. f_equal; lia.
    + exists 0. change (0 =? 1) with false. cbn iota. repeat split; try lia; exact B0.
Qed.

(** [cto] is the number of trailing ones. *)
Lemma cto_trailing_ones val : fits 64 val ->
  0 <= cto val <= 64 /\ Z.testbit val (cto val) = false /\
  forall i, 0 <= i < cto val -> Z.testbit val i = true.
Proof.
  intros F. unfold cto. destruct (cto_loop_spec 65 val 0 F) as (k & -> & Hk & Bk & Lk).
  rewrite Z.add_0_l. split; [lia|]. now split.
Qed.

Lemma ones_shiftr_64 len : 0 < len <= 64 -> Z.shiftr (2 ^ 64 - 1) (64 - len) = Z.ones len.
Proof.
  intros. change (2 ^ 64 - 1) with (Z.ones 64). bits i.
  rewrite Z.shiftr_spec, !Z.testbit_ones by lia. bcases; simpl; lia.
Qed.

Lemma extract64_field val pos len : fits 64 val -> 0 <= pos -> 0 < len <= 64 - pos ->
  extract64 val pos len = Some (val / 2 ^ pos mod 2 ^ len).
Proof.
  intros. unfold extract64. replace (_ && _) with true by (bcases; simpl; lia).
  f_equal. change (not64 0) with (2 ^ 64 - 1). rewrite ones_shiftr_64 by lia.
  rewrite Z.land_ones, Z.shiftr_div_pow2 by lia. reflexivity.
Qed.

(** ** Properties *)

(** C36.  [mulhu], [mulh] and [mulhsu] return the upper 64 bits of the exact
    128-bit product of their operands, read as unsigned/unsigned,
    signed/signed and signed/unsigned numbers. *)
Theorem mul_high_halves (a b x y : Z) :
  fits 64 a -> fits 64 b -> sfits 64 x -> sfits 64 y ->
  mulhu a b = a * b / 2 ^ 64 /\ mulh x y = x * y / 2 ^ 64 /\ mulhsu x b = x * b / 2 ^ 64.
Proof. auto using mulhu_div, mulh_div, mulhsu_div. Qed.

Lemma mul_high_halves_witness :
  mulhu (2 ^ 64 - 1) (2 ^ 64 - 1) = (2 ^ 64 - 1) * (2 ^ 64 - 1) / 2 ^ 64 /\
  mulh (- 2 ^ 63) (- 2 ^ 63) = (- 2 ^ 63) * (- 2 ^ 63) / 2 ^ 64 /\
  mulhsu (- 2 ^ 63) (2 ^ 64 - 1) = (- 2 ^ 63) * (2 ^ 64 - 1) / 2 ^ 64.
Proof. apply mul_high_halves; unfold fits, sfits; lia. Defined.

(** C37.  The saturating templates clamp the exact sum or difference to the
    range of the type and report, through [sat], exactly the overflows. *)
Theorem saturating_clamp (w x y u v : Z) :
  1 < w -> sfits w x -> sfits w y -> fits w u -> fits w v ->
  sat_add w x y = (clamp (- 2 ^ (w - 1)) (2 ^ (w - 1) - 1) (x + y), negb (in_range w (x + y))) /\
  sat_sub w x y = (clamp (- 2 ^ (w - 1)) (2 ^ (w - 1) - 1) (x - y), negb (in_range w (x - y))) /\
  sat_addu w u v = (Z.min (2 ^ w - 1) (u + v), 2 ^ w <=? u + v) /\
  sat_subu w u v = (Z.max 0 (u - v), u <? v).
Proof.
  intros. split; [now apply sat_add_clamp|]. split; [now apply sat_sub_clamp|].
  split; [apply sat_addu_clamp|apply sat_subu_clamp]; auto; lia.
Qed.

Lemma saturating_clamp_witness :
  sat_add 8 100 100 = (127, true) /\ sat_sub 8 (-100) 100 = (-128, true) /\
  sat_addu 8 200 100 = (255, true) /\ sat_subu 8 100 200 = (0, true).
Proof.
  pose proof (saturating_clamp 8 100 100 200 100 ltac:(lia) ltac:(unfold sfits; lia)
    ltac:(unfold sfits; lia) ltac:(unfold fits; lia) ltac:(unfold fits; lia)) as (-> & _ & -> & _).
  pose proof (saturating_clamp 8 (-100) 100 100 200 ltac:(lia) ltac:(unfold sfits; lia)
    ltac:(unfold sfits; lia) ltac:(unfold fits; lia) ltac:(unfold fits; lia)) as (_ & -> & _ & ->).
  vm_compute. auto.
Defined.

(** C38.  The counting loops terminate within the 64 bits of a register:
    [ctz] finds the lowest set bit of a nonzero word, [cto] the lowest clear
    one. *)
Theorem bit_counters (x y : Z) :
  x <> 0 -> fits 64 x -> fits 64 y ->
  (0 <= ctz x < 64 /\ Z.testbit x (ctz x) = true /\
   (forall i, 0 <= i < ctz x -> Z.testbit x i = false)) /\
  (0 <= cto y <= 64 /\ Z.testbit y (cto y) = false /\
   (forall i, 0 <= i < cto y -> Z.testbit y i = true)).
Proof. intros. split; [now apply ctz_lowest|now apply cto_trailing_ones]. Qed.

Lemma bit_counters_witness :
  Z.testbit 40 (ctz 40) = true /\ Z.testbit (2 ^ 64 - 1) (cto (2 ^ 64 - 1)) = false.
Proof.
  pose proof (bit_counters 40 (2 ^ 64 - 1) ltac:(lia) ltac:(unfold fits; lia)
    ltac:(unfold fits; lia)) as [(_ & H & _) (_ & H' & _)]. auto.
Defined.
