(* ===== verification/SoftFloat.v ===== *)
(** * SoftFloat: state and primitives of Berkeley SoftFloat ([softfloat/])

    The global floating-point environment, the primitive integer operations
    ([primitives.h], with [INLINE_LEVEL] 5, [SOFTFLOAT_FAST_INT64],
    [SOFTFLOAT_FAST_DIV64TO32] and [SOFTFLOAT_ROUND_ODD] as [platform.h] sets
    them) and the RISC-V specialisation of NaNs and overflows
    ([specialize.h]).

    On the modelled host [uint_fast16_t], [uint_fast32_t] and [int_fast16_t]
    are 64 bits wide; exponents and shift distances are signed and stay small,
    so they are plain integers.  A [floatN_t] is the bits of its [union]. *)
From Stdlib Require Import ZArith Lia Bool List.
From stdpp Require Import base list.
From S2P Require Import Prelude.
#[local] Open Scope Z_scope.
#[local] Open Scope word_scope.

(** ** Constants of [softfloat.h] and [specialize.h] *)

Definition softfloat_tininess_beforeRounding : Z := 0.
Definition softfloat_tininess_afterRounding : Z := 1.
Definition softfloat_round_near_even : Z := 0.
Definition softfloat_round_minMag : Z := 1.
Definition softfloat_round_min : Z := 2.
Definition softfloat_round_max : Z := 3.
Definition softfloat_round_near_maxMag : Z := 4.
Definition softfloat_round_odd : Z := 5.
Definition softfloat_flag_inexact : Z := 1.
Definition softfloat_flag_underflow : Z := 2.
Definition softfloat_flag_overflow : Z := 4.
Definition softfloat_flag_infinite : Z := 8.
Definition softfloat_flag_invalid : Z := 16.

Definition ui32_fromPosOverflow : Z := 0xFFFFFFFF.
Definition ui32_fromNegOverflow : Z := 0.
Definition ui32_fromNaN : Z := 0xFFFFFFFF.
Definition i32_fromPosOverflow : Z := 0x7FFFFFFF.
Definition i32_fromNegOverflow : Z := - 0x7FFFFFFF - 1.
Definition i32_fromNaN : Z := 0x7FFFFFFF.
(** Read through [int_fast64_t]. *)
Definition ui64_fromPosOverflow : Z := 0xFFFFFFFFFFFFFFFF.
Definition ui64_fromNegOverflow : Z := 0.
Definition ui64_fromNaN : Z := 0xFFFFFFFFFFFFFFFF.
Definition i64_fromPosOverflow : Z := s64 0x7FFFFFFFFFFFFFFF.
Definition i64_fromNegOverflow : Z := s64 (neg64 0x7FFFFFFFFFFFFFFF -w 1).
Definition i64_fromNaN : Z := s64 0x7FFFFFFFFFFFFFFF.

Definition defaultNaNF16UI : Z := 0x7E00.
Definition defaultNaNF32UI : Z := 0x7FC00000.
Definition defaultNaNF64UI : Z := 0x7FF8000000000000.

(** ** The environment *)

(** [softfloat_roundingMode] and [softfloat_exceptionFlags];
    [softfloat_detectTininess] keeps its initial value. *)
Record fenv_t := mk_fenv { softfloat_roundingMode : Z; softfloat_exceptionFlags : Z }.
Definition softfloat_detectTininess : Z := softfloat_tininess_afterRounding.

(** A computation reads the rounding mode and raises flags. *)
Definition SF (A : Type) : Type := fenv_t -> A * fenv_t.
Definition sf_ret {A} (a : A) : SF A := fun e => (a, e).
Definition sf_bind {A B} (m : SF A) (k : A -> SF B) : SF B := fun e => let (a, e') := m e in k a e'.
Definition sf_mode : SF Z := fun e => (softfloat_roundingMode e, e).

Declare Scope sf_scope.
Delimit Scope sf_scope with sf.
Notation "x <- m ;; k" := (sf_bind m (fun x => k))
  (at level 100, m at next level, right associativity) : sf_scope.
Notation "m ;; k" := (sf_bind m (fun _ => k)) (at level 100, right associativity) : sf_scope.
#[local] Open Scope sf_scope.

Definition softfloat_raiseFlags (flags : Z) : SF unit := fun e =>
  (tt, mk_fenv (softfloat_roundingMode e) (softfloat_exceptionFlags e |w flags)).
(** [if ( c ) softfloat_raiseFlags( flags );] *)
Definition raise_if (c : bool) (flags : Z) : SF unit := if c then softfloat_raiseFlags flags else sf_ret tt.

(** [sign ? softfloat_round_min : softfloat_round_max] *)
Definition round_away (sign : bool) : Z := if sign then softfloat_round_min else softfloat_round_max.

(** ** Shifts that jam the bits shifted off into the lowest bit *)

Definition softfloat_shortShiftRightJam64 (a dist : Z) : Z :=
  (a >>w dist) |w b2z (z2b (a &w ((1 <<w dist) -w 1))).

Definition softfloat_shiftRightJam32 (a dist : Z) : Z :=
  if dist <? 31 then (a >>w dist) |w b2z (z2b (u32 (Z.shiftl a (- dist &w 31)))) else b2z (z2b a).

Definition softfloat_shiftRightJam64 (a dist : Z) : Z :=
  if dist <? 63 then (a >>w dist) |w b2z (z2b (a <<w (- dist &w 63))) else b2z (z2b a).

(** ** Leading zeros *)

(** The 256 entries of the table. *)
Definition softfloat_countLeadingZeros8 : list Z :=
  [8; 7; 6; 6] ++ repeat 5 4 ++ repeat 4 8 ++ repeat 3 16 ++ repeat 2 32 ++ repeat 1 64 ++ repeat 0 128.
Definition clz8 (a : Z) : Z := nth (Z.to_nat a) softfloat_countLeadingZeros8 0.

Definition softfloat_countLeadingZeros32 (a : Z) : Z :=
  let count := 0 in
  let (count, a) := if a <? 0x10000 then (16, u32 (Z.shiftl a 16)) else (count, a) in
  let (count, a) := if a <? 0x1000000 then (count + 8, u32 (Z.shiftl a 8)) else (count, a) in
  count + clz8 (a >>w 24).

Definition softfloat_countLeadingZeros64 (a : Z) : Z :=
  let count := 0 in
  let a32 := u32 (a >>w 32) in
  let (count, a32) := if a32 =? 0 then (32, u32 a) else (count, a32) in
  let (count, a32) := if a32 <? 0x10000 then (count + 16, u32 (Z.shiftl a32 16)) else (count, a32) in
  let (count, a32) := if a32 <? 0x1000000 then (count + 8, u32 (Z.shiftl a32 8)) else (count, a32) in
  count + clz8 (a32 >>w 24).

(** ** Reciprocals *)

Definition softfloat_approxRecip32_1 (a : Z) : Z := u32 (0x7FFFFFFFFFFFFFFF / u32 a).

Definition softfloat_approxRecipSqrt_1k0s : list Z :=
  [0xB4C9; 0xFFAB; 0xAA7D; 0xF11C; 0xA1C5; 0xE4C7; 0x9A43; 0xDA29;
   0x93B5; 0xD0E5; 0x8DED; 0xC8B7; 0x88C6; 0xC16D; 0x8424; 0xBAE1].
Definition softfloat_approxRecipSqrt_1k1s : list Z :=
  [0xA5A5; 0xEA42; 0x8C21; 0xC62D; 0x788F; 0xAA7F; 0x6928; 0x94B6;
   0x5CC7; 0x8335; 0x52A6; 0x74E2; 0x4A3E; 0x68FE; 0x432B; 0x5EFD].

Definition softfloat_approxRecipSqrt32_1 (oddExpA a : Z) : Z :=
  let index := Z.to_nat (((a >>w 27) &w 0xE) + oddExpA) in
  let eps := u16 (a >>w 12) in
  let r0 := u16 (nth index softfloat_approxRecipSqrt_1k0s 0 -w
                 ((nth index softfloat_approxRecipSqrt_1k1s 0 *w eps) >>w 20)) in
  let ESqrR0 := r0 *w r0 in
  let ESqrR0 := if oddExpA =? 0 then ESqrR0 <<w 1 else ESqrR0 in
  let sigma0 := u32 (not64 ((u32 ESqrR0 *w a) >>w 23)) in
  let r := (r0 <<w 16) +w ((r0 *w sigma0) >>w 25) in
  let sqrSigma0 := u32 ((sigma0 *w sigma0) >>w 32) in
  let r := r +w ((u32 (((r >>w 1) +w (r >>w 3)) -w (r0 <<w 14)) *w sqrSigma0) >>w 48) in
  let r := if r &w 0x80000000 =? 0 then 0x80000000 else r in
  u32 r.

(** ** 128-bit integers *)

Record uint128 := mk_uint128 { v64 : Z; w0 : Z }.
Record uint64_extra := mk_uint64_extra { v : Z; extra : Z }.

Definition softfloat_shortShiftLeft128 (a64 a0 dist : Z) : uint128 :=
  mk_uint128 ((a64 <<w dist) |w (a0 >>w (- dist &w 63))) (a0 <<w dist).

Definition softfloat_shortShiftRightJam128 (a64 a0 dist : Z) : uint128 :=
  let negDist := u8 (- dist) in
  mk_uint128 (a64 >>w dist)
    (((a64 <<w (negDist &w 63)) |w (a0 >>w dist)) |w b2z (z2b (a0 <<w (negDist &w 63)))).

Definition softfloat_shiftRightJam64Extra (a extra dist : Z) : uint64_extra :=
  let '(v, e) := if dist <? 64 then (a >>w dist, a <<w (- dist &w 63))
                 else (0, if dist =? 64 then a else b2z (z2b a)) in
  mk_uint64_extra v (e |w b2z (z2b extra)).

Definition softfloat_shiftRightJam128 (a64 a0 dist : Z) : uint128 :=
  if dist <? 64 then
    let u8NegDist := u8 (- dist) in
    mk_uint128 (a64 >>w dist)
      (((a64 <<w (u8NegDist &w 63)) |w (a0 >>w dist)) |w b2z (z2b (a0 <<w (u8NegDist &w 63))))
  else
    mk_uint128 0
      (if dist <? 127
       then (a64 >>w (dist &w 63)) |w b2z (z2b ((a64 &w ((1 <<w (dist &w 63)) -w 1)) |w a0))
       else b2z (z2b (a64 |w a0))).

Definition softfloat_add128 (a64 a0 b64 b0 : Z) : uint128 :=
  let z0 := a0 +w b0 in
  mk_uint128 ((a64 +w b64) +w b2z (z0 <? a0)) z0.

Definition softfloat_sub128 (a64 a0 b64 b0 : Z) : uint128 :=
  mk_uint128 ((a64 -w b64) -w b2z (a0 <? b0)) (a0 -w b0).

Definition softfloat_mul64To128 (a b : Z) : uint128 :=
  let a32 := u32 (a >>w 32) in
  let a0 := u32 a in
  let b32 := u32 (b >>w 32) in
  let b0 := u32 b in
  let z0 := a0 *w b0 in
  let mid1 := a32 *w b0 in
  let mid := mid1 +w (a0 *w b32) in
  let z64 := a32 *w b32 in
  let z64 := z64 +w ((b2z (mid <? mid1) <<w 32) |w (mid >>w 32)) in
  let mid := mid <<w 32 in
  let z0 := z0 +w mid in
  let z64 := z64 +w b2z (z0 <? mid) in
  mk_uint128 z64 z0.

(** ** NaNs *)

Definition isNaNF32UI (a : Z) : bool := ((Z.lnot a &w 0x7F800000) =? 0) && z2b (a &w 0x007FFFFF).
Definition isNaNF64UI (a : Z) : bool := ((Z.lnot a &w 0x7FF0000000000000) =? 0) && z2b (a &w 0x000FFFFFFFFFFFFF).
Definition softfloat_isSigNaNF32UI (uiA : Z) : bool :=
  ((uiA &w 0x7FC00000) =? 0x7F800000) && z2b (uiA &w 0x003FFFFF).
Definition softfloat_isSigNaNF64UI (uiA : Z) : bool :=
  ((uiA &w 0x7FF8000000000000) =? 0x7FF0000000000000) && z2b (uiA &w 0x0007FFFFFFFFFFFF).

Definition softfloat_propagateNaNF32UI (uiA uiB : Z) : SF Z :=
  raise_if (softfloat_isSigNaNF32UI uiA || softfloat_isSigNaNF32UI uiB) softfloat_flag_invalid ;;
  sf_ret defaultNaNF32UI.
Definition softfloat_propagateNaNF64UI (uiA uiB : Z) : SF Z :=
  raise_if (softfloat_isSigNaNF64UI uiA || softfloat_isSigNaNF64UI uiB) softfloat_flag_invalid ;;
  sf_ret defaultNaNF64UI.
