(* ===== verification/SoftF32.v ===== *)
(** * SoftF32: single-precision arithmetic of SoftFloat

    [softfloat/s_*F32*.c] and [softfloat/f32_*.c] over the bits of the
    operands.  A [goto] to a label before a [return] is the branch that
    label's code makes. *)
From Stdlib Require Import ZArith Lia Bool List.
From stdpp Require Import base list.
From S2P Require Import Prelude SoftFloat.
#[local] Open Scope Z_scope.
#[local] Open Scope word_scope.
#[local] Open Scope sf_scope.

(** ** Fields ([internals.h]) *)

Definition signF32UI (a : Z) : bool := z2b (u32 a >>w 31).
Definition expF32UI (a : Z) : Z := (a >>w 23) &w 0xFF.
Definition fracF32UI (a : Z) : Z := a &w 0x007FFFFF.
Definition packToF32UI (sign : bool) (exp sig : Z) : Z :=
  u32 (u32 (Z.shiftl (b2z sign) 31) + u32 (Z.shiftl (u32 exp) 23)) +w sig.

(** [uZ.ui = uiZ; return uZ.f;] *)
Definition ret_f32 (uiZ : Z) : SF Z := sf_ret (u32 uiZ).

(** ** Normalising, rounding and packing *)

Definition softfloat_normSubnormalF32Sig (sig : Z) : Z * Z :=
  let shiftDist := softfloat_countLeadingZeros32 (u32 sig) - 8 in
  (1 - shiftDist, sig <<w shiftDist).

(** The increment of the significand below bit 7, by mode and sign. *)
Definition roundIncrementF32 (roundingMode : Z) (sign : bool) : Z :=
  if negb (roundingMode =? softfloat_round_near_even) && negb (roundingMode =? softfloat_round_near_maxMag)
  then (if roundingMode =? round_away sign then 0x7F else 0) else 0x40.

Definition softfloat_roundPackToF32 (sign : bool) (exp sig : Z) : SF Z :=
  roundingMode <- sf_mode ;;
  let roundNearEven := roundingMode =? softfloat_round_near_even in
  let roundIncrement := roundIncrementF32 roundingMode sign in
  let roundBits := sig &w 0x7F in
  let pack exp sig roundBits :=
    let inexact := z2b roundBits in
    let sig := (sig +w roundIncrement) >>w 7 in
    raise_if inexact softfloat_flag_inexact ;;
    if inexact && (roundingMode =? softfloat_round_odd) then
      ret_f32 (packToF32UI sign exp (sig |w 1))
    else
      let sig := sig &w not64 (b2z (negb (z2b (roundBits ^w 0x40)) && roundNearEven)) in
      let exp := if sig =? 0 then 0 else exp in
      ret_f32 (packToF32UI sign exp sig) in
  if 0xFD <=? u32 exp then
    if exp <? 0 then
      let isTiny := (softfloat_detectTininess =? softfloat_tininess_beforeRounding)
                    || (exp <? -1) || (sig +w roundIncrement <? 0x80000000) in
      let sig := softfloat_shiftRightJam32 (u32 sig) (- exp) in
      let roundBits := sig &w 0x7F in
      raise_if (isTiny && z2b roundBits) softfloat_flag_underflow ;;
      pack 0 sig roundBits
    else if (0xFD <? exp) || (0x80000000 <=? sig +w roundIncrement) then
      softfloat_raiseFlags (softfloat_flag_overflow |w softfloat_flag_inexact) ;;
      ret_f32 (u32 (packToF32UI sign 0xFF 0 - b2z (negb (z2b roundIncrement))))
    else pack exp sig roundBits
  else pack exp sig roundBits.

Definition softfloat_normRoundPackToF32 (sign : bool) (exp sig : Z) : SF Z :=
  let shiftDist := softfloat_countLeadingZeros32 (u32 sig) - 1 in
  let exp := exp - shiftDist in
  if (7 <=? shiftDist) && (u32 exp <? 0xFD) then
    ret_f32 (packToF32UI sign (if sig =? 0 then 0 else exp) (sig <<w (shiftDist - 7)))
  else softfloat_roundPackToF32 sign exp (sig <<w shiftDist).

(** ** Addition and subtraction *)

Definition propagateNaN_f32 (uiA uiB : Z) : SF Z :=
  uiZ <- softfloat_propagateNaNF32UI uiA uiB ;; ret_f32 uiZ.

Definition softfloat_addMagsF32 (uiA uiB : Z) : SF Z :=
  let expA := expF32UI uiA in
  let sigA := fracF32UI uiA in
  let expB := expF32UI uiB in
  let sigB := fracF32UI uiB in
  let signZ := signF32UI uiA in
  let expDiff := expA - expB in
  if expDiff =? 0 then
    if expA =? 0 then ret_f32 (uiA +w sigB)
    else if expA =? 0xFF then
      if z2b (sigA |w sigB) then propagateNaN_f32 uiA uiB else ret_f32 uiA
    else
      let expZ := expA in
      let sigZ := (0x01000000 +w sigA) +w sigB in
      if negb (z2b (sigZ &w 1)) && (expZ <? 0xFE) then ret_f32 (packToF32UI signZ expZ (sigZ >>w 1))
      else softfloat_roundPackToF32 signZ expZ (sigZ <<w 6)
  else
    let sigA := sigA <<w 6 in
    let sigB := sigB <<w 6 in
    let finish expZ sigA sigB :=
      let sigZ := (0x20000000 +w sigA) +w sigB in
      if sigZ <? 0x40000000 then softfloat_roundPackToF32 signZ (expZ - 1) (sigZ <<w 1)
      else softfloat_roundPackToF32 signZ expZ sigZ in
    if expDiff <? 0 then
      if expB =? 0xFF then
        if z2b sigB then propagateNaN_f32 uiA uiB else ret_f32 (packToF32UI signZ 0xFF 0)
      else
        let sigA := sigA +w (if z2b expA then 0x20000000 else sigA) in
        finish expB (softfloat_shiftRightJam32 (u32 sigA) (- expDiff)) sigB
    else if expA =? 0xFF then
      if z2b sigA then propagateNaN_f32 uiA uiB else ret_f32 uiA
    else
      let sigB := sigB +w (if z2b expB then 0x20000000 else sigB) in
      finish expA sigA (softfloat_shiftRightJam32 (u32 sigB) expDiff).

Definition softfloat_subMagsF32 (uiA uiB : Z) : SF Z :=
  let expA := expF32UI uiA in
  let sigA := fracF32UI uiA in
  let expB := expF32UI uiB in
  let sigB := fracF32UI uiB in
  let expDiff := expA - expB in
  if expDiff =? 0 then
    if expA =? 0xFF then
      if z2b (sigA |w sigB) then propagateNaN_f32 uiA uiB
      else softfloat_raiseFlags softfloat_flag_invalid ;; ret_f32 defaultNaNF32UI
    else
      let sigDiff := s64 (sigA -w sigB) in
      if sigDiff =? 0 then
        roundingMode <- sf_mode ;; ret_f32 (packToF32UI (roundingMode =? softfloat_round_min) 0 0)
      else
        let expA := if z2b expA then expA - 1 else expA in
        let signZ := signF32UI uiA in
        let (signZ, sigDiff) := if sigDiff <? 0 then (negb signZ, - sigDiff) else (signZ, sigDiff) in
        let shiftDist := softfloat_countLeadingZeros32 (u32 sigDiff) - 8 in
        let expZ := expA - shiftDist in
        let (shiftDist, expZ) := if expZ <? 0 then (expA, 0) else (shiftDist, expZ) in
        ret_f32 (packToF32UI signZ expZ (Z.shiftl sigDiff shiftDist))
  else
    let signZ := signF32UI uiA in
    let sigA := sigA <<w 7 in
    let sigB := sigB <<w 7 in
    if expDiff <? 0 then
      let signZ := negb signZ in
      if expB =? 0xFF then
        if z2b sigB then propagateNaN_f32 uiA uiB else ret_f32 (packToF32UI signZ 0xFF 0)
      else
        let expZ := expB - 1 in
        let sigX := sigB |w 0x40000000 in
        let sigY := sigA +w (if z2b expA then 0x40000000 else sigA) in
        softfloat_normRoundPackToF32 signZ expZ (sigX -w softfloat_shiftRightJam32 (u32 sigY) (- expDiff))
    else if expA =? 0xFF then
      if z2b sigA then propagateNaN_f32 uiA uiB else ret_f32 uiA
    else
      let expZ := expA - 1 in
      let sigX := sigA |w 0x40000000 in
      let sigY := sigB +w (if z2b expB then 0x40000000 else sigB) in
      softfloat_normRoundPackToF32 signZ expZ (sigX -w softfloat_shiftRightJam32 (u32 sigY) expDiff).

Definition f32_add (a b : Z) : SF Z :=
  if signF32UI (a ^w b) then softfloat_subMagsF32 a b else softfloat_addMagsF32 a b.
Definition f32_sub (a b : Z) : SF Z :=
  if signF32UI (a ^w b) then softfloat_addMagsF32 a b else softfloat_subMagsF32 a b.

(** ** Multiplication *)

(** [infArg] of [f32_mul]. *)
Definition infArg_f32 (signZ : bool) (magBits : Z) : SF Z :=
  if magBits =? 0 then softfloat_raiseFlags softfloat_flag_invalid ;; ret_f32 defaultNaNF32UI
  else ret_f32 (packToF32UI signZ 0xFF 0).

(** [if ( ! exp ) { ... softfloat_normSubnormalF32Sig( sig ) ... }] *)
Definition norm_f32 (exp sig : Z) : Z * Z := if exp =? 0 then softfloat_normSubnormalF32Sig sig else (exp, sig).

Definition f32_mul (a b : Z) : SF Z :=
  let signA := signF32UI a in
  let expA := expF32UI a in
  let sigA := fracF32UI a in
  let signB := signF32UI b in
  let expB := expF32UI b in
  let sigB := fracF32UI b in
  let signZ := xorb signA signB in
  if expA =? 0xFF then
    if z2b sigA || ((expB =? 0xFF) && z2b sigB) then propagateNaN_f32 a b
    else infArg_f32 signZ (expB |w sigB)
  else if expB =? 0xFF then
    if z2b sigB then propagateNaN_f32 a b else infArg_f32 signZ (expA |w sigA)
  else if (expA =? 0) && (sigA =? 0) then ret_f32 (packToF32UI signZ 0 0)
  else if (expB =? 0) && (sigB =? 0) then ret_f32 (packToF32UI signZ 0 0)
  else
    let (expA, sigA) := norm_f32 expA sigA in
    let (expB, sigB) := norm_f32 expB sigB in
    let expZ := expA + expB - 0x7F in
    let sigA := (sigA |w 0x00800000) <<w 7 in
    let sigB := (sigB |w 0x00800000) <<w 8 in
    let sigZ := softfloat_shortShiftRightJam64 (sigA *w sigB) 32 in
    if sigZ <? 0x40000000 then softfloat_roundPackToF32 signZ (expZ - 1) (sigZ <<w 1)
    else softfloat_roundPackToF32 signZ expZ sigZ.

(** ** Division and square root *)

Definition invalid_f32 : SF Z := softfloat_raiseFlags softfloat_flag_invalid ;; ret_f32 defaultNaNF32UI.

Definition f32_div (a b : Z) : SF Z :=
  let signA := signF32UI a in
  let expA := expF32UI a in
  let sigA := fracF32UI a in
  let signB := signF32UI b in
  let expB := expF32UI b in
  let sigB := fracF32UI b in
  let signZ := xorb signA signB in
  let infinity := ret_f32 (packToF32UI signZ 0xFF 0) in
  let zero := ret_f32 (packToF32UI signZ 0 0) in
  if expA =? 0xFF then
    if z2b sigA then propagateNaN_f32 a b
    else if expB =? 0xFF then if z2b sigB then propagateNaN_f32 a b else invalid_f32
    else infinity
  else if expB =? 0xFF then
    if z2b sigB then propagateNaN_f32 a b else zero
  else if (expB =? 0) && (sigB =? 0) then
    if (expA |w sigA) =? 0 then invalid_f32
    else softfloat_raiseFlags softfloat_flag_infinite ;; infinity
  else if (expA =? 0) && (sigA =? 0) then zero
  else
    let (expB, sigB) := norm_f32 expB sigB in
    let (expA, sigA) := norm_f32 expA sigA in
    let expZ := expA - expB + 0x7E in
    let sigA := sigA |w 0x00800000 in
    let sigB := sigB |w 0x00800000 in
    let (expZ, sig64A) := if sigA <? sigB then (expZ - 1, sigA <<w 31) else (expZ, sigA <<w 30) in
    let sigZ := sig64A / sigB in
    let sigZ := if z2b (sigZ &w 0x3F) then sigZ else sigZ |w b2z (negb ((sigB *w sigZ) =? sig64A)) in
    softfloat_roundPackToF32 signZ expZ sigZ.

Definition f32_sqrt (a : Z) : SF Z :=
  let signA := signF32UI a in
  let expA := expF32UI a in
  let sigA := fracF32UI a in
  if expA =? 0xFF then
    if z2b sigA then propagateNaN_f32 a 0
    else if negb signA then sf_ret a else invalid_f32
  else if signA then
    if (expA |w sigA) =? 0 then sf_ret a else invalid_f32
  else if (expA =? 0) && (sigA =? 0) then sf_ret a
  else
    let (expA, sigA) := norm_f32 expA sigA in
    let expZ := ((expA - 0x7F) >>w 1) + 0x7E in
    let expA := expA &w 1 in
    let sigA := (sigA |w 0x00800000) <<w 8 in
    let sigZ := (sigA *w softfloat_approxRecipSqrt32_1 (u32 expA) (u32 sigA)) >>w 32 in
    let sigZ := if z2b expA then sigZ >>w 1 else sigZ in
    let sigZ := sigZ +w 2 in
    let sigZ :=
      if (sigZ &w 0x3F) <? 2 then
        let shiftedSigZ := sigZ >>w 2 in
        let negRem := u32 (shiftedSigZ *w shiftedSigZ) in
        let sigZ := sigZ &w not64 3 in
        if z2b (negRem &w 0x80000000) then sigZ |w 1
        else if z2b negRem then sigZ -w 1 else sigZ
      else sigZ in
    softfloat_roundPackToF32 false expZ sigZ.

(** ** Fused multiply-add *)

Definition softfloat_mulAdd_subC : Z := 1.
Definition softfloat_mulAdd_subProd : Z := 2.

(** The sum of the product [sigProd * 2^expProd] and the addend, both
    normalised, in [softfloat_mulAddF32]. *)
Definition mulAdd_sum_f32 (signProd : bool) (expProd sigProd : Z) (signC : bool) (expC sigC : Z) : SF Z :=
  let signZ := signProd in
  let expDiff := expProd - expC in
  if eqb signProd signC then
    let '(expZ, sigZ) :=
      if expDiff <=? 0 then (expC, sigC +w softfloat_shiftRightJam64 sigProd (32 - expDiff))
      else
        let sig64Z := sigProd +w softfloat_shiftRightJam64 (sigC <<w 32) expDiff in
        (expProd, softfloat_shortShiftRightJam64 sig64Z 32) in
    if sigZ <? 0x40000000 then softfloat_roundPackToF32 signZ (expZ - 1) (sigZ <<w 1)
    else softfloat_roundPackToF32 signZ expZ sigZ
  else
    let sig64C := sigC <<w 32 in
    let finish signZ expZ sig64Z :=
      let shiftDist := softfloat_countLeadingZeros64 sig64Z - 1 in
      let expZ := expZ - shiftDist in
      let shiftDist := shiftDist - 32 in
      let sigZ := if shiftDist <? 0 then softfloat_shortShiftRightJam64 sig64Z (- shiftDist)
                  else sig64Z <<w shiftDist in
      softfloat_roundPackToF32 signZ expZ sigZ in
    if expDiff <? 0 then
      finish signC expC (sig64C -w softfloat_shiftRightJam64 sigProd (- expDiff))
    else if expDiff =? 0 then
      let sig64Z := sigProd -w sig64C in
      if sig64Z =? 0 then
        roundingMode <- sf_mode ;; ret_f32 (packToF32UI (roundingMode =? softfloat_round_min) 0 0)
      else if z2b (sig64Z &w 0x8000000000000000) then finish (negb signZ) expProd (neg64 sig64Z)
      else finish signZ expProd sig64Z
    else finish signZ expProd (sigProd -w softfloat_shiftRightJam64 sig64C expDiff).

Definition softfloat_mulAddF32 (uiA uiB uiC op : Z) : SF Z :=
  let signA := signF32UI uiA in
  let expA := expF32UI uiA in
  let sigA := fracF32UI uiA in
  let signB := signF32UI uiB in
  let expB := expF32UI uiB in
  let sigB := fracF32UI uiB in
  let signC := xorb (signF32UI uiC) (op =? softfloat_mulAdd_subC) in
  let expC := expF32UI uiC in
  let sigC := fracF32UI uiC in
  let signProd := xorb (xorb signA signB) (op =? softfloat_mulAdd_subProd) in
  let propagateNaN_ZC uiZ := propagateNaN_f32 uiZ uiC in
  let propagateNaN_ABC := uiZ <- softfloat_propagateNaNF32UI uiA uiB ;; propagateNaN_ZC uiZ in
  let infProdArg magBits :=
    let invalid := softfloat_raiseFlags softfloat_flag_invalid ;; propagateNaN_ZC defaultNaNF32UI in
    if z2b magBits then
      let uiZ := packToF32UI signProd 0xFF 0 in
      if negb (expC =? 0xFF) then ret_f32 uiZ
      else if z2b sigC then propagateNaN_ZC uiZ
      else if eqb signProd signC then ret_f32 uiZ
      else invalid
    else invalid in
  let zeroProd :=
    if ((expC |w sigC) =? 0) && negb (eqb signProd signC) then
      roundingMode <- sf_mode ;; ret_f32 (packToF32UI (roundingMode =? softfloat_round_min) 0 0)
    else ret_f32 uiC in
  if expA =? 0xFF then
    if z2b sigA || ((expB =? 0xFF) && z2b sigB) then propagateNaN_ABC else infProdArg (expB |w sigB)
  else if expB =? 0xFF then
    if z2b sigB then propagateNaN_ABC else infProdArg (expA |w sigA)
  else if expC =? 0xFF then
    if z2b sigC then propagateNaN_ZC 0 else ret_f32 uiC
  else if (expA =? 0) && (sigA =? 0) then zeroProd
  else if (expB =? 0) && (sigB =? 0) then zeroProd
  else
    let (expA, sigA) := norm_f32 expA sigA in
    let (expB, sigB) := norm_f32 expB sigB in
    let expProd := expA + expB - 0x7E in
    let sigA := (sigA |w 0x00800000) <<w 7 in
    let sigB := (sigB |w 0x00800000) <<w 7 in
    let sigProd := sigA *w sigB in
    let (expProd, sigProd) :=
      if sigProd <? 0x2000000000000000 then (expProd - 1, sigProd <<w 1) else (expProd, sigProd) in
    if (expC =? 0) && (sigC =? 0) then
      softfloat_roundPackToF32 signProd (expProd - 1) (softfloat_shortShiftRightJam64 sigProd 31)
    else
      let (expC, sigC) := norm_f32 expC sigC in
      mulAdd_sum_f32 signProd expProd sigProd signC expC ((sigC |w 0x00800000) <<w 6).

Definition f32_mulAdd (a b c : Z) : SF Z := softfloat_mulAddF32 a b c 0.

(** ** Comparisons and classification *)

Definition nan_quiet_f32 (uiA uiB : Z) : SF unit :=
  raise_if (softfloat_isSigNaNF32UI uiA || softfloat_isSigNaNF32UI uiB) softfloat_flag_invalid.
(** [! (uint32_t) ((uiA | uiB)<<1)] *)
Definition both_zero_f32 (uiA uiB : Z) : bool := u32 (Z.shiftl (uiA |w uiB) 1) =? 0.

Definition f32_eq (a b : Z) : SF bool :=
  if isNaNF32UI a || isNaNF32UI b then nan_quiet_f32 a b ;; sf_ret false
  else sf_ret ((a =? b) || both_zero_f32 a b).

Definition f32_le (a b : Z) : SF bool :=
  if isNaNF32UI a || isNaNF32UI b then softfloat_raiseFlags softfloat_flag_invalid ;; sf_ret false
  else
    let signA := signF32UI a in
    let signB := signF32UI b in
    sf_ret (if negb (eqb signA signB) then signA || both_zero_f32 a b
            else (a =? b) || xorb signA (a <? b)).

Definition f32_lt (a b : Z) : SF bool :=
  if isNaNF32UI a || isNaNF32UI b then softfloat_raiseFlags softfloat_flag_invalid ;; sf_ret false
  else
    let signA := signF32UI a in
    let signB := signF32UI b in
    sf_ret (if negb (eqb signA signB) then signA && negb (both_zero_f32 a b)
            else negb (a =? b) && xorb signA (a <? b)).

Definition f32_lt_quiet (a b : Z) : SF bool :=
  if isNaNF32UI a || isNaNF32UI b then nan_quiet_f32 a b ;; sf_ret false
  else
    let signA := signF32UI a in
    let signB := signF32UI b in
    sf_ret (if negb (eqb signA signB) then signA && negb (both_zero_f32 a b)
            else negb (a =? b) && xorb signA (a <? b)).

Definition f32_classify (a : Z) : Z :=
  let infOrNaN := expF32UI a =? 0xFF in
  let subnormalOrZero := expF32UI a =? 0 in
  let sign := signF32UI a in
  let fracZero := fracF32UI a =? 0 in
  let isNaN := isNaNF32UI a in
  let isSNaN := softfloat_isSigNaNF32UI a in
  let bit c n := Z.shiftl (b2z c) n in
  bit (sign && infOrNaN && fracZero) 0
  |w bit (sign && negb infOrNaN && negb subnormalOrZero) 1
  |w bit (sign && subnormalOrZero && negb fracZero) 2
  |w bit (sign && subnormalOrZero && fracZero) 3
  |w bit (negb sign && infOrNaN && fracZero) 7
  |w bit (negb sign && negb infOrNaN && negb subnormalOrZero) 6
  |w bit (negb sign && subnormalOrZero && negb fracZero) 5
  |w bit (negb sign && subnormalOrZero && fracZero) 4
  |w bit (isNaN && isSNaN) 8
  |w bit (isNaN && negb isSNaN) 9.
