(* ===== verification/SoftF64.v ===== *)
(** * SoftF64: double-precision arithmetic of SoftFloat

    [softfloat/s_*F64*.c] and [softfloat/f64_*.c], with [SOFTFLOAT_FAST_INT64]. *)
From Stdlib Require Import ZArith Lia Bool List.
From stdpp Require Import base list.
From S2P Require Import Prelude SoftFloat.
#[local] Open Scope Z_scope.
#[local] Open Scope word_scope.
#[local] Open Scope sf_scope.

(** ** Fields ([internals.h]) *)

Definition signF64UI (a : Z) : bool := z2b (a >>w 63).
Definition expF64UI (a : Z) : Z := (a >>w 52) &w 0x7FF.
Definition fracF64UI (a : Z) : Z := a &w 0x000FFFFFFFFFFFFF.
Definition packToF64UI (sign : bool) (exp sig : Z) : Z := ((b2z sign <<w 63) +w (u64 exp <<w 52)) +w sig.

Definition ret_f64 (uiZ : Z) : SF Z := sf_ret uiZ.

(** ** Normalising, rounding and packing *)

Definition softfloat_normSubnormalF64Sig (sig : Z) : Z * Z :=
  let shiftDist := softfloat_countLeadingZeros64 sig - 11 in
  (1 - shiftDist, sig <<w shiftDist).

(** The increment of the significand below bit 10, by mode and sign. *)
Definition roundIncrementF64 (roundingMode : Z) (sign : bool) : Z :=
  if negb (roundingMode =? softfloat_round_near_even) && negb (roundingMode =? softfloat_round_near_maxMag)
  then (if roundingMode =? round_away sign then 0x3FF else 0) else 0x200.

Definition softfloat_roundPackToF64 (sign : bool) (exp sig : Z) : SF Z :=
  roundingMode <- sf_mode ;;
  let roundNearEven := roundingMode =? softfloat_round_near_even in
  let roundIncrement := roundIncrementF64 roundingMode sign in
  let roundBits := sig &w 0x3FF in
  let pack exp sig roundBits :=
    let inexact := z2b roundBits in
    let sig := (sig +w roundIncrement) >>w 10 in
    raise_if inexact softfloat_flag_inexact ;;
    if inexact && (roundingMode =? softfloat_round_odd) then
      ret_f64 (packToF64UI sign exp (sig |w 1))
    else
      let sig := sig &w not64 (b2z (negb (z2b (roundBits ^w 0x200)) && roundNearEven)) in
      let exp := if sig =? 0 then 0 else exp in
      ret_f64 (packToF64UI sign exp sig) in
  if 0x7FD <=? u16 exp then
    if exp <? 0 then
      let isTiny := (softfloat_detectTininess =? softfloat_tininess_beforeRounding)
                    || (exp <? -1) || (sig +w roundIncrement <? 0x8000000000000000) in
      let sig := softfloat_shiftRightJam64 sig (- exp) in
      let roundBits := sig &w 0x3FF in
      raise_if (isTiny && z2b roundBits) softfloat_flag_underflow ;;
      pack 0 sig roundBits
    else if (0x7FD <? exp) || (0x8000000000000000 <=? sig +w roundIncrement) then
      softfloat_raiseFlags (softfloat_flag_overflow |w softfloat_flag_inexact) ;;
      ret_f64 (packToF64UI sign 0x7FF 0 -w b2z (negb (z2b roundIncrement)))
    else pack exp sig roundBits
  else pack exp sig roundBits.

Definition softfloat_normRoundPackToF64 (sign : bool) (exp sig : Z) : SF Z :=
  let shiftDist := softfloat_countLeadingZeros64 sig - 1 in
  let exp := exp - shiftDist in
  if (10 <=? shiftDist) && (u32 exp <? 0x7FD) then
    ret_f64 (packToF64UI sign (if sig =? 0 then 0 else exp) (sig <<w (shiftDist - 10)))
  else softfloat_roundPackToF64 sign exp (sig <<w shiftDist).

(** ** Addition and subtraction *)

Definition propagateNaN_f64 (uiA uiB : Z) : SF Z :=
  uiZ <- softfloat_propagateNaNF64UI uiA uiB ;; ret_f64 uiZ.

Definition softfloat_addMagsF64 (uiA uiB : Z) (signZ : bool) : SF Z :=
  let expA := expF64UI uiA in
  let sigA := fracF64UI uiA in
  let expB := expF64UI uiB in
  let sigB := fracF64UI uiB in
  let expDiff := expA - expB in
  if expDiff =? 0 then
    if expA =? 0 then ret_f64 (uiA +w sigB)
    else if expA =? 0x7FF then
      if z2b (sigA |w sigB) then propagateNaN_f64 uiA uiB else ret_f64 uiA
    else softfloat_roundPackToF64 signZ expA (((0x0020000000000000 +w sigA) +w sigB) <<w 9)
  else
    let sigA := sigA <<w 9 in
    let sigB := sigB <<w 9 in
    let finish expZ sigA sigB :=
      let sigZ := (0x2000000000000000 +w sigA) +w sigB in
      if sigZ <? 0x4000000000000000 then softfloat_roundPackToF64 signZ (expZ - 1) (sigZ <<w 1)
      else softfloat_roundPackToF64 signZ expZ sigZ in
    if expDiff <? 0 then
      if expB =? 0x7FF then
        if z2b sigB then propagateNaN_f64 uiA uiB else ret_f64 (packToF64UI signZ 0x7FF 0)
      else
        let sigA := if z2b expA then sigA +w 0x2000000000000000 else sigA <<w 1 in
        finish expB (softfloat_shiftRightJam64 sigA (- expDiff)) sigB
    else if expA =? 0x7FF then
      if z2b sigA then propagateNaN_f64 uiA uiB else ret_f64 uiA
    else
      let sigB := if z2b expB then sigB +w 0x2000000000000000 else sigB <<w 1 in
      finish expA sigA (softfloat_shiftRightJam64 sigB expDiff).

Definition softfloat_subMagsF64 (uiA uiB : Z) (signZ : bool) : SF Z :=
  let expA := expF64UI uiA in
  let sigA := fracF64UI uiA in
  let expB := expF64UI uiB in
  let sigB := fracF64UI uiB in
  let expDiff := expA - expB in
  if expDiff =? 0 then
    if expA =? 0x7FF then
      if z2b (sigA |w sigB) then propagateNaN_f64 uiA uiB
      else softfloat_raiseFlags softfloat_flag_invalid ;; ret_f64 defaultNaNF64UI
    else
      let sigDiff := s64 (sigA -w sigB) in
      if sigDiff =? 0 then
        roundingMode <- sf_mode ;; ret_f64 (packToF64UI (roundingMode =? softfloat_round_min) 0 0)
      else
        let expA := if z2b expA then expA - 1 else expA in
        let (signZ, sigDiff) := if sigDiff <? 0 then (negb signZ, - sigDiff) else (signZ, sigDiff) in
        let shiftDist := softfloat_countLeadingZeros64 (u64 sigDiff) - 11 in
        let expZ := expA - shiftDist in
        let (shiftDist, expZ) := if expZ <? 0 then (expA, 0) else (shiftDist, expZ) in
        ret_f64 (packToF64UI signZ expZ (Z.shiftl sigDiff shiftDist))
  else
    let sigA := sigA <<w 10 in
    let sigB := sigB <<w 10 in
    if expDiff <? 0 then
      let signZ := negb signZ in
      if expB =? 0x7FF then
        if z2b sigB then propagateNaN_f64 uiA uiB else ret_f64 (packToF64UI signZ 0x7FF 0)
      else
        let sigA := sigA +w (if z2b expA then 0x4000000000000000 else sigA) in
        let sigA := softfloat_shiftRightJam64 sigA (- expDiff) in
        let sigB := sigB |w 0x4000000000000000 in
        softfloat_normRoundPackToF64 signZ (expB - 1) (sigB -w sigA)
    else if expA =? 0x7FF then
      if z2b sigA then propagateNaN_f64 uiA uiB else ret_f64 uiA
    else
      let sigB := sigB +w (if z2b expB then 0x4000000000000000 else sigB) in
      let sigB := softfloat_shiftRightJam64 sigB expDiff in
      let sigA := sigA |w 0x4000000000000000 in
      softfloat_normRoundPackToF64 signZ (expA - 1) (sigA -w sigB).

Definition f64_add (a b : Z) : SF Z :=
  let signA := signF64UI a in
  let signB := signF64UI b in
  if eqb signA signB then softfloat_addMagsF64 a b signA else softfloat_subMagsF64 a b signA.
Definition f64_sub (a b : Z) : SF Z :=
  let signA := signF64UI a in
  let signB := signF64UI b in
  if eqb signA signB then softfloat_subMagsF64 a b signA else softfloat_addMagsF64 a b signA.

(** ** Multiplication *)

(** [infArg] of [f64_mul]. *)
Definition infArg_f64 (signZ : bool) (magBits : Z) : SF Z :=
  if magBits =? 0 then softfloat_raiseFlags softfloat_flag_invalid ;; ret_f64 defaultNaNF64UI
  else ret_f64 (packToF64UI signZ 0x7FF 0).

(** [if ( ! exp ) { ... softfloat_normSubnormalF64Sig( sig ) ... }] *)
Definition norm_f64 (exp sig : Z) : Z * Z := if exp =? 0 then softfloat_normSubnormalF64Sig sig else (exp, sig).

Definition f64_mul (a b : Z) : SF Z :=
  let signA := signF64UI a in
  let expA := expF64UI a in
  let sigA := fracF64UI a in
  let signB := signF64UI b in
  let expB := expF64UI b in
  let sigB := fracF64UI b in
  let signZ := xorb signA signB in
  if expA =? 0x7FF then
    if z2b sigA || ((expB =? 0x7FF) && z2b sigB) then propagateNaN_f64 a b
    else infArg_f64 signZ (expB |w sigB)
  else if expB =? 0x7FF then
    if z2b sigB then propagateNaN_f64 a b else infArg_f64 signZ (expA |w sigA)
  else if (expA =? 0) && (sigA =? 0) then ret_f64 (packToF64UI signZ 0 0)
  else if (expB =? 0) && (sigB =? 0) then ret_f64 (packToF64UI signZ 0 0)
  else
    let (expA, sigA) := norm_f64 expA sigA in
    let (expB, sigB) := norm_f64 expB sigB in
    let expZ := expA + expB - 0x3FF in
    let sigA := (sigA |w 0x0010000000000000) <<w 10 in
    let sigB := (sigB |w 0x0010000000000000) <<w 11 in
    let sig128Z := softfloat_mul64To128 sigA sigB in
    let sigZ := v64 sig128Z |w b2z (z2b (w0 sig128Z)) in
    if sigZ <? 0x4000000000000000 then softfloat_roundPackToF64 signZ (expZ - 1) (sigZ <<w 1)
    else softfloat_roundPackToF64 signZ expZ sigZ.

(** ** Division and square root *)

Definition invalid_f64 : SF Z := softfloat_raiseFlags softfloat_flag_invalid ;; ret_f64 defaultNaNF64UI.

(** The quotient of the normalised significands in [f64_div]: [sigA] has 11
    or 10 fraction bits more than a significand, [sigB] 11. *)
Definition div_sig_f64 (sigA sigB : Z) : Z :=
  let recip32 := u32 (softfloat_approxRecip32_1 (sigB >>w 32) -w 2) in
  let sig32Z := u32 ((u32 (sigA >>w 32) *w recip32) >>w 32) in
  let doubleTerm := u32 (Z.shiftl sig32Z 1) in
  let rem := ((sigA -w (doubleTerm *w u32 (sigB >>w 32))) <<w 28) -w (doubleTerm *w (u32 sigB >>w 4)) in
  let q := u32 (((u32 (rem >>w 32) *w recip32) >>w 32) +w 4) in
  let sigZ := (sig32Z <<w 32) +w (q <<w 4) in
  if (sigZ &w 0x1FF) <? Z.shiftl 4 4 then
    let q := q &w u32 (Z.lnot 7) in
    let sigZ := sigZ &w not64 0x7F in
    let doubleTerm := u32 (Z.shiftl q 1) in
    let rem := ((rem -w (doubleTerm *w u32 (sigB >>w 32))) <<w 28) -w (doubleTerm *w (u32 sigB >>w 4)) in
    if z2b (rem &w 0x8000000000000000) then sigZ -w Z.shiftl 1 7
    else if z2b rem then sigZ |w 1 else sigZ
  else sigZ.

Definition f64_div (a b : Z) : SF Z :=
  let signA := signF64UI a in
  let expA := expF64UI a in
  let sigA := fracF64UI a in
  let signB := signF64UI b in
  let expB := expF64UI b in
  let sigB := fracF64UI b in
  let signZ := xorb signA signB in
  let infinity := ret_f64 (packToF64UI signZ 0x7FF 0) in
  let zero := ret_f64 (packToF64UI signZ 0 0) in
  if expA =? 0x7FF then
    if z2b sigA then propagateNaN_f64 a b
    else if expB =? 0x7FF then if z2b sigB then propagateNaN_f64 a b else invalid_f64
    else infinity
  else if expB =? 0x7FF then
    if z2b sigB then propagateNaN_f64 a b else zero
  else if (expB =? 0) && (sigB =? 0) then
    if (expA |w sigA) =? 0 then invalid_f64
    else softfloat_raiseFlags softfloat_flag_infinite ;; infinity
  else if (expA =? 0) && (sigA =? 0) then zero
  else
    let (expB, sigB) := norm_f64 expB sigB in
    let (expA, sigA) := norm_f64 expA sigA in
    let expZ := expA - expB + 0x3FE in
    let sigA := sigA |w 0x0010000000000000 in
    let sigB := sigB |w 0x0010000000000000 in
    let (expZ, sigA) := if sigA <? sigB then (expZ - 1, sigA <<w 11) else (expZ, sigA <<w 10) in
    softfloat_roundPackToF64 signZ expZ (div_sig_f64 sigA (sigB <<w 11)).

(** The root of the normalised significand in [f64_sqrt]. *)
Definition sqrt_sig_f64 (expA sigA : Z) : Z :=
  let sig32A := u32 (sigA >>w 21) in
  let recipSqrt32 := softfloat_approxRecipSqrt32_1 (u32 expA) sig32A in
  let sig32Z := u32 ((sig32A *w recipSqrt32) >>w 32) in
  let (sigA, sig32Z) := if z2b expA then (sigA <<w 8, sig32Z >>w 1) else (sigA <<w 9, sig32Z) in
  let rem := sigA -w (sig32Z *w sig32Z) in
  let q := u32 ((u32 (rem >>w 2) *w recipSqrt32) >>w 32) in
  let sigZ := ((sig32Z <<w 32) |w Z.shiftl 1 5) +w (q <<w 3) in
  if (sigZ &w 0x1FF) <? 0x22 then
    let sigZ := sigZ &w not64 0x3F in
    let shiftedSigZ := sigZ >>w 6 in
    let rem := (sigA <<w 52) -w (shiftedSigZ *w shiftedSigZ) in
    if z2b (rem &w 0x8000000000000000) then sigZ -w 1
    else if z2b rem then sigZ |w 1 else sigZ
  else sigZ.

Definition f64_sqrt (a : Z) : SF Z :=
  let signA := signF64UI a in
  let expA := expF64UI a in
  let sigA := fracF64UI a in
  if expA =? 0x7FF then
    if z2b sigA then propagateNaN_f64 a 0
    else if negb signA then sf_ret a else invalid_f64
  else if signA then
    if (expA |w sigA) =? 0 then sf_ret a else invalid_f64
  else if (expA =? 0) && (sigA =? 0) then sf_ret a
  else
    let (expA, sigA) := norm_f64 expA sigA in
    let expZ := ((expA - 0x3FF) >>w 1) + 0x3FE in
    softfloat_roundPackToF64 false expZ (sqrt_sig_f64 (expA &w 1) (sigA |w 0x0010000000000000)).

(** ** Fused multiply-add *)

(** The sum of the product [sig128Z * 2^expZ] and the addend, both
    normalised, in [softfloat_mulAddF64]. *)
Definition mulAdd_sum_f64 (signZ : bool) (expZ : Z) (sig128Z : uint128) (signC : bool) (expC sigC : Z) : SF Z :=
  let expDiff := expZ - expC in
  let '(expZ, sig128Z, sig128C) :=
    if expDiff <? 0 then
      (expC,
       if eqb signZ signC || (expDiff <? -1)
       then mk_uint128 (softfloat_shiftRightJam64 (v64 sig128Z) (- expDiff)) (w0 sig128Z)
       else softfloat_shortShiftRightJam128 (v64 sig128Z) (w0 sig128Z) 1, mk_uint128 0 0)
    else if z2b expDiff then (expZ, sig128Z, softfloat_shiftRightJam128 sigC 0 expDiff)
    else (expZ, sig128Z, mk_uint128 0 0) in
  if eqb signZ signC then
    let sigZ :=
      if expDiff <=? 0 then (sigC +w v64 sig128Z) |w b2z (z2b (w0 sig128Z))
      else
        let z := softfloat_add128 (v64 sig128Z) (w0 sig128Z) (v64 sig128C) (w0 sig128C) in
        v64 z |w b2z (z2b (w0 z)) in
    if sigZ <? 0x4000000000000000 then softfloat_roundPackToF64 signZ (expZ - 1) (sigZ <<w 1)
    else softfloat_roundPackToF64 signZ expZ sigZ
  else
    let finish signZ sig128Z :=
      let '(expZ, sig128Z) := if v64 sig128Z =? 0 then (expZ - 64, mk_uint128 (w0 sig128Z) 0) else (expZ, sig128Z) in
      let shiftDist := softfloat_countLeadingZeros64 (v64 sig128Z) - 1 in
      let expZ := expZ - shiftDist in
      let '(sigZ, z0) :=
        if shiftDist <? 0 then (softfloat_shortShiftRightJam64 (v64 sig128Z) (- shiftDist), w0 sig128Z)
        else let z := softfloat_shortShiftLeft128 (v64 sig128Z) (w0 sig128Z) shiftDist in (v64 z, w0 z) in
      softfloat_roundPackToF64 signZ expZ (sigZ |w b2z (z2b z0)) in
    if expDiff <? 0 then finish signC (softfloat_sub128 sigC 0 (v64 sig128Z) (w0 sig128Z))
    else if expDiff =? 0 then
      let z64 := v64 sig128Z -w sigC in
      if (z64 |w w0 sig128Z) =? 0 then
        roundingMode <- sf_mode ;; ret_f64 (packToF64UI (roundingMode =? softfloat_round_min) 0 0)
      else if z2b (z64 &w 0x8000000000000000) then finish (negb signZ) (softfloat_sub128 0 0 z64 (w0 sig128Z))
      else finish signZ (mk_uint128 z64 (w0 sig128Z))
    else finish signZ (softfloat_sub128 (v64 sig128Z) (w0 sig128Z) (v64 sig128C) (w0 sig128C)).

Definition softfloat_mulAddF64 (uiA uiB uiC op : Z) : SF Z :=
  let signA := signF64UI uiA in
  let expA := expF64UI uiA in
  let sigA := fracF64UI uiA in
  let signB := signF64UI uiB in
  let expB := expF64UI uiB in
  let sigB := fracF64UI uiB in
  let signC := xorb (signF64UI uiC) (op =? 1) in
  let expC := expF64UI uiC in
  let sigC := fracF64UI uiC in
  let signZ := xorb (xorb signA signB) (op =? 2) in
  let propagateNaN_ZC uiZ := propagateNaN_f64 uiZ uiC in
  let propagateNaN_ABC := uiZ <- softfloat_propagateNaNF64UI uiA uiB ;; propagateNaN_ZC uiZ in
  let infProdArg magBits :=
    let invalid := softfloat_raiseFlags softfloat_flag_invalid ;; propagateNaN_ZC defaultNaNF64UI in
    if z2b magBits then
      let uiZ := packToF64UI signZ 0x7FF 0 in
      if negb (expC =? 0x7FF) then ret_f64 uiZ
      else if z2b sigC then propagateNaN_ZC uiZ
      else if eqb signZ signC then ret_f64 uiZ
      else invalid
    else invalid in
  let zeroProd :=
    if ((expC |w sigC) =? 0) && negb (eqb signZ signC) then
      roundingMode <- sf_mode ;; ret_f64 (packToF64UI (roundingMode =? softfloat_round_min) 0 0)
    else ret_f64 uiC in
  if expA =? 0x7FF then
    if z2b sigA || ((expB =? 0x7FF) && z2b sigB) then propagateNaN_ABC else infProdArg (expB |w sigB)
  else if expB =? 0x7FF then
    if z2b sigB then propagateNaN_ABC else infProdArg (expA |w sigA)
  else if expC =? 0x7FF then
    if z2b sigC then propagateNaN_ZC 0 else ret_f64 uiC
  else if (expA =? 0) && (sigA =? 0) then zeroProd
  else if (expB =? 0) && (sigB =? 0) then zeroProd
  else
    let (expA, sigA) := norm_f64 expA sigA in
    let (expB, sigB) := norm_f64 expB sigB in
    let expZ := expA + expB - 0x3FE in
    let sigA := (sigA |w 0x0010000000000000) <<w 10 in
    let sigB := (sigB |w 0x0010000000000000) <<w 10 in
    let sig128Z := softfloat_mul64To128 sigA sigB in
    let (expZ, sig128Z) :=
      if v64 sig128Z <? 0x2000000000000000
      then (expZ - 1, softfloat_add128 (v64 sig128Z) (w0 sig128Z) (v64 sig128Z) (w0 sig128Z))
      else (expZ, sig128Z) in
    if (expC =? 0) && (sigC =? 0) then
      softfloat_roundPackToF64 signZ (expZ - 1) ((v64 sig128Z <<w 1) |w b2z (z2b (w0 sig128Z)))
    else
      let (expC, sigC) := norm_f64 expC sigC in
      mulAdd_sum_f64 signZ expZ sig128Z signC expC ((sigC |w 0x0010000000000000) <<w 9).

Definition f64_mulAdd (a b c : Z) : SF Z := softfloat_mulAddF64 a b c 0.

(** ** Comparisons and classification *)

Definition nan_quiet_f64 (uiA uiB : Z) : SF unit :=
  raise_if (softfloat_isSigNaNF64UI uiA || softfloat_isSigNaNF64UI uiB) softfloat_flag_invalid.
(** [! ((uiA | uiB) & UINT64_C( 0x7FFFFFFFFFFFFFFF ))] *)
Definition both_zero_f64 (uiA uiB : Z) : bool := (uiA |w uiB) &w 0x7FFFFFFFFFFFFFFF =? 0.

Definition f64_eq (a b : Z) : SF bool :=
  if isNaNF64UI a || isNaNF64UI b then nan_quiet_f64 a b ;; sf_ret false
  else sf_ret ((a =? b) || both_zero_f64 a b).

Definition f64_le (a b : Z) : SF bool :=
  if isNaNF64UI a || isNaNF64UI b then softfloat_raiseFlags softfloat_flag_invalid ;; sf_ret false
  else
    let signA := signF64UI a in
    let signB := signF64UI b in
    sf_ret (if negb (eqb signA signB) then signA || both_zero_f64 a b
            else (a =? b) || xorb signA (a <? b)).

Definition f64_lt (a b : Z) : SF bool :=
  if isNaNF64UI a || isNaNF64UI b then softfloat_raiseFlags softfloat_flag_invalid ;; sf_ret false
  else
    let signA := signF64UI a in
    let signB := signF64UI b in
    sf_ret (if negb (eqb signA signB) then signA && negb (both_zero_f64 a b)
            else negb (a =? b) && xorb signA (a <? b)).

Definition f64_lt_quiet (a b : Z) : SF bool :=
  if isNaNF64UI a || isNaNF64UI b then nan_quiet_f64 a b ;; sf_ret false
  else
    let signA := signF64UI a in
    let signB := signF64UI b in
    sf_ret (if negb (eqb signA signB) then signA && negb (both_zero_f64 a b)
            else negb (a =? b) && xorb signA (a <? b)).

Definition f64_classify (a : Z) : Z :=
  let infOrNaN := expF64UI a =? 0x7FF in
  let subnormalOrZero := expF64UI a =? 0 in
  let sign := signF64UI a in
  let fracZero := fracF64UI a =? 0 in
  let isNaN := isNaNF64UI a in
  let isSNaN := softfloat_isSigNaNF64UI a in
  let bit c n := Z.shiftl (b2z c) n in
  bit (sign && infOrNaN && fracZero) 0
  |w bit (sign && negb infOrNaN && negb subnormalOrZero) 1
  |w bit (sign && subnormalOrZero && negb fracZero) 2
  |w bit (sign && subnormalOrZero && fracZero) 3
  |w bit (negb sign && infOrNaN && fracZero) 7
  |w bit (negb sign && negb infOrNaN && negb subnormalOrZero) 6
  |w bit (negb sign && subnormalOrZero && negb fracZero) 5
  |w bit (negb sign && subnormalOrZero && fracZero) 4
  |w bit (isNaN && isSNaN) 8
  |w bit (isNaN && negb isSNaN) 9.
