(* ===== verification/SoftConv.v ===== *)
(** * SoftConv: conversions of SoftFloat

    Between the integer types and the two formats, and between the formats:
    [softfloat/s_roundTo*.c], [f32_to_*.c], [f64_to_*.c], [*_to_f32.c],
    [*_to_f64.c].  The values returned on an invalid conversion are those of
    [specialize.h]: NaN gives what positive overflow gives. *)
From Stdlib Require Import ZArith Lia Bool List.
From stdpp Require Import base list.
From S2P Require Import Prelude SoftFloat SoftF32 SoftF64.
#[local] Open Scope Z_scope.
#[local] Open Scope word_scope.
#[local] Open Scope sf_scope.

(** ** Rounding to integers *)

(** [roundIncrement] of the 32-bit roundings, 12 bits of fraction. *)
Definition roundIncrement32 (roundingMode : Z) (sign : bool) : Z :=
  if negb (roundingMode =? softfloat_round_near_even) && negb (roundingMode =? softfloat_round_near_maxMag)
  then (if roundingMode =? round_away sign then 0xFFF else 0) else 0x800.

Definition softfloat_roundToUI32 (sign : bool) (sig roundingMode : Z) (exact : bool) : SF Z :=
  let invalid := softfloat_raiseFlags softfloat_flag_invalid ;;
                 sf_ret (if sign then ui32_fromNegOverflow else ui32_fromPosOverflow) in
  let roundNearEven := roundingMode =? softfloat_round_near_even in
  let roundIncrement := roundIncrement32 roundingMode sign in
  let roundBits := sig &w 0xFFF in
  let sig := sig +w roundIncrement in
  if z2b (sig &w 0xFFFFF00000000000) then invalid
  else
    let z := sig >>w 12 in
    let z := z &w not64 (b2z (negb (z2b (roundBits ^w 0x800)) && roundNearEven)) in
    if sign && z2b z then invalid
    else raise_if (exact && z2b roundBits) softfloat_flag_inexact ;; sf_ret z.

Definition softfloat_roundToI32 (sign : bool) (sig roundingMode : Z) (exact : bool) : SF Z :=
  let invalid := softfloat_raiseFlags softfloat_flag_invalid ;;
                 sf_ret (if sign then i32_fromNegOverflow else i32_fromPosOverflow) in
  let roundNearEven := roundingMode =? softfloat_round_near_even in
  let roundIncrement := roundIncrement32 roundingMode sign in
  let roundBits := sig &w 0xFFF in
  let sig := sig +w roundIncrement in
  if z2b (sig &w 0xFFFFF00000000000) then invalid
  else
    let sig32 := sig >>w 12 in
    let sig32 := sig32 &w not64 (b2z (negb (z2b (roundBits ^w 0x800)) && roundNearEven)) in
    let z := s32 (if sign then neg64 sig32 else sig32) in
    if z2b z && xorb (z <? 0) sign then invalid
    else raise_if (exact && z2b roundBits) softfloat_flag_inexact ;; sf_ret z.

(** [doIncrement] of the 64-bit roundings. *)
Definition doIncrement64 (roundingMode : Z) (sign : bool) (sigExtra : Z) : bool :=
  if negb (roundingMode =? softfloat_round_near_even) && negb (roundingMode =? softfloat_round_near_maxMag)
  then (roundingMode =? round_away sign) && z2b sigExtra else 0x8000000000000000 <=? sigExtra.
(** [++sig], with the tie to even; nothing on overflow. *)
Definition increment64 (roundingMode : Z) (sign : bool) (sig sigExtra : Z) : option Z :=
  if doIncrement64 roundingMode sign sigExtra then
    let sig := sig +w 1 in
    if sig =? 0 then None
    else Some (sig &w not64 (b2z (negb (z2b (sigExtra &w 0x7FFFFFFFFFFFFFFF))
                                  && (roundingMode =? softfloat_round_near_even))))
  else Some sig.

Definition softfloat_roundToUI64 (sign : bool) (sig sigExtra roundingMode : Z) (exact : bool) : SF Z :=
  let invalid := softfloat_raiseFlags softfloat_flag_invalid ;;
                 sf_ret (if sign then ui64_fromNegOverflow else ui64_fromPosOverflow) in
  match increment64 roundingMode sign sig sigExtra with
  | None => invalid
  | Some sig =>
    if sign && z2b sig then invalid
    else raise_if (exact && z2b sigExtra) softfloat_flag_inexact ;; sf_ret sig
  end.

Definition softfloat_roundToI64 (sign : bool) (sig sigExtra roundingMode : Z) (exact : bool) : SF Z :=
  let invalid := softfloat_raiseFlags softfloat_flag_invalid ;;
                 sf_ret (if sign then i64_fromNegOverflow else i64_fromPosOverflow) in
  match increment64 roundingMode sign sig sigExtra with
  | None => invalid
  | Some sig =>
    let z := s64 (if sign then neg64 sig else sig) in
    if z2b z && xorb (z <? 0) sign then invalid
    else raise_if (exact && z2b sigExtra) softfloat_flag_inexact ;; sf_ret z
  end.

(** ** From floating point to integers *)

(** [sig64] of the 32-bit conversions of [f32]: 12 bits of fraction. *)
Definition f32_fixed32 (exp sig : Z) : Z :=
  let sig := if z2b exp then sig |w 0x00800000 else sig in
  let sig64 := sig <<w 32 in
  let shiftDist := 0xAA - exp in
  if 0 <? shiftDist then softfloat_shiftRightJam64 sig64 shiftDist else sig64.

Definition f32_to_ui32 (a roundingMode : Z) (exact : bool) : SF Z :=
  let sign := signF32UI a in
  let exp := expF32UI a in
  let sig := fracF32UI a in
  let sign := if (exp =? 0xFF) && z2b sig then false else sign in
  softfloat_roundToUI32 sign (f32_fixed32 exp sig) roundingMode exact.

Definition f32_to_i32 (a roundingMode : Z) (exact : bool) : SF Z :=
  let sign := signF32UI a in
  let exp := expF32UI a in
  let sig := fracF32UI a in
  let sign := if (exp =? 0xFF) && z2b sig then false else sign in
  softfloat_roundToI32 sign (f32_fixed32 exp sig) roundingMode exact.

(** [sig64] and [extra] of the 64-bit conversions of [f32]. *)
Definition f32_fixed64 (exp sig shiftDist : Z) : uint64_extra :=
  let sig := if z2b exp then sig |w 0x00800000 else sig in
  let sig64 := sig <<w 40 in
  if z2b shiftDist then softfloat_shiftRightJam64Extra sig64 0 shiftDist else mk_uint64_extra sig64 0.

Definition f32_to_ui64 (a roundingMode : Z) (exact : bool) : SF Z :=
  let sign := signF32UI a in
  let exp := expF32UI a in
  let sig := fracF32UI a in
  let shiftDist := 0xBE - exp in
  if shiftDist <? 0 then
    softfloat_raiseFlags softfloat_flag_invalid ;;
    sf_ret (if (exp =? 0xFF) && z2b sig then ui64_fromNaN
            else if sign then ui64_fromNegOverflow else ui64_fromPosOverflow)
  else
    let x := f32_fixed64 exp sig shiftDist in
    softfloat_roundToUI64 sign (v x) (extra x) roundingMode exact.

Definition f32_to_i64 (a roundingMode : Z) (exact : bool) : SF Z :=
  let sign := signF32UI a in
  let exp := expF32UI a in
  let sig := fracF32UI a in
  let shiftDist := 0xBE - exp in
  if shiftDist <? 0 then
    softfloat_raiseFlags softfloat_flag_invalid ;;
    sf_ret (if (exp =? 0xFF) && z2b sig then i64_fromNaN
            else if sign then i64_fromNegOverflow else i64_fromPosOverflow)
  else
    let x := f32_fixed64 exp sig shiftDist in
    softfloat_roundToI64 sign (v x) (extra x) roundingMode exact.

(** [sig] of the 32-bit conversions of [f64]: 12 bits of fraction. *)
Definition f64_fixed32 (exp sig : Z) : Z :=
  let sig := if z2b exp then sig |w 0x0010000000000000 else sig in
  let shiftDist := 0x427 - exp in
  if 0 <? shiftDist then softfloat_shiftRightJam64 sig shiftDist else sig.

Definition f64_to_ui32 (a roundingMode : Z) (exact : bool) : SF Z :=
  let sign := signF64UI a in
  let exp := expF64UI a in
  let sig := fracF64UI a in
  let sign := if (exp =? 0x7FF) && z2b sig then false else sign in
  softfloat_roundToUI32 sign (f64_fixed32 exp sig) roundingMode exact.

Definition f64_to_i32 (a roundingMode : Z) (exact : bool) : SF Z :=
  let sign := signF64UI a in
  let exp := expF64UI a in
  let sig := fracF64UI a in
  let sign := if (exp =? 0x7FF) && z2b sig then false else sign in
  softfloat_roundToI32 sign (f64_fixed32 exp sig) roundingMode exact.

(** [sigExtra] of the 64-bit conversions of [f64]; nothing when the shift to
    the left is too far. *)
Definition f64_fixed64 (exp sig : Z) : option uint64_extra :=
  let sig := if z2b exp then sig |w 0x0010000000000000 else sig in
  let shiftDist := 0x433 - exp in
  if shiftDist <=? 0 then
    if shiftDist <? -11 then None else Some (mk_uint64_extra (sig <<w (- shiftDist)) 0)
  else Some (softfloat_shiftRightJam64Extra sig 0 shiftDist).

Definition f64_to_ui64 (a roundingMode : Z) (exact : bool) : SF Z :=
  let sign := signF64UI a in
  let exp := expF64UI a in
  let sig := fracF64UI a in
  match f64_fixed64 exp sig with
  | Some x => softfloat_roundToUI64 sign (v x) (extra x) roundingMode exact
  | None =>
    softfloat_raiseFlags softfloat_flag_invalid ;;
    sf_ret (if (exp =? 0x7FF) && z2b (fracF64UI a) then ui64_fromNaN
            else if sign then ui64_fromNegOverflow else ui64_fromPosOverflow)
  end.

Definition f64_to_i64 (a roundingMode : Z) (exact : bool) : SF Z :=
  let sign := signF64UI a in
  let exp := expF64UI a in
  let sig := fracF64UI a in
  match f64_fixed64 exp sig with
  | Some x => softfloat_roundToI64 sign (v x) (extra x) roundingMode exact
  | None =>
    softfloat_raiseFlags softfloat_flag_invalid ;;
    sf_ret (if (exp =? 0x7FF) && z2b (fracF64UI a) then i64_fromNaN
            else if sign then i64_fromNegOverflow else i64_fromPosOverflow)
  end.

(** ** From integers to floating point *)

Definition ui32_to_f32 (a : Z) : SF Z :=
  if a =? 0 then sf_ret 0
  else if z2b (a &w 0x80000000) then softfloat_roundPackToF32 false 0x9D ((a >>w 1) |w (a &w 1))
  else softfloat_normRoundPackToF32 false 0x9C a.

Definition i32_to_f32 (a : Z) : SF Z :=
  let sign := a <? 0 in
  if (a &w 0x7FFFFFFF) =? 0 then ret_f32 (if sign then packToF32UI true 0x9E 0 else 0)
  else softfloat_normRoundPackToF32 sign 0x9C (if sign then neg64 (u64 a) else u64 a).

(** The magnitude [absA] to [f32]. *)
Definition abs64_to_f32 (sign : bool) (absA : Z) : SF Z :=
  let shiftDist := softfloat_countLeadingZeros64 absA - 40 in
  if 0 <=? shiftDist then
    ret_f32 (if absA =? 0 then 0 else packToF32UI sign (0x95 - shiftDist) (absA <<w shiftDist))
  else
    let shiftDist := shiftDist + 7 in
    let sig := if shiftDist <? 0 then softfloat_shortShiftRightJam64 absA (- shiftDist)
               else absA <<w shiftDist in
    softfloat_roundPackToF32 sign (0x9C - shiftDist) sig.

Definition ui64_to_f32 (a : Z) : SF Z := abs64_to_f32 false a.
Definition i64_to_f32 (a : Z) : SF Z :=
  let sign := a <? 0 in
  abs64_to_f32 sign (if sign then neg64 (u64 a) else u64 a).

(** The nonzero 32-bit magnitude [absA] to [f64], exactly. *)
Definition abs32_to_f64 (sign : bool) (absA : Z) : Z :=
  let shiftDist := softfloat_countLeadingZeros32 (u32 absA) + 21 in
  packToF64UI sign (0x432 - shiftDist) (absA <<w shiftDist).
Definition ui32_to_f64 (a : Z) : SF Z := ret_f64 (if a =? 0 then 0 else abs32_to_f64 false a).
Definition i32_to_f64 (a : Z) : SF Z :=
  ret_f64 (if a =? 0 then 0
           else let sign := a <? 0 in abs32_to_f64 sign (if sign then neg64 (u64 a) else u64 a)).

Definition ui64_to_f64 (a : Z) : SF Z :=
  if a =? 0 then sf_ret 0
  else if z2b (a &w 0x8000000000000000)
  then softfloat_roundPackToF64 false 0x43D (softfloat_shortShiftRightJam64 a 1)
  else softfloat_normRoundPackToF64 false 0x43C a.

Definition i64_to_f64 (a : Z) : SF Z :=
  let sign := a <? 0 in
  if (a &w 0x7FFFFFFFFFFFFFFF) =? 0 then ret_f64 (if sign then packToF64UI true 0x43E 0 else 0)
  else softfloat_normRoundPackToF64 sign 0x43C (if sign then neg64 (u64 a) else u64 a).

(** ** Between the formats *)

Definition f32_to_f64 (a : Z) : SF Z :=
  let sign := signF32UI a in
  let exp := expF32UI a in
  let frac := fracF32UI a in
  if exp =? 0xFF then
    if z2b frac then
      raise_if (negb (z2b (a &w 0x00400000))) softfloat_flag_invalid ;; ret_f64 defaultNaNF64UI
    else ret_f64 (packToF64UI sign 0x7FF 0)
  else if (exp =? 0) && (frac =? 0) then ret_f64 (packToF64UI sign 0 0)
  else
    let '(exp, frac) :=
      if exp =? 0 then let (e, s) := softfloat_normSubnormalF32Sig frac in (e - 1, s) else (exp, frac) in
    ret_f64 (packToF64UI sign (exp + 0x380) (frac <<w 29)).

Definition f64_to_f32 (a : Z) : SF Z :=
  let sign := signF64UI a in
  let exp := expF64UI a in
  let frac := fracF64UI a in
  if exp =? 0x7FF then
    if z2b frac then
      raise_if (negb (z2b (a &w 0x0008000000000000))) softfloat_flag_invalid ;; ret_f32 defaultNaNF32UI
    else ret_f32 (packToF32UI sign 0xFF 0)
  else
    let frac32 := softfloat_shortShiftRightJam64 frac 22 in
    if (exp |w frac32) =? 0 then ret_f32 (packToF32UI sign 0 0)
    else softfloat_roundPackToF32 sign (exp - 0x381) (frac32 |w 0x40000000).
