(* ===== verification/Ieee.v ===== *)
(** * Ieee: reference definitions of floating-point arithmetic

    IEEE 754 arithmetic on exact values: a datum is decoded to a sign and a
    dyadic number, an operation is done on integers without rounding, and the
    exact rational result is rounded once.  The formats are parameters.  The
    rounding modes and flags are numbered as in [softfloat.h]; tininess is
    detected after rounding and NaN results are the canonical quiet NaN, as
    the RISC-V manual requires. *)
From Stdlib Require Import ZArith Lia Bool List.
From stdpp Require Import base list.
From S2P Require Import Prelude SoftFloat.
#[local] Open Scope Z_scope.

Record format := mk_format { width : Z; prec : Z; emax : Z }.
Definition binary32 : format := mk_format 32 24 127.
Definition binary64 : format := mk_format 64 53 1023.

(** A decoded operand; [Finite s m e] is [(-1)^s * m * 2^e] with [0 < m]. *)
Inductive datum :=
| Nan (signaling : bool)
| Infinity (s : bool)
| Zero (s : bool)
| Finite (s : bool) (m e : Z).

(** ** Rounding a rational number *)

(** [n / d * 2 ^ k] as a fraction. *)
Definition scale (n d k : Z) : Z * Z := if 0 <=? k then (n * 2 ^ k, d) else (n, d * 2 ^ (- k)).

(** The [l] with [2 ^ l <= n / d < 2 ^ (l + 1)]. *)
Definition ilog2 (n d : Z) : Z :=
  let k := Z.log2 n - Z.log2 d in
  let (N, D) := scale n d (- k) in
  if D <=? N then k else k - 1.

(** Whether the magnitude [N / D] is rounded up: from the parity of the
    quotient, the comparison of the remainder with one half and whether there
    is one. *)
Definition round_up (mode : Z) (s odd : bool) (half : comparison) (inexact : bool) : bool :=
  if mode =? softfloat_round_near_even then
    match half with Gt => true | Eq => odd | Lt => false end
  else if mode =? softfloat_round_near_maxMag then
    match half with Lt => false | _ => true end
  else if mode =? softfloat_round_min then s && inexact
  else if mode =? softfloat_round_max then negb s && inexact
  else false.

(** [N / D] rounded to an integer, and whether that is inexact. *)
Definition rounded (mode : Z) (s : bool) (N D : Z) : Z * bool :=
  let m := N / D in
  let r := N mod D in
  let inexact := negb (r =? 0) in
  (if mode =? softfloat_round_odd then if inexact then Z.lor m 1 else m
   else m + b2z (round_up mode s (Z.odd m) (2 * r ?= D) inexact), inexact).

Section Format.
Variable F : format.

(** Exponents of the least normal number and of the least unit in the last
    place; the biased exponent of infinities. *)
Definition emin : Z := 1 - emax F.
Definition qmin : Z := emin - (prec F - 1).
Definition einf : Z := 2 ^ (width F - prec F) - 1.

Definition sign_bits (s : bool) : Z := b2z s * 2 ^ (width F - 1).
Definition zero_bits (s : bool) : Z := sign_bits s.
Definition inf_bits (s : bool) : Z := sign_bits s + einf * 2 ^ (prec F - 1).
Definition qnan_bits : Z := einf * 2 ^ (prec F - 1) + 2 ^ (prec F - 2).

Definition decode (b : Z) : datum :=
  let frac := b mod 2 ^ (prec F - 1) in
  let ex := b / 2 ^ (prec F - 1) mod 2 ^ (width F - prec F) in
  let s := Z.testbit b (width F - 1) in
  if ex =? einf then if frac =? 0 then Infinity s else Nan (negb (Z.testbit frac (prec F - 2)))
  else if ex =? 0 then if frac =? 0 then Zero s else Finite s frac qmin
  else Finite s (2 ^ (prec F - 1) + frac) (qmin + ex - 1).

(** [(-1)^s * n / d * 2 ^ e], for positive [n] and [d], in the format: the
    bits and the flags.  [q] is the exponent of the result's last place. *)
Definition round (mode : Z) (s : bool) (n d e : Z) : Z * Z :=
  let l := e + ilog2 n d in
  let at_quantum q := let (N, D) := scale n d (e - q) in rounded mode s N D in
  let q := Z.max (l - (prec F - 1)) qmin in
  let (m, inexact) := at_quantum q in
  if 2 ^ (emax F + 1 - q) <=? m then
    (if (mode =? softfloat_round_near_even) || (mode =? softfloat_round_near_maxMag) || (mode =? round_away s)
     then inf_bits s else inf_bits s - 1,
     Z.lor softfloat_flag_overflow softfloat_flag_inexact)
  else
    let tiny := (l <? emin) && ((at_quantum (l - (prec F - 1))).1 <? 2 ^ (emin - (l - (prec F - 1)))) in
    (sign_bits s + (q - qmin) * 2 ^ (prec F - 1) + m,
     if inexact then Z.lor (if tiny then softfloat_flag_underflow else 0) softfloat_flag_inexact else 0).

(** ** Operations *)

Definition invalid : Z * Z := (qnan_bits, softfloat_flag_invalid).
Definition nan_result (sa sb : bool) : Z * Z := (qnan_bits, if sa || sb then softfloat_flag_invalid else 0).

Definition opp (x : datum) : datum :=
  match x with
  | Nan q => Nan q | Infinity s => Infinity (negb s) | Zero s => Zero (negb s) | Finite s m e => Finite (negb s) m e
  end.

Definition signed (s : bool) (m : Z) : Z := if s then - m else m.

(** The exact sum of two finite numbers, which may be zeros. *)
Definition round_sum (mode : Z) (s1 : bool) (m1 e1 : Z) (s2 : bool) (m2 e2 : Z) : Z * Z :=
  let e := Z.min e1 e2 in
  let z := signed s1 (m1 * 2 ^ (e1 - e)) + signed s2 (m2 * 2 ^ (e2 - e)) in
  if z =? 0 then (zero_bits (if eqb s1 s2 then s1 else mode =? softfloat_round_min), 0)
  else round mode (z <? 0) (Z.abs z) 1 e.

Definition plus (mode : Z) (x y : datum) : Z * Z :=
  match x, y with
  | Nan sx, Nan sy => nan_result sx sy
  | Nan sx, _ => nan_result sx false
  | _, Nan sy => nan_result false sy
  | Infinity sx, Infinity sy => if eqb sx sy then (inf_bits sx, 0) else invalid
  | Infinity s, _ | _, Infinity s => (inf_bits s, 0)
  | Zero sx, Zero sy => round_sum mode sx 0 qmin sy 0 qmin
  | Zero sx, Finite sy my ey => round_sum mode sx 0 qmin sy my ey
  | Finite sx mx ex, Zero sy => round_sum mode sx mx ex sy 0 qmin
  | Finite sx mx ex, Finite sy my ey => round_sum mode sx mx ex sy my ey
  end.
Definition add (mode a b : Z) : Z * Z := plus mode (decode a) (decode b).
Definition sub (mode a b : Z) : Z * Z := plus mode (decode a) (opp (decode b)).

Definition mul (mode a b : Z) : Z * Z :=
  match decode a, decode b with
  | Nan sa, Nan sb => nan_result sa sb
  | Nan sa, _ => nan_result sa false
  | _, Nan sb => nan_result false sb
  | Infinity _, Zero _ | Zero _, Infinity _ => invalid
  | Infinity sa, (Infinity sb | Finite sb _ _) | Finite sa _ _, Infinity sb => (inf_bits (xorb sa sb), 0)
  | Zero sa, (Zero sb | Finite sb _ _) | Finite sa _ _, Zero sb => (zero_bits (xorb sa sb), 0)
  | Finite sa ma ea, Finite sb mb eb => round mode (xorb sa sb) (ma * mb) 1 (ea + eb)
  end.

Definition div (mode a b : Z) : Z * Z :=
  match decode a, decode b with
  | Nan sa, Nan sb => nan_result sa sb
  | Nan sa, _ => nan_result sa false
  | _, Nan sb => nan_result false sb
  | Infinity _, Infinity _ | Zero _, Zero _ => invalid
  | Infinity sa, (Zero sb | Finite sb _ _) => (inf_bits (xorb sa sb), 0)
  | Finite sa _ _, Zero sb => (inf_bits (xorb sa sb), softfloat_flag_infinite)
  | (Zero sa | Finite sa _ _), Infinity sb | Zero sa, Finite sb _ _ => (zero_bits (xorb sa sb), 0)
  | Finite sa ma ea, Finite sb mb eb => round mode (xorb sa sb) ma mb (ea - eb)
  end.

(** [a * b + c], rounded once. *)
Definition fma (mode a b c : Z) : Z * Z :=
  let snan x := match x with Nan q => q | _ => false end in
  let is_nan x := match x with Nan _ => true | _ => false end in
  let a := decode a in let b := decode b in let c := decode c in
  match a, b with
  | Infinity _, Zero _ | Zero _, Infinity _ => invalid
  | _, _ =>
    if is_nan a || is_nan b || is_nan c then nan_result (snan a || snan b) (snan c)
    else
      let product := match a, b with
        | (Infinity sa | Zero sa | Finite sa _ _), (Infinity sb | Zero sb | Finite sb _ _) =>
          let s := xorb sa sb in
          match a, b with
          | Finite _ ma ea, Finite _ mb eb => Finite s (ma * mb) (ea + eb)
          | Infinity _, _ | _, Infinity _ => Infinity s
          | _, _ => Zero s
          end
        | _, _ => Nan false
        end in
      plus mode product c
  end.

(** ** Comparisons *)

(** The order of two operands neither of which is a NaN. *)
Definition compare (x y : datum) : comparison :=
  let num z := match z with Finite s m _ => signed s m | _ => 0 end in
  let exp z := match z with Finite _ _ e => e | _ => qmin end in
  match x, y with
  | Infinity sx, Infinity sy => if eqb sx sy then Eq else if sx then Lt else Gt
  | Infinity s, _ => if s then Lt else Gt
  | _, Infinity s => if s then Gt else Lt
  | _, _ => let e := Z.min (exp x) (exp y) in (num x * 2 ^ (exp x - e) ?= num y * 2 ^ (exp y - e))
  end.

(** A comparison with the flag of unordered operands: signalling NaNs only,
    or all. *)
Definition compare_with (test : comparison -> bool) (quiet : bool) (a b : Z) : bool * Z :=
  match decode a, decode b with
  | Nan sa, Nan sb => (false, if negb quiet || sa || sb then softfloat_flag_invalid else 0)
  | Nan s, _ | _, Nan s => (false, if negb quiet || s then softfloat_flag_invalid else 0)
  | x, y => (test (compare x y), 0)
  end.
Definition is_eq (c : comparison) : bool := match c with Eq => true | _ => false end.
Definition is_lt (c : comparison) : bool := match c with Lt => true | _ => false end.
Definition is_le (c : comparison) : bool := match c with Gt => false | _ => true end.

(** ** Conversions *)

Definition of_int (mode z : Z) : Z * Z := if z =? 0 then (0, 0) else round mode (z <? 0) (Z.abs z) 1 0.

(** To the integers from [lo] to [hi]: saturating, invalid when the rounded
    value is out of range; NaN converts to [hi]. *)
Definition to_int (lo hi mode a : Z) : Z * Z :=
  match decode a with
  | Nan _ => (hi, softfloat_flag_invalid)
  | Infinity s => (if s then lo else hi, softfloat_flag_invalid)
  | Zero _ => (0, 0)
  | Finite s m e =>
    let (N, D) := scale m 1 e in
    let (i, inexact) := rounded mode s N D in
    let z := signed s i in
    if (lo <=? z) && (z <=? hi) then (z, if inexact then softfloat_flag_inexact else 0)
    else (if s then lo else hi, softfloat_flag_invalid)
  end.
End Format.

(** From format [F] to format [G]. *)
Definition convert (F G : format) (mode a : Z) : Z * Z :=
  match decode F a with
  | Nan s => nan_result G s false
  | Infinity s => (inf_bits G s, 0)
  | Zero s => (zero_bits G s, 0)
  | Finite s m e => round G mode s m 1 e
  end.

(** What a computation of SoftFloat does when it implements a reference
    result: the same value, its flags raised, the mode kept. *)
Definition implements {A : Type} (m : SF A) (e : fenv_t) (r : A * Z) : Prop :=
  m e = (fst r, mk_fenv (softfloat_roundingMode e) (Z.lor (softfloat_exceptionFlags e) (snd r))).

Definition valid_mode (mode : Z) : Prop := 0 <= mode <= 5.
