(* ===== verification/Sticky.v ===== *)
(** * Sticky: rounding from a significand with a sticky bit

    SoftFloat carries a significand with guard bits whose lowest bit is
    "jammed": it stands for all bits below.  [sticky k N D sig] says that
    [sig] and the exact value [N / D] compare the same way with every multiple
    of [2 ^ k]; that is all that rounding at more than [k] bits looks at.  The
    operations on significands preserve it, and [round_sticky] computes the
    reference rounding of the exact value from [sig] alone. *)
From Stdlib Require Import ZArith Lia Bool List.
From stdpp Require Import base list.
From S2P Require Import Prelude SoftFloat Ieee.
#[local] Open Scope Z_scope.

(** ** Fractions *)

Lemma compare_mul_r a b c : 0 < c -> (a * c ?= b * c) = (a ?= b).
Proof. intros. symmetry. now apply Zmult_compare_compat_r, Z.lt_gt. Qed.

Lemma compare_sub a b c : (a - b ?= c) = (a ?= c + b).
Proof. destruct (Z.compare_spec a (c + b)), (Z.compare_spec (a - b) c); lia || reflexivity. Qed.
Lemma compare_add a b c : (a ?= b + c) = (a - b ?= c).
Proof. destruct (Z.compare_spec a (b + c)), (Z.compare_spec (a - b) c); lia || reflexivity. Qed.

(** [scale n d k], up to a power of two that makes all exponents positive. *)
Lemma scale_spec n d k E : 0 < d -> 0 <= E -> 0 <= E + k ->
  let (N, D) := scale n d k in 0 < D /\ N * d * 2 ^ E = n * 2 ^ (E + k) * D.
Proof.
  intros Hd HE Hk. unfold scale. destruct (Z.leb_spec 0 k).
  - split; [lia|]. rewrite Z.pow_add_r by lia. lia.
  - split; [pose proof (pow2_pos (- k) ltac:(lia)); nia|].
    replace E with (E + k + - k) at 1 by lia. rewrite Z.pow_add_r by lia. lia.
Qed.

Lemma scale_pos n d k : 0 < n -> 0 < (scale n d k).1.
Proof. unfold scale. intros. destruct (Z.leb_spec 0 k); cbn [fst]; [pose proof (pow2_pos k); nia|lia]. Qed.

(** Fractions of equal value. *)
Lemma scale_same n d k n' d' k' E : 0 < d -> 0 < d' -> E <= k -> E <= k' ->
  n * d' * 2 ^ (k - E) = n' * d * 2 ^ (k' - E) ->
  let (N, D) := scale n d k in let (N', D') := scale n' d' k' in N * D' = N' * D.
Proof.
  intros Hd Hd' L L' H. set (X := Z.max 0 (- E)).
  pose proof (scale_spec n d k X Hd ltac:(lia) ltac:(lia)) as S.
  pose proof (scale_spec n' d' k' X Hd' ltac:(lia) ltac:(lia)) as S'.
  destruct (scale n d k) as [N D]. destruct (scale n' d' k') as [N' D'].
  destruct S as [P S], S' as [P' S'].
  pose proof (pow2_pos X ltac:(lia)). pose proof (pow2_pos (X + E) ltac:(lia)).
  replace (X + k) with ((k - E) + (X + E)) in S by lia. replace (X + k') with ((k' - E) + (X + E)) in S' by lia.
  rewrite Z.pow_add_r in S, S' by lia.
  apply (Z.mul_cancel_r _ _ (d * d' * 2 ^ X)); [nia|].
  transitivity (N * d * 2 ^ X * (D' * d')); [lia|]. rewrite S.
  transitivity (N' * d' * 2 ^ X * (D * d)); [|lia]. rewrite S'.
  transitivity ((n * d' * 2 ^ (k - E)) * (2 ^ (X + E) * D * D')); [lia|]. rewrite H. lia.
Qed.

Lemma div_mod_ext N D N' D' : 0 < D -> 0 < D' -> N * D' = N' * D ->
  N / D = N' / D' /\ (N mod D) * D' = (N' mod D') * D.
Proof.
  intros P P' E. pose proof (Z.div_mod N D ltac:(lia)) as R. pose proof (Z.mod_pos_bound N D P).
  pose proof (Z.div_mod N' D' ltac:(lia)) as R'. pose proof (Z.mod_pos_bound N' D' P').
  assert (Q : N / D = N' / D').
  { assert (E2 : (D * D') * (N / D) + (N mod D) * D' = (D * D') * (N' / D') + (N' mod D') * D) by nia.
    assert (0 <= (N mod D) * D' < D * D') by nia. assert (0 <= (N' mod D') * D < D * D') by nia. nia. }
  split; [exact Q|]. rewrite Q in R. nia.
Qed.

Lemma rounded_ext mode s N D N' D' : 0 < D -> 0 < D' -> N * D' = N' * D ->
  rounded mode s N D = rounded mode s N' D'.
Proof.
  intros P P' E. destruct (div_mod_ext N D N' D' P P' E) as [Q R]. unfold rounded. rewrite Q.
  assert (Zr : (N mod D =? 0) = (N' mod D' =? 0)) by
    (destruct (Z.eqb_spec (N mod D) 0), (Z.eqb_spec (N' mod D') 0); nia || reflexivity).
  assert (H : (2 * (N mod D) ?= D) = (2 * (N' mod D') ?= D')).
  { rewrite <- (compare_mul_r (2 * (N mod D)) D D' P'), <- (compare_mul_r (2 * (N' mod D')) D' D P). f_equal; lia. }
  now rewrite Zr, H.
Qed.

(** ** Sticky significands *)

Definition sticky (k N D sig : Z) : Prop := forall c, (c * 2 ^ k * D ?= N) = (c * 2 ^ k ?= sig).

(** [sig] shifted right by [j], the bits shifted off jammed. *)
Definition jam (sig j : Z) : Z := if sig mod 2 ^ j =? 0 then sig / 2 ^ j else Z.lor (sig / 2 ^ j) 1.

Lemma sticky_exact k D sig : 0 < D -> sticky k (sig * D) D sig.
Proof. intros P c. now rewrite compare_mul_r. Qed.

Lemma sticky_weaken k k' N D sig : 0 <= k <= k' -> sticky k N D sig -> sticky k' N D sig.
Proof.
  intros L H c. specialize (H (c * 2 ^ (k' - k))).
  replace (c * 2 ^ (k' - k) * 2 ^ k) with (c * 2 ^ k') in H; [exact H|].
  rewrite <- Z.mul_assoc, <- Z.pow_add_r by lia. do 2 f_equal. lia.
Qed.

Lemma sticky_ratio k N D N' D' sig : 0 < D -> 0 < D' -> N * D' = N' * D -> sticky k N D sig -> sticky k N' D' sig.
Proof.
  intros P P' E H c. rewrite <- (H c).
  rewrite <- (compare_mul_r (c * 2 ^ k * D') N' D P), <- (compare_mul_r (c * 2 ^ k * D) N D' P'). f_equal; lia.
Qed.

Lemma sticky_shl k j N D sig : 0 <= k -> 0 <= j -> sticky k N D sig -> sticky (k + j) (N * 2 ^ j) D (sig * 2 ^ j).
Proof.
  intros Hk Hj H c. specialize (H c). rewrite Z.pow_add_r by lia. pose proof (pow2_pos j Hj).
  rewrite !Z.mul_assoc. replace (c * 2 ^ k * 2 ^ j * D) with (c * 2 ^ k * D * 2 ^ j) by lia.
  now rewrite !compare_mul_r.
Qed.

Lemma lor_1 q : Z.lor q 1 = if Z.odd q then q else q + 1.
Proof.
  destruct (Z.odd q) eqn:O.
  - apply Z.bits_inj'. intros i Hi. rewrite Z.lor_spec. destruct (Z.eq_dec i 0) as [->|N].
    + now rewrite Z.bit0_odd, O.
    + change 1 with (2 ^ 0). rewrite Z.pow2_bits_false by lia. apply orb_false_r.
  - assert (E : Z.land q 1 = 0).
    { change 1 with (Z.ones 1). rewrite Z.land_ones by lia. change (2 ^ 1) with 2. rewrite Zmod_odd, O. reflexivity. }
    pose proof (Z.add_lor_land q 1). lia.
Qed.

Lemma jam_compare sig j c : 0 <= j -> Z.even c = true -> (c ?= jam sig j) = (c * 2 ^ j ?= sig).
Proof.
  intros Hj Hc. unfold jam. pose proof (pow2_pos j Hj) as P.
  pose proof (Z.div_mod sig (2 ^ j) ltac:(lia)) as R. pose proof (Z.mod_pos_bound sig (2 ^ j) P).
  destruct (Z.eqb_spec (sig mod 2 ^ j) 0) as [E|N].
  - rewrite <- (compare_mul_r c (sig / 2 ^ j) (2 ^ j) P). f_equal. lia.
  - rewrite lor_1. apply Z.even_spec in Hc as [h ->]. destruct (Z.odd (sig / 2 ^ j)) eqn:O.
    + apply Z.odd_spec in O as [q Eq]. rewrite Eq in *.
      destruct (Z.compare_spec (2 * h) (2 * q + 1)), (Z.compare_spec (2 * h * 2 ^ j) sig); try reflexivity; nia.
    + rewrite <- Z.negb_even in O. apply negb_false_iff, Z.even_spec in O as [q Eq]. rewrite Eq in *.
      destruct (Z.compare_spec (2 * h) (2 * q + 1)), (Z.compare_spec (2 * h * 2 ^ j) sig); try reflexivity; nia.
Qed.

Lemma sticky_jam k k' j N D sig : 0 <= j -> 1 <= k' -> 0 <= k <= k' + j -> sticky k N D sig ->
  sticky k' N (D * 2 ^ j) (jam sig j).
Proof.
  intros Hj Hk' Hk H c. rewrite jam_compare; [|assumption|].
  - apply (sticky_weaken k (k' + j)) in H; [|lia]. rewrite <- !Z.mul_assoc.
    replace (2 ^ k' * (D * 2 ^ j)) with (2 ^ (k' + j) * D) by (rewrite Z.pow_add_r by lia; lia).
    replace (2 ^ k' * 2 ^ j) with (2 ^ (k' + j)) by (rewrite Z.pow_add_r by lia; lia).
    rewrite Z.mul_assoc. apply H.
  - rewrite Z.even_mul, Z.even_pow by lia. apply orb_true_r.
Qed.

Lemma sticky_add k N D a b : sticky k N D b -> sticky k (a * 2 ^ k * D + N) D (a * 2 ^ k + b).
Proof.
  intros H c. rewrite !compare_add. rewrite <- !Z.mul_sub_distr_r. apply H.
Qed.

Lemma sticky_sub k N D a b : sticky k N D b -> sticky k (a * 2 ^ k * D - N) D (a * 2 ^ k - b).
Proof.
  intros H c. rewrite <- !Z.add_opp_r, !compare_add.
  assert (O : forall x y, (x ?= - y) = CompOpp (- x ?= y)).
  { intros x y. rewrite <- Z.compare_opp. now rewrite Z.opp_involutive, Z.compare_antisym. }
  rewrite !O. f_equal. specialize (H (a - c)).
  replace (- (c * 2 ^ k * D - a * 2 ^ k * D)) with ((a - c) * 2 ^ k * D) by lia.
  now replace (- (c * 2 ^ k - a * 2 ^ k)) with ((a - c) * 2 ^ k) by lia.
Qed.

(** A quotient, jammed when its low bits do not show that it is inexact. *)
Lemma sticky_quotient k N D : 1 <= k -> 0 < D -> 0 <= N ->
  sticky k N D (if (N / D) mod 2 ^ k =? 0 then Z.lor (N / D) (b2z (negb (D * (N / D) =? N))) else N / D).
Proof.
  intros Hk P HN c. pose proof (Z.div_mod N D ltac:(lia)) as R. pose proof (Z.mod_pos_bound N D P).
  set (q := N / D) in *. pose proof (pow2_pos k ltac:(lia)).
  assert (Ev : 2 ^ k = 2 * 2 ^ (k - 1)) by (apply pow2_half; lia).
  destruct (Z.eqb_spec (q mod 2 ^ k) 0) as [E|E].
  - destruct (Z.eqb_spec (D * q) N) as [Ex|Nx]; cbn [negb b2z].
    + rewrite Z.lor_0_r. rewrite <- Ex, (Z.mul_comm D q). now rewrite compare_mul_r.
    + pose proof (Z.div_mod q (2 ^ k) ltac:(lia)) as Rq. rewrite E in Rq.
      rewrite lor_1. replace (Z.odd q) with false.
      * destruct (Z.compare_spec (c * 2 ^ k * D) N), (Z.compare_spec (c * 2 ^ k) (q + 1)); try reflexivity; nia.
      * rewrite Rq, Z.add_0_r, Ev, <- Z.mul_assoc, Z.odd_mul. reflexivity.
  - pose proof (Z.div_mod q (2 ^ k) ltac:(lia)) as Rq. pose proof (Z.mod_pos_bound q (2 ^ k) ltac:(lia)).
    destruct (Z.compare_spec (c * 2 ^ k * D) N), (Z.compare_spec (c * 2 ^ k) q); try reflexivity; try nia.
    all: exfalso; apply E; replace q with (c * 2 ^ k) by nia; apply Z.mod_mul; lia.
Qed.

(** Rounding looks only at the sticky significand. *)
Lemma sticky_rounded g mode s N D sig : 1 <= g -> 0 < D -> 0 <= N -> sticky (g - 1) N D sig ->
  rounded mode s N (D * 2 ^ g) = rounded mode s sig (2 ^ g).
Proof.
  intros Hg P HN H. pose proof (pow2_pos g ltac:(lia)) as Pg. pose proof (pow2_half g ltac:(lia)) as Ev.
  set (h := 2 ^ (g - 1)) in *. set (m := sig / 2 ^ g).
  pose proof (Z.div_mod sig (2 ^ g) ltac:(lia)) as R. pose proof (Z.mod_pos_bound sig (2 ^ g) Pg) as B. fold m in R.
  pose proof (H (2 * m)) as H0. pose proof (H (2 * m + 1)) as H1. pose proof (H (2 * m + 2)) as H2. fold h in H0, H1, H2.
  assert (Lo : m * (D * 2 ^ g) <= N).
  { destruct (Z.compare_spec (2 * m * h * D) N), (Z.compare_spec (2 * m * h) sig); try discriminate; nia. }
  assert (Hi : N < (m + 1) * (D * 2 ^ g)).
  { destruct (Z.compare_spec ((2 * m + 2) * h * D) N), (Z.compare_spec ((2 * m + 2) * h) sig); try discriminate; nia. }
  assert (Q : N / (D * 2 ^ g) = m) by (symmetry; apply (Z.div_unique_pos _ _ _ (N - m * (D * 2 ^ g))); nia).
  pose proof (Z.div_mod N (D * 2 ^ g) ltac:(nia)) as R'. rewrite Q in R'.
  unfold rounded. rewrite Q. fold m.
  assert (Z0 : (N mod (D * 2 ^ g) =? 0) = (sig mod 2 ^ g =? 0)).
  { destruct (Z.eqb_spec (N mod (D * 2 ^ g)) 0), (Z.eqb_spec (sig mod 2 ^ g) 0); try reflexivity; exfalso;
      destruct (Z.compare_spec (2 * m * h * D) N), (Z.compare_spec (2 * m * h) sig); try discriminate; nia. }
  assert (C : (2 * (N mod (D * 2 ^ g)) ?= D * 2 ^ g) = (2 * (sig mod 2 ^ g) ?= 2 ^ g)).
  { rewrite (Z.compare_antisym (D * 2 ^ g)), (Z.compare_antisym (2 ^ g)). f_equal.
    destruct (Z.compare_spec ((2 * m + 1) * h * D) N), (Z.compare_spec ((2 * m + 1) * h) sig); try discriminate;
    destruct (Z.compare_spec (D * 2 ^ g) (2 * (N mod (D * 2 ^ g)))), (Z.compare_spec (2 ^ g) (2 * (sig mod 2 ^ g)));
    try reflexivity; nia. }
  now rewrite Z0, C.
Qed.

(** ** Logarithms *)

Lemma ilog2_spec n d : 0 < n -> 0 < d -> let (N, D) := scale n d (- ilog2 n d) in D <= N < 2 * D.
Proof.
  intros Hn Hd. unfold ilog2. set (k := Z.log2 n - Z.log2 d).
  pose proof (Z.log2_spec n Hn) as Ln. pose proof (Z.log2_spec d Hd) as Ld.
  pose proof (Z.log2_nonneg n). pose proof (Z.log2_nonneg d). rewrite Z.pow_succ_r in Ln, Ld by lia.
  set (E := Z.log2 n + Z.log2 d + 1).
  pose proof (scale_spec n d (- k) E Hd ltac:(lia) ltac:(lia)) as S.
  pose proof (scale_spec n d (- (k - 1)) E Hd ltac:(lia) ltac:(lia)) as S'.
  destruct (scale n d (- k)) as [N D] eqn:EN.
  assert (V : D < 2 * N /\ N < 2 * D).
  { destruct S as [P S]. replace (E + - k) with (2 * Z.log2 d + 1) in S by lia.
    replace E with (Z.log2 n + Z.log2 d + 1) in S by lia.
    replace (2 * Z.log2 d + 1) with (Z.log2 d + Z.log2 d + 1) in S by lia.
    rewrite !Z.pow_add_r in S by lia. change (2 ^ 1) with 2 in S.
    set (a := 2 ^ Z.log2 n) in *. set (b := 2 ^ Z.log2 d) in *.
    assert (0 < a) by (apply pow2_pos; lia). assert (0 < b) by (apply pow2_pos; lia).
    assert (K : N * (d * a) = n * b * D) by nia.
    assert (d * a < 2 * (n * b)) by nia. assert (n * b < 2 * (d * a)) by nia.
    split; apply (Z.mul_lt_mono_pos_r (d * a)); nia. }
  destruct (Z.leb_spec D N); rewrite ?EN; [lia|].
  destruct (scale n d (- (k - 1))) as [N' D'] eqn:EN'. destruct S as [P S], S' as [P' S'].
  replace (E + - (k - 1)) with (E + - k + 1) in S' by lia. rewrite Z.pow_add_r in S' by lia. change (2 ^ 1) with 2 in S'.
  assert (K : N' * D = 2 * N * D').
  { pose proof (pow2_pos E ltac:(lia)). apply (Z.mul_cancel_r _ _ (d * 2 ^ E)); [nia|].
    transitivity (N' * d * 2 ^ E * D); [lia|]. rewrite S'. transitivity (2 * (N * d * 2 ^ E) * D'); [|lia]. rewrite S. lia. }
  nia.
Qed.

(** [2 ^ k <= n / d < 2 ^ (k + 1)] determines [k]. *)
Lemma ilog2_unique n d k : 0 < n -> 0 < d ->
  (let (N, D) := scale n d (- k) in D <= N < 2 * D) -> ilog2 n d = k.
Proof.
  intros Hn Hd H. pose proof (ilog2_spec n d Hn Hd) as H'. set (l := ilog2 n d) in *.
  set (E := Z.max 0 (Z.max l k)).
  pose proof (scale_spec n d (- k) E Hd ltac:(lia) ltac:(lia)) as S.
  pose proof (scale_spec n d (- l) E Hd ltac:(lia) ltac:(lia)) as S'.
  destruct (scale n d (- k)) as [N D]. destruct (scale n d (- l)) as [N' D']. destruct S as [P S], S' as [P' S'].
  pose proof (pow2_pos E ltac:(lia)). pose proof (pow2_pos (E + - k) ltac:(lia)). pose proof (pow2_pos (E + - l) ltac:(lia)).
  assert (B : d * 2 ^ E <= n * 2 ^ (E + - k) < 2 * (d * 2 ^ E)) by (split; nia).
  assert (B' : d * 2 ^ E <= n * 2 ^ (E + - l) < 2 * (d * 2 ^ E)) by (split; nia).
  destruct (Z.lt_trichotomy l k) as [L|[?|L]]; [|assumption|]; exfalso.
  - replace (E + - l) with (E + - k + 1 + (k - l - 1)) in B' by lia. rewrite !Z.pow_add_r in B' by lia.
    pose proof (pow2_pos (k - l - 1) ltac:(lia)). change (2 ^ 1) with 2 in B'. nia.
  - replace (E + - k) with (E + - l + 1 + (l - k - 1)) in B by lia. rewrite !Z.pow_add_r in B by lia.
    pose proof (pow2_pos (l - k - 1) ltac:(lia)). change (2 ^ 1) with 2 in B. nia.
Qed.

(** ** The reference rounding *)

Lemma scale_add n d k j : 0 < d -> 0 <= j ->
  let (N, D) := scale n d k in let (N', D') := scale n d (k - j) in 0 < D /\ 0 < D' /\ N * D' = N' * (D * 2 ^ j).
Proof.
  intros Hd Hj. set (E := Z.max 0 (Z.max (- k) (j - k))).
  pose proof (scale_spec n d k E Hd ltac:(lia) ltac:(lia)) as S.
  pose proof (scale_spec n d (k - j) E Hd ltac:(lia) ltac:(lia)) as S'.
  destruct (scale n d k) as [N D], (scale n d (k - j)) as [N' D']. destruct S as [P S], S' as [P' S'].
  split; [exact P|]. split; [exact P'|].
  replace (E + k) with (E + (k - j) + j) in S by lia. rewrite Z.pow_add_r in S by lia.
  pose proof (pow2_pos E ltac:(lia)). apply (Z.mul_cancel_r _ _ (d * 2 ^ E)); [nia|].
  transitivity (N * d * 2 ^ E * D'); [lia|]. rewrite S.
  transitivity (N' * d * 2 ^ E * (D * 2 ^ j)); [|lia]. rewrite S'. lia.
Qed.

Lemma rounded_bounds mode s N D : 0 < D -> 0 <= N -> N / D <= (rounded mode s N D).1 <= N / D + 1.
Proof.
  intros P HN. unfold rounded. cbn [fst]. pose proof (Z.div_pos N D HN P).
  destruct (mode =? softfloat_round_odd).
  - destruct (negb _); [|lia]. rewrite lor_1. destruct (Z.odd _); lia.
  - destruct (round_up _ _ _ _ _); cbn [b2z]; lia.
Qed.

Lemma jam_bounds sig j : 1 <= j -> 0 <= sig -> 0 <= jam sig j <= Z.max 1 sig.
Proof.
  intros Hj Hs. unfold jam. rewrite lor_1. pose proof (pow2_pos j ltac:(lia)).
  assert (B : 0 <= sig / 2 ^ j <= sig / 2).
  { split; [apply Z.div_pos; lia|]. replace (2 ^ j) with (2 * 2 ^ (j - 1)) by (rewrite (pow2_half j) by lia; lia).
    pose proof (pow2_pos (j - 1) ltac:(lia)). rewrite <- Z.div_div by lia.
    apply Z.div_le_upper_bound; [lia|]. assert (0 <= sig / 2) by (apply Z.div_pos; lia). nia. }
  pose proof (Z.div_mod sig 2 ltac:(lia)). pose proof (Z.mod_pos_bound sig 2 ltac:(lia)).
  destruct (_ =? 0); [|destruct (Z.odd _)]; lia.
Qed.

Section Rounding.
Variable F : format.
Variable g : Z.
Notation p := (prec F).
Hypothesis Hp : 1 < p.
Hypothesis He : 1 < emax F.
Hypothesis Hg : 2 <= g.

Definition at_quantum (mode : Z) (s : bool) (n d e q : Z) : Z * bool :=
  let (N, D) := scale n d (e - q) in rounded mode s N D.

Definition overflow_result (mode : Z) (s : bool) : Z * Z :=
  (if (mode =? softfloat_round_near_even) || (mode =? softfloat_round_near_maxMag) || (mode =? round_away s)
   then inf_bits F s else inf_bits F s - 1, Z.lor softfloat_flag_overflow softfloat_flag_inexact).

(** [round] from the exponent [l] of the value and its rounding at a quantum. *)
Definition round_from (mode : Z) (s : bool) (l : Z) (at_q : Z -> Z * bool) : Z * Z :=
  let q := Z.max (l - (p - 1)) (qmin F) in
  let (m, inexact) := at_q q in
  if 2 ^ (emax F + 1 - q) <=? m then overflow_result mode s
  else
    let tiny := (l <? emin F) && ((at_q (l - (p - 1))).1 <? 2 ^ (emin F - (l - (p - 1)))) in
    (sign_bits F s + (q - qmin F) * 2 ^ (p - 1) + m,
     if inexact then Z.lor (if tiny then softfloat_flag_underflow else 0) softfloat_flag_inexact else 0).

Lemma round_unfold mode s n d e : round F mode s n d e = round_from mode s (e + ilog2 n d) (at_quantum mode s n d e).
Proof. reflexivity. Qed.

(** Rounding depends only on the value. *)
Lemma round_ext mode s n d e n' d' e' E : 0 < n -> 0 < d -> 0 < n' -> 0 < d' -> E <= e -> E <= e' ->
  n * d' * 2 ^ (e - E) = n' * d * 2 ^ (e' - E) -> round F mode s n d e = round F mode s n' d' e'.
Proof.
  intros Hn Hd Hn' Hd' L L' H. rewrite !round_unfold.
  assert (A : forall q, let (N, D) := scale n d (e - q) in let (N', D') := scale n' d' (e' - q) in N * D' = N' * D).
  { intros q. apply (scale_same _ _ _ _ _ _ (E - q)); try lia.
    replace (e - q - (E - q)) with (e - E) by lia. now replace (e' - q - (E - q)) with (e' - E) by lia. }
  assert (Pos : forall q, 0 < (scale n d (e - q)).2 /\ 0 < (scale n' d' (e' - q)).2).
  { intros q. pose proof (scale_add n d (e - q) 0 Hd ltac:(lia)). pose proof (scale_add n' d' (e' - q) 0 Hd' ltac:(lia)).
    destruct (scale n d (e - q)), (scale n d (e - q - 0)), (scale n' d' (e' - q)), (scale n' d' (e' - q - 0)). cbn. tauto. }
  assert (Lq : e + ilog2 n d = e' + ilog2 n' d').
  { set (l := e' + ilog2 n' d'). assert (ilog2 n d = l - e); [|lia]. apply ilog2_unique; [assumption..|].
    specialize (A l). specialize (Pos l). pose proof (ilog2_spec n' d' Hn' Hd') as S.
    replace (- ilog2 n' d') with (e' - l) in S by lia. replace (- (l - e)) with (e - l) by lia.
    destruct (scale n d (e - l)) as [N D], (scale n' d' (e' - l)) as [N' D']. cbn in Pos. nia. }
  rewrite Lq. unfold round_from.
  assert (R : forall q, at_quantum mode s n d e q = at_quantum mode s n' d' e' q).
  { intros q. unfold at_quantum. specialize (A q). specialize (Pos q).
    destruct (scale n d (e - q)) as [N D], (scale n' d' (e' - q)) as [N' D']. cbn in Pos. apply rounded_ext; tauto. }
  now rewrite !R.
Qed.

(** Rounding and packing of a normalised significand with [g] guard bits;
    [exp] is the biased exponent less one. *)
Definition round_pack (mode : Z) (s : bool) (exp sig : Z) : Z * Z :=
  let m0 := (rounded mode s sig (2 ^ g)).1 in
  if exp <? 0 then
    let (m, inexact) := rounded mode s (jam sig (- exp)) (2 ^ g) in
    let tiny := (exp <? -1) || (m0 <? 2 ^ p) in
    (sign_bits F s + m,
     if inexact then Z.lor (if tiny then softfloat_flag_underflow else 0) softfloat_flag_inexact else 0)
  else
    let inexact := (rounded mode s sig (2 ^ g)).2 in
    if (2 * emax F - 1 <? exp) || ((2 * emax F - 1 =? exp) && (2 ^ p <=? m0)) then overflow_result mode s
    else (sign_bits F s + exp * 2 ^ (p - 1) + m0, if inexact then softfloat_flag_inexact else 0).

Section Sticky.
Variables (mode : Z) (s : bool) (n d e exp sig : Z).
Hypothesis Hn : 0 < n.
Hypothesis Hd : 0 < d.
Hypothesis Hsig : 2 ^ (p - 1 + g) <= sig < 2 ^ (p + g).
Let Q : Z := exp + qmin F.
Hypothesis St : let (N, D) := scale n d (e - (Q - g)) in sticky (g - 1) N D sig.

Lemma sticky_log : e + ilog2 n d = Q + p - 1.
Proof.
  assert (ilog2 n d = Q + p - 1 - e); [|lia]. apply ilog2_unique; [assumption..|].
  pose proof (scale_add n d (e - (Q - g)) (p - 1 + g) Hd ltac:(lia)) as A.
  replace (e - (Q - g) - (p - 1 + g)) with (- (Q + p - 1 - e)) in A by lia.
  destruct (scale n d (e - (Q - g))) as [N D], (scale n d (- (Q + p - 1 - e))) as [N' D'].
  destruct A as (P & P' & A). pose proof (St (2 ^ p)) as C1. pose proof (St (2 ^ (p + 1))) as C2.
  rewrite <- !Z.pow_add_r in C1, C2 by lia.
  replace (p + (g - 1)) with (p - 1 + g) in C1 by lia. replace (p + 1 + (g - 1)) with (p + g) in C2 by lia.
  assert (Ev : 2 ^ (p + g) = 2 * 2 ^ (p - 1 + g)) by (rewrite (pow2_half (p + g)) by lia; do 2 f_equal; lia).
  pose proof (pow2_pos (p - 1 + g) ltac:(lia)).
  assert (2 ^ (p - 1 + g) * D <= N).
  { destruct (Z.compare_spec (2 ^ (p - 1 + g) * D) N), (Z.compare_spec (2 ^ (p - 1 + g)) sig); try discriminate; lia. }
  assert (N < 2 ^ (p + g) * D).
  { destruct (Z.compare_spec (2 ^ (p + g) * D) N), (Z.compare_spec (2 ^ (p + g)) sig); try discriminate; lia. }
  nia.
Qed.

(** Rounding at the quantum [Q + j]. *)
Lemma sticky_at j : 0 <= j -> at_quantum mode s n d e (Q + j) = rounded mode s (if j =? 0 then sig else jam sig j) (2 ^ g).
Proof.
  intros Hj. unfold at_quantum. pose proof (scale_add n d (e - (Q - g)) (j + g) Hd ltac:(lia)) as A.
  replace (e - (Q - g) - (j + g)) with (e - (Q + j)) in A by lia.
  pose proof (scale_pos n d (e - (Q - g)) Hn) as PN.
  destruct (scale n d (e - (Q - g))) as [N D], (scale n d (e - (Q + j))) as [N' D'].
  destruct A as (P & P' & A). cbn [fst] in PN. rewrite Z.pow_add_r, Z.mul_assoc in A by lia.
  pose proof (pow2_pos j Hj). pose proof (pow2_pos g ltac:(lia)).
  rewrite (rounded_ext _ _ N' D' N (D * 2 ^ j * 2 ^ g)) by nia.
  destruct (Z.eqb_spec j 0) as [->|Nj].
  - rewrite Z.mul_1_r. apply sticky_rounded; [lia..|exact St].
  - apply sticky_rounded; [lia|nia|lia|]. apply (sticky_jam (g - 1)); [lia..|exact St].
Qed.

Lemma round_sticky : round F mode s n d e = round_pack mode s exp sig.
Proof.
  rewrite round_unfold, sticky_log. unfold round_from, round_pack.
  replace (Q + p - 1 - (p - 1)) with (Q + 0) by lia. rewrite (sticky_at 0) by lia. cbn [Z.eqb].
  pose proof (pow2_pos g ltac:(lia)) as Pg. pose proof (pow2_pos (p - 1) ltac:(lia)) as Pp.
  assert (Dv : sig / 2 ^ g < 2 ^ p).
  { apply Z.div_lt_upper_bound; [lia|]. rewrite <- Z.pow_add_r by lia. replace (g + p) with (p + g) by lia. lia. }
  assert (Dl : 2 ^ (p - 1) <= sig / 2 ^ g).
  { apply Z.div_le_lower_bound; [lia|]. rewrite <- Z.pow_add_r by lia. replace (g + (p - 1)) with (p - 1 + g) by lia. lia. }
  pose proof (pow2_pos (p - 1 + g) ltac:(lia)).
  pose proof (rounded_bounds mode s sig (2 ^ g) Pg ltac:(lia)) as B.
  set (r := rounded mode s sig (2 ^ g)) in *.
  assert (Eq : emin F = qmin F + (p - 1)) by (unfold qmin; lia).
  assert (Em : emax F + 1 - qmin F = 2 * emax F - 1 + p) by (unfold qmin, emin; lia).
  destruct (Z.ltb_spec exp 0) as [Neg|Pos].
  - replace (Z.max (Q + 0) (qmin F)) with (Q + - exp) by (unfold Q; lia).
    rewrite (sticky_at (- exp)) by lia. replace (- exp =? 0) with false by lia.
    pose proof (jam_bounds sig (- exp) ltac:(lia) ltac:(lia)) as J.
    pose proof (rounded_bounds mode s (jam sig (- exp)) (2 ^ g) Pg ltac:(lia)) as B'.
    assert (D' : jam sig (- exp) / 2 ^ g < 2 ^ p).
    { apply Z.div_lt_upper_bound; [lia|]. rewrite <- Z.pow_add_r by lia. replace (g + p) with (p + g) by lia. lia. }
    destruct (rounded mode s (jam sig (- exp)) (2 ^ g)) as [m inexact]. cbn [fst] in B'.
    replace (emax F + 1 - (Q + - exp)) with (2 * emax F - 1 + p) by (unfold Q; lia).
    assert (2 ^ p * 2 ^ 1 <= 2 ^ (2 * emax F - 1 + p)) by (rewrite <- Z.pow_add_r by lia; apply Z.pow_le_mono_r; lia).
    pose proof (pow2_pos p ltac:(lia)). change (2 ^ 1) with 2 in *.
    replace (2 ^ (2 * emax F - 1 + p) <=? m) with false by lia.
    replace (Q + - exp - qmin F) with 0 by (unfold Q; lia). rewrite Z.mul_0_l, Z.add_0_r.
    replace (Q + p - 1 <? emin F) with true by (unfold Q; lia). cbn [andb].
    replace (emin F - (Q + 0)) with (p + (- exp - 1)) by (unfold Q; lia).
    replace (r.1 <? 2 ^ (p + (- exp - 1))) with ((exp <? -1) || (r.1 <? 2 ^ p)); [now destruct inexact|].
    destruct (Z.ltb_spec exp (-1)); cbn [orb].
    + rewrite Z.pow_add_r by lia. assert (2 ^ 1 <= 2 ^ (- exp - 1)) by (apply Z.pow_le_mono_r; lia).
      change (2 ^ 1) with 2 in *. symmetry. apply Z.ltb_lt. nia.
    + now replace (p + (- exp - 1)) with p by lia.
  - replace (Z.max (Q + 0) (qmin F)) with (Q + 0) by (unfold Q; lia).
    rewrite (sticky_at 0) by lia. cbn [Z.eqb]. fold r. destruct r as [m inexact] eqn:Er. cbn [fst snd] in *.
    replace (emax F + 1 - (Q + 0)) with (2 * emax F - 1 + p - exp) by (unfold Q; lia).
    replace (Q + p - 1 <? emin F) with false by (unfold Q; lia). cbn [andb].
    replace (Q + 0 - qmin F) with exp by (unfold Q; lia).
    replace ((2 * emax F - 1 <? exp) || ((2 * emax F - 1 =? exp) && (2 ^ p <=? m)))
      with (2 ^ (2 * emax F - 1 + p - exp) <=? m); [reflexivity|].
    pose proof (pow2_half p ltac:(lia)).
    destruct (Z.ltb_spec (2 * emax F - 1) exp); cbn [orb].
    + apply Z.leb_le. transitivity (2 ^ (p - 1)); [apply Z.pow_le_mono_r|]; lia.
    + destruct (Z.eqb_spec (2 * emax F - 1) exp) as [<-|]; cbn [andb].
      * now replace (2 * emax F - 1 + p - (2 * emax F - 1)) with p by lia.
      * apply Z.leb_gt. apply Z.lt_le_trans with (2 ^ (p + 1)); [rewrite Z.pow_add_r by lia; change (2 ^ 1) with 2; lia|].
        apply Z.pow_le_mono_r; lia.
Qed.
End Sticky.
End Rounding.
