(* ===== verification/SoftFacts.v ===== *)
(** * SoftFacts: the primitives and the packing of SoftFloat

    The shifts are [jam], the leading-zero counts are logarithms, the field
    macros are [decode], and [softfloat_roundPackToF32] and
    [softfloat_roundPackToF64] implement the reference rounding of every value
    that the significand stands for. *)
From Stdlib Require Import ZArith Lia Bool List.
From stdpp Require Import base list.
From S2P Require Import Prelude SoftFloat SoftF32 SoftF64 Ieee Sticky.
#[local] Open Scope Z_scope.
#[local] Open Scope word_scope.

(** ** Computations that implement a reference result *)

Lemma implements_eq {A} (m : SF A) e (r r' : A * Z) : implements m e r -> r = r' -> implements m e r'.
Proof. now intros H <-. Qed.
Lemma implements_ret {A} (a : A) e : implements (sf_ret a) e (a, 0).
Proof. destruct e. unfold implements. cbn. now rewrite Z.lor_0_r. Qed.
Lemma implements_raise {A} flags (m : SF A) e (a : A) fl :
  (forall e, implements m e (a, fl)) -> implements (sf_bind (softfloat_raiseFlags flags) (fun _ => m)) e (a, Z.lor flags fl).
Proof. intros H. unfold implements, sf_bind, softfloat_raiseFlags. rewrite H. cbn. now rewrite Z.lor_assoc. Qed.
Lemma implements_raise_if {A} c flags (m : SF A) e (a : A) fl :
  (forall e, implements m e (a, fl)) ->
  implements (sf_bind (raise_if c flags) (fun _ => m)) e (a, Z.lor (if c then flags else 0) fl).
Proof. intros H. destruct c; [now apply implements_raise|]. exact (H e). Qed.
Lemma implements_mode {A} (k : Z -> SF A) e r :
  implements (k (softfloat_roundingMode e)) e r -> implements (sf_bind sf_mode k) e r.
Proof. exact (fun x => x). Qed.

(** ** Words *)

Lemma mask_low a k : 0 <= k -> a &w Z.ones k = a mod 2 ^ k.
Proof. apply Z.land_ones. Qed.

Lemma xor_z2b a b : negb (z2b (a ^w b)) = (a =? b).
Proof.
  unfold z2b. rewrite negb_involutive. destruct (Z.eqb_spec a b) as [->|N].
  - now rewrite Z.lxor_nilpotent.
  - apply Z.eqb_neq. intros E. now apply N, Z.lxor_eq_0_iff.
Qed.

Lemma land_not64 m x : fits 64 m -> m &w not64 x = Z.land m (Z.lnot x).
Proof.
  intros H. bits i. rewrite !Z.land_spec. unfold not64. rewrite uw_testbit, Z.lnot_spec by lia.
  destruct (Z.ltb_spec i 64); [reflexivity|]. now rewrite (fits_testbit 64 m i) by (assumption || lia).
Qed.

Lemma mask_bit0 m : Z.land m (Z.lnot 1) = m - m mod 2.
Proof.
  assert (E : m = Z.land m (Z.lnot 1) + Z.land m 1).
  { rewrite Z.add_nocarry_lxor by (bits i; rewrite !Z.land_spec, Z.lnot_spec, Z.bits_0 by lia; now destruct (Z.testbit m i), (Z.testbit 1 i)).
    bits i. rewrite Z.lxor_spec, !Z.land_spec, Z.lnot_spec by lia. now destruct (Z.testbit m i), (Z.testbit 1 i). }
  pose proof (Z.land_ones m 1 ltac:(lia)) as L. change (Z.ones 1) with 1 in L. change (2 ^ 1) with 2 in L. lia.
Qed.

(** ** The increment of a rounding *)

(** [roundIncrement] at [g] guard bits. *)
Definition increment (g mode : Z) (s : bool) : Z :=
  if negb (mode =? softfloat_round_near_even) && negb (mode =? softfloat_round_near_maxMag)
  then (if mode =? round_away s then 2 ^ g - 1 else 0) else 2 ^ (g - 1).

Lemma increment_range g mode s : 1 <= g -> 0 <= increment g mode s < 2 ^ g.
Proof.
  intros Hg. unfold increment. pose proof (pow2_pos (g - 1) ltac:(lia)). pose proof (pow2_half g ltac:(lia)).
  destruct (_ && _); [destruct (_ =? _)|]; lia.
Qed.

Definition incremented (g mode : Z) (s : bool) (sig : Z) : Z :=
  let m := (sig + increment g mode s) / 2 ^ g in
  if negb (sig mod 2 ^ g =? 0) && (mode =? softfloat_round_odd) then Z.lor m 1
  else Z.land m (Z.lnot (b2z ((sig mod 2 ^ g =? 2 ^ (g - 1)) && (mode =? softfloat_round_near_even)))).

Lemma mode_cases mode : valid_mode mode ->
  mode = softfloat_round_near_even \/ mode = softfloat_round_minMag \/ mode = softfloat_round_min \/
  mode = softfloat_round_max \/ mode = softfloat_round_near_maxMag \/ mode = softfloat_round_odd.
Proof. unfold valid_mode, softfloat_round_near_even, softfloat_round_minMag, softfloat_round_min,
  softfloat_round_max, softfloat_round_near_maxMag, softfloat_round_odd. lia. Qed.

(** A carry out of the guard bits. *)
Lemma carry_div sig i h : 0 < h -> 0 <= i < h -> (sig + i) / h = sig / h + b2z (h <=? sig mod h + i).
Proof.
  intros Hh Hi. pose proof (Z.div_mod sig h ltac:(lia)). pose proof (Z.mod_pos_bound sig h Hh). symmetry.
  destruct (Z.leb_spec h (sig mod h + i)); cbn [b2z];
    [apply (Z.div_unique_pos _ _ _ (sig mod h + i - h))|apply (Z.div_unique_pos _ _ _ (sig mod h + i))]; lia.
Qed.

Lemma land_lnot_0 m : Z.land m (Z.lnot 0) = m.
Proof. apply Z.land_m1_r. Qed.

Lemma incremented_rounded g mode s sig : 1 <= g -> valid_mode mode -> 0 <= sig ->
  incremented g mode s sig = (rounded mode s sig (2 ^ g)).1.
Proof.
  intros Hg V Hs. pose proof (pow2_pos (g - 1) ltac:(lia)) as Ph. pose proof (pow2_half g ltac:(lia)) as Ev.
  unfold incremented, rounded. cbn [fst]. rewrite carry_div by (try apply increment_range; lia).
  set (m := sig / 2 ^ g). pose proof (Z.mod_pos_bound sig (2 ^ g) ltac:(lia)) as B. set (r := sig mod 2 ^ g) in *.
  set (h := 2 ^ (g - 1)) in *. unfold increment. fold h. rewrite Ev in *. clearbody r m.
  assert (K : (2 * r ?= 2 * h) = (r ?= h)) by (destruct (Z.compare_spec (2 * r) (2 * h)), (Z.compare_spec r h); lia || reflexivity).
  rewrite K. destruct (mode_cases mode V) as [-> | [-> | [-> | [-> | [-> | ->]]]]], s; cbn -[Z.mul Z.lor Z.land Z.lnot];
    rewrite ?andb_false_r, ?andb_true_r, ?Z.add_0_r; cbn [b2z andb negb].
  1-2: destruct (Z.eqb_spec r h) as [->|N]; cbn [b2z];
    [ rewrite Z.compare_refl; replace (2 * h <=? h + h) with true by lia; cbn [b2z];
      rewrite mask_bit0, Zmod_odd, Z.odd_add, Z.odd_1, xorb_true_r; destruct (Z.odd m); cbn [negb b2z]; lia
    | rewrite land_lnot_0; do 2 f_equal; destruct (Z.compare_spec r h); lia ].
  all: rewrite ?land_lnot_0.
  all: try (replace (2 * h <=? r) with false by lia).
  all: try (destruct (Z.eqb_spec r 0); cbn [negb b2z]; rewrite ?land_lnot_0, ?Z.add_0_r; try reflexivity; do 2 f_equal; lia).
  all: destruct (Z.compare_spec r h); do 2 f_equal; lia.
Qed.

Lemma incremented_top g mode s sig p : 1 <= g -> 1 <= p -> valid_mode mode -> 0 <= sig < 2 ^ (p + g) ->
  (2 ^ p <=? (rounded mode s sig (2 ^ g)).1) = (2 ^ (p + g) <=? sig + increment g mode s).
Proof.
  intros Hg Hp V Hs. rewrite <- incremented_rounded by (assumption || lia).
  pose proof (pow2_pos g ltac:(lia)) as Pg. pose proof (pow2_pos p ltac:(lia)). pose proof (pow2_half p ltac:(lia)) as Ep.
  assert (D : (2 ^ (p + g) <=? sig + increment g mode s) = (2 ^ p <=? (sig + increment g mode s) / 2 ^ g)).
  { rewrite Z.pow_add_r by lia. destruct (Z.leb_spec (2 ^ p * 2 ^ g) (sig + increment g mode s)); symmetry.
    - apply Z.leb_le, Z.div_le_lower_bound; lia.
    - apply Z.leb_gt, Z.div_lt_upper_bound; lia. }
  rewrite D. unfold incremented. set (m := (sig + increment g mode s) / 2 ^ g).
  set (h := 2 ^ (p - 1)) in *.
  destruct (_ && _).
  - rewrite lor_1. destruct (Z.odd m) eqn:O; [reflexivity|]. rewrite <- Z.negb_even in O. apply negb_false_iff, Z.even_spec in O as [k Ek]. rewrite Ek.
    destruct (Z.leb_spec (2 ^ p) (2 * k + 1)), (Z.leb_spec (2 ^ p) (2 * k)); lia || reflexivity.
  - destruct (_ && _); cbn [b2z]; [|now rewrite land_lnot_0].
    rewrite mask_bit0. pose proof (Z.div_mod m 2 ltac:(lia)). pose proof (Z.mod_pos_bound m 2 ltac:(lia)).
    destruct (Z.leb_spec (2 ^ p) (m - m mod 2)), (Z.leb_spec (2 ^ p) m); lia || reflexivity.
Qed.

Lemma rounded_inexact mode s N D : (rounded mode s N D).2 = negb (N mod D =? 0).
Proof. reflexivity. Qed.

(** The overflow result, as SoftFloat computes it. *)
Lemma overflow_increment F g mode s : 1 <= g -> valid_mode mode ->
  overflow_result F mode s =
  (inf_bits F s - b2z (increment g mode s =? 0), Z.lor softfloat_flag_overflow softfloat_flag_inexact).
Proof.
  intros Hg V. unfold overflow_result, increment. pose proof (pow2_pos (g - 1) ltac:(lia)).
  assert (2 <= 2 ^ g) by (rewrite (pow2_half g) by lia; lia).
  f_equal.
  destruct (mode_cases mode V) as [-> | [-> | [-> | [-> | [-> | ->]]]]], s; cbn -[Z.pow inf_bits];
    try reflexivity; replace (2 ^ g - 1 =? 0) with false by lia; replace (2 ^ (g - 1) =? 0) with false by lia;
    cbn [b2z]; lia.
Qed.

(** ** The shifts *)

Lemma jam_shift w a dist : 1 <= dist < w -> 0 <= a ->
  Z.lor (Z.shiftr a dist) (b2z (z2b (uw w (Z.shiftl a (w - dist))))) = jam a dist.
Proof.
  intros Hd Ha. unfold jam. rewrite Z.shiftr_div_pow2, Z.shiftl_mul_pow2 by lia. unfold uw.
  replace (2 ^ w) with (2 ^ dist * 2 ^ (w - dist)) by (rewrite <- Z.pow_add_r by lia; f_equal; lia).
  pose proof (pow2_pos dist ltac:(lia)). pose proof (pow2_pos (w - dist) ltac:(lia)).
  rewrite Z.mul_mod_distr_r by lia. unfold z2b.
  replace (a mod 2 ^ dist * 2 ^ (w - dist) =? 0) with (a mod 2 ^ dist =? 0)
    by (destruct (Z.eqb_spec (a mod 2 ^ dist) 0), (Z.eqb_spec (a mod 2 ^ dist * 2 ^ (w - dist)) 0); nia || reflexivity).
  destruct (_ =? 0); cbn [negb b2z]; [apply Z.lor_0_r|reflexivity].
Qed.

(** All of [a] is shifted off, or all but its top bit. *)
Lemma jam_far w a dist : w - 1 <= dist -> 1 <= w -> fits w a -> jam a dist = b2z (z2b a).
Proof.
  intros Hd Hw [L H]. unfold jam, z2b. rewrite lor_1. pose proof (pow2_pos dist ltac:(lia)).
  assert (B : a < 2 * 2 ^ dist) by (pose proof (Z.pow_le_mono_r 2 (w - 1) dist); rewrite (pow2_half w) in H by lia; lia).
  pose proof (Z.div_mod a (2 ^ dist) ltac:(lia)) as R. pose proof (Z.mod_pos_bound a (2 ^ dist) ltac:(lia)).
  assert (Q : a / 2 ^ dist = 0 \/ a / 2 ^ dist = 1).
  { assert (0 <= a / 2 ^ dist) by (apply Z.div_pos; lia). assert (a / 2 ^ dist < 2) by (apply Z.div_lt_upper_bound; lia). lia. }
  destruct Q as [Q|Q]; rewrite Q in *; destruct (Z.eqb_spec (a mod 2 ^ dist) 0), (Z.eqb_spec a 0); cbn [negb b2z Z.odd]; lia.
Qed.

Lemma neg_land w dist : 1 <= dist < 2 ^ w -> 0 <= w -> - dist &w Z.ones w = 2 ^ w - dist.
Proof.
  intros Hd Hw. rewrite Z.land_ones by lia. symmetry. apply (Z.mod_unique_pos _ _ (-1)); lia.
Qed.

Lemma shiftRightJam32_jam a dist : 1 <= dist -> fits 32 a -> softfloat_shiftRightJam32 a dist = jam a dist.
Proof.
  intros Hd F. unfold softfloat_shiftRightJam32. destruct (Z.ltb_spec dist 31).
  - change 31 with (Z.ones 5) at 1. rewrite neg_land by lia. apply (jam_shift 32); [lia|apply F].
  - now rewrite (jam_far 32) by (assumption || lia).
Qed.

Lemma shiftRightJam64_jam a dist : 1 <= dist -> fits 64 a -> softfloat_shiftRightJam64 a dist = jam a dist.
Proof.
  intros Hd F. unfold softfloat_shiftRightJam64. destruct (Z.ltb_spec dist 63).
  - change 63 with (Z.ones 6) at 1. rewrite neg_land by lia. apply (jam_shift 64); [lia|apply F].
  - now rewrite (jam_far 64) by (assumption || lia).
Qed.

Lemma shortShiftRightJam64_jam a dist : 1 <= dist <= 63 -> fits 64 a -> softfloat_shortShiftRightJam64 a dist = jam a dist.
Proof.
  intros Hd F. unfold softfloat_shortShiftRightJam64, jam.
  assert (E : (1 <<w dist) -w 1 = Z.ones dist).
  { unfold shl64, sub64. rewrite Z.shiftl_mul_pow2, Z.mul_1_l, Z.ones_equiv by lia. unfold uw.
    assert (2 ^ dist < 2 ^ 64) by (apply Z.pow_lt_mono_r; lia). pose proof (pow2_pos dist ltac:(lia)).
    rewrite (Z.mod_small (2 ^ dist)) by lia. apply Z.mod_small. lia. }
  rewrite E, Z.land_ones, Z.shiftr_div_pow2 by lia. unfold z2b.
  destruct (_ =? 0); cbn [negb b2z]; [apply Z.lor_0_r|reflexivity].
Qed.

(** ** Leading zeros *)

Lemma clz8_log2 : forallb (fun k => clz8 (Z.of_nat k) =? 7 - Z.log2 (Z.of_nat k)) (seq 1 255) = true.
Proof. reflexivity. Qed.

Lemma clz8_spec a : 1 <= a < 256 -> clz8 a = 7 - Z.log2 a.
Proof.
  intros H. pose proof clz8_log2 as K. rewrite forallb_forall in K. specialize (K (Z.to_nat a)).
  rewrite Z2Nat.id in K by lia. apply Z.eqb_eq, K, in_seq. lia.
Qed.

Lemma log2_shift a n : 0 < a -> 0 <= n -> Z.log2 (a * 2 ^ n) = Z.log2 a + n.
Proof. intros. rewrite Z.log2_mul_pow2 by lia. lia. Qed.

Lemma log2_shr a n : 2 ^ n <= a -> 0 <= n -> Z.log2 (Z.shiftr a n) = Z.log2 a - n.
Proof.
  intros. pose proof (pow2_pos n ltac:(lia)). rewrite Z.log2_shiftr by lia. apply Z.max_r.
  assert (n <= Z.log2 a); [|lia]. rewrite <- (Z.log2_pow2 n) by lia. apply Z.log2_le_mono. lia.
Qed.

(** The two normalising steps and the table. *)
Lemma clz_table count a : 0 < a < 2 ^ 32 ->
  (let '(count, a) := if a <? 0x10000 then (count + 16, u32 (Z.shiftl a 16)) else (count, a) in
   let '(count, a) := if a <? 0x1000000 then (count + 8, u32 (Z.shiftl a 8)) else (count, a) in
   count + clz8 (Z.shiftr a 24)) = count + (31 - Z.log2 a).
Proof.
  intros H.
  assert (Top : forall c x l, 2 ^ 24 <= x < 2 ^ 32 -> Z.log2 x = l -> c + clz8 (Z.shiftr x 24) = c + (31 - l)).
  { intros c x l Hx <-. rewrite clz8_spec, log2_shr by lia || (rewrite Z.shiftr_div_pow2 by lia; split;
      [apply Z.div_le_lower_bound|apply Z.div_lt_upper_bound]; lia). lia. }
  assert (Step : forall c x l, 2 ^ 16 <= x < 2 ^ 32 -> Z.log2 x = l ->
    (let '(c, x) := if x <? 0x1000000 then (c + 8, u32 (Z.shiftl x 8)) else (c, x) in c + clz8 (Z.shiftr x 24)) = c + (31 - l)).
  { intros c x l Hx <-. destruct (Z.ltb_spec x 0x1000000); [|now apply Top; [lia|]].
    rewrite Z.shiftl_mul_pow2, uw_small by (unfold fits; lia). rewrite (Top _ _ (Z.log2 x + 8)); [lia|lia|apply log2_shift; lia]. }
  destruct (Z.ltb_spec a 0x10000); [|now apply Step; [lia|]].
  rewrite Z.shiftl_mul_pow2, uw_small by (unfold fits; lia).
  destruct (Z.leb_spec (2 ^ 16) (a * 2 ^ 16)); [|lia].
  rewrite (Step _ _ (Z.log2 a + 16)); [lia|lia|apply log2_shift; lia].
Qed.

Lemma clz32_log2 a : 0 < a < 2 ^ 32 -> softfloat_countLeadingZeros32 a = 31 - Z.log2 a.
Proof. intros H. exact (clz_table 0 a H). Qed.

Lemma clz64_log2 a : 0 < a < 2 ^ 64 -> softfloat_countLeadingZeros64 a = 63 - Z.log2 a.
Proof.
  intros H. unfold softfloat_countLeadingZeros64.
  assert (E : u32 (a >>w 32) = a >>w 32).
  { apply uw_small. rewrite Z.shiftr_div_pow2 by lia. split; [apply Z.div_pos|apply Z.div_lt_upper_bound]; lia. }
  rewrite E. destruct (Z.eqb_spec (a >>w 32) 0) as [Z0|N].
  - assert (a < 2 ^ 32).
    { rewrite Z.shiftr_div_pow2 in Z0 by lia. pose proof (Z.div_mod a (2 ^ 32) ltac:(lia)).
      pose proof (Z.mod_pos_bound a (2 ^ 32) ltac:(lia)). lia. }
    rewrite (uw_small 32 a) by (unfold fits; lia). transitivity (32 + (31 - Z.log2 a)); [exact (clz_table 32 a ltac:(lia))|lia].
  - assert (0 < a >>w 32) by (assert (0 <= a >>w 32) by (apply Z.shiftr_nonneg; lia); lia).
    assert (2 ^ 32 <= a).
    { rewrite Z.shiftr_div_pow2 in * by lia. pose proof (Z.div_mod a (2 ^ 32) ltac:(lia)).
      pose proof (Z.mod_pos_bound a (2 ^ 32) ltac:(lia)). nia. }
    transitivity (0 + (31 - Z.log2 (a >>w 32))).
    + apply (clz_table 0). split; [assumption|]. rewrite <- E. apply uw_fits. lia.
    + rewrite log2_shr by lia. lia.
Qed.

(** ** Rounding and packing *)

Section RoundPack.
Variable F : format.
Variables g cast : Z.
Notation p := (prec F).
Notation w := (width F).
Hypothesis Hp : 2 <= p.
Hypothesis Hg : 2 <= g.
Hypothesis Hpg : p + g < 64.
Hypothesis Hw : p + 1 < w.
Hypothesis Hemax : 2 * emax F + 1 = einf F.
Hypothesis Hcast : w - p < cast.

(** The bits of the fields, as [packToF32UI] and [packToF64UI] build them. *)
Definition packed (s : bool) (exp sig : Z) : Z := uw w (sign_bits F s + exp * 2 ^ (p - 1) + sig).

(** The part after [sig = (sig + roundIncrement)>>7], and the whole function. *)
Definition pack_rounded (mode : Z) (s : bool) (exp sig : Z) : SF Z :=
  let roundBits := sig &w Z.ones g in
  let inexact := z2b roundBits in
  let sig := (sig +w increment g mode s) >>w g in
  sf_bind (raise_if inexact softfloat_flag_inexact) (fun _ =>
  if inexact && (mode =? softfloat_round_odd) then sf_ret (packed s exp (sig |w 1))
  else
    let sig := sig &w not64 (b2z (negb (z2b (roundBits ^w 2 ^ (g - 1))) && (mode =? softfloat_round_near_even))) in
    sf_ret (packed s (if sig =? 0 then 0 else exp) sig)).

Definition roundPack (shiftRightJam : Z -> Z -> Z) (s : bool) (exp sig : Z) : SF Z :=
  sf_bind sf_mode (fun mode =>
  let top := 2 * emax F - 1 in
  let carry := 2 ^ (p + g) <=? sig +w increment g mode s in
  if top <=? uw cast exp then
    if exp <? 0 then
      let sig' := shiftRightJam sig (- exp) in
      sf_bind (raise_if (((exp <? -1) || negb carry) && z2b (sig' &w Z.ones g)) softfloat_flag_underflow) (fun _ =>
      pack_rounded mode s 0 sig')
    else if (top <? exp) || carry then
      sf_bind (softfloat_raiseFlags (softfloat_flag_overflow |w softfloat_flag_inexact)) (fun _ =>
      sf_ret (uw w (packed s (einf F) 0 - b2z (negb (z2b (increment g mode s))))))
    else pack_rounded mode s exp sig
  else pack_rounded mode s exp sig).

Lemma rounded_low sig g' : 0 <= g' -> z2b (sig &w Z.ones g') = negb (sig mod 2 ^ g' =? 0).
Proof. intros. unfold z2b. now rewrite mask_low. Qed.

Lemma packed_small s exp sig : 0 <= exp -> 0 <= sig -> exp * 2 ^ (p - 1) + sig <= einf F * 2 ^ (p - 1) ->
  packed s exp sig = sign_bits F s + exp * 2 ^ (p - 1) + sig.
Proof.
  intros He Hs H. unfold packed. apply uw_small. unfold fits, sign_bits, einf in *.
  pose proof (pow2_pos (p - 1) ltac:(lia)). pose proof (pow2_half w ltac:(lia)).
  assert (E : 2 ^ (w - p) * 2 ^ (p - 1) = 2 ^ (w - 1)) by (rewrite <- Z.pow_add_r by lia; f_equal; lia).
  destruct s; cbn [b2z]; nia.
Qed.

Lemma pack_rounded_ok mode s exp sig e : valid_mode mode -> 0 <= sig < 2 ^ (p + g) -> 0 <= exp ->
  (rounded mode s sig (2 ^ g)).1 + exp * 2 ^ (p - 1) <= einf F * 2 ^ (p - 1) ->
  (0 < exp -> 2 ^ (p - 1 + g) <= sig) ->
  implements (pack_rounded mode s exp sig) e
    (sign_bits F s + exp * 2 ^ (p - 1) + (rounded mode s sig (2 ^ g)).1,
     if (rounded mode s sig (2 ^ g)).2 then softfloat_flag_inexact else 0).
Proof.
  intros V Hs He Hm Hn. pose proof (incremented_rounded g mode s sig ltac:(lia) V ltac:(lia)) as R.
  pose proof (pow2_pos g ltac:(lia)) as Pg. pose proof (increment_range g mode s ltac:(lia)) as Hi.
  pose proof (rounded_bounds mode s sig (2 ^ g) Pg ltac:(lia)) as Bm.
  assert (W : sig + increment g mode s < 2 ^ 64).
  { assert (2 ^ (p + g) <= 2 ^ 63) by (apply Z.pow_le_mono_r; lia). assert (2 ^ g <= 2 ^ 62) by (apply Z.pow_le_mono_r; lia). lia. }
  assert (M0 : 0 <= sig / 2 ^ g) by (apply Z.div_pos; lia).
  assert (M1 : 0 < exp -> 0 < (rounded mode s sig (2 ^ g)).1).
  { intros P0. specialize (Hn P0). pose proof (pow2_pos (p - 1) ltac:(lia)). rewrite Z.pow_add_r in Hn by lia.
    assert (2 ^ (p - 1) <= sig / 2 ^ g) by (apply Z.div_le_lower_bound; lia). lia. }
  unfold pack_rounded. rewrite rounded_low, mask_low, xor_z2b by lia.
  assert (E : sig +w increment g mode s = sig + increment g mode s) by (apply uw_small; unfold fits; lia).
  rewrite E, Z.shiftr_div_pow2 by lia. rewrite rounded_inexact. unfold incremented in R.
  set (m := (rounded mode s sig (2 ^ g)).1) in *. set (q := (sig + increment g mode s) / 2 ^ g) in *.
  assert (Fq : fits 64 q).
  { split; [apply Z.div_pos; lia|]. apply Z.div_lt_upper_bound; [lia|]. nia. }
  assert (V1 : packed s exp m = sign_bits F s + exp * 2 ^ (p - 1) + m) by (apply packed_small; lia).
  assert (V2 : packed s (if m =? 0 then 0 else exp) m = sign_bits F s + exp * 2 ^ (p - 1) + m).
  { destruct (Z.eqb_spec m 0); [|exact V1]. assert (exp = 0) as -> by lia. exact V1. }
  rewrite <- (Z.lor_0_r (if negb (sig mod 2 ^ g =? 0) then softfloat_flag_inexact else 0)).
  apply implements_raise_if. intros e'. destruct (_ && _); [rewrite R, V1|rewrite land_not64, R, V2 by exact Fq]; apply implements_ret.
Qed.

Lemma inf_bits_range s : 0 < inf_bits F s < 2 ^ w.
Proof.
  unfold inf_bits, sign_bits, einf. pose proof (pow2_half w ltac:(lia)). pose proof (pow2_pos (p - 1) ltac:(lia)).
  assert (E : 2 ^ (w - p) * 2 ^ (p - 1) = 2 ^ (w - 1)) by (rewrite <- Z.pow_add_r by lia; f_equal; lia).
  assert (2 ^ 1 <= 2 ^ (w - p)) by (apply Z.pow_le_mono_r; lia). change (2 ^ 1) with 2 in *.
  rewrite Z.mul_sub_distr_r, E. assert (2 ^ (p - 1) < 2 ^ (w - 1)) by (apply Z.pow_lt_mono_r; lia).
  destruct s; cbn [b2z]; lia.
Qed.

(** [k] halves of the exponent's unit fit below the infinities. *)
Lemma room m k exp : m <= k * 2 ^ (p - 1) -> exp + k <= einf F -> m + exp * 2 ^ (p - 1) <= einf F * 2 ^ (p - 1).
Proof. intros. pose proof (pow2_pos (p - 1) ltac:(lia)). assert (0 <= (einf F - exp - k) * 2 ^ (p - 1)) by (apply Z.mul_nonneg_nonneg; lia). lia. Qed.

Lemma roundPack_ok jam_code mode s exp sig e : valid_mode mode -> mode = softfloat_roundingMode e ->
  (forall d, 1 <= d -> jam_code sig d = jam sig d) ->
  2 ^ (p - 1 + g) <= sig < 2 ^ (p + g) -> - 2 ^ (cast - 1) <= exp < 2 ^ (cast - 1) ->
  implements (roundPack jam_code s exp sig) e (round_pack F g mode s exp sig).
Proof.
  intros V -> J Hs Hexp. apply implements_mode. set (mode := softfloat_roundingMode e) in *. cbv zeta.
  pose proof (pow2_pos g ltac:(lia)) as Pg. pose proof (increment_range g mode s ltac:(lia)) as Hi.
  pose proof (pow2_pos (p - 1) ltac:(lia)) as Pp. pose proof (pow2_half p ltac:(lia)) as Ep.
  assert (W : sig + increment g mode s < 2 ^ 64).
  { assert (2 ^ (p + g) <= 2 ^ 63) by (apply Z.pow_le_mono_r; lia). assert (2 ^ g <= 2 ^ 62) by (apply Z.pow_le_mono_r; lia). lia. }
  pose proof (pow2_pos (p - 1 + g) ltac:(lia)).
  assert (E : sig +w increment g mode s = sig + increment g mode s) by (apply uw_small; unfold fits; lia).
  rewrite E, <- (incremented_top g mode s sig p) by (assumption || lia).
  unfold round_pack. set (m0 := (rounded mode s sig (2 ^ g)).1).
  assert (Top : forall x, 0 <= x -> x <= sig -> (rounded mode s x (2 ^ g)).1 <= 2 ^ p).
  { intros x X0 X1. pose proof (rounded_bounds mode s x (2 ^ g) Pg X0).
    assert (x / 2 ^ g < 2 ^ p); [|lia]. apply Z.div_lt_upper_bound; [lia|]. rewrite <- Z.pow_add_r by lia.
    replace (g + p) with (p + g) by lia. lia. }
  assert (Ei : 2 * emax F - 1 = einf F - 2) by lia.
  assert (Ci : einf F < 2 ^ (cast - 1)).
  { unfold einf. assert (2 ^ (w - p) <= 2 ^ (cast - 1)) by (apply Z.pow_le_mono_r; lia). lia. }
  assert (I2 : 3 <= einf F).
  { unfold einf. assert (2 ^ 2 <= 2 ^ (w - p)) by (apply Z.pow_le_mono_r; lia). change (2 ^ 2) with 4 in *. lia. }
  pose proof (pow2_half cast ltac:(lia)).
  destruct (Z.ltb_spec exp 0) as [Neg|Pos].
  - replace (uw cast exp) with (exp + 2 ^ cast)
      by (unfold uw; rewrite <- (Z.mod_add exp 1) by lia; rewrite Z.mod_small; lia).
    replace (2 * emax F - 1 <=? exp + 2 ^ cast) with true by lia.
    rewrite (J (- exp)) by lia. pose proof (jam_bounds sig (- exp) ltac:(lia) ltac:(lia)) as B.
    set (sig' := jam sig (- exp)) in *. rewrite rounded_low by lia.
    replace (negb (2 ^ p <=? m0)) with (m0 <? 2 ^ p) by (destruct (Z.leb_spec (2 ^ p) m0), (Z.ltb_spec m0 (2 ^ p)); lia || reflexivity).
    destruct (rounded mode s sig' (2 ^ g)) as [m inexact] eqn:Er.
    pose proof (rounded_inexact mode s sig' (2 ^ g)) as Ri. rewrite Er in Ri. cbn [snd] in Ri. rewrite <- Ri.
    pose proof (Top sig' ltac:(lia) ltac:(lia)) as Tm. rewrite Er in Tm. cbn [fst] in Tm.
    eapply implements_eq; [apply implements_raise_if; intros e'; apply pack_rounded_ok|]; rewrite ?Er; cbn [fst snd]; try assumption; try lia.
    + rewrite Z.mul_0_l, Z.add_0_r. transitivity (2 * 2 ^ (p - 1)); [lia|apply Z.mul_le_mono_nonneg_r; lia].
    + rewrite Z.mul_0_l, Z.add_0_r. f_equal. destruct inexact; [|now rewrite andb_false_r].
      now rewrite andb_true_r.
  - pose proof (Top sig ltac:(lia) ltac:(lia)) as Tm. fold m0 in Tm.
    rewrite uw_small by (unfold fits; lia).
    assert (Ok : forall e', m0 + exp * 2 ^ (p - 1) <= einf F * 2 ^ (p - 1) ->
      implements (pack_rounded mode s exp sig) e'
        (sign_bits F s + exp * 2 ^ (p - 1) + m0, if (rounded mode s sig (2 ^ g)).2 then softfloat_flag_inexact else 0)).
    { intros e' Hb. apply pack_rounded_ok; try assumption; lia. }
    destruct (Z.leb_spec (2 * emax F - 1) exp).
    + replace ((2 * emax F - 1 <? exp) || ((2 * emax F - 1 =? exp) && (2 ^ p <=? m0)))
        with ((2 * emax F - 1 <? exp) || (2 ^ p <=? m0))
        by (destruct (Z.ltb_spec (2 * emax F - 1) exp), (Z.eqb_spec (2 * emax F - 1) exp); lia || reflexivity).
      destruct (_ || _) eqn:Ov.
      * rewrite (overflow_increment F g) by (assumption || lia). rewrite packed_small by lia.
        replace (sign_bits F s + einf F * 2 ^ (p - 1) + 0) with (inf_bits F s) by (unfold inf_bits; lia).
        unfold z2b. rewrite negb_involutive. rewrite uw_small.
        -- change (softfloat_flag_overflow |w softfloat_flag_inexact)
             with (Z.lor (Z.lor softfloat_flag_overflow softfloat_flag_inexact) 0).
           apply implements_raise. intros. apply implements_ret.
        -- pose proof (inf_bits_range s). destruct (_ =? 0); cbn [b2z]; unfold fits; lia.
      * apply orb_false_elim in Ov as [O1 O2]. apply Ok, (room _ 2); lia.
    + replace (2 * emax F - 1 <? exp) with false by lia. replace (2 * emax F - 1 =? exp) with false by lia.
      cbn [orb andb]. apply Ok, (room _ 2); lia.
Qed.
End RoundPack.
