(* ===== verification/SoftFields.v ===== *)
(** * SoftFields: the fields of a floating-point datum

    [decode] in terms of the sign, the exponent and the fraction, that the
    field macros of [internals.h] extract; NaNs as [specialize.h] tests them;
    normalised significands; and the rounding functions of SoftFloat as the
    reference rounding. *)
From Stdlib Require Import ZArith Lia Bool List.
From stdpp Require Import base list.
From S2P Require Import Prelude SoftFloat SoftF32 SoftF64 Ieee Sticky SoftFacts.
#[local] Open Scope Z_scope.
#[local] Open Scope word_scope.

Definition is_nan (x : datum) : bool := match x with Nan _ => true | _ => false end.
Definition is_snan (x : datum) : bool := match x with Nan q => q | _ => false end.

Lemma mask_field a k j : 0 <= k -> 0 <= j -> a &w (Z.ones k * 2 ^ j) = a / 2 ^ j mod 2 ^ k * 2 ^ j.
Proof.
  intros Hk Hj. rewrite <- !Z.shiftl_mul_pow2, <- Z.land_ones, <- Z.shiftr_div_pow2 by lia. bits i.
  rewrite Z.land_spec. destruct (Z.ltb_spec i j).
  - now rewrite !Z.shiftl_spec_low, andb_false_r by lia.
  - rewrite !Z.shiftl_spec, Z.land_spec, Z.shiftr_spec by lia. now replace (i - j + j) with i by lia.
Qed.

(** A bit above all others, and one that is set. *)
Lemma lor_top x n : 0 <= n -> fits n x -> Z.lor x (2 ^ n) = 2 ^ n + x.
Proof.
  intros Hn Hx. pose proof (lor_add_shift 1 n x Hn Hx) as L. rewrite Z.shiftl_mul_pow2, Z.mul_1_l in L by lia.
  rewrite Z.lor_comm. exact L.
Qed.
Lemma lor_top_id x n : 0 <= n -> 2 ^ n <= x < 2 * 2 ^ n -> Z.lor x (2 ^ n) = x.
Proof.
  intros Hn Hx. replace x with (Z.lor (x - 2 ^ n) (2 ^ n)) at 1 by (rewrite lor_top by (unfold fits; lia); lia).
  rewrite <- Z.lor_assoc, Z.lor_diag, lor_top by (unfold fits; lia). lia.
Qed.

Section Fields.
Variable F : format.
Notation p := (prec F).
Notation w := (width F).
Hypothesis Hp : 3 <= p.
Hypothesis Hw : p + 1 < w.

Definition expo (b : Z) : Z := b / 2 ^ (p - 1) mod 2 ^ (w - p).
Definition frac (b : Z) : Z := b mod 2 ^ (p - 1).
Definition sign (b : Z) : bool := Z.testbit b (w - 1).

(** [decode] of the fields. *)
Definition datum_of (s : bool) (ex fr : Z) : datum :=
  if ex =? einf F then if fr =? 0 then Infinity s else Nan (negb (Z.testbit fr (p - 2)))
  else if ex =? 0 then if fr =? 0 then Zero s else Finite s fr (qmin F)
  else Finite s (2 ^ (p - 1) + fr) (qmin F + ex - 1).

Lemma decode_fields b : decode F b = datum_of (sign b) (expo b) (frac b).
Proof. reflexivity. Qed.

Lemma expo_range b : 0 <= expo b <= einf F.
Proof. unfold expo, einf. pose proof (Z.mod_pos_bound (b / 2 ^ (p - 1)) (2 ^ (w - p)) (pow2_pos (w - p) ltac:(lia))). lia. Qed.
Lemma frac_range b : 0 <= frac b < 2 ^ (p - 1).
Proof. apply Z.mod_pos_bound, pow2_pos. lia. Qed.
Lemma einf_ge : 3 <= einf F.
Proof. unfold einf. assert (2 ^ 2 <= 2 ^ (w - p)) by (apply Z.pow_le_mono_r; lia). change (2 ^ 2) with 4 in *. lia. Qed.

Lemma fields_value b : fits w b -> b = sign_bits F (sign b) + expo b * 2 ^ (p - 1) + frac b.
Proof.
  intros H. unfold sign_bits, sign, expo, frac. pose proof (pow2_pos (p - 1) ltac:(lia)).
  rewrite Z.testbit_eqb by lia. pose proof (Z.div_mod b (2 ^ (p - 1)) ltac:(lia)) as D.
  pose proof (Z.div_mod (b / 2 ^ (p - 1)) (2 ^ (w - p)) ltac:(pose proof (pow2_pos (w - p) ltac:(lia)); lia)) as E.
  rewrite Z.div_div in E by (pose proof (pow2_pos (w - p)); lia). rewrite <- Z.pow_add_r in E by lia.
  replace (p - 1 + (w - p)) with (w - 1) in E by lia.
  assert (E2 : 2 ^ (w - 1) = 2 ^ (p - 1) * 2 ^ (w - p)) by (rewrite <- Z.pow_add_r by lia; f_equal; lia).
  pose proof (pow2_half w ltac:(lia)). unfold fits in H.
  assert (S : b / 2 ^ (w - 1) = 0 \/ b / 2 ^ (w - 1) = 1).
  { assert (0 <= b / 2 ^ (w - 1)) by (apply Z.div_pos; [lia|apply pow2_pos; lia]).
    assert (b / 2 ^ (w - 1) < 2) by (apply Z.div_lt_upper_bound; [apply pow2_pos|]; lia). lia. }
  set (m := (b / 2 ^ (p - 1)) mod 2 ^ (w - p)) in *. set (q := b / 2 ^ (p - 1)) in *.
  destruct S as [S|S]; rewrite S in *; rewrite E2; [change (0 mod 2 =? 1) with false|change (1 mod 2 =? 1) with true]; cbn [b2z]; nia.
Qed.

(** ** NaNs *)

Lemma quiet_bit b : Z.testbit (frac b) (p - 2) = Z.testbit b (p - 2).
Proof. unfold frac. apply Z.mod_pow2_bits_low. lia. Qed.

Lemma is_nan_fields b : is_nan (decode F b) = (expo b =? einf F) && negb (frac b =? 0).
Proof. rewrite decode_fields. unfold datum_of. now destruct (expo b =? einf F), (frac b =? 0), (expo b =? 0). Qed.

Lemma is_snan_fields b :
  is_snan (decode F b) = (expo b =? einf F) && negb (Z.testbit b (p - 2)) && negb (frac b =? 0).
Proof.
  rewrite decode_fields, <- quiet_bit. unfold datum_of.
  destruct (expo b =? einf F), (frac b =? 0), (expo b =? 0); rewrite ?andb_true_r, ?andb_false_r; reflexivity.
Qed.

(** The quiet bit and what is below it. *)
Lemma frac_split b : frac b = 2 ^ (p - 2) * b2z (Z.testbit b (p - 2)) + b mod 2 ^ (p - 2).
Proof.
  unfold frac. replace (p - 1) with (p - 2 + 1) by lia. rewrite Z.pow_add_r by lia. change (2 ^ 1) with 2.
  pose proof (pow2_pos (p - 2) ltac:(lia)). rewrite Z.rem_mul_r by lia. rewrite Z.testbit_eqb by lia.
  pose proof (Z.mod_pos_bound (b / 2 ^ (p - 2)) 2 ltac:(lia)).
  destruct (Z.eqb_spec (b / 2 ^ (p - 2) mod 2) 1) as [->|]; cbn [b2z]; [lia|]. replace (b / 2 ^ (p - 2) mod 2) with 0 by lia. lia.
Qed.

Lemma einf_ones : einf F = Z.ones (w - p).
Proof. unfold einf. rewrite Z.ones_equiv. lia. Qed.

Lemma isNaN_mask b : ((Z.lnot b &w (einf F * 2 ^ (p - 1))) =? 0) && z2b (b &w Z.ones (p - 1)) = is_nan (decode F b).
Proof.
  rewrite is_nan_fields. rewrite mask_low by lia. f_equal. rewrite einf_ones, mask_field by lia.
  pose proof (pow2_pos (p - 1) ltac:(lia)). rewrite <- einf_ones.
  assert (L : Z.lnot b / 2 ^ (p - 1) mod 2 ^ (w - p) = einf F - expo b).
  { unfold expo. rewrite <- !Z.shiftr_div_pow2 by lia. rewrite <- Z.lnot_shiftr by lia.
    unfold Z.lnot. unfold einf. pose proof (pow2_pos (w - p) ltac:(lia)).
    set (x := Z.shiftr b (p - 1)). pose proof (Z.div_mod x (2 ^ (w - p)) ltac:(lia)).
    pose proof (Z.mod_pos_bound x (2 ^ (w - p)) ltac:(lia)). symmetry.
    apply (Z.mod_unique_pos _ _ (- (x / 2 ^ (w - p)) - 1)); lia. }
  rewrite L. pose proof (expo_range b).
  destruct (Z.eqb_spec (expo b) (einf F)) as [->|N]; [now rewrite Z.sub_diag|]. apply Z.eqb_neq. nia.
Qed.

Lemma isSigNaN_mask b :
  ((b &w (einf F * 2 ^ (p - 1) + 2 ^ (p - 2))) =? einf F * 2 ^ (p - 1)) && z2b (b &w Z.ones (p - 2)) = is_snan (decode F b).
Proof.
  rewrite is_snan_fields, mask_low by lia. pose proof (pow2_pos (p - 2) ltac:(lia)).
  pose proof (pow2_pos (p - 1) ltac:(lia)).
  replace (b &w (einf F * 2 ^ (p - 1) + 2 ^ (p - 2))) with (expo b * 2 ^ (p - 1) + 2 ^ (p - 2) * b2z (Z.testbit b (p - 2))).
  - rewrite frac_split. pose proof (Z.mod_pos_bound b (2 ^ (p - 2)) ltac:(lia)).
    assert (E : 2 ^ (p - 1) = 2 * 2 ^ (p - 2)) by (rewrite (pow2_half (p - 1)) by lia; do 2 f_equal; lia).
    unfold z2b. destruct (Z.testbit b (p - 2)); cbn [b2z negb].
    + rewrite andb_false_r. replace (expo b * 2 ^ (p - 1) + 2 ^ (p - 2) * 1 =? einf F * 2 ^ (p - 1)) with false; [reflexivity|].
      symmetry. apply Z.eqb_neq. rewrite E. intros C.
      assert (2 ^ (p - 2) * (2 * (expo b - einf F) + 1) = 0) as [|]%Z.mul_eq_0 by lia; lia.
    + rewrite Z.mul_0_r, Z.add_0_r, Z.add_0_l, andb_true_r. f_equal.
      destruct (Z.eqb_spec (expo b) (einf F)) as [->|N]; [apply Z.eqb_refl|apply Z.eqb_neq; nia].
  - assert (E : einf F * 2 ^ (p - 1) + 2 ^ (p - 2) = Z.lor (Z.ones (w - p) * 2 ^ (p - 1)) (2 ^ (p - 2))).
    { rewrite <- (Z.shiftl_mul_pow2 (Z.ones (w - p))), lor_add_shift, einf_ones by (lia || (split; [lia|apply Z.pow_lt_mono_r; lia])). reflexivity. }
    rewrite E, Z.land_lor_distr_r, mask_field by lia. fold (expo b).
    replace (b &w 2 ^ (p - 2)) with (2 ^ (p - 2) * b2z (Z.testbit b (p - 2))).
    + rewrite <- (Z.shiftl_mul_pow2 (expo b)), lor_add_shift by (lia || (unfold fits;
        assert (2 ^ (p - 2) < 2 ^ (p - 1)) by (apply Z.pow_lt_mono_r; lia); destruct (Z.testbit b (p - 2)); cbn [b2z]; lia)).
      rewrite Z.shiftl_mul_pow2 by lia. reflexivity.
    + bits i. rewrite Z.land_spec, Z.pow2_bits_eqb by lia. destruct (Z.eqb_spec (p - 2) i) as [<-|N].
      * rewrite andb_true_r. destruct (Z.testbit b (p - 2)); cbn [b2z]; rewrite ?Z.mul_1_r, ?Z.mul_0_r, ?Z.bits_0; [apply Z.pow2_bits_true; lia|reflexivity].
      * rewrite andb_false_r. destruct (Z.testbit b (p - 2)); cbn [b2z]; rewrite ?Z.mul_1_r, ?Z.mul_0_r, ?Z.bits_0; [apply Z.pow2_bits_false; lia|reflexivity].
Qed.

(** ** Normalised significands *)

(** Shifted so that the leading bit is bit [p - 1]. *)
Definition norm (ex fr : Z) : Z * Z :=
  if ex =? 0 then (1 - (p - 1 - Z.log2 fr), fr * 2 ^ (p - 1 - Z.log2 fr)) else (ex, fr).

(** [x] is [(-1)^s * M * 2^(qmin + E - 1)], with [M] normalised. *)
Definition normal_form (x : datum) (s : bool) (E M : Z) : Prop :=
  exists m e k, x = Finite s m e /\ 0 < m /\ 0 <= k /\ M = m * 2 ^ k /\ e = qmin F + (E - 1) + k /\
    2 ^ (p - 1) <= M < 2 ^ p /\ 1 - p < E < einf F.

Lemma norm_form s ex fr E S : 0 <= ex < einf F -> 0 <= fr < 2 ^ (p - 1) -> (ex = 0 -> 0 < fr) ->
  norm ex fr = (E, S) -> normal_form (datum_of s ex fr) s E (Z.lor S (2 ^ (p - 1))).
Proof.
  intros He Hf Hz H. unfold norm in H. unfold datum_of, normal_form.
  replace (ex =? einf F) with false by lia. pose proof (pow2_pos (p - 1) ltac:(lia)).
  pose proof (pow2_half p ltac:(lia)). pose proof einf_ge. destruct (Z.eqb_spec ex 0) as [Z0|N].
  - specialize (Hz Z0). replace (fr =? 0) with false by lia. pose proof (Z.log2_spec fr Hz) as [L1 L2].
    pose proof (Z.log2_nonneg fr). rewrite Z.pow_succ_r in L2 by lia.
    assert (Z.log2 fr < p - 1) by (apply Z.log2_lt_pow2; lia).
    set (k := p - 1 - Z.log2 fr) in *. injection H as <- <-.
    assert (B : 2 ^ (p - 1) <= fr * 2 ^ k < 2 ^ p).
    { assert (E : 2 ^ (p - 1) = 2 ^ Z.log2 fr * 2 ^ k) by (rewrite <- Z.pow_add_r by lia; f_equal; lia).
      pose proof (pow2_pos k ltac:(lia)). nia. }
    assert (O : Z.lor (fr * 2 ^ k) (2 ^ (p - 1)) = fr * 2 ^ k) by (apply lor_top_id; lia).
    rewrite O. exists fr, (qmin F), k. repeat (split; [first [reflexivity|lia]|]). lia.
  - injection H as <- <-. exists (2 ^ (p - 1) + fr), (qmin F + ex - 1), 0.
    rewrite lor_top by (lia || exact Hf). repeat (split; [first [reflexivity|lia]|]). lia.
Qed.

(** ** The kinds of operand *)

Inductive view (b : Z) : datum -> Prop :=
| view_nan q : expo b = einf F -> 0 < frac b -> view b (Nan q)
| view_inf : expo b = einf F -> frac b = 0 -> view b (Infinity (sign b))
| view_zero : expo b = 0 -> frac b = 0 -> view b (Zero (sign b))
| view_finite m e : 0 <= expo b < einf F -> (expo b = 0 -> 0 < frac b) ->
    datum_of (sign b) (expo b) (frac b) = Finite (sign b) m e -> view b (Finite (sign b) m e).

Lemma decode_view b : view b (decode F b).
Proof.
  rewrite decode_fields. pose proof (expo_range b) as E. pose proof (frac_range b) as R. pose proof einf_ge.
  destruct (datum_of _ _ _) eqn:D; pose proof D as D'; unfold datum_of in D;
    destruct (Z.eqb_spec (expo b) (einf F)), (Z.eqb_spec (frac b) 0); try discriminate; try (constructor; (assumption || lia));
    destruct (Z.eqb_spec (expo b) 0); try discriminate; first [injection D as <-|injection D as <- _ _]; constructor; assumption || lia.
Qed.

(** ** Fractions of the same value *)

Lemma round_shl mode s n d e j e' : 1 < emax F -> 0 < n -> 0 < d -> 0 <= j -> e' = e - j ->
  round F mode s n d e = round F mode s (n * 2 ^ j) d e'.
Proof.
  intros He Hn Hd Hj ->. pose proof (pow2_pos j Hj).
  apply (round_ext F mode s n d e (n * 2 ^ j) d (e - j) (e - j)); try lia.
  rewrite Z.sub_diag. replace (e - (e - j)) with j by lia. lia.
Qed.

Lemma round_den mode s n d e j e' : 1 < emax F -> 0 < n -> 0 < d -> 0 <= j -> e' = e + j ->
  round F mode s n d e = round F mode s n (d * 2 ^ j) e'.
Proof.
  intros He Hn Hd Hj ->. pose proof (pow2_pos j Hj).
  apply (round_ext F mode s n d e n (d * 2 ^ j) (e + j) e); try lia; try nia.
  rewrite Z.sub_diag. replace (e + j - e) with j by lia. lia.
Qed.

Lemma round_from_sticky g mode s N D exp sig : 1 < emax F -> 2 <= g -> 0 < N -> 0 < D ->
  2 ^ (p - 1 + g) <= sig < 2 ^ (p + g) -> sticky (g - 1) N D sig ->
  round F mode s N D (exp + qmin F - g) = round_pack F g mode s exp sig.
Proof.
  intros He Hg HN HD Hs St. apply round_sticky; try assumption; try lia.
  replace (exp + qmin F - g - (exp + qmin F - g)) with 0 by lia. cbn [scale Z.leb]. unfold scale. cbn [Z.leb Z.compare].
  now rewrite Z.mul_1_r.
Qed.
End Fields.

(** The bounds of a jammed shift. *)
Lemma jam_range x j a b : 0 <= j -> 1 <= a -> 1 <= b -> 2 ^ (a + j) <= x < 2 ^ (b + j) -> 2 ^ a <= jam x j < 2 ^ b.
Proof.
  intros Hj Ha Hb H. rewrite !Z.pow_add_r in H by lia.
  assert (Ev : forall c, 1 <= c -> Z.even (2 ^ c) = true) by (intros; rewrite Z.even_pow by lia; reflexivity).
  pose proof (jam_compare x j (2 ^ a) Hj (Ev a Ha)) as A. pose proof (jam_compare x j (2 ^ b) Hj (Ev b Hb)) as B.
  destruct (Z.compare_spec (2 ^ a) (jam x j)), (Z.compare_spec (2 ^ a * 2 ^ j) x),
    (Z.compare_spec (2 ^ b) (jam x j)), (Z.compare_spec (2 ^ b * 2 ^ j) x); discriminate || lia.
Qed.

(** ** Single precision *)

Lemma signF32_spec a : fits 32 a -> signF32UI a = sign binary32 a.
Proof.
  intros H. unfold signF32UI, sign. cbn [width binary32]. rewrite (uw_small 32 a H).
  rewrite Z.testbit_eqb by lia. rewrite Z.shiftr_div_pow2 by lia. change (32 - 1) with 31.
  assert (B : a / 2 ^ 31 = 0 \/ a / 2 ^ 31 = 1).
  { unfold fits in H. assert (0 <= a / 2 ^ 31) by (apply Z.div_pos; lia). assert (a / 2 ^ 31 < 2) by (apply Z.div_lt_upper_bound; lia). lia. }
  now destruct B as [->| ->].
Qed.
Lemma expF32_spec a : expF32UI a = expo binary32 a.
Proof. unfold expF32UI, expo. change 0xFF with (Z.ones 8). now rewrite mask_low, Z.shiftr_div_pow2 by lia. Qed.
Lemma fracF32_spec a : fracF32UI a = frac binary32 a.
Proof. unfold fracF32UI. change 0x007FFFFF with (Z.ones 23). now rewrite mask_low by lia. Qed.

Lemma isNaNF32_spec a : isNaNF32UI a = is_nan (decode binary32 a).
Proof. exact (isNaN_mask binary32 ltac:(cbn; lia) ltac:(cbn; lia) a). Qed.
Lemma isSigNaNF32_spec a : softfloat_isSigNaNF32UI a = is_snan (decode binary32 a).
Proof. exact (isSigNaN_mask binary32 ltac:(cbn; lia) ltac:(cbn; lia) a). Qed.

Lemma norm_f32_spec ex fr : 0 <= fr < 2 ^ 23 -> (ex = 0 -> 0 < fr) -> norm_f32 ex fr = norm binary32 ex fr.
Proof.
  intros Hf Hz. unfold norm_f32, norm. destruct (Z.eqb_spec ex 0) as [Z0|]; [|reflexivity]. specialize (Hz Z0).
  unfold softfloat_normSubnormalF32Sig. rewrite (uw_small 32 fr) by (unfold fits; lia). rewrite clz32_log2 by lia.
  cbn [prec binary32]. replace (31 - Z.log2 fr - 8) with (24 - 1 - Z.log2 fr) by lia. f_equal.
  pose proof (Z.log2_nonneg fr). pose proof (Z.log2_spec fr Hz) as [L1 L2]. rewrite Z.pow_succ_r in L2 by lia.
  assert (Z.log2 fr < 23) by (apply Z.log2_lt_pow2; lia).
  unfold shl64. rewrite Z.shiftl_mul_pow2 by lia. apply uw_small.
  assert (E : 2 ^ 23 = 2 ^ Z.log2 fr * 2 ^ (24 - 1 - Z.log2 fr)) by (rewrite <- Z.pow_add_r by lia; f_equal; lia).
  pose proof (pow2_pos (24 - 1 - Z.log2 fr) ltac:(lia)). unfold fits. nia.
Qed.

Lemma pack_f32 s exp sig : u32 (packToF32UI s exp sig) = packed binary32 s exp sig.
Proof.
  unfold packToF32UI, packed, sign_bits. cbn [width prec binary32]. unfold add64. rewrite uw_uw by lia.
  rewrite uw_add_l, !Z.shiftl_mul_pow2 by lia. apply uw_congr; [lia|].
  pose proof (Z.div_mod exp (2 ^ 32) ltac:(lia)) as E. unfold uw.
  exists (- (exp / 2 ^ 32) * 2 ^ 23 - (b2z s * 2 ^ 31) / 2 ^ 32 - (exp mod 2 ^ 32 * 2 ^ 23) / 2 ^ 32).
  pose proof (Z.div_mod (b2z s * 2 ^ 31) (2 ^ 32) ltac:(lia)). pose proof (Z.div_mod (exp mod 2 ^ 32 * 2 ^ 23) (2 ^ 32) ltac:(lia)).
  change (32 - 1) with 31. change (24 - 1) with 23. lia.
Qed.

Lemma ret_f32_packed s exp sig : ret_f32 (packToF32UI s exp sig) = sf_ret (packed binary32 s exp sig).
Proof. unfold ret_f32. now rewrite pack_f32. Qed.

Lemma packed32_small s exp sig : 0 <= exp -> 0 <= sig -> exp * 2 ^ 23 + sig <= 0xFF * 2 ^ 23 ->
  packed binary32 s exp sig = sign_bits binary32 s + exp * 2 ^ 23 + sig.
Proof. intros. apply (packed_small binary32 7); cbn [prec width binary32]; lia || assumption. Qed.

Lemma roundPackToF32_generic s exp sig e : fits 32 sig ->
  softfloat_roundPackToF32 s exp sig e = roundPack binary32 7 32 softfloat_shiftRightJam32 s exp sig e.
Proof.
  intros Fs. unfold softfloat_roundPackToF32, roundPack, pack_rounded. rewrite (uw_small 32 sig Fs).
  unfold sf_bind, sf_mode.
  change (roundIncrementF32 (softfloat_roundingMode e) s) with (increment 7 (softfloat_roundingMode e) s).
  change (2 * emax binary32 - 1) with 0xFD. change (2 ^ (prec binary32 + 7)) with 0x80000000.
  rewrite (Z.ltb_antisym 0x80000000). change (Z.ones 7) with 0x7F. change (2 ^ (7 - 1)) with 0x40.
  cbv zeta beta. cbn [softfloat_detectTininess softfloat_tininess_beforeRounding softfloat_tininess_afterRounding].
  change (softfloat_detectTininess =? softfloat_tininess_beforeRounding) with false. cbn [orb].
  repeat match goal with |- (if ?c then _ else _) _ = (if ?c then _ else _) _ => destruct c end.
  2: { destruct (softfloat_raiseFlags _ e) as [_ e']. unfold ret_f32. rewrite uw_idem, <- uw_sub_l, pack_f32. reflexivity. }
  all: repeat match goal with |- context [raise_if ?c ?f ?e] => destruct (raise_if c f e) as [? ?] end.
  all: destruct (_ && _); now rewrite ret_f32_packed.
Qed.

(** [softfloat_roundPackToF32] rounds and packs. *)
Lemma roundPackToF32_ok s exp sig e : valid_mode (softfloat_roundingMode e) ->
  2 ^ 30 <= sig < 2 ^ 31 -> - 2 ^ 31 <= exp < 2 ^ 31 ->
  implements (softfloat_roundPackToF32 s exp sig) e (round_pack binary32 7 (softfloat_roundingMode e) s exp sig).
Proof.
  intros V Hs He. assert (Fs : fits 32 sig) by (unfold fits; lia).
  unfold implements. rewrite roundPackToF32_generic by exact Fs.
  apply (roundPack_ok binary32 7 32); cbn [prec width emax binary32]; try lia; try reflexivity; try assumption.
  intros d Hd. now apply shiftRightJam32_jam.
Qed.

Lemma view32 b : view binary32 b (decode binary32 b).
Proof. apply decode_view; cbn; lia. Qed.
Lemma expo32_range b : 0 <= expo binary32 b <= 0xFF.
Proof. exact (expo_range binary32 ltac:(cbn; lia) b). Qed.
Lemma frac32_range b : 0 <= frac binary32 b < 2 ^ 23.
Proof. exact (frac_range binary32 ltac:(cbn; lia) b). Qed.

(** Rounding of a value that a sticky significand stands for. *)
Lemma roundPackToF32_sticky s exp sig N D q e : valid_mode (softfloat_roundingMode e) ->
  2 ^ 30 <= sig < 2 ^ 31 -> - 2 ^ 31 <= exp < 2 ^ 31 -> 0 < N -> 0 < D -> sticky 6 N D sig -> q = exp - 156 ->
  implements (softfloat_roundPackToF32 s exp sig) e (round binary32 (softfloat_roundingMode e) s N D q).
Proof.
  intros V Hs He HN HD St ->.
  replace (exp - 156) with (exp + qmin binary32 - 7) by (change (qmin binary32) with (-149); lia).
  rewrite (round_from_sticky binary32 ltac:(cbn; lia) 7 _ s N D exp sig) by (assumption || (cbn; lia)).
  now apply roundPackToF32_ok.
Qed.

(** A finite operand, as [norm_f32] normalises it. *)
Lemma norm_f32_form s ex fr m e : 0 <= ex < 0xFF -> (ex = 0 -> 0 < fr) -> 0 <= fr < 2 ^ 23 ->
  datum_of binary32 s ex fr = Finite s m e ->
  exists E S, norm_f32 ex fr = (E, S) /\ normal_form binary32 (Finite s m e) s E (S |w 0x00800000).
Proof.
  intros He Hz Hf <-. rewrite norm_f32_spec by assumption. destruct (norm binary32 ex fr) as [E S] eqn:N.
  exists E, S. split; [reflexivity|]. apply (norm_form binary32); try assumption; cbn; lia.
Qed.

Lemma propagateNaN_f32_ok a b e :
  implements (propagateNaN_f32 a b) e (nan_result binary32 (is_snan (decode binary32 a)) (is_snan (decode binary32 b))).
Proof.
  unfold nan_result. rewrite <- !isSigNaNF32_spec. unfold propagateNaN_f32, softfloat_propagateNaNF32UI.
  destruct (_ || _); unfold implements; cbn; [|rewrite Z.lor_0_r; destruct e]; reflexivity.
Qed.
Lemma invalid_f32_ok e : implements invalid_f32 e (invalid binary32).
Proof. reflexivity. Qed.
Lemma ret_inf_f32 s e : implements (ret_f32 (packToF32UI s 0xFF 0)) e (inf_bits binary32 s, 0).
Proof. rewrite ret_f32_packed. replace (packed binary32 s 0xFF 0) with (inf_bits binary32 s) by now destruct s. apply implements_ret. Qed.
Lemma ret_zero_f32 s e : implements (ret_f32 (packToF32UI s 0 0)) e (zero_bits binary32 s, 0).
Proof. rewrite ret_f32_packed. replace (packed binary32 s 0 0) with (zero_bits binary32 s) by now destruct s. apply implements_ret. Qed.

(** ** Double precision *)

Lemma signF64_spec a : fits 64 a -> signF64UI a = sign binary64 a.
Proof.
  intros H. unfold signF64UI, sign. cbn [width binary64].
  rewrite Z.testbit_eqb by lia. rewrite Z.shiftr_div_pow2 by lia. change (64 - 1) with 63.
  assert (B : a / 2 ^ 63 = 0 \/ a / 2 ^ 63 = 1).
  { unfold fits in H. assert (0 <= a / 2 ^ 63) by (apply Z.div_pos; lia). assert (a / 2 ^ 63 < 2) by (apply Z.div_lt_upper_bound; lia). lia. }
  now destruct B as [->| ->].
Qed.
Lemma expF64_spec a : expF64UI a = expo binary64 a.
Proof. unfold expF64UI, expo. change 0x7FF with (Z.ones 11). now rewrite mask_low, Z.shiftr_div_pow2 by lia. Qed.
Lemma fracF64_spec a : fracF64UI a = frac binary64 a.
Proof. unfold fracF64UI. change 0x000FFFFFFFFFFFFF with (Z.ones 52). now rewrite mask_low by lia. Qed.

Lemma isNaNF64_spec a : isNaNF64UI a = is_nan (decode binary64 a).
Proof. exact (isNaN_mask binary64 ltac:(cbn; lia) ltac:(cbn; lia) a). Qed.
Lemma isSigNaNF64_spec a : softfloat_isSigNaNF64UI a = is_snan (decode binary64 a).
Proof. exact (isSigNaN_mask binary64 ltac:(cbn; lia) ltac:(cbn; lia) a). Qed.

Lemma norm_f64_spec ex fr : 0 <= fr < 2 ^ 52 -> (ex = 0 -> 0 < fr) -> norm_f64 ex fr = norm binary64 ex fr.
Proof.
  intros Hf Hz. unfold norm_f64, norm. destruct (Z.eqb_spec ex 0) as [Z0|]; [|reflexivity]. specialize (Hz Z0).
  unfold softfloat_normSubnormalF64Sig. rewrite clz64_log2 by lia.
  cbn [prec binary64]. replace (63 - Z.log2 fr - 11) with (53 - 1 - Z.log2 fr) by lia. f_equal.
  pose proof (Z.log2_nonneg fr). pose proof (Z.log2_spec fr Hz) as [L1 L2]. rewrite Z.pow_succ_r in L2 by lia.
  assert (Z.log2 fr < 52) by (apply Z.log2_lt_pow2; lia).
  unfold shl64. rewrite Z.shiftl_mul_pow2 by lia. apply uw_small.
  assert (E : 2 ^ 52 = 2 ^ Z.log2 fr * 2 ^ (53 - 1 - Z.log2 fr)) by (rewrite <- Z.pow_add_r by lia; f_equal; lia).
  pose proof (pow2_pos (53 - 1 - Z.log2 fr) ltac:(lia)). unfold fits. nia.
Qed.

Lemma pack_f64 s exp sig : packToF64UI s exp sig = packed binary64 s exp sig.
Proof.
  unfold packToF64UI, packed, sign_bits. cbn [width prec binary64]. unfold add64, shl64.
  rewrite !Z.shiftl_mul_pow2 by lia. rewrite uw_add_l, <- Z.add_assoc, uw_add_l, Z.add_comm, <- Z.add_assoc, uw_add_l.
  apply uw_congr; [lia|]. pose proof (Z.div_mod exp (2 ^ 64) ltac:(lia)) as E. unfold uw.
  exists (- (exp / 2 ^ 64) * 2 ^ 52). change (64 - 1) with 63. change (53 - 1) with 52. lia.
Qed.

Lemma ret_f64_packed s exp sig : ret_f64 (packToF64UI s exp sig) = sf_ret (packed binary64 s exp sig).
Proof. unfold ret_f64. now rewrite pack_f64. Qed.

Lemma packed64_small s exp sig : 0 <= exp -> 0 <= sig -> exp * 2 ^ 52 + sig <= 0x7FF * 2 ^ 52 ->
  packed binary64 s exp sig = sign_bits binary64 s + exp * 2 ^ 52 + sig.
Proof. intros. apply (packed_small binary64 10); cbn [prec width binary64]; lia || assumption. Qed.

Lemma roundPackToF64_generic s exp sig e :
  softfloat_roundPackToF64 s exp sig e = roundPack binary64 10 16 softfloat_shiftRightJam64 s exp sig e.
Proof.
  unfold softfloat_roundPackToF64, roundPack, pack_rounded. unfold sf_bind, sf_mode.
  change (roundIncrementF64 (softfloat_roundingMode e) s) with (increment 10 (softfloat_roundingMode e) s).
  change (2 * emax binary64 - 1) with 0x7FD. change (2 ^ (prec binary64 + 10)) with 0x8000000000000000.
  rewrite (Z.ltb_antisym 0x8000000000000000). change (Z.ones 10) with 0x3FF. change (2 ^ (10 - 1)) with 0x200.
  cbv zeta beta. change (softfloat_detectTininess =? softfloat_tininess_beforeRounding) with false. cbn [orb].
  repeat match goal with |- (if ?c then _ else _) _ = (if ?c then _ else _) _ => destruct c end.
  2: { destruct (softfloat_raiseFlags _ e) as [_ e']. unfold ret_f64. rewrite pack_f64. reflexivity. }
  all: repeat match goal with |- context [raise_if ?c ?f ?e] => destruct (raise_if c f e) as [? ?] end.
  all: destruct (_ && _); now rewrite ret_f64_packed.
Qed.

(** [softfloat_roundPackToF64] rounds and packs. *)
Lemma roundPackToF64_ok s exp sig e : valid_mode (softfloat_roundingMode e) ->
  2 ^ 62 <= sig < 2 ^ 63 -> - 2 ^ 15 <= exp < 2 ^ 15 ->
  implements (softfloat_roundPackToF64 s exp sig) e (round_pack binary64 10 (softfloat_roundingMode e) s exp sig).
Proof.
  intros V Hs He. unfold implements. rewrite roundPackToF64_generic.
  apply (roundPack_ok binary64 10 16); cbn [prec width emax binary64]; try lia; try reflexivity; try assumption.
  intros d Hd. apply shiftRightJam64_jam; [exact Hd|unfold fits; lia].
Qed.

Lemma view64 b : view binary64 b (decode binary64 b).
Proof. apply decode_view; cbn; lia. Qed.
Lemma expo64_range b : 0 <= expo binary64 b <= 0x7FF.
Proof. exact (expo_range binary64 ltac:(cbn; lia) b). Qed.
Lemma frac64_range b : 0 <= frac binary64 b < 2 ^ 52.
Proof. exact (frac_range binary64 ltac:(cbn; lia) b). Qed.

(** Rounding of a value that a sticky significand stands for. *)
Lemma roundPackToF64_sticky s exp sig N D q e : valid_mode (softfloat_roundingMode e) ->
  2 ^ 62 <= sig < 2 ^ 63 -> - 2 ^ 15 <= exp < 2 ^ 15 -> 0 < N -> 0 < D -> sticky 9 N D sig -> q = exp - 1084 ->
  implements (softfloat_roundPackToF64 s exp sig) e (round binary64 (softfloat_roundingMode e) s N D q).
Proof.
  intros V Hs He HN HD St ->.
  replace (exp - 1084) with (exp + qmin binary64 - 10) by (change (qmin binary64) with (-1074); lia).
  rewrite (round_from_sticky binary64 ltac:(cbn; lia) 10 _ s N D exp sig) by (assumption || (cbn; lia)).
  now apply roundPackToF64_ok.
Qed.

(** A finite operand, as [norm_f64] normalises it. *)
Lemma norm_f64_form s ex fr m e : 0 <= ex < 0x7FF -> (ex = 0 -> 0 < fr) -> 0 <= fr < 2 ^ 52 ->
  datum_of binary64 s ex fr = Finite s m e ->
  exists E S, norm_f64 ex fr = (E, S) /\ normal_form binary64 (Finite s m e) s E (S |w 0x0010000000000000).
Proof.
  intros He Hz Hf <-. rewrite norm_f64_spec by assumption. destruct (norm binary64 ex fr) as [E S] eqn:N.
  exists E, S. split; [reflexivity|]. apply (norm_form binary64); try assumption; cbn; lia.
Qed.

Lemma propagateNaN_f64_ok a b e :
  implements (propagateNaN_f64 a b) e (nan_result binary64 (is_snan (decode binary64 a)) (is_snan (decode binary64 b))).
Proof.
  unfold nan_result. rewrite <- !isSigNaNF64_spec. unfold propagateNaN_f64, softfloat_propagateNaNF64UI.
  destruct (_ || _); unfold implements; cbn; [|rewrite Z.lor_0_r; destruct e]; reflexivity.
Qed.
Lemma invalid_f64_ok e : implements invalid_f64 e (invalid binary64).
Proof. reflexivity. Qed.
Lemma ret_inf_f64 s e : implements (ret_f64 (packToF64UI s 0x7FF 0)) e (inf_bits binary64 s, 0).
Proof. rewrite ret_f64_packed. replace (packed binary64 s 0x7FF 0) with (inf_bits binary64 s) by now destruct s. apply implements_ret. Qed.
Lemma ret_zero_f64 s e : implements (ret_f64 (packToF64UI s 0 0)) e (zero_bits binary64 s, 0).
Proof. rewrite ret_f64_packed. replace (packed binary64 s 0 0) with (zero_bits binary64 s) by now destruct s. apply implements_ret. Qed.

Lemma lor_eq_0 x y : (x |w y =? 0) = (x =? 0) && (y =? 0).
Proof.
  destruct (Z.eqb_spec (x |w y) 0) as [E|N].
  - apply Z.lor_eq_0_iff in E as [-> ->]. reflexivity.
  - symmetry. apply andb_false_iff. destruct (Z.eqb_spec x 0) as [->|], (Z.eqb_spec y 0) as [->|]; auto. now rewrite Z.lor_0_l in N.
Qed.

(** Settles the tests of a field against a constant. *)
Ltac settle :=
  unfold z2b; rewrite ?lor_eq_0; repeat match goal with
  | |- context [(?x =? ?y) && (?z =? ?t)] =>
    first [replace ((x =? y) && (z =? t)) with true by lia | replace ((x =? y) && (z =? t)) with false by lia]
  | |- context [?x =? ?y] => first [replace (x =? y) with true by lia | replace (x =? y) with false by lia]
  end; cbn [andb orb negb].

(** Settles the order of the exponents as well. *)
Ltac settle_order :=
  repeat match goal with
  | |- context [?x <? ?y] => first [replace (x <? y) with true by lia | replace (x <? y) with false by lia]
  | |- context [?x =? ?y] => first [replace (x =? y) with true by lia | replace (x =? y) with false by lia]
  end; cbn [andb orb negb].
