(* ===== verification/SoftCompare.v ===== *)
(** * SoftCompare: the comparisons of SoftFloat order the values

    [value]: the magnitude of a datum in units of the least subnormal number.
    Words of one sign are ordered as their values, which is what the code
    compares. *)
From Stdlib Require Import ZArith Lia Bool List.
From stdpp Require Import base list.
From S2P Require Import Prelude SoftFloat SoftF32 SoftF64 Ieee Sticky SoftFacts SoftFields.
#[local] Open Scope Z_scope.
#[local] Open Scope word_scope.

Section Compare.
Variable F : format.
Notation p := (prec F).
Notation w := (width F).
Hypothesis Hp : 3 <= p.
Hypothesis Hw : p + 1 < w.

(** The bits of the magnitude and its value in units of [2 ^ qmin]; an
    infinity is the next value after the finite ones. *)
Definition mag (b : Z) : Z := expo F b * 2 ^ (p - 1) + frac F b.
Definition value (b : Z) : Z :=
  if expo F b =? 0 then frac F b else (2 ^ (p - 1) + frac F b) * 2 ^ (expo F b - 1).

Lemma value_lt a b : mag a < mag b -> value a < value b.
Proof.
  unfold mag, value. pose proof (frac_range F ltac:(lia) a). pose proof (frac_range F ltac:(lia) b).
  pose proof (expo_range F Hw a). pose proof (expo_range F Hw b). pose proof (pow2_pos (p - 1) ltac:(lia)). intros L.
  destruct (Z.lt_trichotomy (expo F a) (expo F b)) as [E|[E|E]]; [| |nia].
  - replace (expo F b =? 0) with false by lia.
    assert (Lb : 2 ^ (p - 1) * 2 ^ (expo F b - 1) <= (2 ^ (p - 1) + frac F b) * 2 ^ (expo F b - 1))
      by (apply Z.mul_le_mono_nonneg_r; [apply Z.lt_le_incl, pow2_pos|]; lia).
    eapply Z.lt_le_trans; [|exact Lb]. destruct (Z.eqb_spec (expo F a) 0).
    + assert (1 <= 2 ^ (expo F b - 1)) by (pose proof (pow2_pos (expo F b - 1) ltac:(lia)); lia). nia.
    + replace (2 ^ (expo F b - 1)) with (2 * 2 ^ (expo F a - 1) * 2 ^ (expo F b - expo F a - 1)).
      * pose proof (pow2_pos (expo F a - 1) ltac:(lia)). assert (1 <= 2 ^ (expo F b - expo F a - 1)) by (pose proof (pow2_pos (expo F b - expo F a - 1) ltac:(lia)); lia).
        set (x := 2 ^ (expo F a - 1)) in *. set (y := 2 ^ (expo F b - expo F a - 1)) in *. set (h := 2 ^ (p - 1)) in *.
        assert ((h + frac F a) * x < 2 * h * x) by nia. assert (2 * h * x * 1 <= 2 * h * x * y) by (apply Z.mul_le_mono_nonneg_l; nia). nia.
      * rewrite <- (Z.pow_succ_r 2), <- Z.pow_add_r by lia. f_equal. lia.
  - rewrite E in *. destruct (Z.eqb_spec (expo F b) 0); [lia|]. apply Z.mul_lt_mono_pos_r; [apply pow2_pos|]; lia.
Qed.

Lemma value_compare a b : (value a ?= value b) = (mag a ?= mag b).
Proof.
  destruct (Z.compare_spec (mag a) (mag b)) as [E|L|L].
  - apply Z.compare_eq_iff. unfold value. assert (expo F a = expo F b /\ frac F a = frac F b) as [-> ->]; [|reflexivity].
    unfold mag in E. pose proof (frac_range F ltac:(lia) a). pose proof (frac_range F ltac:(lia) b).
    apply (Z.div_mod_unique (2 ^ (p - 1))); lia.
  - now apply Z.compare_lt_iff, value_lt.
  - now apply Z.compare_gt_iff, value_lt.
Qed.

Lemma mag_nonneg b : 0 <= mag b.
Proof. unfold mag. pose proof (frac_range F ltac:(lia) b). pose proof (expo_range F Hw b). pose proof (pow2_pos (p - 1) ltac:(lia)). nia. Qed.

Lemma value_0 b : value b = 0 <-> mag b = 0.
Proof.
  unfold value, mag. pose proof (frac_range F ltac:(lia) b). pose proof (expo_range F Hw b). pose proof (pow2_pos (p - 1) ltac:(lia)).
  destruct (Z.eqb_spec (expo F b) 0) as [->|]; [lia|]. pose proof (pow2_pos (expo F b - 1) ltac:(lia)). nia.
Qed.
Lemma value_nonneg b : 0 <= value b.
Proof.
  unfold value. pose proof (frac_range F ltac:(lia) b). pose proof (expo_range F Hw b). pose proof (pow2_pos (p - 1) ltac:(lia)).
  destruct (Z.eqb_spec (expo F b) 0); [lia|]. pose proof (pow2_pos (expo F b - 1) ltac:(lia)). nia.
Qed.

(** A number as a signed multiple of [2 ^ qmin]. *)
Definition num_exp (x : datum) : option (Z * Z) :=
  match x with Finite s m e => Some (signed s m, e) | Zero _ => Some (0, qmin F) | _ => None end.

Lemma num_value b n e : num_exp (decode F b) = Some (n, e) -> qmin F <= e /\ n * 2 ^ (e - qmin F) = signed (sign F b) (value b).
Proof.
  unfold value. rewrite decode_fields. unfold datum_of. pose proof (expo_range F Hw b).
  destruct (Z.eqb_spec (expo F b) (einf F)); [destruct (_ =? 0); discriminate|].
  destruct (Z.eqb_spec (expo F b) 0); [destruct (Z.eqb_spec (frac F b) 0) as [Ef|]|]; cbn [num_exp]; intros [= <- <-].
  - rewrite Ef. split; [lia|]. now destruct (sign F b).
  - rewrite Z.sub_diag, Z.mul_1_r. split; [lia|reflexivity].
  - replace (qmin F + expo F b - 1 - qmin F) with (expo F b - 1) by lia. split; [lia|]. destruct (sign F b); cbn [signed]; lia.
Qed.

Lemma signed_compare sa sb va vb ma mb : 0 <= va -> 0 <= vb -> 0 <= ma -> 0 <= mb ->
  (va ?= vb) = (ma ?= mb) -> (va = 0 <-> ma = 0) -> (vb = 0 <-> mb = 0) ->
  (signed sa va ?= signed sb vb) = (signed sa ma ?= signed sb mb).
Proof.
  intros. destruct sa, sb; cbn [signed].
  - rewrite !Z.compare_opp, (Z.compare_antisym va vb), (Z.compare_antisym ma mb). now f_equal.
  - destruct (Z.compare_spec (- va) vb), (Z.compare_spec (- ma) mb); reflexivity || lia.
  - destruct (Z.compare_spec va (- vb)), (Z.compare_spec ma (- mb)); reflexivity || lia.
  - assumption.
Qed.

Lemma mag_finite b : expo F b < einf F -> mag b < einf F * 2 ^ (p - 1).
Proof. intros. unfold mag. pose proof (frac_range F ltac:(lia) b). pose proof (pow2_pos (p - 1) ltac:(lia)). nia. Qed.
Lemma mag_inf b : expo F b = einf F -> frac F b = 0 -> mag b = einf F * 2 ^ (p - 1).
Proof. intros E Z0. unfold mag. rewrite E, Z0. lia. Qed.

(** [compare] in terms of the magnitudes' bits. *)
Lemma compare_mag a b : is_nan (decode F a) = false -> is_nan (decode F b) = false ->
  compare F (decode F a) (decode F b) = (signed (sign F a) (mag a) ?= signed (sign F b) (mag b)).
Proof.
  intros Na Nb. pose proof (mag_nonneg a). pose proof (mag_nonneg b).
  assert (Num : forall na ea nb eb, num_exp (decode F a) = Some (na, ea) -> num_exp (decode F b) = Some (nb, eb) ->
    (na * 2 ^ (ea - Z.min ea eb) ?= nb * 2 ^ (eb - Z.min ea eb)) = (signed (sign F a) (mag a) ?= signed (sign F b) (mag b))).
  { intros na ea nb eb Ea Eb. pose proof (num_value _ _ _ Ea) as [La Va]. pose proof (num_value _ _ _ Eb) as [Lb Vb].
    rewrite <- (signed_compare _ _ (value a) (value b)), <- Va, <- Vb;
      try apply value_nonneg; try apply mag_nonneg; try apply value_compare; try apply value_0.
    rewrite <- (compare_mul_r _ _ (2 ^ (Z.min ea eb - qmin F))) by (apply pow2_pos; lia).
    rewrite <- !Z.mul_assoc, <- !Z.pow_add_r by lia. f_equal; do 2 f_equal; lia. }
  revert Na Nb Num. pose proof (einf_ge F Hw). pose proof (pow2_pos (p - 1) ltac:(lia)). assert (0 < einf F * 2 ^ (p - 1)) by nia.
  destruct (decode_view F Hp Hw a) as [|Ea Za|Ea Za|ma ea Ea Za Da], (decode_view F Hp Hw b) as [|Eb Zb|Eb Zb|mb eb Eb Zb Db];
    try discriminate; intros _ _ Num; try (exact (Num _ _ _ _ eq_refl eq_refl)); clear Num;
    try pose proof (mag_inf a Ea Za); try pose proof (mag_inf b Eb Zb);
    try pose proof (mag_finite a ltac:(lia)); try pose proof (mag_finite b ltac:(lia));
    cbn [compare]; destruct (sign F a), (sign F b); cbn [signed eqb];
    symmetry; first [apply Z.compare_eq_iff; lia|apply Z.compare_lt_iff; lia|apply Z.compare_gt_iff; lia].
Qed.

(** The magnitude is the word without its top bit. *)
Lemma mag_mod b : fits w b -> b = sign_bits F (sign F b) + mag b /\ mag b < 2 ^ (w - 1).
Proof.
  intros H. split; [unfold mag; rewrite Z.add_assoc; now apply fields_value|].
  pose proof (expo_range F Hw b). pose proof (frac_range F ltac:(lia) b). unfold mag, einf in *.
  assert (E : 2 ^ (w - 1) = 2 ^ (p - 1) * 2 ^ (w - p)) by (rewrite <- Z.pow_add_r by lia; f_equal; lia). nia.
Qed.

(** The tests that the comparison functions make. *)
Lemma compare_words a b both_zero : fits w a -> fits w b ->
  is_nan (decode F a) = false -> is_nan (decode F b) = false -> both_zero = (mag a =? 0) && (mag b =? 0) ->
  let c := compare F (decode F a) (decode F b) in
  is_eq c = (a =? b) || both_zero /\
  is_lt c = (if negb (eqb (sign F a) (sign F b)) then sign F a && negb both_zero
             else negb (a =? b) && xorb (sign F a) (a <? b)) /\
  is_le c = (if negb (eqb (sign F a) (sign F b)) then sign F a || both_zero
             else (a =? b) || xorb (sign F a) (a <? b)).
Proof.
  intros Ha Hb Na Nb -> c. unfold c. rewrite compare_mag by assumption.
  destruct (mag_mod a Ha) as [Va Ba], (mag_mod b Hb) as [Vb Bb]. pose proof (mag_nonneg a). pose proof (mag_nonneg b).
  unfold sign_bits in *. set (h := 2 ^ (w - 1)) in *. set (x := mag a) in *. set (y := mag b) in *.
  clearbody x y h. destruct (sign F a), (sign F b); cbn [b2z signed eqb negb xorb andb] in *; subst a b;
    rewrite ?andb_true_r, ?andb_false_r.
  all: match goal with |- context [?u ?= ?v] => destruct (Z.compare_spec u v) end; cbn [is_eq is_lt is_le].
  all: split_and!; bcases; cbn [negb andb orb xorb]; reflexivity || lia.
Qed.
End Compare.

Lemma lor_mod_0 a b n : 0 <= n -> ((a |w b) mod 2 ^ n =? 0) = (a mod 2 ^ n =? 0) && (b mod 2 ^ n =? 0).
Proof. intros. rewrite <- !mask_low, Z.land_lor_distr_l by lia. apply lor_eq_0. Qed.

Lemma mag_low F b : 3 <= prec F -> prec F + 1 < width F -> fits (width F) b -> b mod 2 ^ (width F - 1) = mag F b.
Proof.
  intros Hp Hw Hb. destruct (mag_mod F Hp Hw b Hb) as [E B]. pose proof (mag_nonneg F Hp Hw b).
  symmetry. apply (Z.mod_unique_pos _ _ (b2z (sign F b))); unfold sign_bits in E; lia.
Qed.

Lemma both_zero_f32_ok a b : fits 32 a -> fits 32 b ->
  both_zero_f32 a b = (mag binary32 a =? 0) && (mag binary32 b =? 0).
Proof.
  intros Ha Hb. unfold both_zero_f32, uw. rewrite Z.shiftl_mul_pow2 by lia. change (2 ^ 32) with (2 ^ 31 * 2 ^ 1).
  rewrite Z.mul_mod_distr_r by lia.
  rewrite <- (mag_low binary32 a), <- (mag_low binary32 b) by (assumption || (cbn; lia)). change (2 ^ (width binary32 - 1)) with (2 ^ 31).
  rewrite <- (lor_mod_0 a b 31) by lia. change (2 ^ 1) with 2.
  destruct (Z.eqb_spec ((a |w b) mod 2 ^ 31) 0), (Z.eqb_spec ((a |w b) mod 2 ^ 31 * 2) 0); reflexivity || lia.
Qed.

Lemma both_zero_f64_ok a b : fits 64 a -> fits 64 b ->
  both_zero_f64 a b = (mag binary64 a =? 0) && (mag binary64 b =? 0).
Proof.
  intros Ha Hb. unfold both_zero_f64. change 0x7FFFFFFFFFFFFFFF with (Z.ones 63). rewrite mask_low, lor_mod_0 by lia.
  now rewrite <- (mag_low binary64 a), <- (mag_low binary64 b) by (assumption || (cbn; lia)).
Qed.

(** The flags of a comparison, and its result when neither operand is a NaN. *)
Lemma compare_with_nan F test quiet a b :
  compare_with F test quiet a b =
  if is_nan (decode F a) || is_nan (decode F b)
  then (false, if negb quiet || is_snan (decode F a) || is_snan (decode F b) then softfloat_flag_invalid else 0)
  else (test (compare F (decode F a) (decode F b)), 0).
Proof.
  unfold compare_with. destruct (decode F a), (decode F b); cbn [is_nan is_snan orb]; rewrite ?orb_false_r; reflexivity.
Qed.

Lemma f32_words a b : fits 32 a -> fits 32 b -> isNaNF32UI a = false -> isNaNF32UI b = false ->
  let c := compare binary32 (decode binary32 a) (decode binary32 b) in
  is_eq c = (a =? b) || both_zero_f32 a b /\
  is_lt c = (if negb (eqb (signF32UI a) (signF32UI b)) then signF32UI a && negb (both_zero_f32 a b)
             else negb (a =? b) && xorb (signF32UI a) (a <? b)) /\
  is_le c = (if negb (eqb (signF32UI a) (signF32UI b)) then signF32UI a || both_zero_f32 a b
             else (a =? b) || xorb (signF32UI a) (a <? b)).
Proof.
  intros Ha Hb. rewrite !isNaNF32_spec, !signF32_spec by assumption. intros Na Nb.
  apply compare_words; try assumption; try (cbn; lia). now apply both_zero_f32_ok.
Qed.

Lemma f64_words a b : fits 64 a -> fits 64 b -> isNaNF64UI a = false -> isNaNF64UI b = false ->
  let c := compare binary64 (decode binary64 a) (decode binary64 b) in
  is_eq c = (a =? b) || both_zero_f64 a b /\
  is_lt c = (if negb (eqb (signF64UI a) (signF64UI b)) then signF64UI a && negb (both_zero_f64 a b)
             else negb (a =? b) && xorb (signF64UI a) (a <? b)) /\
  is_le c = (if negb (eqb (signF64UI a) (signF64UI b)) then signF64UI a || both_zero_f64 a b
             else (a =? b) || xorb (signF64UI a) (a <? b)).
Proof.
  intros Ha Hb. rewrite !isNaNF64_spec, !signF64_spec by assumption. intros Na Nb.
  apply compare_words; try assumption; try (cbn; lia). now apply both_zero_f64_ok.
Qed.

(** The unordered outcomes. *)
Lemma nan_loud e : implements (sf_bind (softfloat_raiseFlags softfloat_flag_invalid) (fun _ => sf_ret false)) e (false, softfloat_flag_invalid).
Proof. reflexivity. Qed.
Lemma nan_quiet32 a b e : implements (sf_bind (nan_quiet_f32 a b) (fun _ => sf_ret false)) e
  (false, if is_snan (decode binary32 a) || is_snan (decode binary32 b) then softfloat_flag_invalid else 0).
Proof.
  unfold nan_quiet_f32. rewrite !isSigNaNF32_spec. destruct (_ || _); [reflexivity|].
  unfold implements. cbn. rewrite Z.lor_0_r. now destruct e.
Qed.
Lemma nan_quiet64 a b e : implements (sf_bind (nan_quiet_f64 a b) (fun _ => sf_ret false)) e
  (false, if is_snan (decode binary64 a) || is_snan (decode binary64 b) then softfloat_flag_invalid else 0).
Proof.
  unfold nan_quiet_f64. rewrite !isSigNaNF64_spec. destruct (_ || _); [reflexivity|].
  unfold implements. cbn. rewrite Z.lor_0_r. now destruct e.
Qed.

(** [f32_eq] and [f32_lt_quiet] are quiet comparisons of the values, [f32_lt]
    and [f32_le] signal on every NaN. *)
Lemma f32_comparisons_ok a b e : fits 32 a -> fits 32 b ->
  implements (f32_eq a b) e (compare_with binary32 is_eq true a b) /\
  implements (f32_lt a b) e (compare_with binary32 is_lt false a b) /\
  implements (f32_le a b) e (compare_with binary32 is_le false a b) /\
  implements (f32_lt_quiet a b) e (compare_with binary32 is_lt true a b).
Proof.
  intros Ha Hb. unfold f32_eq, f32_lt, f32_le, f32_lt_quiet. rewrite !compare_with_nan, <- !isNaNF32_spec.
  destruct (isNaNF32UI a || isNaNF32UI b) eqn:N.
  - cbn [negb orb]. split_and!; first [apply nan_loud|apply nan_quiet32].
  - apply orb_false_elim in N as [Na Nb]. destruct (f32_words a b Ha Hb Na Nb) as (-> & -> & ->).
    split_and!; apply implements_ret.
Qed.

Lemma f64_comparisons_ok a b e : fits 64 a -> fits 64 b ->
  implements (f64_eq a b) e (compare_with binary64 is_eq true a b) /\
  implements (f64_lt a b) e (compare_with binary64 is_lt false a b) /\
  implements (f64_le a b) e (compare_with binary64 is_le false a b) /\
  implements (f64_lt_quiet a b) e (compare_with binary64 is_lt true a b).
Proof.
  intros Ha Hb. unfold f64_eq, f64_lt, f64_le, f64_lt_quiet. rewrite !compare_with_nan, <- !isNaNF64_spec.
  destruct (isNaNF64UI a || isNaNF64UI b) eqn:N.
  - cbn [negb orb]. split_and!; first [apply nan_loud|apply nan_quiet64].
  - apply orb_false_elim in N as [Na Nb]. destruct (f64_words a b Ha Hb Na Nb) as (-> & -> & ->).
    split_and!; apply implements_ret.
Qed.
