(* ===== verification/SoftAdd.v ===== *)
(** * SoftAdd: sums and differences of SoftFloat are correctly rounded

    Values are integers in units of the least subnormal number ([value] of
    SoftCompare), so that a sum is a sum of integers.  The aligned addend is a
    sticky significand; subtraction keeps it sticky because only a shift by
    one can cancel more than one leading bit, and that shift is exact. *)
From Stdlib Require Import ZArith Lia Bool List.
From stdpp Require Import base list.
From S2P Require Import Prelude SoftFloat SoftF32 SoftF64 Ieee Sticky SoftFacts SoftFields SoftCompare.
#[local] Open Scope Z_scope.
#[local] Open Scope word_scope.

Lemma add64_small a b : fits 64 (a + b) -> a +w b = a + b.
Proof. apply uw_small. Qed.
Lemma sub64_small a b : fits 64 (a - b) -> a -w b = a - b.
Proof. apply uw_small. Qed.
Lemma shl64_small a n : 0 <= n -> fits 64 (a * 2 ^ n) -> a <<w n = a * 2 ^ n.
Proof. intros Hn H. unfold shl64. rewrite Z.shiftl_mul_pow2 by lia. now apply uw_small. Qed.

Lemma rounded_exact mode s M D : 0 < D -> rounded mode s (M * D) D = (M, false).
Proof.
  intros HD. unfold rounded. rewrite Z.mod_mul, Z.div_mul by lia. cbn [Z.eqb negb]. destruct (mode =? softfloat_round_odd); [reflexivity|].
  unfold round_up. rewrite !andb_false_r. replace (2 * 0 ?= D) with Lt by (symmetry; apply Z.compare_lt_iff; lia).
  repeat match goal with |- context [if ?c then _ else _] => destruct c end; cbn [b2z]; now rewrite Z.add_0_r.
Qed.

Section Add.
Variable F : format.
Notation p := (prec F).
Notation w := (width F).
Hypothesis Hp : 3 <= p.
Hypothesis Hw : p + 1 < w.
Hypothesis He : 1 < emax F.
Hypothesis Hemax : 2 * emax F + 1 = einf F.

(** ** The reference sum *)

Definition with_sign (s : bool) (x : datum) : datum :=
  match x with Nan q => Nan q | Infinity _ => Infinity s | Zero _ => Zero s | Finite _ m e => Finite s m e end.

Lemma with_sign_same b : with_sign (sign F b) (decode F b) = decode F b.
Proof. now destruct (decode_view F Hp Hw b). Qed.
Lemma with_sign_opp b : with_sign (negb (sign F b)) (decode F b) = opp (decode F b).
Proof. now destruct (decode_view F Hp Hw b). Qed.

(** The sum of [va] and [vb] least units. *)
Definition sum_value (mode : Z) (sa : bool) (va : Z) (sb : bool) (vb : Z) : Z * Z :=
  let z := signed sa va + signed sb vb in
  if z =? 0 then (zero_bits F (if eqb sa sb then sa else mode =? softfloat_round_min), 0)
  else round F mode (z <? 0) (Z.abs z) 1 (qmin F).

Lemma round_sum_value mode sa ma ea sb mb eb : qmin F <= ea -> qmin F <= eb ->
  round_sum F mode sa ma ea sb mb eb = sum_value mode sa (ma * 2 ^ (ea - qmin F)) sb (mb * 2 ^ (eb - qmin F)).
Proof.
  intros La Lb. unfold round_sum, sum_value. set (e := Z.min ea eb).
  assert (P : 0 < 2 ^ (e - qmin F)) by (apply pow2_pos; lia).
  assert (Sc : forall s m x, e <= x -> signed s (m * 2 ^ (x - qmin F)) = signed s (m * 2 ^ (x - e)) * 2 ^ (e - qmin F)).
  { intros s m x Hx. replace (x - qmin F) with (x - e + (e - qmin F)) by lia. rewrite Z.pow_add_r by lia. destruct s; cbn [signed]; lia. }
  rewrite !Sc, <- Z.mul_add_distr_r by lia.
  set (z := signed sa (ma * 2 ^ (ea - e)) + signed sb (mb * 2 ^ (eb - e))).
  replace (z * 2 ^ (e - qmin F) =? 0) with (z =? 0) by (destruct (Z.eqb_spec z 0), (Z.eqb_spec (z * 2 ^ (e - qmin F)) 0); nia || reflexivity).
  replace (z * 2 ^ (e - qmin F) <? 0) with (z <? 0) by (destruct (Z.ltb_spec z 0), (Z.ltb_spec (z * 2 ^ (e - qmin F)) 0); nia || reflexivity).
  destruct (Z.eqb_spec z 0); [reflexivity|]. rewrite Z.abs_mul, (Z.abs_eq (2 ^ _)) by lia.
  apply (round_shl F); lia.
Qed.

(** Finite operands, zeros included. *)
Lemma plus_finite mode a b sb : expo F a < einf F -> expo F b < einf F ->
  plus F mode (decode F a) (with_sign sb (decode F b)) = sum_value mode (sign F a) (value F a) sb (value F b).
Proof.
  intros Ha Hb.
  assert (Val : forall x s m e, decode F x = Finite s m e -> qmin F <= e /\ value F x = m * 2 ^ (e - qmin F)).
  { intros x s m e D. pose proof (num_value F ltac:(assumption) x (signed s m) e) as N. rewrite D in N. cbn [num_exp] in N.
    specialize (N eq_refl) as [L V]. split; [exact L|].
    assert (S : s = sign F x) by (revert D; destruct (decode_view F Hp Hw x); congruence). rewrite S in V. destruct (sign F x); cbn [signed] in V; lia. }
  assert (Zer : forall x s, decode F x = Zero s -> value F x = 0).
  { intros x s D. pose proof (num_value F ltac:(assumption) x 0 (qmin F)) as N. rewrite D in N. cbn [num_exp] in N.
    specialize (N eq_refl) as [_ V]. destruct (sign F x); cbn [signed] in V; lia. }
  pose proof (Val a) as Va. pose proof (Val b) as Vb. pose proof (Zer a) as Za. pose proof (Zer b) as Zb.
  destruct (decode_view F Hp Hw a) as [| | |ma ea Ea], (decode_view F Hp Hw b) as [| | |mb eb Eb]; try lia; cbn [with_sign plus];
    try specialize (Va _ _ _ eq_refl) as [La ->]; try specialize (Vb _ _ _ eq_refl) as [Lb ->];
    try rewrite (Za _ eq_refl); try rewrite (Zb _ eq_refl); rewrite round_sum_value, ?Z.sub_diag by lia; reflexivity.
Qed.

Lemma sum_same mode s va vb : 0 <= va -> 0 <= vb ->
  sum_value mode s va s vb = if va + vb =? 0 then (zero_bits F s, 0) else round F mode s (va + vb) 1 (qmin F).
Proof.
  intros Ha Hb. unfold sum_value. rewrite eqb_reflx.
  replace (signed s va + signed s vb) with (signed s (va + vb)) by (destruct s; cbn [signed]; lia).
  destruct (Z.eqb_spec (va + vb) 0) as [->|N]; [now destruct s|].
  replace (signed s (va + vb) =? 0) with false by (destruct s; cbn [signed]; lia).
  replace (signed s (va + vb) <? 0) with s by (destruct s; cbn [signed]; lia).
  f_equal. destruct s; cbn [signed]; lia.
Qed.

Lemma sum_diff mode s va vb : 0 <= va -> 0 <= vb ->
  sum_value mode s va (negb s) vb =
  if va =? vb then (zero_bits F (mode =? softfloat_round_min), 0)
  else if vb <? va then round F mode s (va - vb) 1 (qmin F) else round F mode (negb s) (vb - va) 1 (qmin F).
Proof.
  intros Ha Hb. unfold sum_value. replace (eqb s (negb s)) with false by now destruct s.
  replace (signed s va + signed (negb s) vb) with (signed s (va - vb)) by (destruct s; cbn [signed negb]; lia).
  destruct (Z.eqb_spec va vb) as [->|N]; [rewrite Z.sub_diag; now destruct s|].
  replace (signed s (va - vb) =? 0) with false by (destruct s; cbn [signed]; lia).
  destruct (Z.ltb_spec vb va).
  - replace (signed s (va - vb) <? 0) with s by (destruct s; cbn [signed]; lia). f_equal. destruct s; cbn [signed]; lia.
  - replace (signed s (va - vb) <? 0) with (negb s) by (destruct s; cbn [signed negb]; lia). f_equal. destruct s; cbn [signed]; lia.
Qed.

(** ** Exact results *)

Lemma round_exact mode s E M : 0 < M < 2 ^ p -> 1 <= E < einf F -> (E = 1 \/ 2 ^ (p - 1) <= M) ->
  round F mode s M 1 (qmin F + E - 1) = (sign_bits F s + (E - 1) * 2 ^ (p - 1) + M, 0).
Proof.
  intros HM HE HN. rewrite round_unfold. unfold round_from.
  assert (L : ilog2 M 1 = Z.log2 M).
  { apply ilog2_unique; [lia..|]. pose proof (Z.log2_spec M ltac:(lia)) as [L1 L2]. rewrite Z.pow_succ_r in L2 by apply Z.log2_nonneg.
    unfold scale. destruct (Z.leb_spec 0 (- Z.log2 M)); pose proof (Z.log2_nonneg M).
    - replace (Z.log2 M) with 0 in * by lia. cbn in *. lia.
    - rewrite Z.opp_involutive, Z.mul_1_l. lia. }
  assert (Lp : Z.log2 M <= p - 1) by (apply Z.lt_succ_r, Z.log2_lt_pow2; [lia|replace (Z.succ (p - 1)) with p by lia; lia]).
  assert (Q : Z.max (qmin F + E - 1 + ilog2 M 1 - (p - 1)) (qmin F) = qmin F + E - 1).
  { rewrite L. destruct HN as [->|HN]; [lia|]. assert (p - 1 <= Z.log2 M); [|lia].
    rewrite <- (Z.log2_pow2 (p - 1)) by lia. apply Z.log2_le_mono. lia. }
  rewrite Q. unfold at_quantum at 1. rewrite Z.sub_diag. unfold scale at 1. cbn [Z.leb Z.compare]. rewrite Z.mul_1_r.
  pose proof (rounded_exact mode s M 1 ltac:(lia)) as R. rewrite Z.mul_1_r in R.
  rewrite R. replace (2 ^ (emax F + 1 - (qmin F + E - 1)) <=? M) with false.
  - f_equal. f_equal. lia.
  - symmetry. apply Z.leb_gt. apply Z.lt_le_trans with (2 ^ p); [lia|]. apply Z.pow_le_mono_r; [lia|]. unfold qmin, emin. lia.
Qed.

(** ** Alignment *)

Lemma align_round g mode s V N d ex q c : 0 < V -> 0 < N -> 0 <= d -> 0 <= g -> 0 <= c -> 0 <= ex + c -> q = ex + qmin F - g ->
  V * 2 ^ (g + d + c) = N * 2 ^ (ex + c) -> round F mode s V 1 (qmin F) = round F mode s N (2 ^ d) q.
Proof.
  intros HV HN Hd Hg Hc Hx -> E. pose proof (pow2_pos d Hd).
  apply (round_ext F mode s V 1 (qmin F) N (2 ^ d) (ex + qmin F - g) (qmin F - g - c)); try lia.
  replace (qmin F - (qmin F - g - c)) with (g + c) by lia. replace (ex + qmin F - g - (qmin F - g - c)) with (ex + c) by lia.
  rewrite <- Z.mul_assoc, <- Z.pow_add_r by lia. replace (d + (g + c)) with (g + d + c) by lia. lia.
Qed.

(** Twice the value, as a significand times [2 ^ expo]. *)
Definition sig_of (b : Z) : Z := if expo F b =? 0 then 2 * frac F b else 2 ^ (p - 1) + frac F b.

Lemma sig_range b : 0 <= sig_of b < 2 ^ p /\ (expo F b <> 0 -> 2 ^ (p - 1) <= sig_of b).
Proof.
  unfold sig_of. pose proof (frac_range F ltac:(lia) b). pose proof (pow2_half p ltac:(lia)).
  destruct (Z.eqb_spec (expo F b) 0); lia.
Qed.
Lemma sig_value b : 2 * value F b = sig_of b * 2 ^ expo F b.
Proof.
  unfold value, sig_of. pose proof (expo_range F Hw b). destruct (Z.eqb_spec (expo F b) 0) as [->|]; [lia|].
  replace (2 ^ expo F b) with (2 * 2 ^ (expo F b - 1)) by (rewrite <- Z.pow_succ_r by lia; f_equal; lia). lia.
Qed.

(** The aligned sum: the operand with the larger exponent is [x]. *)
Lemma add_sticky g x y : 2 <= g -> expo F y < expo F x ->
  let d := expo F x - expo F y in
  let sig := sig_of x * 2 ^ (g - 1) + jam (sig_of y * 2 ^ (g - 1)) d in
  let N := sig_of x * 2 ^ (g - 1) * 2 ^ d + sig_of y * 2 ^ (g - 1) in
  2 ^ (p + g - 2) <= sig < 2 ^ (p + g) /\ sticky 1 N (2 ^ d) sig /\
  0 < N /\ (value F x + value F y) * 2 ^ (g + d) = N * 2 ^ expo F x.
Proof.
  intros Hg L d sig N. pose proof (expo_range F Hw y). destruct (sig_range x) as [Rx Nx]. destruct (sig_range y) as [Ry _].
  specialize (Nx ltac:(lia)). pose proof (pow2_pos d ltac:(unfold d; lia)) as Pd. pose proof (pow2_pos (g - 1) ltac:(lia)) as Pg.
  pose proof (jam_bounds (sig_of y * 2 ^ (g - 1)) d ltac:(unfold d; lia) ltac:(nia)) as J.
  assert (E1 : 2 ^ (p + g - 2) = 2 ^ (p - 1) * 2 ^ (g - 1)) by (rewrite <- Z.pow_add_r by lia; f_equal; lia).
  assert (E2 : 2 ^ (p + g) = 2 * (2 ^ p * 2 ^ (g - 1))) by (rewrite <- Z.pow_add_r, <- Z.pow_succ_r by lia; f_equal; lia).
  assert (1 <= 2 ^ p * 2 ^ (g - 1)) by (pose proof (pow2_pos p ltac:(lia)); nia).
  assert (sig_of x * 2 ^ (g - 1) < 2 ^ p * 2 ^ (g - 1)) by nia. assert (sig_of y * 2 ^ (g - 1) < 2 ^ p * 2 ^ (g - 1)) by nia.
  split_and!.
  - unfold sig. nia.
  - unfold sig. lia.
  - unfold sig, N.
    replace (sig_of x * 2 ^ (g - 1)) with (sig_of x * 2 ^ (g - 1 - 1) * 2 ^ 1) by (rewrite (pow2_half (g - 1)) by lia; change (2 ^ 1) with 2; lia).
    apply sticky_add. pose proof (sticky_jam 0 1 d _ 1 _ ltac:(unfold d; lia) ltac:(lia) ltac:(unfold d; lia) (sticky_exact 0 1 (sig_of y * 2 ^ (g - 1)) ltac:(lia))) as St.
    now rewrite Z.mul_1_r, Z.mul_1_l in St.
  - unfold N. assert (2 ^ (p - 1) * 2 ^ (g - 1) <= sig_of x * 2 ^ (g - 1)) by nia. pose proof (pow2_pos (p - 1) ltac:(lia)). nia.
  - pose proof (sig_value x) as Vx. pose proof (sig_value y) as Vy. unfold N.
    replace (2 ^ (g + d)) with (2 * (2 ^ (g - 1) * 2 ^ d)) by (rewrite <- Z.pow_add_r, <- Z.pow_succ_r by (unfold d; lia); f_equal; lia).
    rewrite Z.mul_assoc, (Z.mul_comm _ 2), Z.mul_add_distr_l, Vx, Vy.
    replace (2 ^ expo F x) with (2 ^ expo F y * 2 ^ d) by (rewrite <- Z.pow_add_r by (unfold d; lia); f_equal; unfold d; lia). lia.
Qed.

(** Shifting a significand of [n] bits up to its full width. *)
Lemma normalise sig n : 0 < sig < 2 ^ n -> 0 <= n ->
  let k := n - 1 - Z.log2 sig in 0 <= k < n /\ 2 ^ (n - 1) <= sig * 2 ^ k < 2 ^ n.
Proof.
  intros H Hn k. pose proof (Z.log2_spec sig ltac:(lia)) as [L1 L2]. pose proof (Z.log2_nonneg sig).
  rewrite Z.pow_succ_r in L2 by lia. assert (Z.log2 sig < n) by (apply Z.log2_lt_pow2; lia).
  pose proof (pow2_pos k ltac:(unfold k; lia)). pose proof (pow2_half n ltac:(lia)).
  assert (D : 2 ^ Z.log2 sig * 2 ^ k = 2 ^ (n - 1)) by (rewrite <- Z.pow_add_r by (unfold k; lia); f_equal; unfold k; lia).
  split; [unfold k; lia|]. split.
  - rewrite <- D. apply Z.mul_le_mono_nonneg_r; lia.
  - apply Z.lt_le_trans with (2 * 2 ^ Z.log2 sig * 2 ^ k); [apply Z.mul_lt_mono_pos_r|]; lia.
Qed.

(** An aligned subtrahend: a shift by one is exact, a larger one leaves two
    leading zeros. *)
Lemma aligned_jam g Y d : 3 <= g -> 0 <= Y < 2 ^ (p + g) -> Z.even Y = true -> 1 <= d ->
  (d = 1 /\ 2 * jam Y d = Y) \/ (2 <= d /\ 0 <= jam Y d < 2 ^ (p + g - 2)).
Proof.
  intros Hg HY Ev Hd. destruct (Z.eq_dec d 1) as [->|Nd]; [left|right].
  - split; [reflexivity|]. apply Z.even_spec in Ev as [h ->]. unfold jam. change (2 ^ 1) with 2.
    rewrite (Z.mul_comm 2 h), Z.mod_mul, Z.div_mul by lia. cbn [Z.eqb]. lia.
  - split; [lia|]. split; [apply jam_bounds; lia|].
    assert (Ev' : Z.even (2 ^ (p + g - 2)) = true) by (rewrite Z.even_pow by lia; reflexivity).
    pose proof (jam_compare Y d (2 ^ (p + g - 2)) ltac:(lia) Ev') as C.
    assert (2 ^ (p + g) <= 2 ^ (p + g - 2) * 2 ^ d) by (rewrite <- Z.pow_add_r by lia; apply Z.pow_le_mono_r; lia).
    destruct (Z.compare_spec (2 ^ (p + g - 2)) (jam Y d)), (Z.compare_spec (2 ^ (p + g - 2) * 2 ^ d) Y); discriminate || lia.
Qed.

Lemma difference_sticky g a Y d : 3 <= g -> 0 <= Y < 2 ^ (p + g) -> Z.even Y = true -> 1 <= d ->
  2 ^ (p - 1 + g) <= a * 2 ^ g < 2 ^ (p + g) ->
  let sig := a * 2 ^ g - jam Y d in
  let k := p + g - 1 - Z.log2 sig in
  0 < sig < 2 ^ (p + g) /\ sticky (g - 1) ((a * 2 ^ g * 2 ^ d - Y) * 2 ^ k) (2 ^ d) (sig * 2 ^ k).
Proof.
  intros Hg HY Ev Hd HX sig k. pose proof (aligned_jam g Y d Hg HY Ev Hd) as J.
  assert (E1 : 2 ^ (p + g) = 2 * 2 ^ (p - 1 + g)) by (rewrite <- Z.pow_succ_r by lia; f_equal; lia).
  assert (E2 : 2 ^ (p - 1 + g) = 2 * 2 ^ (p + g - 2)) by (rewrite <- Z.pow_succ_r by lia; f_equal; lia).
  assert (Ps : 0 < sig < 2 ^ (p + g) /\ (d = 1 \/ 2 ^ (p + g - 2) <= sig)) by (unfold sig; destruct J as [[]|[]]; lia).
  destruct Ps as [Ps Pk]. split; [exact Ps|]. pose proof (normalise sig (p + g) Ps ltac:(lia)) as [Kr _]. fold k in Kr.
  pose proof (pow2_pos d ltac:(lia)). destruct J as [[D1 J]|[D2 J]].
  - replace ((a * 2 ^ g * 2 ^ d - Y) * 2 ^ k) with (sig * 2 ^ k * 2 ^ d) by (unfold sig; rewrite D1 in *; change (2 ^ 1) with 2; lia).
    now apply sticky_exact.
  - assert (k <= 1).
    { assert (p + g - 2 <= Z.log2 sig); [|unfold k; lia]. rewrite <- (Z.log2_pow2 (p + g - 2)) by lia. apply Z.log2_le_mono. lia. }
    apply (sticky_weaken (1 + k)); [lia|]. apply sticky_shl; [lia..|]. unfold sig.
    replace (a * 2 ^ g) with (a * 2 ^ (g - 1) * 2 ^ 1) by (rewrite (pow2_half g) by lia; change (2 ^ 1) with 2; lia).
    apply sticky_sub. pose proof (sticky_jam 0 1 d _ 1 _ ltac:(lia) ltac:(lia) ltac:(lia) (sticky_exact 0 1 Y ltac:(lia))) as St.
    now rewrite Z.mul_1_r, Z.mul_1_l in St.
Qed.

(** The aligned difference: the operand with the larger exponent is [x], and
    [k] the shift that normalises the result. *)
Lemma sub_sticky g x y : 3 <= g -> expo F y < expo F x ->
  let d := expo F x - expo F y in
  let sig := sig_of x * 2 ^ g - jam (sig_of y * 2 ^ g) d in
  let k := p + g - 1 - Z.log2 sig in
  let N := (sig_of x * 2 ^ g * 2 ^ d - sig_of y * 2 ^ g) * 2 ^ k in
  0 < sig < 2 ^ (p + g) /\ sticky (g - 1) N (2 ^ d) (sig * 2 ^ k) /\
  0 < N /\ value F y < value F x /\ (value F x - value F y) * 2 ^ (g + d + (k + 1)) = N * 2 ^ expo F x.
Proof.
  intros Hg L d sig k N. pose proof (expo_range F Hw y). destruct (sig_range x) as [Rx Nx]. destruct (sig_range y) as [Ry _].
  specialize (Nx ltac:(lia)). pose proof (pow2_pos g ltac:(lia)) as Pg. assert (Hd : 1 <= d) by (unfold d; lia).
  assert (E1 : 2 ^ (p + g) = 2 ^ p * 2 ^ g) by (rewrite Z.pow_add_r by lia; lia).
  assert (E2 : 2 ^ (p - 1 + g) = 2 ^ (p - 1) * 2 ^ g) by (rewrite Z.pow_add_r by lia; lia).
  assert (E3 : 2 ^ (p + g) = 2 * 2 ^ (p - 1 + g)) by (rewrite <- Z.pow_succ_r by lia; f_equal; lia).
  assert (Bx : 2 ^ (p - 1 + g) <= sig_of x * 2 ^ g < 2 ^ (p + g))
    by (rewrite E1, E2; split; [apply Z.mul_le_mono_nonneg_r|apply Z.mul_lt_mono_pos_r]; lia).
  assert (By : 0 <= sig_of y * 2 ^ g < 2 ^ (p + g))
    by (rewrite E1; split; [apply Z.mul_nonneg_nonneg|apply Z.mul_lt_mono_pos_r]; lia).
  assert (Ev : Z.even (sig_of y * 2 ^ g) = true) by (rewrite Z.even_mul, Z.even_pow by lia; apply orb_true_r).
  destruct (difference_sticky g (sig_of x) (sig_of y * 2 ^ g) d Hg By Ev Hd Bx) as [Ps St]. fold sig k in Ps, St. fold N in St.
  destruct (normalise sig (p + g) Ps ltac:(lia)) as [Kr _]. fold k in Kr. pose proof (pow2_pos k ltac:(lia)) as Pk.
  assert (Pd : 2 <= 2 ^ d) by (change 2 with (2 ^ 1) at 1; apply Z.pow_le_mono_r; lia).
  assert (PN : 0 < N).
  { apply Z.mul_pos_pos; [|exact Pk]. assert (sig_of x * 2 ^ g * 2 <= sig_of x * 2 ^ g * 2 ^ d) by (apply Z.mul_le_mono_nonneg_l; lia). lia. }
  assert (V : (value F x - value F y) * 2 ^ (g + d + (k + 1)) = N * 2 ^ expo F x).
  { pose proof (sig_value x) as Vx. pose proof (sig_value y) as Vy. unfold N.
    replace (2 ^ (g + d + (k + 1))) with (2 * (2 ^ g * 2 ^ d * 2 ^ k)) by (rewrite <- !Z.pow_add_r, <- Z.pow_succ_r by lia; f_equal; lia).
    rewrite Z.mul_assoc, (Z.mul_comm _ 2), Z.mul_sub_distr_l, Vx, Vy.
    replace (2 ^ expo F x) with (2 ^ expo F y * 2 ^ d) by (rewrite <- Z.pow_add_r by lia; f_equal; unfold d; lia). lia. }
  split_and!; try assumption; try lia.
  pose proof (pow2_pos (g + d + (k + 1)) ltac:(lia)) as P1. pose proof (pow2_pos (expo F x) ltac:(lia)) as P2.
  pose proof (Z.mul_pos_pos _ _ PN P2) as P3. rewrite <- V in P3. apply Z.mul_pos_cancel_r in P3; lia.
Qed.
End Add.
