(* ===== verification/SoftMul.v ===== *)
(** * SoftMul: products and quotients of SoftFloat are correctly rounded

    The product of the significands, jammed, is sticky for the exact product;
    the single-precision quotient is a 64-bit division with its remainder
    folded into the last bit.  [softfloat_mul64To128] is exact. *)
From Stdlib Require Import ZArith Lia Bool List.
From stdpp Require Import base list.
From S2P Require Import Prelude SoftFloat SoftF32 SoftF64 Ieee Sticky SoftFacts SoftFields SoftAdd.
#[local] Open Scope Z_scope.
#[local] Open Scope word_scope.

(** The product of two normalised significands, jammed into 31 bits. *)
Lemma product_f32 MA MB : 2 ^ 23 <= MA < 2 ^ 24 -> 2 ^ 23 <= MB < 2 ^ 24 ->
  softfloat_shortShiftRightJam64 ((MA <<w 7) *w (MB <<w 8)) 32 = jam (MA * MB * 2 ^ 15) 32 /\
  2 ^ 29 <= jam (MA * MB * 2 ^ 15) 32 < 2 ^ 31.
Proof.
  intros HA HB. assert (E : (MA <<w 7) *w (MB <<w 8) = MA * MB * 2 ^ 15).
  { unfold shl64, mul64. rewrite !Z.shiftl_mul_pow2, (uw_small 64 (MA * 2 ^ 7)), (uw_small 64 (MB * 2 ^ 8)) by (unfold fits; lia).
    rewrite uw_small; [lia|unfold fits; nia]. }
  assert (B : 2 ^ (29 + 32) <= MA * MB * 2 ^ 15 < 2 ^ (31 + 32)) by nia.
  rewrite E, shortShiftRightJam64_jam by (lia || (unfold fits; lia)). split; [reflexivity|]. apply jam_range; lia.
Qed.

Lemma f32_mul_finite s sa sb ma ea mb eb EA MA EB MB e : valid_mode (softfloat_roundingMode e) ->
  normal_form binary32 (Finite sa ma ea) sa EA MA -> normal_form binary32 (Finite sb mb eb) sb EB MB ->
  let sigZ := softfloat_shortShiftRightJam64 ((MA <<w 7) *w (MB <<w 8)) 32 in
  let expZ := EA + EB - 0x7F in
  implements (if sigZ <? 0x40000000 then softfloat_roundPackToF32 s (expZ - 1) (sigZ <<w 1)
    else softfloat_roundPackToF32 s expZ sigZ) e (round binary32 (softfloat_roundingMode e) s (ma * mb) 1 (ea + eb)).
Proof.
  intros V (m1 & e1 & k1 & Q1 & P1 & K1 & M1 & -> & B1 & R1) (m2 & e2 & k2 & Q2 & P2 & K2 & M2 & -> & B2 & R2).
  injection Q1 as -> ->. injection Q2 as -> ->. cbn [prec binary32] in *. change (einf binary32) with 255 in *. change (qmin binary32) with (-149) in *.
  assert (Pm : 0 < m1 * m2) by nia. assert (PM : 0 < MA * MB) by nia.
  destruct (product_f32 MA MB B1 B2) as [J Jb]. cbv zeta. rewrite J.
  assert (St : sticky 1 (MA * MB * 2 ^ 15) (2 ^ 32) (jam (MA * MB * 2 ^ 15) 32)).
  { pose proof (sticky_jam 0 1 32 _ 1 _ ltac:(lia) ltac:(lia) ltac:(lia) (sticky_exact 0 1 (MA * MB * 2 ^ 15) ltac:(lia))) as St.
    now rewrite Z.mul_1_r in St. }
  set (sig := jam (MA * MB * 2 ^ 15) 32) in *. pose proof (pow2_pos (k1 + k2 + 15) ltac:(lia)) as Pk.
  assert (V1 : m1 * m2 * 2 ^ (k1 + k2 + 15) = MA * MB * 2 ^ 15) by (rewrite M1, M2, !Z.pow_add_r by lia; lia).
  rewrite (round_shl binary32 _ s (m1 * m2) 1 _ (k1 + k2 + 15) (EA + EB - 315)) by (cbn; lia).
  rewrite (round_den binary32 _ s _ 1 _ 32 (EA + EB - 283)), V1, Z.mul_1_l by (cbn; lia).
  destruct (Z.ltb_spec sig 0x40000000).
  - rewrite (round_shl binary32 _ s (MA * MB * 2 ^ 15) _ _ 1 (EA + EB - 284)) by (cbn; lia).
    assert (E : sig <<w 1 = sig * 2 ^ 1) by (unfold shl64; rewrite Z.shiftl_mul_pow2 by lia; apply uw_small; unfold fits; lia).
    rewrite E. apply roundPackToF32_sticky; try assumption; try lia.
    apply (sticky_weaken 2); [lia|]. apply (sticky_shl 1 1); [lia..|exact St].
  - apply roundPackToF32_sticky; try assumption; try lia.
    apply (sticky_weaken 1); [lia|exact St].
Qed.

(** [f32_mul] is the correctly rounded product. *)
Lemma f32_mul_correct a b e : fits 32 a -> fits 32 b -> valid_mode (softfloat_roundingMode e) ->
  implements (f32_mul a b) e (mul binary32 (softfloat_roundingMode e) a b).
Proof.
  intros Fa Fb V. pose proof (fun e => propagateNaN_f32_ok a b e) as NaN. unfold f32_mul, mul.
  rewrite !signF32_spec, !expF32_spec, !fracF32_spec by assumption.
  revert NaN.
  pose proof (expo32_range a). pose proof (expo32_range b). pose proof (frac32_range a). pose proof (frac32_range b).
  destruct (view32 a) as [| | |ma ea Ea Za Da], (view32 b) as [| | |mb eb Eb Zb Db]; change (einf binary32) with 0xFF in *; cbn [is_snan]; intros NaN;
    unfold infArg_f32; fold invalid_f32; settle;
    try first [apply NaN|apply ret_inf_f32|apply ret_zero_f32|apply invalid_f32_ok].
  edestruct norm_f32_form as (EA & SA & -> & NA); [| | |exact Da|]; try assumption.
  edestruct norm_f32_form as (EB & SB & -> & NB); [| | |exact Db|]; try assumption.
  exact (f32_mul_finite _ _ _ _ _ _ _ _ _ _ _ e V NA NB).
Qed.

(** ** Quotients *)

(** [sticky_quotient], as [f32_div] tests the low bits. *)
Lemma quotient_f32 A MB sh : 0 <= sh -> 0 < MB -> 0 <= A -> fits 64 (A * 2 ^ sh) -> 2 ^ 30 * MB <= A * 2 ^ sh < 2 ^ 31 * MB ->
  let sigZ := A * 2 ^ sh / MB in
  let sigZ := if z2b (sigZ &w 0x3F) then sigZ else sigZ |w b2z (negb ((MB *w sigZ) =? A * 2 ^ sh)) in
  sticky 6 (A * 2 ^ sh) MB sigZ /\ 2 ^ 30 <= sigZ < 2 ^ 31.
Proof.
  intros Hs HB HA Fx Hx. cbv zeta. set (N := A * 2 ^ sh) in *. set (q := N / MB).
  assert (Bq : 2 ^ 30 <= q < 2 ^ 31).
  { split; [apply Z.div_le_lower_bound|apply Z.div_lt_upper_bound]; lia. }
  pose proof (Z.div_mod N MB ltac:(lia)) as R. fold q in R. pose proof (Z.mod_pos_bound N MB HB).
  assert (M : MB *w q = MB * q) by (apply uw_small; unfold fits in *; nia).
  rewrite M. unfold z2b. change 0x3F with (Z.ones 6). rewrite mask_low by lia.
  pose proof (sticky_quotient 6 N MB ltac:(lia) HB ltac:(lia)) as St. fold q in St.
  destruct (Z.eqb_spec (q mod 2 ^ 6) 0) as [E|]; cbn [negb]; (split; [exact St|]); [|exact Bq].
  destruct (_ =? _); cbn [b2z negb]; [now rewrite Z.lor_0_r|]. rewrite lor_1. destruct (Z.odd q) eqn:O; [exact Bq|].
  rewrite <- Z.negb_even in O. apply negb_false_iff, Z.even_spec in O as [h Eh]. lia.
Qed.

Lemma f32_div_finite s sa sb ma ea mb eb EA MA EB MB e : valid_mode (softfloat_roundingMode e) ->
  normal_form binary32 (Finite sa ma ea) sa EA MA -> normal_form binary32 (Finite sb mb eb) sb EB MB ->
  implements
    (let (expZ, sig64A) := if MA <? MB then (EA - EB + 0x7E - 1, MA <<w 31) else (EA - EB + 0x7E, MA <<w 30) in
     let sigZ := sig64A / MB in
     let sigZ := if z2b (sigZ &w 0x3F) then sigZ else sigZ |w b2z (negb ((MB *w sigZ) =? sig64A)) in
     softfloat_roundPackToF32 s expZ sigZ) e (round binary32 (softfloat_roundingMode e) s ma mb (ea - eb)).
Proof.
  intros V (m1 & e1 & k1 & Q1 & P1 & K1 & M1 & -> & B1 & R1) (m2 & e2 & k2 & Q2 & P2 & K2 & M2 & -> & B2 & R2).
  injection Q1 as -> ->. injection Q2 as -> ->. cbn [prec binary32] in *. change (einf binary32) with 255 in *.
  change (qmin binary32) with (-149) in *.
  assert (Sh : forall sh, 0 <= sh <= 31 -> MA <<w sh = MA * 2 ^ sh /\ fits 64 (MA * 2 ^ sh)).
  { intros sh Hsh. assert (2 ^ sh <= 2 ^ 31) by (apply Z.pow_le_mono_r; lia). pose proof (pow2_pos sh ltac:(lia)).
    assert (Fx : fits 64 (MA * 2 ^ sh)) by (unfold fits; nia). split; [|exact Fx].
    unfold shl64. rewrite Z.shiftl_mul_pow2 by lia. apply uw_small, Fx. }
  assert (Ref : forall sh x, 0 <= sh -> x = EA - EB - sh ->
    round binary32 (softfloat_roundingMode e) s m1 m2 (-149 + (EA - 1) + k1 - (-149 + (EB - 1) + k2))
    = round binary32 (softfloat_roundingMode e) s (MA * 2 ^ sh) MB x).
  { intros sh x Hsh ->. pose proof (pow2_pos k1 K1). pose proof (pow2_pos sh Hsh).
    rewrite (round_shl binary32 _ s m1 m2 _ (k1 + sh) (EA - EB - sh - k2)) by (cbn; lia).
    rewrite Z.pow_add_r, Z.mul_assoc, <- M1 by lia.
    rewrite (round_den binary32 _ s _ m2 _ k2 (EA - EB - sh)) by (cbn; lia). now rewrite <- M2. }
  destruct (Z.ltb_spec MA MB).
  - destruct (Sh 31 ltac:(lia)) as [-> Fx].
    destruct (quotient_f32 MA MB 31 ltac:(lia) ltac:(lia) ltac:(lia) Fx ltac:(lia)) as [St B].
    rewrite (Ref 31 (EA - EB - 31)) by lia. apply roundPackToF32_sticky; try assumption; lia.
  - destruct (Sh 30 ltac:(lia)) as [-> Fx].
    destruct (quotient_f32 MA MB 30 ltac:(lia) ltac:(lia) ltac:(lia) Fx ltac:(lia)) as [St B].
    rewrite (Ref 30 (EA - EB - 30)) by lia. apply roundPackToF32_sticky; try assumption; lia.
Qed.

(** [f32_div] is the correctly rounded quotient. *)
Lemma f32_div_correct a b e : fits 32 a -> fits 32 b -> valid_mode (softfloat_roundingMode e) ->
  implements (f32_div a b) e (div binary32 (softfloat_roundingMode e) a b).
Proof.
  intros Fa Fb V. pose proof (fun e => propagateNaN_f32_ok a b e) as NaN. unfold f32_div, div.
  rewrite !signF32_spec, !expF32_spec, !fracF32_spec by assumption. revert NaN.
  pose proof (expo32_range a). pose proof (expo32_range b). pose proof (frac32_range a). pose proof (frac32_range b).
  destruct (view32 a) as [| | |ma ea Ea Za Da], (view32 b) as [| | |mb eb Eb Zb Db]; change (einf binary32) with 0xFF in *; cbn [is_snan]; intros NaN;
    settle; try first [apply NaN|apply ret_inf_f32|apply ret_zero_f32|apply invalid_f32_ok].
  - exact (implements_raise _ _ _ _ 0 (ret_inf_f32 _)).
  - edestruct norm_f32_form as (EB & SB & -> & NB); [| | |exact Db|]; try assumption.
    edestruct norm_f32_form as (EA & SA & -> & NA); [| | |exact Da|]; try assumption.
    exact (f32_div_finite _ _ _ _ _ _ _ _ _ _ _ e V NA NB).
Qed.

(** ** Double precision *)

(** A 64-bit sum and its carry, as the code detects it. *)
Lemma add_carry x y : fits 64 x -> fits 64 y ->
  exists c, (c = true <-> 2 ^ 64 <= x + y) /\ x +w y = x + y - b2z c * 2 ^ 64 /\ (x +w y <? x) = c.
Proof.
  intros Hx Hy. unfold fits in *. unfold add64, uw. destruct (Z_lt_le_dec (x + y) (2 ^ 64)).
  - exists false. rewrite Z.mod_small by lia. cbn [b2z]. split_and!; lia || (split; [discriminate|lia]).
  - exists true. rewrite <- (Z.mod_add _ (-1)) by lia. rewrite Z.mod_small by lia. cbn [b2z]. split_and!; lia || (split; [lia|reflexivity]).
Qed.

(** The four partial products with their carries. *)
Lemma mul64To128_ok a b : fits 64 a -> fits 64 b ->
  let r := softfloat_mul64To128 a b in v64 r = a * b / 2 ^ 64 /\ w0 r = (a * b) mod 2 ^ 64.
Proof.
  intros Ha Hb. unfold softfloat_mul64To128. cbn [v64 w0].
  assert (Hi : forall x, fits 64 x -> u32 (x >>w 32) = x / 2 ^ 32 /\ u32 x = x mod 2 ^ 32 /\
                  x = 2 ^ 32 * (x / 2 ^ 32) + x mod 2 ^ 32 /\ 0 <= x mod 2 ^ 32 < 2 ^ 32 /\ 0 <= x / 2 ^ 32 < 2 ^ 32).
  { intros x Hx. unfold fits in Hx. rewrite Z.shiftr_div_pow2 by lia.
    assert (0 <= x / 2 ^ 32 < 2 ^ 32) by (split; [apply Z.div_pos|apply Z.div_lt_upper_bound]; lia).
    split; [now apply uw_small|]. split; [reflexivity|]. split; [apply Z.div_mod; lia|]. split; [apply Z.mod_pos_bound; lia|assumption]. }
  destruct (Hi a Ha) as (-> & -> & Ea & A0 & A1). destruct (Hi b Hb) as (-> & -> & Eb & B0 & B1). clear Hi.
  set (ah := a / 2 ^ 32) in *. set (al := a mod 2 ^ 32) in *. set (bh := b / 2 ^ 32) in *. set (bl := b mod 2 ^ 32) in *.
  clearbody ah al bh bl. subst a b. clear Ha Hb.
  assert (P : forall x y, 0 <= x < 2 ^ 32 -> 0 <= y < 2 ^ 32 -> 0 <= x * y <= 2 ^ 64 - 2 ^ 33 + 1) by (intros; nia).
  pose proof (P ah bh A1 B1) as P1. pose proof (P ah bl A1 B0) as P2. pose proof (P al bh A0 B1) as P3. pose proof (P al bl A0 B0) as P4.
  unfold mul64. rewrite !(uw_small 64 (_ * _)) by (unfold fits; lia).
  replace ((2 ^ 32 * ah + al) * (2 ^ 32 * bh + bl)) with (2 ^ 64 * (ah * bh) + 2 ^ 32 * (ah * bl + al * bh) + al * bl) by lia.
  set (hh := ah * bh) in *. set (hl := ah * bl) in *. set (lh := al * bh) in *. set (ll := al * bl) in *. clearbody hh hl lh ll.
  destruct (add_carry hl lh) as (c1 & C1 & -> & ->); [unfold fits; lia..|].
  set (mid := hl + lh - b2z c1 * 2 ^ 64) in *. assert (Hm : fits 64 mid) by (unfold fits, mid; destruct c1; cbn [b2z]; lia).
  pose proof (Z.div_mod mid (2 ^ 32) ltac:(lia)) as Em. pose proof (Z.mod_pos_bound mid (2 ^ 32) ltac:(lia)) as Bm.
  assert (Bh : fits 32 (mid / 2 ^ 32)) by (unfold fits in *; split; [apply Z.div_pos|apply Z.div_lt_upper_bound]; lia).
  assert (S1 : mid <<w 32 = mid mod 2 ^ 32 * 2 ^ 32).
  { unfold shl64, uw. rewrite Z.shiftl_mul_pow2 by lia. change (2 ^ 64) with (2 ^ 32 * 2 ^ 32). apply Z.mul_mod_distr_r; lia. }
  assert (S2 : b2z c1 <<w 32 = Z.shiftl (b2z c1) 32).
  { apply uw_small. rewrite Z.shiftl_mul_pow2 by lia. unfold fits. destruct c1; cbn [b2z]; lia. }
  rewrite S1, S2, Z.shiftr_div_pow2, lor_add_shift by (lia || exact Bh).
  assert (Comm : forall x, ll +w x = x +w ll) by (intros x; unfold add64; f_equal; lia). rewrite !Comm.
  destruct (add_carry (mid mod 2 ^ 32 * 2 ^ 32) ll) as (c2 & C2 & -> & ->); [unfold fits; lia..|].
  set (mh := mid / 2 ^ 32) in *. set (ml := mid mod 2 ^ 32) in *. clearbody mh ml.
  assert (T : 2 ^ 32 * (hl + lh) = 2 ^ 64 * (b2z c1 * 2 ^ 32 + mh) + ml * 2 ^ 32) by (unfold mid in Em; lia).
  set (z0 := ml * 2 ^ 32 + ll - b2z c2 * 2 ^ 64) in *. assert (Z0 : 0 <= z0 < 2 ^ 64) by (unfold z0; destruct c2; cbn [b2z]; lia).
  unfold fits in Bh. assert (W : 0 <= hh + (b2z c1 * 2 ^ 32 + mh) + b2z c2 < 2 ^ 64) by (destruct c1, c2; cbn [b2z] in *; lia).
  assert (Eq : 2 ^ 64 * hh + 2 ^ 32 * (hl + lh) + ll = 2 ^ 64 * (hh + (b2z c1 * 2 ^ 32 + mh) + b2z c2) + z0) by (unfold z0; lia).
  rewrite Eq. split.
  - unfold add64. rewrite uw_add_l, uw_small by exact W. apply (Z.div_unique_pos _ _ _ z0); lia.
  - apply (Z.mod_unique_pos _ _ (hh + (b2z c1 * 2 ^ 32 + mh) + b2z c2)); lia.
Qed.

(** The product of two normalised significands, jammed into 63 bits. *)
Lemma product_f64 MA MB : 2 ^ 52 <= MA < 2 ^ 53 -> 2 ^ 52 <= MB < 2 ^ 53 ->
  let r := softfloat_mul64To128 (MA <<w 10) (MB <<w 11) in
  v64 r |w b2z (z2b (w0 r)) = jam (MA * MB * 2 ^ 21) 64 /\ 2 ^ 61 <= jam (MA * MB * 2 ^ 21) 64 < 2 ^ 63.
Proof.
  intros HA HB r. unfold r. rewrite !shl64_small by (lia || (unfold fits; lia)).
  destruct (mul64To128_ok (MA * 2 ^ 10) (MB * 2 ^ 11)) as [-> ->]; [unfold fits; lia..|].
  replace (MA * 2 ^ 10 * (MB * 2 ^ 11)) with (MA * MB * 2 ^ 21) by lia.
  assert (B : 2 ^ 104 <= MA * MB < 2 ^ 106).
  { split; [apply (Z.le_trans _ (2 ^ 52 * 2 ^ 52)); [lia|apply Z.mul_le_mono_nonneg; lia]
           |apply (Z.lt_le_trans _ (2 ^ 53 * 2 ^ 53)); [apply Z.mul_lt_mono_nonneg|]; lia]. }
  split; [|apply jam_range; lia]. unfold jam, z2b. destruct (_ =? 0); cbn [negb b2z]; [apply Z.lor_0_r|reflexivity].
Qed.

Lemma f64_mul_finite s sa sb ma ea mb eb EA MA EB MB e : valid_mode (softfloat_roundingMode e) ->
  normal_form binary64 (Finite sa ma ea) sa EA MA -> normal_form binary64 (Finite sb mb eb) sb EB MB ->
  let sig128Z := softfloat_mul64To128 (MA <<w 10) (MB <<w 11) in
  let sigZ := v64 sig128Z |w b2z (z2b (w0 sig128Z)) in
  let expZ := EA + EB - 0x3FF in
  implements (if sigZ <? 0x4000000000000000 then softfloat_roundPackToF64 s (expZ - 1) (sigZ <<w 1)
    else softfloat_roundPackToF64 s expZ sigZ) e (round binary64 (softfloat_roundingMode e) s (ma * mb) 1 (ea + eb)).
Proof.
  intros V (m1 & e1 & k1 & Q1 & P1 & K1 & M1 & -> & B1 & R1) (m2 & e2 & k2 & Q2 & P2 & K2 & M2 & -> & B2 & R2).
  injection Q1 as -> ->. injection Q2 as -> ->. cbn [prec binary64] in *. change (einf binary64) with 0x7FF in *. change (qmin binary64) with (-1074) in *.
  assert (Pm : 0 < m1 * m2) by nia. assert (PM : 0 < MA * MB) by nia.
  destruct (product_f64 MA MB B1 B2) as [J Jb]. cbv zeta. rewrite J.
  assert (St : sticky 1 (MA * MB * 2 ^ 21) (2 ^ 64) (jam (MA * MB * 2 ^ 21) 64)).
  { pose proof (sticky_jam 0 1 64 _ 1 _ ltac:(lia) ltac:(lia) ltac:(lia) (sticky_exact 0 1 (MA * MB * 2 ^ 21) ltac:(lia))) as St.
    now rewrite Z.mul_1_r in St. }
  set (sig := jam (MA * MB * 2 ^ 21) 64) in *. pose proof (pow2_pos (k1 + k2 + 21) ltac:(lia)) as Pk.
  assert (V1 : m1 * m2 * 2 ^ (k1 + k2 + 21) = MA * MB * 2 ^ 21) by (rewrite M1, M2, !Z.pow_add_r by lia; lia).
  rewrite (round_shl binary64 _ s (m1 * m2) 1 _ (k1 + k2 + 21) (EA + EB - 2171)) by (cbn; lia).
  rewrite (round_den binary64 _ s _ 1 _ 64 (EA + EB - 2107)), V1, Z.mul_1_l by (cbn; lia).
  destruct (Z.ltb_spec sig 0x4000000000000000).
  - rewrite (round_shl binary64 _ s (MA * MB * 2 ^ 21) _ _ 1 (EA + EB - 2108)) by (cbn; lia).
    rewrite shl64_small by (lia || (unfold fits; lia)). apply roundPackToF64_sticky; try assumption; try lia.
    apply (sticky_weaken 2); [lia|]. apply (sticky_shl 1 1); [lia..|exact St].
  - apply roundPackToF64_sticky; try assumption; try lia. apply (sticky_weaken 1); [lia|exact St].
Qed.

(** [f64_mul] is the correctly rounded product. *)
Lemma f64_mul_correct a b e : fits 64 a -> fits 64 b -> valid_mode (softfloat_roundingMode e) ->
  implements (f64_mul a b) e (mul binary64 (softfloat_roundingMode e) a b).
Proof.
  intros Fa Fb V. pose proof (fun e => propagateNaN_f64_ok a b e) as NaN. unfold f64_mul, mul.
  rewrite !signF64_spec, !expF64_spec, !fracF64_spec by assumption. revert NaN.
  pose proof (expo64_range a). pose proof (expo64_range b). pose proof (frac64_range a). pose proof (frac64_range b).
  destruct (view64 a) as [| | |ma ea Ea Za Da], (view64 b) as [| | |mb eb Eb Zb Db]; change (einf binary64) with 0x7FF in *; cbn [is_snan]; intros NaN;
    unfold infArg_f64; fold invalid_f64; settle;
    try first [apply NaN|apply ret_inf_f64|apply ret_zero_f64|apply invalid_f64_ok].
  edestruct norm_f64_form as (EA & SA & -> & NA); [| | |exact Da|]; try assumption.
  edestruct norm_f64_form as (EB & SB & -> & NB); [| | |exact Db|]; try assumption.
  exact (f64_mul_finite _ _ _ _ _ _ _ _ _ _ _ e V NA NB).
Qed.
