(* ===== verification/SoftAdd32.v ===== *)
(** * SoftAdd32: [f32_add] and [f32_sub] are correctly rounded

    The cases of [softfloat_addMagsF32] and [softfloat_subMagsF32] as the
    generic sums of [SoftAdd]. *)
From Stdlib Require Import ZArith Lia Bool List.
From stdpp Require Import base list.
From S2P Require Import Prelude SoftFloat SoftF32 Ieee Sticky SoftFacts SoftFields SoftCompare SoftAdd.
#[local] Open Scope Z_scope.
#[local] Open Scope word_scope.

Notation sig32 := (sig_of binary32).
Notation val32 := (value binary32).

Lemma normRoundPackToF32_ok s exp sig e : valid_mode (softfloat_roundingMode e) ->
  0 < sig < 2 ^ 31 -> - 2 ^ 30 <= exp < 2 ^ 30 ->
  let k := 30 - Z.log2 sig in
  implements (softfloat_normRoundPackToF32 s exp sig) e (round_pack binary32 7 (softfloat_roundingMode e) s (exp - k) (sig * 2 ^ k)).
Proof.
  intros V Hs He k. destruct (normalise sig 31 Hs ltac:(lia)) as [Kr Kb].
  replace (31 - 1 - Z.log2 sig) with k in * by (unfold k; lia). change (31 - 1) with 30 in Kb.
  unfold softfloat_normRoundPackToF32. rewrite (uw_small 32 sig) by (unfold fits; lia). rewrite clz32_log2 by lia.
  replace (31 - Z.log2 sig - 1) with k by (unfold k; lia). rewrite (shl64_small sig k) by (lia || (unfold fits; lia)).
  destruct (Z.leb_spec 7 k); cbn [andb]; [|now apply roundPackToF32_ok; try lia].
  destruct (Z.ltb_spec (u32 (exp - k)) 0xFD) as [L|_]; [|apply roundPackToF32_ok; lia || assumption].
  assert (P : 0 <= exp - k).
  { destruct (Z_lt_le_dec (exp - k) 0); [|assumption]. unfold uw in L. rewrite <- (Z.mod_add (exp - k) 1) in L by lia.
    rewrite Z.mod_small in L by lia. lia. }
  rewrite uw_small in L by (unfold fits; lia).
  replace (sig =? 0) with false by lia.
  assert (E : sig * 2 ^ k = sig * 2 ^ (k - 7) * 2 ^ 7) by (rewrite <- Z.mul_assoc, <- Z.pow_add_r by lia; do 2 f_equal; lia).
  rewrite shl64_small, ret_f32_packed by (lia || (unfold fits; lia)). unfold round_pack. rewrite E, rounded_exact by lia.
  replace (exp - k <? 0) with false by lia. cbn [fst snd]. change (2 * emax binary32 - 1) with 0xFD.
  replace (0xFD <? exp - k) with false by lia. replace (0xFD =? exp - k) with false by lia. cbn [orb andb].
  rewrite packed32_small by lia. change (2 ^ (prec binary32 - 1)) with (2 ^ 23). apply implements_ret.
Qed.

Lemma sig32_range b : 0 <= sig32 b < 2 ^ 24 /\ (expo binary32 b <> 0 -> 2 ^ 23 <= sig32 b).
Proof. apply (sig_range binary32); cbn; lia. Qed.
Lemma val32_nonneg b : 0 <= val32 b.
Proof. apply (value_nonneg binary32); cbn; lia. Qed.
Lemma plus32_finite mode a b sb : expo binary32 a < 0xFF -> expo binary32 b < 0xFF ->
  plus binary32 mode (decode binary32 a) (with_sign sb (decode binary32 b)) = sum_value binary32 mode (sign binary32 a) (val32 a) sb (val32 b).
Proof. apply plus_finite; cbn; lia. Qed.

(** The operand with the smaller exponent, before it is aligned. *)
Lemma addend32 b n : 6 <= n <= 7 ->
  u32 ((frac binary32 b <<w n) +w (if z2b (expo binary32 b) then 2 ^ (23 + n) else frac binary32 b <<w n)) = sig32 b * 2 ^ n.
Proof.
  intros Hn. pose proof (frac32_range b). unfold sig_of, z2b. assert (2 ^ n = 64 \/ 2 ^ n = 128) by (assert (n = 6 \/ n = 7) as [-> | ->] by lia; [now left|now right]).
  rewrite Z.pow_add_r by lia. rewrite shl64_small by (lia || (unfold fits; nia)).
  cbn [prec binary32]. change (24 - 1) with 23.
  destruct (expo binary32 b =? 0); cbn [negb]; rewrite add64_small by (unfold fits; nia); rewrite uw_small by (unfold fits; nia); lia.
Qed.

(** [roundPack] of an aligned sum of [x], with the larger exponent, and [y]. *)
Lemma aligned_sum32 s x y sig e : valid_mode (softfloat_roundingMode e) -> expo binary32 y < expo binary32 x -> expo binary32 x < 0xFF ->
  sig = sig32 x * 2 ^ 6 + jam (sig32 y * 2 ^ 6) (expo binary32 x - expo binary32 y) ->
  implements (if sig <? 0x40000000 then softfloat_roundPackToF32 s (expo binary32 x - 1) (sig <<w 1)
              else softfloat_roundPackToF32 s (expo binary32 x) sig) e
    (round binary32 (softfloat_roundingMode e) s (val32 x + val32 y) 1 (qmin binary32)).
Proof.
  intros V L Lx ->. pose proof (add_sticky binary32 ltac:(cbn; lia) ltac:(cbn; lia) ltac:(cbn; lia) eq_refl 7 x y ltac:(lia) L) as (B & St & PN & E).
  cbn [prec binary32] in B. replace (7 - 1) with 6 in * by lia. change (24 + 7 - 2) with 29 in B. change (24 + 7) with 31 in B.
  set (d := expo binary32 x - expo binary32 y) in *. set (sig := _ + jam _ _) in *. set (N := _ + _) in E, PN, St.
  pose proof (expo32_range y). pose proof (pow2_pos d ltac:(lia)).
  assert (PV : 0 < val32 x + val32 y).
  { pose proof (pow2_pos (7 + d) ltac:(lia)). pose proof (pow2_pos (expo binary32 x) ltac:(lia)). nia. }
  clearbody N sig. destruct (Z.ltb_spec sig 0x40000000).
  - rewrite (align_round binary32 7 _ s _ (N * 2 ^ 1) d (expo binary32 x - 1) (expo binary32 x - 157) 1);
      try (change (qmin binary32) with (-149); lia).
    + rewrite shl64_small by (lia || (unfold fits; lia)). apply roundPackToF32_sticky; try assumption; try lia.
      apply (sticky_weaken (1 + 1)); [lia|]. apply sticky_shl; [lia..|exact St].
    + replace (7 + d + 1) with (1 + (7 + d)) by lia. replace (expo binary32 x - 1 + 1) with (expo binary32 x) by lia.
      rewrite (Z.pow_add_r 2 1) by lia. lia.
  - rewrite (align_round binary32 7 _ s _ N d (expo binary32 x) (expo binary32 x - 156) 0);
      try (change (qmin binary32) with (-149); lia).
    + apply roundPackToF32_sticky; try assumption; try lia. apply (sticky_weaken 1); [lia|exact St].
    + rewrite !Z.add_0_r. exact E.
Qed.

(** ** Addition of magnitudes *)

Lemma round32_exact mode s E M : 0 < M < 2 ^ 24 -> 1 <= E < 0xFF -> (E = 1 \/ 2 ^ 23 <= M) ->
  round binary32 mode s M 1 (E - 150) = (sign_bits binary32 s + (E - 1) * 2 ^ 23 + M, 0).
Proof.
  intros. replace (E - 150) with (qmin binary32 + E - 1) by (change (qmin binary32) with (-149); lia).
  apply (round_exact binary32); solve [assumption | reflexivity | cbn; lia].
Qed.

(** Both operands have the exponent of [a]. *)
Lemma addMags32_equal a b e : valid_mode (softfloat_roundingMode e) -> fits 32 a ->
  expo binary32 a = expo binary32 b -> expo binary32 a < 0xFF ->
  implements
    (if expo binary32 a =? 0 then ret_f32 (a +w frac binary32 b)
     else
       let sigZ := (0x01000000 +w frac binary32 a) +w frac binary32 b in
       if negb (z2b (sigZ &w 1)) && (expo binary32 a <? 0xFE)
       then ret_f32 (packToF32UI (sign binary32 a) (expo binary32 a) (sigZ >>w 1))
       else softfloat_roundPackToF32 (sign binary32 a) (expo binary32 a) (sigZ <<w 6)) e
    (sum_value binary32 (softfloat_roundingMode e) (sign binary32 a) (val32 a) (sign binary32 a) (val32 b)).
Proof.
  intros V Ha Eq La. pose proof (frac32_range a). pose proof (frac32_range b). pose proof (expo32_range a).
  rewrite sum_same by apply val32_nonneg. pose proof (fields_value binary32 ltac:(cbn; lia) ltac:(cbn; lia) a Ha) as Fv.
  cbn [prec binary32] in Fv. change (24 - 1) with 23 in Fv. unfold value. rewrite <- Eq. cbn [prec binary32]. change (24 - 1) with 23.
  destruct (Z.eqb_spec (expo binary32 a) 0) as [E0|N0].
  - assert (S : ret_f32 (a +w frac binary32 b) = sf_ret (sign_bits binary32 (sign binary32 a) + (frac binary32 a + frac binary32 b))).
    { unfold ret_f32, add64. rewrite uw_uw by lia. rewrite uw_small; [f_equal; lia|]. unfold fits, sign_bits in *.
      cbn [width binary32] in Fv. change (32 - 1) with 31 in Fv. destruct (sign binary32 a); cbn [b2z] in Fv; lia. }
    rewrite S. destruct (Z.eqb_spec (frac binary32 a + frac binary32 b) 0) as [->|].
    + rewrite Z.add_0_r. apply implements_ret.
    + rewrite (round32_exact _ _ 1) by lia. rewrite Z.mul_0_l, Z.add_0_r. apply implements_ret.
  - rewrite (add64_small 0x01000000), add64_small by (unfold fits; lia).
    set (z := 0x01000000 + frac binary32 a + frac binary32 b).
    assert (Hz : (2 ^ 23 + frac binary32 a) * 2 ^ (expo binary32 a - 1) + (2 ^ 23 + frac binary32 b) * 2 ^ (expo binary32 a - 1)
                 = z * 2 ^ (expo binary32 a - 1)) by (unfold z; lia).
    pose proof (pow2_pos (expo binary32 a - 1) ltac:(lia)) as Px. rewrite Hz. replace (z * 2 ^ (expo binary32 a - 1) =? 0) with false by (unfold z; nia).
    rewrite <- (round_shl binary32 _ _ z 1 (expo binary32 a - 150) (expo binary32 a - 1)) by (change (qmin binary32) with (-149); cbn; unfold z; lia).
    cbv zeta. change 1 with (Z.ones 1) at 1. unfold z2b. rewrite mask_low, negb_involutive by lia. change (2 ^ 1) with 2.
    destruct (Z.eqb_spec (z mod 2) 0) as [Ev|]; cbn [andb]; [destruct (Z.ltb_spec (expo binary32 a) 0xFE)|].
    + pose proof (Z.div_mod z 2 ltac:(lia)) as D. rewrite Z.shiftr_div_pow2 by lia. change (2 ^ 1) with 2. set (m := z / 2) in *.
      assert (Dm : z = 2 * m) by lia. assert (Bz : 2 ^ 24 <= z < 2 ^ 25) by (unfold z; lia). clearbody m z.
      rewrite ret_f32_packed, packed32_small by lia. replace z with (m * 2 ^ 1) by (change (2 ^ 1) with 2; lia).
      rewrite <- (round_shl binary32 _ _ m 1 (expo binary32 a - 149)) by (cbn; lia).
      replace (expo binary32 a - 149) with (expo binary32 a + 1 - 150) by lia.
      rewrite round32_exact by lia. replace (expo binary32 a + 1 - 1) with (expo binary32 a) by lia. apply implements_ret.
    + rewrite shl64_small by (lia || (unfold fits, z; lia)).
      rewrite (round_shl binary32 _ _ z 1 _ 6 (expo binary32 a - 156)) by (cbn; unfold z; lia).
      apply roundPackToF32_sticky; try assumption; try (unfold z; lia).
      replace (z * 2 ^ 6) with (z * 2 ^ 6 * 1) at 1 by lia. apply sticky_exact. lia.
    + rewrite shl64_small by (lia || (unfold fits, z; lia)).
      rewrite (round_shl binary32 _ _ z 1 _ 6 (expo binary32 a - 156)) by (cbn; unfold z; lia).
      apply roundPackToF32_sticky; try assumption; try (unfold z; lia).
      replace (z * 2 ^ 6) with (z * 2 ^ 6 * 1) at 1 by lia. apply sticky_exact. lia.
Qed.

Lemma ret_inf_self32 a e : fits 32 a -> expo binary32 a = 0xFF -> frac binary32 a = 0 ->
  implements (ret_f32 a) e (inf_bits binary32 (sign binary32 a), 0).
Proof.
  intros Ha Ea Fa. unfold ret_f32. rewrite (uw_small 32 a Ha).
  replace (inf_bits binary32 (sign binary32 a)) with a; [apply implements_ret|].
  pose proof (fields_value binary32 ltac:(cbn; lia) ltac:(cbn; lia) a Ha) as V. rewrite Ea, Fa, Z.add_0_r in V. exact V.
Qed.

(** An infinity or a NaN among the operands. *)
Lemma addMags32_special a b e : fits 32 a -> fits 32 b -> expo binary32 a = 0xFF \/ expo binary32 b = 0xFF ->
  implements (softfloat_addMagsF32 a b) e
    (plus binary32 (softfloat_roundingMode e) (decode binary32 a) (with_sign (sign binary32 a) (decode binary32 b))).
Proof.
  intros Ha Hb S. pose proof (fun e => propagateNaN_f32_ok a b e) as NaN. unfold softfloat_addMagsF32.
  pose proof (expo32_range a). pose proof (expo32_range b). pose proof (frac32_range a). pose proof (frac32_range b).
  rewrite signF32_spec, !expF32_spec, !fracF32_spec by assumption. pose proof (ret_inf_self32 a e Ha) as Inf. revert NaN.
  rewrite !(shl64_small (frac binary32 _)) by (lia || (unfold fits; lia)).
  destruct (view32 a), (view32 b); change (einf binary32) with 0xFF in *; try lia; cbn [is_snan with_sign plus]; intros NaN;
    unfold z2b; rewrite ?lor_eq_0; settle_order;
    rewrite ?eqb_reflx; first [apply NaN|apply ret_inf_f32|apply Inf; assumption].
Qed.

Lemma jam32_range y d : 1 <= d -> 0 <= jam (sig32 y * 2 ^ 6) d < 2 ^ 30.
Proof.
  intros Hd. destruct (sig32_range y) as [R _]. pose proof (jam_bounds (sig32 y * 2 ^ 6) d Hd ltac:(lia)). lia.
Qed.

Lemma addend32_6 b : u32 ((frac binary32 b <<w 6) +w (if z2b (expo binary32 b) then 0x20000000 else frac binary32 b <<w 6)) = sig32 b * 2 ^ 6.
Proof. exact (addend32 b 6 ltac:(lia)). Qed.
Lemma addend32_7 b : u32 ((frac binary32 b <<w 7) +w (if z2b (expo binary32 b) then 0x40000000 else frac binary32 b <<w 7)) = sig32 b * 2 ^ 7.
Proof. exact (addend32 b 7 ltac:(lia)). Qed.

Lemma sig32_normal b : expo binary32 b <> 0 -> sig32 b = 2 ^ 23 + frac binary32 b.
Proof. intros. unfold sig_of. now replace (expo binary32 b =? 0) with false by lia. Qed.

(** Both magnitudes added, with the sign of [a]. *)
Lemma addMags32_ok a b e : valid_mode (softfloat_roundingMode e) -> fits 32 a -> fits 32 b ->
  implements (softfloat_addMagsF32 a b) e
    (plus binary32 (softfloat_roundingMode e) (decode binary32 a) (with_sign (sign binary32 a) (decode binary32 b))).
Proof.
  intros V Ha Hb. pose proof (expo32_range a). pose proof (expo32_range b).
  destruct (Z.eq_dec (expo binary32 a) 0xFF); [apply addMags32_special; auto|].
  destruct (Z.eq_dec (expo binary32 b) 0xFF); [apply addMags32_special; auto|].
  rewrite plus32_finite by lia. unfold softfloat_addMagsF32. cbv zeta.
  rewrite signF32_spec, !expF32_spec, !fracF32_spec by assumption.
  pose proof (frac32_range a). pose proof (frac32_range b).
  replace (expo binary32 a =? 0xFF) with false by lia. replace (expo binary32 b =? 0xFF) with false by lia.
  destruct (Z.eqb_spec (expo binary32 a - expo binary32 b) 0); [apply addMags32_equal; try assumption; lia|].
  rewrite sum_same by apply val32_nonneg. rewrite !addend32_6.
  assert (Sum : forall x y, expo binary32 y < expo binary32 x -> 0 <= expo binary32 y -> 0 <= frac binary32 x < 2 ^ 23 ->
    let j := softfloat_shiftRightJam32 (sig32 y * 2 ^ 6) (expo binary32 x - expo binary32 y) in
    (0x20000000 +w j) +w (frac binary32 x <<w 6) = sig32 x * 2 ^ 6 + jam (sig32 y * 2 ^ 6) (expo binary32 x - expo binary32 y) /\
    (0x20000000 +w (frac binary32 x <<w 6)) +w j = sig32 x * 2 ^ 6 + jam (sig32 y * 2 ^ 6) (expo binary32 x - expo binary32 y) /\
    (val32 x + val32 y =? 0) = false).
  { intros x y L Ly Hx j. unfold j. destruct (sig32_range y) as [Ry _]. pose proof (jam32_range y (expo binary32 x - expo binary32 y) ltac:(lia)).
    rewrite shiftRightJam32_jam by (lia || (unfold fits; lia)). rewrite (sig32_normal x) by lia.
    rewrite shl64_small by (lia || (unfold fits; lia)). split_and!; [rewrite add64_small; rewrite ?add64_small by (unfold fits; lia); unfold fits; lia..|].
    pose proof (val32_nonneg y). pose proof (val32_nonneg x). assert (val32 x <> 0); [|lia].
    intros V0. apply (value_0 binary32) in V0; try (cbn; lia). unfold mag in V0. cbn [prec binary32] in V0. change (24 - 1) with 23 in V0. lia. }
  destruct (Z.ltb_spec (expo binary32 a - expo binary32 b) 0).
  - destruct (Sum b a ltac:(lia) ltac:(lia) ltac:(lia)) as (S1 & _ & Nz).
    replace (- (expo binary32 a - expo binary32 b)) with (expo binary32 b - expo binary32 a) by lia. rewrite S1, (Z.add_comm (val32 a)), Nz.
    apply aligned_sum32; try assumption; lia || reflexivity.
  - destruct (Sum a b ltac:(lia) ltac:(lia) ltac:(lia)) as (_ & S2 & Nz). rewrite S2, Nz.
    apply aligned_sum32; try assumption; lia || reflexivity.
Qed.

(** ** Subtraction of magnitudes *)

Lemma subMags32_special a b e : fits 32 a -> fits 32 b -> expo binary32 a = 0xFF \/ expo binary32 b = 0xFF ->
  implements (softfloat_subMagsF32 a b) e
    (plus binary32 (softfloat_roundingMode e) (decode binary32 a) (with_sign (negb (sign binary32 a)) (decode binary32 b))).
Proof.
  intros Ha Hb S. pose proof (fun e => propagateNaN_f32_ok a b e) as NaN. unfold softfloat_subMagsF32.
  pose proof (expo32_range a). pose proof (expo32_range b). pose proof (frac32_range a). pose proof (frac32_range b).
  rewrite signF32_spec, !expF32_spec, !fracF32_spec by assumption. pose proof (ret_inf_self32 a e Ha) as Inf. revert NaN. fold invalid_f32.
  rewrite !(shl64_small (frac binary32 _)) by (lia || (unfold fits; lia)).
  replace (eqb (sign binary32 a) (negb (sign binary32 a))) with false by now destruct (sign binary32 a).
  destruct (view32 a), (view32 b); change (einf binary32) with 0xFF in *; try lia; cbn [is_snan with_sign plus]; intros NaN;
    unfold z2b; rewrite ?lor_eq_0; settle_order;
    replace (eqb (sign binary32 a) (negb (sign binary32 a))) with false by (now destruct (sign binary32 a));
    first [apply NaN|apply ret_inf_f32|apply invalid_f32_ok|apply Inf; assumption].
Qed.

(** Cancellation: the exact difference [m * 2 ^ x], normalised as far as the
    exponent allows. *)
Lemma cancel32 s m x e : 0 < m < 2 ^ 23 -> 0 <= x <= 0xFD ->
  implements
    (let shiftDist := softfloat_countLeadingZeros32 (u32 m) - 8 in
     let expZ := x - shiftDist in
     let (shiftDist, expZ) := if expZ <? 0 then (x, 0) else (shiftDist, expZ) in
     ret_f32 (packToF32UI s expZ (Z.shiftl m shiftDist))) e
    (round binary32 (softfloat_roundingMode e) s (m * 2 ^ x) 1 (qmin binary32)).
Proof.
  intros Hm Hx. rewrite (uw_small 32 m) by (unfold fits; lia). rewrite clz32_log2 by lia. cbv zeta.
  destruct (normalise m 24 ltac:(lia) ltac:(lia)) as [Kr Kb]. replace (31 - Z.log2 m - 8) with (24 - 1 - Z.log2 m) by lia.
  set (k := 24 - 1 - Z.log2 m) in *. change (24 - 1) with 23 in Kb.
  assert (Exact : forall sh, 0 <= sh <= x -> sh <= k -> (sh = x \/ sh = k) ->
    implements (ret_f32 (packToF32UI s (x - sh) (Z.shiftl m sh))) e
      (round binary32 (softfloat_roundingMode e) s (m * 2 ^ x) 1 (qmin binary32))).
  { intros sh Hs Hk Hc. pose proof (pow2_pos sh ltac:(lia)).
    assert (B : 0 < m * 2 ^ sh < 2 ^ 24 /\ (sh = k -> 2 ^ 23 <= m * 2 ^ sh)).
    { assert (m * 2 ^ sh <= m * 2 ^ k) by (apply Z.mul_le_mono_nonneg_l, Z.pow_le_mono_r; lia). split; [nia|]. intros ->. lia. }
    replace (m * 2 ^ x) with (m * 2 ^ sh * 2 ^ (x - sh)) by (rewrite <- Z.mul_assoc, <- Z.pow_add_r by lia; do 2 f_equal; lia).
    rewrite <- (round_shl binary32 _ _ (m * 2 ^ sh) 1 (x - sh + 1 - 150)) by (change (qmin binary32) with (-149); cbn; lia).
    rewrite round32_exact by lia. rewrite Z.shiftl_mul_pow2, ret_f32_packed, packed32_small by lia.
    replace (x - sh + 1 - 1) with (x - sh) by lia. apply implements_ret. }
  destruct (Z.ltb_spec (x - k) 0).
  - pose proof (Exact x ltac:(lia) ltac:(lia) ltac:(lia)) as Ex. now rewrite Z.sub_diag in Ex.
  - apply Exact; lia.
Qed.

(** [normRoundPack] of an aligned difference. *)
Lemma aligned_difference32 s x y e : valid_mode (softfloat_roundingMode e) -> expo binary32 y < expo binary32 x -> expo binary32 x < 0xFF ->
  implements (softfloat_normRoundPackToF32 s (expo binary32 x - 1)
                (sig32 x * 2 ^ 7 - jam (sig32 y * 2 ^ 7) (expo binary32 x - expo binary32 y))) e
    (round binary32 (softfloat_roundingMode e) s (val32 x - val32 y) 1 (qmin binary32)) /\ val32 y < val32 x.
Proof.
  intros V L Lx. pose proof (sub_sticky binary32 ltac:(cbn; lia) ltac:(cbn; lia) 7 x y ltac:(lia) L) as (B & St & PN & VL & E).
  cbn [prec binary32] in B, St, PN, E. change (24 + 7) with 31 in *. split; [|exact VL].
  set (d := expo binary32 x - expo binary32 y) in *. set (sig := sig32 x * 2 ^ 7 - jam (sig32 y * 2 ^ 7) d) in *.
  destruct (normalise sig 31 B ltac:(lia)) as [Kr Kb]. set (k := 31 - 1 - Z.log2 sig) in *.
  set (N := (sig32 x * 2 ^ 7 * 2 ^ d - sig32 y * 2 ^ 7) * 2 ^ k) in *. pose proof (expo32_range y).
  rewrite (align_round binary32 7 _ s _ N d (expo binary32 x - 1 - k) (expo binary32 x - 1 - k + qmin binary32 - 7) (k + 1)); try lia.
  - rewrite (round_from_sticky binary32 ltac:(cbn; lia) 7 _ s N (2 ^ d) _ (sig * 2 ^ k)); try assumption; try (cbn; lia).
    apply normRoundPackToF32_ok; try assumption; lia.
  - now replace (expo binary32 x - 1 - k + (k + 1)) with (expo binary32 x) by lia.
Qed.

(** Values with the same exponent differ by the fractions. *)
Lemma difference32 a b : expo binary32 a = expo binary32 b ->
  val32 a - val32 b = (frac binary32 a - frac binary32 b) * 2 ^ (if z2b (expo binary32 a) then expo binary32 a - 1 else expo binary32 a).
Proof.
  intros E. unfold value, z2b. rewrite <- E. destruct (Z.eqb_spec (expo binary32 a) 0) as [->|]; cbn [negb]; lia.
Qed.

(** The magnitude of [b] subtracted from that of [a]. *)
Lemma subMags32_ok a b e : valid_mode (softfloat_roundingMode e) -> fits 32 a -> fits 32 b ->
  implements (softfloat_subMagsF32 a b) e
    (plus binary32 (softfloat_roundingMode e) (decode binary32 a) (with_sign (negb (sign binary32 a)) (decode binary32 b))).
Proof.
  intros V Ha Hb. pose proof (expo32_range a). pose proof (expo32_range b).
  destruct (Z.eq_dec (expo binary32 a) 0xFF); [apply subMags32_special; auto|].
  destruct (Z.eq_dec (expo binary32 b) 0xFF); [apply subMags32_special; auto|].
  rewrite plus32_finite, sum_diff by (lia || apply val32_nonneg). unfold softfloat_subMagsF32. cbv zeta.
  rewrite signF32_spec, !expF32_spec, !fracF32_spec by assumption.
  pose proof (frac32_range a). pose proof (frac32_range b).
  replace (expo binary32 a =? 0xFF) with false by lia. replace (expo binary32 b =? 0xFF) with false by lia.
  destruct (Z.eqb_spec (expo binary32 a - expo binary32 b) 0).
  - set (x := if z2b (expo binary32 a) then expo binary32 a - 1 else expo binary32 a) in *.
    assert (Hx : 0 <= x <= 0xFD) by (unfold x, z2b; destruct (Z.eqb_spec (expo binary32 a) 0); cbn [negb]; lia).
    pose proof (difference32 a b ltac:(lia)) as D. fold x in D. pose proof (pow2_pos x ltac:(lia)) as Px.
    assert (S : s64 (frac binary32 a -w frac binary32 b) = frac binary32 a - frac binary32 b).
    { unfold sub64. rewrite sw_uw. apply sw_small; [lia|]. unfold sfits. lia. }
    rewrite S. clearbody x. destruct (Z.eqb_spec (frac binary32 a - frac binary32 b) 0) as [Z0|].
    + replace (val32 a =? val32 b) with true by nia. apply implements_mode, ret_zero_f32.
    + replace (val32 a =? val32 b) with false by nia.
      destruct (Z.ltb_spec (frac binary32 a - frac binary32 b) 0).
      * replace (val32 b <? val32 a) with false by nia.
        replace (val32 b - val32 a) with (- (frac binary32 a - frac binary32 b) * 2 ^ x) by lia. apply cancel32; lia.
      * replace (val32 b <? val32 a) with true by nia. rewrite D. apply cancel32; lia.
  - rewrite !addend32_7. assert (Dif : forall x y, expo binary32 y < expo binary32 x -> 0 <= frac binary32 x < 2 ^ 23 -> 0 <= expo binary32 y ->
      ((frac binary32 x <<w 7) |w 0x40000000) -w softfloat_shiftRightJam32 (sig32 y * 2 ^ 7) (expo binary32 x - expo binary32 y)
      = sig32 x * 2 ^ 7 - jam (sig32 y * 2 ^ 7) (expo binary32 x - expo binary32 y)).
    { intros x y L Hx Hy. destruct (sig32_range y) as [Ry _].
      rewrite shiftRightJam32_jam, (sig32_normal x), shl64_small by (lia || (unfold fits; lia)).
      change 0x40000000 with (2 ^ 30). rewrite lor_top by (lia || (unfold fits; lia)).
      pose proof (aligned_jam binary32 ltac:(cbn; lia) 7 (sig32 y * 2 ^ 7) (expo binary32 x - expo binary32 y) ltac:(lia) ltac:(cbn; lia)
        ltac:(rewrite Z.even_mul; apply orb_true_r) ltac:(lia)) as J. cbn [prec binary32] in J.
      rewrite sub64_small by (unfold fits; lia). lia. }
    destruct (Z.ltb_spec (expo binary32 a - expo binary32 b) 0).
    + replace (- (expo binary32 a - expo binary32 b)) with (expo binary32 b - expo binary32 a) by lia. rewrite Dif by lia.
      edestruct (aligned_difference32 (negb (sign binary32 a)) b a e V) as [R L]; [lia..|].
      replace (val32 a =? val32 b) with false by lia. replace (val32 b <? val32 a) with false by lia. exact R.
    + rewrite Dif by lia.
      edestruct (aligned_difference32 (sign binary32 a) a b e V) as [R L]; [lia..|].
      replace (val32 a =? val32 b) with false by lia. replace (val32 b <? val32 a) with true by lia. exact R.
Qed.

Lemma sign32_xor a b : fits 32 a -> fits 32 b -> signF32UI (a ^w b) = xorb (sign binary32 a) (sign binary32 b).
Proof. intros Ha Hb. rewrite signF32_spec by (apply lxor_fits; lia || assumption). apply Z.lxor_spec. Qed.

(** [f32_add] is the correctly rounded sum. *)
Lemma f32_add_correct a b e : fits 32 a -> fits 32 b -> valid_mode (softfloat_roundingMode e) ->
  implements (f32_add a b) e (add binary32 (softfloat_roundingMode e) a b).
Proof.
  intros Ha Hb V. unfold f32_add, add. rewrite sign32_xor by assumption.
  pose proof (addMags32_ok a b e V Ha Hb) as A. pose proof (subMags32_ok a b e V Ha Hb) as S.
  pose proof (with_sign_same binary32 ltac:(cbn; lia) ltac:(cbn; lia) b) as W.
  destruct (sign binary32 a), (sign binary32 b); cbn [xorb negb] in *; rewrite W in *; assumption.
Qed.

(** [f32_sub] is the correctly rounded difference. *)
Lemma f32_sub_correct a b e : fits 32 a -> fits 32 b -> valid_mode (softfloat_roundingMode e) ->
  implements (f32_sub a b) e (sub binary32 (softfloat_roundingMode e) a b).
Proof.
  intros Ha Hb V. unfold f32_sub, sub. rewrite sign32_xor by assumption.
  pose proof (addMags32_ok a b e V Ha Hb) as A. pose proof (subMags32_ok a b e V Ha Hb) as S.
  pose proof (with_sign_opp binary32 ltac:(cbn; lia) ltac:(cbn; lia) b) as W.
  destruct (sign binary32 a), (sign binary32 b); cbn [xorb negb] in *; rewrite W in *; assumption.
Qed.
