(* ===== verification/SoftAdd64.v ===== *)
(** * SoftAdd64: [f64_add] and [f64_sub] are correctly rounded

    The cases of [softfloat_addMagsF64] and [softfloat_subMagsF64] as the
    generic sums of [SoftAdd]. *)
From Stdlib Require Import ZArith Lia Bool List.
From stdpp Require Import base list.
From S2P Require Import Prelude SoftFloat SoftF64 Ieee Sticky SoftFacts SoftFields SoftCompare SoftAdd.
#[local] Open Scope Z_scope.
#[local] Open Scope word_scope.

Notation sig64 := (sig_of binary64).
Notation val64 := (value binary64).

Lemma normRoundPackToF64_ok s exp sig e : valid_mode (softfloat_roundingMode e) ->
  0 < sig < 2 ^ 63 -> - 2 ^ 14 <= exp < 2 ^ 14 ->
  let k := 62 - Z.log2 sig in
  implements (softfloat_normRoundPackToF64 s exp sig) e (round_pack binary64 10 (softfloat_roundingMode e) s (exp - k) (sig * 2 ^ k)).
Proof.
  intros V Hs He k. destruct (normalise sig 63 Hs ltac:(lia)) as [Kr Kb].
  replace (63 - 1 - Z.log2 sig) with k in * by (unfold k; lia). change (63 - 1) with 62 in Kb.
  unfold softfloat_normRoundPackToF64. rewrite clz64_log2 by lia.
  replace (63 - Z.log2 sig - 1) with k by (unfold k; lia). rewrite (shl64_small sig k) by (lia || (unfold fits; lia)).
  destruct (Z.leb_spec 10 k); cbn [andb]; [|now apply roundPackToF64_ok; try lia].
  destruct (Z.ltb_spec (u32 (exp - k)) 0x7FD) as [L|_]; [|apply roundPackToF64_ok; lia || assumption].
  assert (P : 0 <= exp - k).
  { destruct (Z_lt_le_dec (exp - k) 0); [|assumption]. unfold uw in L. rewrite <- (Z.mod_add (exp - k) 1) in L by lia.
    rewrite Z.mod_small in L by lia. lia. }
  rewrite uw_small in L by (unfold fits; lia).
  replace (sig =? 0) with false by lia.
  assert (E : sig * 2 ^ k = sig * 2 ^ (k - 10) * 2 ^ 10) by (rewrite <- Z.mul_assoc, <- Z.pow_add_r by lia; do 2 f_equal; lia).
  rewrite shl64_small, ret_f64_packed by (lia || (unfold fits; lia)). unfold round_pack. rewrite E, rounded_exact by lia.
  replace (exp - k <? 0) with false by lia. cbn [fst snd]. change (2 * emax binary64 - 1) with 0x7FD.
  replace (0x7FD <? exp - k) with false by lia. replace (0x7FD =? exp - k) with false by lia. cbn [orb andb].
  rewrite packed64_small by lia. change (2 ^ (prec binary64 - 1)) with (2 ^ 52). apply implements_ret.
Qed.

Lemma sig64_range b : 0 <= sig64 b < 2 ^ 53 /\ (expo binary64 b <> 0 -> 2 ^ 52 <= sig64 b).
Proof. apply (sig_range binary64); cbn; lia. Qed.
Lemma val64_nonneg b : 0 <= val64 b.
Proof. apply (value_nonneg binary64); cbn; lia. Qed.
Lemma plus64_finite mode a b sb : expo binary64 a < 0x7FF -> expo binary64 b < 0x7FF ->
  plus binary64 mode (decode binary64 a) (with_sign sb (decode binary64 b)) = sum_value binary64 mode (sign binary64 a) (val64 a) sb (val64 b).
Proof. apply plus_finite; cbn; lia. Qed.

(** The operand with the smaller exponent, before it is aligned. *)
Lemma shl64_frac b n : 0 <= n <= 11 -> frac binary64 b <<w n = frac binary64 b * 2 ^ n /\ fits 63 (frac binary64 b * 2 ^ n).
Proof.
  intros Hn. pose proof (frac64_range b). pose proof (pow2_pos n ltac:(lia)).
  assert (B : frac binary64 b * 2 ^ n < 2 ^ 52 * 2 ^ n) by (apply Z.mul_lt_mono_pos_r; lia). rewrite <- Z.pow_add_r in B by lia.
  assert (2 ^ (52 + n) <= 2 ^ 63) by (apply Z.pow_le_mono_r; lia).
  assert (G : fits 63 (frac binary64 b * 2 ^ n)) by (split; [apply Z.mul_nonneg_nonneg; lia|lia]).
  split; [|exact G]. apply shl64_small; [lia|]. revert G. apply fits_mono. lia.
Qed.
Lemma addend64_9 b : (if z2b (expo binary64 b) then (frac binary64 b <<w 9) +w 0x2000000000000000 else frac binary64 b <<w 9 <<w 1) = sig64 b * 2 ^ 9.
Proof.
  pose proof (frac64_range b). destruct (shl64_frac b 9 ltac:(lia)) as [-> _]. unfold sig_of, z2b. cbn [prec binary64]. change (53 - 1) with 52.
  destruct (expo binary64 b =? 0); cbn [negb]; [rewrite shl64_small by (lia || (unfold fits; lia))|rewrite add64_small by (unfold fits; lia)]; lia.
Qed.
Lemma addend64_10 b : (frac binary64 b <<w 10) +w (if z2b (expo binary64 b) then 0x4000000000000000 else frac binary64 b <<w 10) = sig64 b * 2 ^ 10.
Proof.
  pose proof (frac64_range b). destruct (shl64_frac b 10 ltac:(lia)) as [-> _]. unfold sig_of, z2b. cbn [prec binary64]. change (53 - 1) with 52.
  destruct (expo binary64 b =? 0); cbn [negb]; rewrite add64_small by (unfold fits; lia); lia.
Qed.

(** [roundPack] of an aligned sum of [x], with the larger exponent, and [y]. *)
Lemma aligned_sum64 s x y sig e : valid_mode (softfloat_roundingMode e) -> expo binary64 y < expo binary64 x -> expo binary64 x < 0x7FF ->
  sig = sig64 x * 2 ^ 9 + jam (sig64 y * 2 ^ 9) (expo binary64 x - expo binary64 y) ->
  implements (if sig <? 0x4000000000000000 then softfloat_roundPackToF64 s (expo binary64 x - 1) (sig <<w 1)
              else softfloat_roundPackToF64 s (expo binary64 x) sig) e
    (round binary64 (softfloat_roundingMode e) s (val64 x + val64 y) 1 (qmin binary64)).
Proof.
  intros V L Lx ->. pose proof (add_sticky binary64 ltac:(cbn; lia) ltac:(cbn; lia) ltac:(cbn; lia) eq_refl 10 x y ltac:(lia) L) as (B & St & PN & E).
  cbn [prec binary64] in B. replace (10 - 1) with 9 in * by lia. change (53 + 10 - 2) with 61 in B. change (53 + 10) with 63 in B.
  set (d := expo binary64 x - expo binary64 y) in *. set (sig := _ + jam _ _) in *. set (N := _ + _) in E, PN, St.
  pose proof (expo64_range y). pose proof (pow2_pos d ltac:(lia)).
  assert (PV : 0 < val64 x + val64 y).
  { pose proof (pow2_pos (10 + d) ltac:(lia)). pose proof (pow2_pos (expo binary64 x) ltac:(lia)). nia. }
  clearbody N sig. destruct (Z.ltb_spec sig 0x4000000000000000).
  - rewrite (align_round binary64 10 _ s _ (N * 2 ^ 1) d (expo binary64 x - 1) (expo binary64 x - 1085) 1);
      try (change (qmin binary64) with (-1074); lia).
    + rewrite shl64_small by (lia || (unfold fits; lia)). apply roundPackToF64_sticky; try assumption; try lia.
      apply (sticky_weaken (1 + 1)); [lia|]. apply sticky_shl; [lia..|exact St].
    + replace (10 + d + 1) with (1 + (10 + d)) by lia. replace (expo binary64 x - 1 + 1) with (expo binary64 x) by lia.
      rewrite (Z.pow_add_r 2 1) by lia. lia.
  - rewrite (align_round binary64 10 _ s _ N d (expo binary64 x) (expo binary64 x - 1084) 0);
      try (change (qmin binary64) with (-1074); lia).
    + apply roundPackToF64_sticky; try assumption; try lia. apply (sticky_weaken 1); [lia|exact St].
    + rewrite !Z.add_0_r. exact E.
Qed.

(** ** Addition of magnitudes *)

Lemma round64_exact mode s E M : 0 < M < 2 ^ 53 -> 1 <= E < 0x7FF -> (E = 1 \/ 2 ^ 52 <= M) ->
  round binary64 mode s M 1 (E - 1075) = (sign_bits binary64 s + (E - 1) * 2 ^ 52 + M, 0).
Proof.
  intros. replace (E - 1075) with (qmin binary64 + E - 1) by (change (qmin binary64) with (-1074); lia).
  apply (round_exact binary64); solve [assumption | reflexivity | cbn; lia].
Qed.

(** Both operands have the exponent of [a]. *)
Lemma addMags64_equal a b e : valid_mode (softfloat_roundingMode e) -> fits 64 a ->
  expo binary64 a = expo binary64 b -> expo binary64 a < 0x7FF ->
  implements
    (if expo binary64 a =? 0 then ret_f64 (a +w frac binary64 b)
     else softfloat_roundPackToF64 (sign binary64 a) (expo binary64 a) (((0x0020000000000000 +w frac binary64 a) +w frac binary64 b) <<w 9)) e
    (sum_value binary64 (softfloat_roundingMode e) (sign binary64 a) (val64 a) (sign binary64 a) (val64 b)).
Proof.
  intros V Ha Eq La. pose proof (frac64_range a). pose proof (frac64_range b). pose proof (expo64_range a).
  rewrite sum_same by apply val64_nonneg. pose proof (fields_value binary64 ltac:(cbn; lia) ltac:(cbn; lia) a Ha) as Fv.
  cbn [prec binary64] in Fv. change (53 - 1) with 52 in Fv. unfold value. rewrite <- Eq. cbn [prec binary64]. change (53 - 1) with 52.
  destruct (Z.eqb_spec (expo binary64 a) 0) as [E0|N0].
  - assert (S : ret_f64 (a +w frac binary64 b) = sf_ret (sign_bits binary64 (sign binary64 a) + (frac binary64 a + frac binary64 b))).
    { unfold ret_f64. rewrite add64_small; [f_equal; lia|]. unfold fits, sign_bits in *.
      cbn [width binary64] in Fv. change (64 - 1) with 63 in Fv. destruct (sign binary64 a); cbn [b2z] in Fv; lia. }
    rewrite S. destruct (Z.eqb_spec (frac binary64 a + frac binary64 b) 0) as [->|].
    + rewrite Z.add_0_r. apply implements_ret.
    + rewrite (round64_exact _ _ 1) by lia. rewrite Z.mul_0_l, Z.add_0_r. apply implements_ret.
  - rewrite (add64_small 0x0020000000000000), add64_small by (unfold fits; lia).
    set (z := 0x0020000000000000 + frac binary64 a + frac binary64 b).
    assert (Hz : (2 ^ 52 + frac binary64 a) * 2 ^ (expo binary64 a - 1) + (2 ^ 52 + frac binary64 b) * 2 ^ (expo binary64 a - 1)
                 = z * 2 ^ (expo binary64 a - 1)) by (unfold z; lia).
    pose proof (pow2_pos (expo binary64 a - 1) ltac:(lia)) as Px. rewrite Hz. replace (z * 2 ^ (expo binary64 a - 1) =? 0) with false by (unfold z; nia).
    rewrite <- (round_shl binary64 _ _ z 1 (expo binary64 a - 1075) (expo binary64 a - 1)) by (change (qmin binary64) with (-1074); cbn; unfold z; lia).
    rewrite shl64_small by (lia || (unfold fits, z; lia)).
    rewrite (round_shl binary64 _ _ z 1 _ 9 (expo binary64 a - 1084)) by (cbn; unfold z; lia).
    apply roundPackToF64_sticky; try assumption; try (unfold z; lia).
    replace (z * 2 ^ 9) with (z * 2 ^ 9 * 1) at 1 by lia. apply sticky_exact. lia.
Qed.

Lemma ret_inf_self64 a e : fits 64 a -> expo binary64 a = 0x7FF -> frac binary64 a = 0 ->
  implements (ret_f64 a) e (inf_bits binary64 (sign binary64 a), 0).
Proof.
  intros Ha Ea Fa. unfold ret_f64.
  replace (inf_bits binary64 (sign binary64 a)) with a; [apply implements_ret|].
  pose proof (fields_value binary64 ltac:(cbn; lia) ltac:(cbn; lia) a Ha) as V. rewrite Ea, Fa, Z.add_0_r in V. exact V.
Qed.

(** An infinity or a NaN among the operands. *)
Lemma addMags64_special a b e : fits 64 a -> fits 64 b -> expo binary64 a = 0x7FF \/ expo binary64 b = 0x7FF ->
  implements (softfloat_addMagsF64 a b (sign binary64 a)) e
    (plus binary64 (softfloat_roundingMode e) (decode binary64 a) (with_sign (sign binary64 a) (decode binary64 b))).
Proof.
  intros Ha Hb S. pose proof (fun e => propagateNaN_f64_ok a b e) as NaN. unfold softfloat_addMagsF64.
  pose proof (expo64_range a). pose proof (expo64_range b). pose proof (frac64_range a). pose proof (frac64_range b).
  rewrite !expF64_spec, !fracF64_spec. pose proof (ret_inf_self64 a e Ha) as Inf. revert NaN.
  destruct (shl64_frac a 9 ltac:(lia)) as [-> _]. destruct (shl64_frac b 9 ltac:(lia)) as [-> _].
  destruct (view64 a), (view64 b); change (einf binary64) with 0x7FF in *; try lia; cbn [is_snan with_sign plus]; intros NaN;
    unfold z2b; rewrite ?lor_eq_0; settle_order;
    rewrite ?eqb_reflx; first [apply NaN|apply ret_inf_f64|apply Inf; assumption].
Qed.

Lemma jam64_range y d : 1 <= d -> 0 <= jam (sig64 y * 2 ^ 9) d < 2 ^ 62.
Proof.
  intros Hd. destruct (sig64_range y) as [R _]. pose proof (jam_bounds (sig64 y * 2 ^ 9) d Hd ltac:(lia)). lia.
Qed.

Lemma sig64_normal b : expo binary64 b <> 0 -> sig64 b = 2 ^ 52 + frac binary64 b.
Proof. intros. unfold sig_of. now replace (expo binary64 b =? 0) with false by lia. Qed.

(** Both magnitudes added, with the sign of [a]. *)
Lemma addMags64_ok a b e : valid_mode (softfloat_roundingMode e) -> fits 64 a -> fits 64 b ->
  implements (softfloat_addMagsF64 a b (sign binary64 a)) e
    (plus binary64 (softfloat_roundingMode e) (decode binary64 a) (with_sign (sign binary64 a) (decode binary64 b))).
Proof.
  intros V Ha Hb. pose proof (expo64_range a). pose proof (expo64_range b).
  destruct (Z.eq_dec (expo binary64 a) 0x7FF); [apply addMags64_special; auto|].
  destruct (Z.eq_dec (expo binary64 b) 0x7FF); [apply addMags64_special; auto|].
  rewrite plus64_finite by lia. unfold softfloat_addMagsF64. cbv zeta.
  rewrite !expF64_spec, !fracF64_spec.
  pose proof (frac64_range a). pose proof (frac64_range b).
  replace (expo binary64 a =? 0x7FF) with false by lia. replace (expo binary64 b =? 0x7FF) with false by lia.
  destruct (Z.eqb_spec (expo binary64 a - expo binary64 b) 0); [apply addMags64_equal; try assumption; lia|].
  rewrite sum_same by apply val64_nonneg. rewrite !addend64_9.
  assert (Sum : forall x y, expo binary64 y < expo binary64 x -> 0 <= expo binary64 y -> 0 <= frac binary64 x < 2 ^ 52 ->
    let j := softfloat_shiftRightJam64 (sig64 y * 2 ^ 9) (expo binary64 x - expo binary64 y) in
    (0x2000000000000000 +w j) +w (frac binary64 x <<w 9) = sig64 x * 2 ^ 9 + jam (sig64 y * 2 ^ 9) (expo binary64 x - expo binary64 y) /\
    (0x2000000000000000 +w (frac binary64 x <<w 9)) +w j = sig64 x * 2 ^ 9 + jam (sig64 y * 2 ^ 9) (expo binary64 x - expo binary64 y) /\
    (val64 x + val64 y =? 0) = false).
  { intros x y L Ly Hx j. unfold j. destruct (sig64_range y) as [Ry _]. pose proof (jam64_range y (expo binary64 x - expo binary64 y) ltac:(lia)).
    rewrite shiftRightJam64_jam by (lia || (unfold fits; lia)). rewrite (sig64_normal x) by lia.
    rewrite shl64_small by (lia || (unfold fits; lia)). split_and!; [rewrite add64_small; rewrite ?add64_small by (unfold fits; lia); unfold fits; lia..|].
    pose proof (val64_nonneg y). pose proof (val64_nonneg x). assert (val64 x <> 0); [|lia].
    intros V0. apply (value_0 binary64) in V0; try (cbn; lia). unfold mag in V0. cbn [prec binary64] in V0. change (53 - 1) with 52 in V0. lia. }
  destruct (Z.ltb_spec (expo binary64 a - expo binary64 b) 0).
  - destruct (Sum b a ltac:(lia) ltac:(lia) ltac:(lia)) as (S1 & _ & Nz).
    replace (- (expo binary64 a - expo binary64 b)) with (expo binary64 b - expo binary64 a) by lia. rewrite S1, (Z.add_comm (val64 a)), Nz.
    apply aligned_sum64; try assumption; lia || reflexivity.
  - destruct (Sum a b ltac:(lia) ltac:(lia) ltac:(lia)) as (_ & S2 & Nz). rewrite S2, Nz.
    apply aligned_sum64; try assumption; lia || reflexivity.
Qed.

(** ** Subtraction of magnitudes *)

Lemma subMags64_special a b e : fits 64 a -> fits 64 b -> expo binary64 a = 0x7FF \/ expo binary64 b = 0x7FF ->
  implements (softfloat_subMagsF64 a b (sign binary64 a)) e
    (plus binary64 (softfloat_roundingMode e) (decode binary64 a) (with_sign (negb (sign binary64 a)) (decode binary64 b))).
Proof.
  intros Ha Hb S. pose proof (fun e => propagateNaN_f64_ok a b e) as NaN. unfold softfloat_subMagsF64.
  pose proof (expo64_range a). pose proof (expo64_range b). pose proof (frac64_range a). pose proof (frac64_range b).
  rewrite !expF64_spec, !fracF64_spec. pose proof (ret_inf_self64 a e Ha) as Inf. revert NaN. fold invalid_f64.
  destruct (shl64_frac a 10 ltac:(lia)) as [-> _]. destruct (shl64_frac b 10 ltac:(lia)) as [-> _].
  replace (eqb (sign binary64 a) (negb (sign binary64 a))) with false by now destruct (sign binary64 a).
  destruct (view64 a), (view64 b); change (einf binary64) with 0x7FF in *; try lia; cbn [is_snan with_sign plus]; intros NaN;
    unfold z2b; rewrite ?lor_eq_0; settle_order;
    replace (eqb (sign binary64 a) (negb (sign binary64 a))) with false by (now destruct (sign binary64 a));
    first [apply NaN|apply ret_inf_f64|apply invalid_f64_ok|apply Inf; assumption].
Qed.

(** Cancellation: the exact difference [m * 2 ^ x], normalised as far as the
    exponent allows. *)
Lemma cancel64 s m x e : 0 < m < 2 ^ 52 -> 0 <= x <= 0x7FD ->
  implements
    (let shiftDist := softfloat_countLeadingZeros64 (u64 m) - 11 in
     let expZ := x - shiftDist in
     let (shiftDist, expZ) := if expZ <? 0 then (x, 0) else (shiftDist, expZ) in
     ret_f64 (packToF64UI s expZ (Z.shiftl m shiftDist))) e
    (round binary64 (softfloat_roundingMode e) s (m * 2 ^ x) 1 (qmin binary64)).
Proof.
  intros Hm Hx. rewrite (uw_small 64 m) by (unfold fits; lia). rewrite clz64_log2 by lia. cbv zeta.
  destruct (normalise m 53 ltac:(lia) ltac:(lia)) as [Kr Kb]. replace (63 - Z.log2 m - 11) with (53 - 1 - Z.log2 m) by lia.
  set (k := 53 - 1 - Z.log2 m) in *. change (53 - 1) with 52 in Kb.
  assert (Exact : forall sh, 0 <= sh <= x -> sh <= k -> (sh = x \/ sh = k) ->
    implements (ret_f64 (packToF64UI s (x - sh) (Z.shiftl m sh))) e
      (round binary64 (softfloat_roundingMode e) s (m * 2 ^ x) 1 (qmin binary64))).
  { intros sh Hs Hk Hc. pose proof (pow2_pos sh ltac:(lia)).
    assert (B : 0 < m * 2 ^ sh < 2 ^ 53 /\ (sh = k -> 2 ^ 52 <= m * 2 ^ sh)).
    { assert (m * 2 ^ sh <= m * 2 ^ k) by (apply Z.mul_le_mono_nonneg_l, Z.pow_le_mono_r; lia). split; [nia|]. intros ->. lia. }
    replace (m * 2 ^ x) with (m * 2 ^ sh * 2 ^ (x - sh)) by (rewrite <- Z.mul_assoc, <- Z.pow_add_r by lia; do 2 f_equal; lia).
    rewrite <- (round_shl binary64 _ _ (m * 2 ^ sh) 1 (x - sh + 1 - 1075)) by (change (qmin binary64) with (-1074); cbn; lia).
    rewrite round64_exact by lia. rewrite Z.shiftl_mul_pow2, ret_f64_packed, packed64_small by lia.
    replace (x - sh + 1 - 1) with (x - sh) by lia. apply implements_ret. }
  destruct (Z.ltb_spec (x - k) 0).
  - pose proof (Exact x ltac:(lia) ltac:(lia) ltac:(lia)) as Ex. now rewrite Z.sub_diag in Ex.
  - apply Exact; lia.
Qed.

(** [normRoundPack] of an aligned difference. *)
Lemma aligned_difference64 s x y e : valid_mode (softfloat_roundingMode e) -> expo binary64 y < expo binary64 x -> expo binary64 x < 0x7FF ->
  implements (softfloat_normRoundPackToF64 s (expo binary64 x - 1)
                (sig64 x * 2 ^ 10 - jam (sig64 y * 2 ^ 10) (expo binary64 x - expo binary64 y))) e
    (round binary64 (softfloat_roundingMode e) s (val64 x - val64 y) 1 (qmin binary64)) /\ val64 y < val64 x.
Proof.
  intros V L Lx. pose proof (sub_sticky binary64 ltac:(cbn; lia) ltac:(cbn; lia) 10 x y ltac:(lia) L) as (B & St & PN & VL & E).
  cbn [prec binary64] in B, St, PN, E. change (53 + 10) with 63 in *. split; [|exact VL].
  set (d := expo binary64 x - expo binary64 y) in *. set (sig := sig64 x * 2 ^ 10 - jam (sig64 y * 2 ^ 10) d) in *.
  destruct (normalise sig 63 B ltac:(lia)) as [Kr Kb]. set (k := 63 - 1 - Z.log2 sig) in *.
  set (N := (sig64 x * 2 ^ 10 * 2 ^ d - sig64 y * 2 ^ 10) * 2 ^ k) in *. pose proof (expo64_range y).
  rewrite (align_round binary64 10 _ s _ N d (expo binary64 x - 1 - k) (expo binary64 x - 1 - k + qmin binary64 - 10) (k + 1)); try lia.
  - rewrite (round_from_sticky binary64 ltac:(cbn; lia) 10 _ s N (2 ^ d) _ (sig * 2 ^ k)); try assumption; try (cbn; lia).
    apply normRoundPackToF64_ok; try assumption; lia.
  - now replace (expo binary64 x - 1 - k + (k + 1)) with (expo binary64 x) by lia.
Qed.

(** Values with the same exponent differ by the fractions. *)
Lemma difference64 a b : expo binary64 a = expo binary64 b ->
  val64 a - val64 b = (frac binary64 a - frac binary64 b) * 2 ^ (if z2b (expo binary64 a) then expo binary64 a - 1 else expo binary64 a).
Proof.
  intros E. unfold value, z2b. rewrite <- E. destruct (Z.eqb_spec (expo binary64 a) 0) as [->|]; cbn [negb]; lia.
Qed.

(** The magnitude of [b] subtracted from that of [a]. *)
Lemma subMags64_ok a b e : valid_mode (softfloat_roundingMode e) -> fits 64 a -> fits 64 b ->
  implements (softfloat_subMagsF64 a b (sign binary64 a)) e
    (plus binary64 (softfloat_roundingMode e) (decode binary64 a) (with_sign (negb (sign binary64 a)) (decode binary64 b))).
Proof.
  intros V Ha Hb. pose proof (expo64_range a). pose proof (expo64_range b).
  destruct (Z.eq_dec (expo binary64 a) 0x7FF); [apply subMags64_special; auto|].
  destruct (Z.eq_dec (expo binary64 b) 0x7FF); [apply subMags64_special; auto|].
  rewrite plus64_finite, sum_diff by (lia || apply val64_nonneg). unfold softfloat_subMagsF64. cbv zeta.
  rewrite !expF64_spec, !fracF64_spec.
  pose proof (frac64_range a). pose proof (frac64_range b).
  replace (expo binary64 a =? 0x7FF) with false by lia. replace (expo binary64 b =? 0x7FF) with false by lia.
  destruct (Z.eqb_spec (expo binary64 a - expo binary64 b) 0).
  - set (x := if z2b (expo binary64 a) then expo binary64 a - 1 else expo binary64 a) in *.
    assert (Hx : 0 <= x <= 0x7FD) by (unfold x, z2b; destruct (Z.eqb_spec (expo binary64 a) 0); cbn [negb]; lia).
    pose proof (difference64 a b ltac:(lia)) as D. fold x in D. pose proof (pow2_pos x ltac:(lia)) as Px.
    assert (S : s64 (frac binary64 a -w frac binary64 b) = frac binary64 a - frac binary64 b).
    { unfold sub64. rewrite sw_uw. apply sw_small; [lia|]. unfold sfits. lia. }
    rewrite S. clearbody x. destruct (Z.eqb_spec (frac binary64 a - frac binary64 b) 0) as [Z0|].
    + replace (val64 a =? val64 b) with true by nia. apply implements_mode, ret_zero_f64.
    + replace (val64 a =? val64 b) with false by nia.
      destruct (Z.ltb_spec (frac binary64 a - frac binary64 b) 0).
      * replace (val64 b <? val64 a) with false by nia.
        replace (val64 b - val64 a) with (- (frac binary64 a - frac binary64 b) * 2 ^ x) by lia. apply cancel64; lia.
      * replace (val64 b <? val64 a) with true by nia. rewrite D. apply cancel64; lia.
  - rewrite !addend64_10. assert (Dif : forall x y, expo binary64 y < expo binary64 x -> 0 <= frac binary64 x < 2 ^ 52 -> 0 <= expo binary64 y ->
      ((frac binary64 x <<w 10) |w 0x4000000000000000) -w softfloat_shiftRightJam64 (sig64 y * 2 ^ 10) (expo binary64 x - expo binary64 y)
      = sig64 x * 2 ^ 10 - jam (sig64 y * 2 ^ 10) (expo binary64 x - expo binary64 y)).
    { intros x y L Hx Hy. destruct (sig64_range y) as [Ry _].
      rewrite shiftRightJam64_jam, (sig64_normal x), shl64_small by (lia || (unfold fits; lia)).
      change 0x4000000000000000 with (2 ^ 62). rewrite lor_top by (lia || (unfold fits; lia)).
      pose proof (aligned_jam binary64 ltac:(cbn; lia) 10 (sig64 y * 2 ^ 10) (expo binary64 x - expo binary64 y) ltac:(lia) ltac:(cbn; lia)
        ltac:(rewrite Z.even_mul; apply orb_true_r) ltac:(lia)) as J. cbn [prec binary64] in J.
      rewrite sub64_small by (unfold fits; lia). lia. }
    destruct (Z.ltb_spec (expo binary64 a - expo binary64 b) 0).
    + replace (- (expo binary64 a - expo binary64 b)) with (expo binary64 b - expo binary64 a) by lia. rewrite Dif by lia.
      edestruct (aligned_difference64 (negb (sign binary64 a)) b a e V) as [R L]; [lia..|].
      replace (val64 a =? val64 b) with false by lia. replace (val64 b <? val64 a) with false by lia. exact R.
    + rewrite Dif by lia.
      edestruct (aligned_difference64 (sign binary64 a) a b e V) as [R L]; [lia..|].
      replace (val64 a =? val64 b) with false by lia. replace (val64 b <? val64 a) with true by lia. exact R.
Qed.

(** [f64_add] is the correctly rounded sum. *)
Lemma f64_add_correct a b e : fits 64 a -> fits 64 b -> valid_mode (softfloat_roundingMode e) ->
  implements (f64_add a b) e (add binary64 (softfloat_roundingMode e) a b).
Proof.
  intros Ha Hb V. unfold f64_add, add. rewrite !signF64_spec by assumption.
  pose proof (addMags64_ok a b e V Ha Hb) as A. pose proof (subMags64_ok a b e V Ha Hb) as S.
  pose proof (with_sign_same binary64 ltac:(cbn; lia) ltac:(cbn; lia) b) as W.
  destruct (sign binary64 a), (sign binary64 b); cbn [eqb negb] in *; rewrite W in *; assumption.
Qed.

(** [f64_sub] is the correctly rounded difference. *)
Lemma f64_sub_correct a b e : fits 64 a -> fits 64 b -> valid_mode (softfloat_roundingMode e) ->
  implements (f64_sub a b) e (sub binary64 (softfloat_roundingMode e) a b).
Proof.
  intros Ha Hb V. unfold f64_sub, sub. rewrite !signF64_spec by assumption.
  pose proof (addMags64_ok a b e V Ha Hb) as A. pose proof (subMags64_ok a b e V Ha Hb) as S.
  pose proof (with_sign_opp binary64 ltac:(cbn; lia) ltac:(cbn; lia) b) as W.
  destruct (sign binary64 a), (sign binary64 b); cbn [eqb negb] in *; rewrite W in *; assumption.
Qed.
