(* ===== verification/SoftDiv64.v ===== *)
(** * SoftDiv64: [f64_div] is correctly rounded

    The quotient of the significands is built from two 32-bit digits, each the
    product with an approximate reciprocal: the first is never above the true
    digit, the second at most four above, and only when the low bits leave a
    doubt is the remainder computed.  The significand that results is sticky
    for the exact quotient. *)
From Stdlib Require Import ZArith Lia Bool List.
From stdpp Require Import base list.
From S2P Require Import Prelude Arith SoftFloat SoftF32 SoftF64 Ieee Sticky SoftFacts SoftFields SoftAdd SoftAdd64.
#[local] Open Scope Z_scope.
#[local] Open Scope word_scope.

(** ** The approximate reciprocal *)

(** [r] is below [2 ^ 63 / (h + 1)], and close to it. *)
Record recip (h r : Z) : Prop := mk_recip {
  recip_pos : 0 < r < 2 ^ 32;
  recip_above : r * (h + 1) < 2 ^ 63;
  recip_below : 2 ^ 63 <= r * h + 3 * h
}.

Lemma recip32_ok h : 2 ^ 31 <= h < 2 ^ 32 -> recip h (u32 (softfloat_approxRecip32_1 h -w 2)).
Proof.
  intros H. unfold softfloat_approxRecip32_1. rewrite (uw_small 32 h) by (unfold fits; lia).
  pose proof (Z.div_mod 0x7FFFFFFFFFFFFFFF h ltac:(lia)) as E. pose proof (Z.mod_pos_bound 0x7FFFFFFFFFFFFFFF h ltac:(lia)).
  set (k := 0x7FFFFFFFFFFFFFFF / h) in *. clearbody k.
  assert (2 ^ 31 <= k < 2 ^ 32) by nia.
  rewrite (uw_small 32 k) by (unfold fits; lia). unfold sub64. rewrite uw_uw, uw_small by (unfold fits; lia).
  constructor; nia.
Qed.

(** One digit: [X * r / 2 ^ 32] for the top word [X] of a number is below the
    true quotient by [2 ^ 32], and not far. *)
Lemma digit_below h r B X x : recip h r -> 0 < B -> B < (h + 1) * 2 ^ 32 -> 0 <= X -> X * 2 ^ 32 <= x -> 0 < x ->
  X * r / 2 ^ 32 * B < x * 2 ^ 31.
Proof.
  intros [Rp Ra _] HB Hh HX Hx Px. set (q := X * r / 2 ^ 32). assert (Q : q * 2 ^ 32 <= X * r) by (pose proof (Z.mul_div_le (X * r) (2 ^ 32) ltac:(lia)); unfold q; lia).
  assert (0 <= q) by (apply Z.div_pos; nia).
  assert (rB : r * B < 2 ^ 95).
  { assert (r * B < r * ((h + 1) * 2 ^ 32)) by (apply Z.mul_lt_mono_pos_l; lia). nia. }
  destruct (Z.eq_dec X 0) as [->|N]; [unfold q; change (0 * r / 2 ^ 32) with 0; lia|].
  assert (q * 2 ^ 32 * B <= X * r * B) by (apply Z.mul_le_mono_nonneg_r; lia).
  assert (X * (r * B) < X * 2 ^ 95) by (apply Z.mul_lt_mono_pos_l; lia). lia.
Qed.

Lemma digit_above h r B X x c : recip h r -> h * 2 ^ 32 <= B -> 0 < h -> 0 <= X -> x < (X + 1) * 2 ^ 32 -> 0 <= c ->
  2 ^ 63 + 3 * X * h <= c * 2 ^ 32 * h -> x * 2 ^ 31 < (X * r / 2 ^ 32 + (c + 1)) * B.
Proof.
  intros [Rp _ Rb] HB Hh HX Hx Hc C. set (q := X * r / 2 ^ 32).
  assert (Q : X * r < (q + 1) * 2 ^ 32).
  { pose proof (Z.mul_succ_div_gt (X * r) (2 ^ 32) ltac:(lia)). unfold q. lia. }
  assert (0 <= q) by (apply Z.div_pos; nia).
  assert (L : (X + 1) * 2 ^ 63 <= (X * r + c * 2 ^ 32) * h) by nia.
  assert ((X * r + c * 2 ^ 32) * h < (q + (c + 1)) * 2 ^ 32 * h) by (apply Z.mul_lt_mono_pos_r; lia).
  assert ((q + (c + 1)) * (h * 2 ^ 32) <= (q + (c + 1)) * B) by (apply Z.mul_le_mono_nonneg_l; lia). lia.
Qed.

(** ** The remainders and the second digit *)

Lemma remainder_word a d h l : ((a -w (d *w h)) <<w 28) -w (d *w l) = u64 (a * 2 ^ 28 - d * (h * 2 ^ 28 + l)).
Proof.
  unfold sub64, shl64, mul64. rewrite uw_sub_r, uw_sub_l, !Z.shiftl_mul_pow2 by lia.
  rewrite uw_sub_r, <- uw_sub_l, uw_mul_l, uw_sub_l. f_equal. lia.
Qed.

(** A digit as the code computes it. *)
Lemma digit_word x r : fits 64 x -> 0 < r < 2 ^ 32 ->
  (u32 (x >>w 32) *w r) >>w 32 = x / 2 ^ 32 * r / 2 ^ 32 /\ 0 <= x / 2 ^ 32 < 2 ^ 32 /\ 0 <= x / 2 ^ 32 * r / 2 ^ 32 < 2 ^ 32.
Proof.
  intros Hx Hr. unfold fits in Hx. rewrite !Z.shiftr_div_pow2 by lia.
  assert (B : 0 <= x / 2 ^ 32 < 2 ^ 32) by (split; [apply Z.div_pos|apply Z.div_lt_upper_bound]; lia).
  assert (P : 0 <= x / 2 ^ 32 * r <= (2 ^ 32 - 1) * (2 ^ 32 - 1)) by (split; [nia|apply Z.mul_le_mono_nonneg; lia]).
  rewrite (uw_small 32 (x / 2 ^ 32)) by exact B. unfold mul64. rewrite (uw_small 64) by (unfold fits; lia).
  assert (D : 0 <= x / 2 ^ 32 * r / 2 ^ 32 < 2 ^ 32) by (split; [apply Z.div_pos|apply Z.div_lt_upper_bound]; lia).
  split; [reflexivity|]. now split.
Qed.

(** The low bits that leave no doubt: no multiple of 512 within 64 below. *)
Lemma sticky_close T N D t : 0 < D -> t * D < N -> N < T * D -> (forall c, c * 2 ^ 9 <= t \/ T <= c * 2 ^ 9) -> 
  forall sig, (forall c, c * 2 ^ 9 <= t -> c * 2 ^ 9 < sig) -> (forall c, T <= c * 2 ^ 9 -> sig < c * 2 ^ 9) -> sticky 9 N D sig.
Proof.
  intros HD Ht HT Gap sig Lo Hi c. destruct (Gap c) as [G|G].
  - specialize (Lo c G). assert (c * 2 ^ 9 * D <= t * D) by (apply Z.mul_le_mono_nonneg_r; lia).
    transitivity Lt; [|symmetry]; apply Z.compare_lt_iff; lia.
  - specialize (Hi c G). assert (T * D <= c * 2 ^ 9 * D) by (apply Z.mul_le_mono_nonneg_r; lia).
    transitivity Gt; [|symmetry]; apply Z.compare_gt_iff; lia.
Qed.

(** Clearing the low bits of a word. *)
Lemma clear_low w x k : 0 <= k -> 0 <= w -> fits w x -> x &w uw w (Z.lnot (Z.ones k)) = x - x mod 2 ^ k.
Proof.
  intros Hk Hw Hx. assert (E : x &w uw w (Z.lnot (Z.ones k)) = Z.ldiff x (Z.ones k)).
  { bits i. rewrite Z.land_spec, Z.ldiff_spec, uw_testbit, Z.lnot_spec by lia.
    destruct (Z.ltb_spec i w); [reflexivity|]. now rewrite (fits_testbit w x i) by (assumption || lia). }
  rewrite E, Z.ldiff_ones_r, Z.shiftl_mul_pow2, Z.shiftr_div_pow2 by lia.
  pose proof (Z.div_mod x (2 ^ k) ltac:(pose proof (pow2_pos k Hk); lia)). lia.
Qed.

(** The sign of a small word. *)
Lemma word_sign V : - 2 ^ 63 <= V < 2 ^ 63 -> z2b (u64 V &w 0x8000000000000000) = (V <? 0) /\ z2b (u64 V) = negb (V =? 0).
Proof.
  intros H. change 0x8000000000000000 with (2 ^ 63). rewrite z2b_land_pow2, uw_testbit by lia.
  pose proof (sw_neg_bit 64 V eq_refl) as Sg. change (64 - 1) with 63 in Sg. rewrite <- Sg, sw_small by (unfold sfits; lia).
  change (63 <? 64) with true. cbn [andb]. split; [reflexivity|].
  unfold z2b. f_equal. unfold uw. destruct (Z.ltb_spec V 0).
  - rewrite <- (Z.mod_add V 1), Z.mod_small by lia. lia.
  - rewrite Z.mod_small by lia. reflexivity.
Qed.

(** The three outcomes of the last comparison. *)
Lemma corrected N B t V : 0 < B -> 0 < N -> 0 <= t < 2 ^ 55 -> N = t * 2 ^ 9 * B + 2 ^ 7 * V -> - 2 ^ 63 <= V < 2 ^ 63 -> - (2 ^ 2 * B) < 2 ^ 3 * V < 2 ^ 2 * B ->
  sticky 9 N B
    (if z2b (u64 V &w 0x8000000000000000) then (t * 2 ^ 9) -w Z.shiftl 1 7
     else if z2b (u64 V) then t * 2 ^ 9 |w 1 else t * 2 ^ 9).
Proof.
  intros HB HN Ht EN HV BV. destruct (word_sign V HV) as [-> ->].
  destruct (Z.ltb_spec V 0); [|destruct (Z.eqb_spec V 0) as [->|]; cbn [negb]].
  - assert (1 <= t) by (destruct (Z.eq_dec t 0) as [->|]; lia). change (Z.shiftl 1 7) with 128.
    unfold sub64. rewrite uw_small by (unfold fits; lia).
    apply (sticky_close (t * 2 ^ 9) N B (t * 2 ^ 9 - 64)); try lia; intros c; destruct (Z.leb_spec t c); lia.
  - replace N with (t * 2 ^ 9 * B) by lia. now apply sticky_exact.
  - rewrite lor_1. replace (Z.odd (t * 2 ^ 9)) with false
      by (rewrite Z.odd_mul; change (Z.odd (2 ^ 9)) with false; now rewrite andb_false_r).
    apply (sticky_close (t * 2 ^ 9 + 64) N B (t * 2 ^ 9)); try lia; intros c; destruct (Z.leb_spec c t); lia.
Qed.

(** The doubtful digit is two low bits above a multiple of 32. *)
Lemma correct_digit s q : 0 <= s -> 0 <= q ->
  let T := s * 2 ^ 32 + q * 2 ^ 4 in let q' := q - q mod 2 ^ 3 in
  T mod 2 ^ 9 < 64 -> q - 4 < q' <= q /\ s * 2 ^ 32 + q' * 2 ^ 4 = T / 2 ^ 9 * 2 ^ 9 /\ T - T mod 2 ^ 7 = T / 2 ^ 9 * 2 ^ 9.
Proof.
  intros Hs Hq T q' Low.
  pose proof (Z.div_mod q (2 ^ 5) ltac:(lia)) as E5. pose proof (Z.mod_pos_bound q (2 ^ 5) ltac:(lia)).
  set (a := q / 2 ^ 5) in *. set (b := q mod 2 ^ 5) in *. clearbody a b.
  assert (ET : T = 2 ^ 9 * (s * 2 ^ 23 + a) + 2 ^ 4 * b) by (unfold T; lia).
  assert (Dt : T / 2 ^ 9 = s * 2 ^ 23 + a) by (symmetry; apply (Z.div_unique_pos _ _ _ (2 ^ 4 * b)); lia).
  assert (Mt : T mod 2 ^ 9 = 2 ^ 4 * b) by (symmetry; apply (Z.mod_unique_pos _ _ (s * 2 ^ 23 + a)); lia).
  assert (M3 : q mod 2 ^ 3 = b) by (symmetry; apply (Z.mod_unique_pos _ _ (2 ^ 2 * a)); lia).
  assert (M7 : T mod 2 ^ 7 = 2 ^ 4 * b) by (symmetry; apply (Z.mod_unique_pos _ _ (2 ^ 2 * (s * 2 ^ 23 + a))); lia).
  unfold q'. rewrite M3, M7, Dt. lia.
Qed.

(** The correction: [q] is too large by less than four. *)
Lemma correction s q rem h l B : 0 <= s < 2 ^ 31 -> 0 <= q < 2 ^ 31 -> 0 < rem -> 2 ^ 63 <= B < 2 ^ 64 -> B = (h * 2 ^ 28 + l) * 2 ^ 4 ->
  (q - 4) * B < rem * 2 ^ 31 -> rem * 2 ^ 31 < q * B ->
  let sigZ := (s <<w 32) +w (q <<w 4) in
  sticky 9 (s * 2 ^ 32 * B + rem * 2 ^ 35) B
    (if (sigZ &w 0x1FF) <? Z.shiftl 4 4 then
       let q := q &w u32 (Z.lnot 7) in
       let sigZ := sigZ &w not64 0x7F in
       let doubleTerm := u32 (Z.shiftl q 1) in
       let rem := ((rem -w (doubleTerm *w h)) <<w 28) -w (doubleTerm *w l) in
       if z2b (rem &w 0x8000000000000000) then sigZ -w Z.shiftl 1 7
       else if z2b rem then sigZ |w 1 else sigZ
     else sigZ).
Proof.
  intros Hs Hq Hr HB EB L U. cbv zeta. rewrite !shl64_small, add64_small by (lia || (unfold fits; lia)).
  set (T := s * 2 ^ 32 + q * 2 ^ 4). change 0x1FF with (Z.ones 9). rewrite mask_low by lia. change (Z.shiftl 4 4) with 64.
  set (N := s * 2 ^ 32 * B + rem * 2 ^ 35). assert (NT : N < T * B) by (unfold N, T; lia).
  assert (Nt : (T - 64) * B < N) by (unfold N, T; lia).
  pose proof (Z.div_mod T (2 ^ 9) ltac:(lia)) as ET. pose proof (Z.mod_pos_bound T (2 ^ 9) ltac:(lia)) as Tm.
  destruct (Z.ltb_spec (T mod 2 ^ 9) 64) as [Low|Hi].
  - change (Z.lnot 7) with (Z.lnot (Z.ones 3)). change (not64 0x7F) with (uw 64 (Z.lnot (Z.ones 7))).
    rewrite !clear_low by (lia || (unfold fits, T; lia)). set (q' := q - q mod 2 ^ 3).
    destruct (correct_digit s q (proj1 Hs) (proj1 Hq) Low) as (Q & K & K7). fold q' T in Q, K, K7. rewrite K7. set (t := T / 2 ^ 9) in *. clearbody t.
    rewrite Z.shiftl_mul_pow2, (uw_small 32 (q' * 2 ^ 1)) by (lia || (unfold fits; lia)). rewrite !remainder_word. set (V := rem * 2 ^ 28 - q' * 2 ^ 1 * (h * 2 ^ 28 + l)).
    assert (EV : N = t * 2 ^ 9 * B + 2 ^ 7 * V) by (unfold N, V; rewrite <- K, EB; lia).
    assert (BV : - (2 ^ 2 * B) < 2 ^ 3 * V < 2 ^ 2 * B).
    { assert (E3 : 2 ^ 3 * V = rem * 2 ^ 31 - q' * B) by (unfold V; rewrite EB; lia).
      assert (q' * B <= q * B) by (apply Z.mul_le_mono_nonneg_r; lia).
      assert ((q - 3) * B <= q' * B) by (apply Z.mul_le_mono_nonneg_r; lia). lia. }
    apply (corrected N B t V); lia.
  - apply (sticky_close T N B (T - 64)); try lia; intros c; destruct (Z.leb_spec T (c * 2 ^ 9)); lia.
Qed.

Lemma split_low B : 0 <= B -> B mod 2 ^ 4 = 0 -> B = (B / 2 ^ 32 * 2 ^ 28 + u32 B / 2 ^ 4) * 2 ^ 4.
Proof.
  intros HB H. unfold uw. pose proof (Z.div_mod B (2 ^ 32) ltac:(lia)) as E. set (h := B / 2 ^ 32) in *. set (l := B mod 2 ^ 32) in *.
  assert (L : l mod 2 ^ 4 = 0).
  { rewrite <- H. rewrite E. replace (2 ^ 32 * h + l) with (l + h * 2 ^ 28 * 2 ^ 4) by lia. symmetry. apply Z.mod_add. lia. }
  pose proof (Z.div_mod l (2 ^ 4) ltac:(lia)). lia.
Qed.

(** The first digit is below the quotient by less than five, the second,
    raised by four, above it by less than four. *)
Lemma div_sig_ok A B : 2 ^ 63 <= B < 2 ^ 64 -> B mod 2 ^ 4 = 0 -> 0 < A < B ->
  sticky 9 (A * 2 ^ 63) B (div_sig_f64 A B).
Proof.
  intros HB B16 HA. unfold div_sig_f64. rewrite !(Z.shiftr_div_pow2 B), (Z.shiftr_div_pow2 (u32 B)) by lia.
  pose proof (Z.div_mod B (2 ^ 32) ltac:(lia)) as EB. pose proof (Z.mod_pos_bound B (2 ^ 32) ltac:(lia)) as Bl.
  pose proof (split_low B ltac:(lia) B16) as EL.
  set (h := B / 2 ^ 32) in *. assert (Hh : 2 ^ 31 <= h < 2 ^ 32) by lia.
  pose proof (recip32_ok h Hh) as R. rewrite (uw_small 32 h) by (unfold fits; lia).
  set (r := u32 (softfloat_approxRecip32_1 h -w 2)) in *. clearbody r. pose proof (recip_pos _ _ R) as Rp.
  destruct (digit_word A r) as (-> & Bx & Bs); [unfold fits; lia|lia|]. rewrite (uw_small 32 (_ / _)) by exact Bs.
  pose proof (Z.div_mod A (2 ^ 32) ltac:(lia)) as EA. pose proof (Z.mod_pos_bound A (2 ^ 32) ltac:(lia)) as Al.
  pose proof (digit_below h r B (A / 2 ^ 32) A R ltac:(lia) ltac:(lia) ltac:(lia) ltac:(lia) ltac:(lia)) as S1.
  pose proof (digit_above h r B (A / 2 ^ 32) A 4 R ltac:(lia) ltac:(lia) ltac:(lia) ltac:(lia) ltac:(lia) ltac:(nia)) as S2.
  set (s := A / 2 ^ 32 * r / 2 ^ 32) in *. clearbody s.
  assert (s < 2 ^ 31) by nia. set (l := u32 B / 2 ^ 4) in *. clearbody l h.
  replace (u32 (Z.shiftl s 1)) with (s * 2 ^ 1) by (rewrite Z.shiftl_mul_pow2, uw_small by (lia || (unfold fits; lia)); reflexivity).
  rewrite (remainder_word A). set (rem := A * 2 ^ 28 - s * 2 ^ 1 * (h * 2 ^ 28 + l)).
  assert (Er : 2 ^ 3 * rem = A * 2 ^ 31 - s * B) by (unfold rem; rewrite EL; lia). clearbody rem.
  rewrite (uw_small 64 rem) by (unfold fits; lia).
  destruct (digit_word rem r) as (-> & Bx' & Bq); [unfold fits; lia|lia|].
  pose proof (Z.div_mod rem (2 ^ 32) ltac:(lia)) as ER. pose proof (Z.mod_pos_bound rem (2 ^ 32) ltac:(lia)) as Rl.
  pose proof (digit_below h r B (rem / 2 ^ 32) rem R ltac:(lia) ltac:(lia) ltac:(lia) ltac:(lia) ltac:(lia)) as Q1.
  assert (X3 : 2 ^ 63 + 3 * (rem / 2 ^ 32) * h <= 3 * 2 ^ 32 * h).
  { assert (rem / 2 ^ 32 * 8 <= 5 * 2 ^ 32) by lia. nia. }
  pose proof (digit_above h r B (rem / 2 ^ 32) rem 3 R ltac:(lia) ltac:(lia) ltac:(lia) ltac:(lia) ltac:(lia) X3) as Q2.
  set (q := rem / 2 ^ 32 * r / 2 ^ 32) in *. clearbody q. assert (q < 2 ^ 31 - 4) by nia.
  rewrite (add64_small q 4), (uw_small 32 (q + 4)) by (unfold fits; lia).
  replace (A * 2 ^ 63) with (s * 2 ^ 32 * B + rem * 2 ^ 35) by lia.
  apply (correction s (q + 4) rem h l B); lia.
Qed.

(** ** The quotient *)

Lemma quotient_f64 A B : 2 ^ 63 <= B < 2 ^ 64 -> B mod 2 ^ 4 = 0 -> 0 < A < B -> B <= 2 * A ->
  sticky 9 (A * 2 ^ 63) B (div_sig_f64 A B) /\ 2 ^ 62 <= div_sig_f64 A B < 2 ^ 63.
Proof.
  intros HB B16 HA Hl. pose proof (div_sig_ok A B HB B16 HA) as St. split; [exact St|].
  pose proof (St (2 ^ 53)) as Lo. pose proof (St (2 ^ 54)) as Hi.
  change (2 ^ 53 * 2 ^ 9) with (2 ^ 62) in Lo. change (2 ^ 54 * 2 ^ 9) with (2 ^ 63) in Hi. split.
  - apply Z.nlt_ge. intros C. apply Z.compare_gt_iff in C. rewrite <- Lo in C. apply Z.compare_gt_iff in C. lia.
  - apply Z.compare_gt_iff. rewrite <- Hi. apply Z.compare_gt_iff. lia.
Qed.

Lemma f64_div_finite s sa sb ma ea mb eb EA MA EB MB e : valid_mode (softfloat_roundingMode e) ->
  normal_form binary64 (Finite sa ma ea) sa EA MA -> normal_form binary64 (Finite sb mb eb) sb EB MB ->
  implements
    (let (expZ, sigA) := if MA <? MB then (EA - EB + 0x3FE - 1, MA <<w 11) else (EA - EB + 0x3FE, MA <<w 10) in
     softfloat_roundPackToF64 s expZ (div_sig_f64 sigA (MB <<w 11))) e
    (round binary64 (softfloat_roundingMode e) s ma mb (ea - eb)).
Proof.
  intros V (m1 & e1 & k1 & Q1 & P1 & K1 & M1 & -> & B1 & R1) (m2 & e2 & k2 & Q2 & P2 & K2 & M2 & -> & B2 & R2).
  injection Q1 as -> ->. injection Q2 as -> ->. cbn [prec binary64] in *. change (einf binary64) with 0x7FF in *.
  change (qmin binary64) with (-1074) in *.
  assert (Ref : forall sh x, 0 <= sh -> x = EA - EB - sh - 63 + 11 ->
    round binary64 (softfloat_roundingMode e) s m1 m2 (-1074 + (EA - 1) + k1 - (-1074 + (EB - 1) + k2))
    = round binary64 (softfloat_roundingMode e) s (MA * 2 ^ sh * 2 ^ 63) (MB * 2 ^ 11) x).
  { intros sh x Hsh ->. pose proof (pow2_pos k1 K1). pose proof (pow2_pos sh Hsh).
    rewrite (round_shl binary64 _ s m1 m2 _ (k1 + (sh + 63)) (EA - EB - sh - 63 - k2)) by (cbn; lia).
    rewrite !Z.pow_add_r, !Z.mul_assoc, <- M1 by lia.
    rewrite (round_den binary64 _ s _ m2 _ (k2 + 11) (EA - EB - sh - 63 + 11)) by (cbn; lia).
    rewrite Z.pow_add_r, Z.mul_assoc, <- M2 by lia. reflexivity. }
  assert (B16 : (MB * 2 ^ 11) mod 2 ^ 4 = 0) by (replace (MB * 2 ^ 11) with (MB * 2 ^ 7 * 2 ^ 4) by lia; apply Z.mod_mul; lia).
  rewrite (shl64_small MB) by (lia || (unfold fits; lia)).
  destruct (Z.ltb_spec MA MB); rewrite shl64_small by (lia || (unfold fits; lia)).
  - destruct (quotient_f64 (MA * 2 ^ 11) (MB * 2 ^ 11)) as [St B]; try lia.
    rewrite (Ref 11 (EA - EB - 63)) by lia. apply roundPackToF64_sticky; try assumption; lia.
  - destruct (quotient_f64 (MA * 2 ^ 10) (MB * 2 ^ 11)) as [St B]; try lia.
    rewrite (Ref 10 (EA - EB - 62)) by lia. apply roundPackToF64_sticky; try assumption; lia.
Qed.

(** [f64_div] is the correctly rounded quotient. *)
Lemma f64_div_correct a b e : fits 64 a -> fits 64 b -> valid_mode (softfloat_roundingMode e) ->
  implements (f64_div a b) e (div binary64 (softfloat_roundingMode e) a b).
Proof.
  intros Fa Fb V. pose proof (fun e => propagateNaN_f64_ok a b e) as NaN. unfold f64_div, div.
  rewrite !signF64_spec, !expF64_spec, !fracF64_spec by assumption. revert NaN.
  pose proof (expo64_range a). pose proof (expo64_range b). pose proof (frac64_range a). pose proof (frac64_range b).
  destruct (view64 a) as [| | |ma ea Ea Za Da], (view64 b) as [| | |mb eb Eb Zb Db]; change (einf binary64) with 0x7FF in *; cbn [is_snan]; intros NaN;
    settle; try first [apply NaN|apply ret_inf_f64|apply ret_zero_f64|apply invalid_f64_ok].
  - exact (implements_raise _ _ _ _ 0 (ret_inf_f64 _)).
  - edestruct norm_f64_form as (EB & SB & -> & NB); [| | |exact Db|]; try assumption.
    edestruct norm_f64_form as (EA & SA & -> & NA); [| | |exact Da|]; try assumption.
    exact (f64_div_finite _ _ _ _ _ _ _ _ _ _ _ e V NA NB).
Qed.
