(* ===== verification/SoftConvFacts.v ===== *)
(** * SoftConvFacts: conversions between the formats round correctly

    Narrowing rounds the significand, shortened to a sticky one; widening only
    shifts it. *)
From Stdlib Require Import ZArith Lia Bool List.
From stdpp Require Import base list.
From S2P Require Import Prelude SoftFloat SoftF32 SoftF64 SoftConv Ieee Sticky SoftFacts SoftFields SoftAdd SoftAdd32 SoftAdd64.
#[local] Open Scope Z_scope.
#[local] Open Scope word_scope.

(** ** Between the formats *)

(** Far below the least number only the sticky bit is left, whatever the
    significand. *)
Lemma round_pack_far F g mode s exp sig exp' sig' : 1 <= prec F -> 1 <= g -> 0 < sig < 2 ^ (prec F + g) -> 0 < sig' < 2 ^ (prec F + g) ->
  exp <= - (prec F + g) -> exp' <= - (prec F + g) -> round_pack F g mode s exp sig = round_pack F g mode s exp' sig'.
Proof.
  intros Hp Hg Hs Hs' He He'. unfold round_pack.
  assert (J : forall x k, 0 < x < 2 ^ (prec F + g) -> prec F + g <= k -> jam x k = 1).
  { intros x k Hx Hk. assert (2 ^ (prec F + g) <= 2 ^ k) by (apply Z.pow_le_mono_r; lia).
    unfold jam. rewrite Z.mod_small, Z.div_small by lia. now replace (x =? 0) with false by lia. }
  rewrite !J by lia. replace (exp <? 0) with true by lia. replace (exp' <? 0) with true by lia.
  replace (exp <? -1) with true by lia. now replace (exp' <? -1) with true by lia.
Qed.

Lemma jam_shift_add x k j : 0 <= k <= j -> fits j x -> jam (2 ^ j + x) k = Z.lor (jam x k) (2 ^ (j - k)).
Proof.
  intros Hk Hx. unfold jam. unfold fits in Hx. pose proof (pow2_pos k ltac:(lia)) as Pk. pose proof (pow2_pos (j - k) ltac:(lia)).
  assert (E : 2 ^ j = 2 ^ (j - k) * 2 ^ k) by (rewrite <- Z.pow_add_r by lia; f_equal; lia).
  rewrite E, Z.add_comm, Z.mod_add, Z.div_add by lia.
  assert (B : fits (j - k) (x / 2 ^ k)) by (split; [apply Z.div_pos; lia|apply Z.div_lt_upper_bound; lia]).
  destruct (_ =? 0); [rewrite lor_top by (lia || exact B); lia|].
  rewrite <- Z.lor_assoc, (Z.lor_comm 1), Z.lor_assoc, lor_top by (lia || exact B). f_equal. lia.
Qed.

(** The normalised double-precision significand, shortened. *)
Lemma narrow_f32 s E M e : valid_mode (softfloat_roundingMode e) -> 2 ^ 52 <= M < 2 ^ 53 -> - 2 ^ 30 <= E < 2 ^ 30 ->
  implements (softfloat_roundPackToF32 s (E - 0x381) (jam M 22)) e
    (round binary32 (softfloat_roundingMode e) s M 1 (qmin binary64 + E - 1)) /\
  round binary32 (softfloat_roundingMode e) s M 1 (qmin binary64 + E - 1) =
  round_pack binary32 7 (softfloat_roundingMode e) s (E - 0x381) (jam M 22).
Proof.
  intros V HM HE. pose proof (jam_range M 22 30 31 ltac:(lia) ltac:(lia) ltac:(lia) ltac:(lia)) as B.
  assert (St : sticky 6 M (2 ^ 22) (jam M 22)).
  { pose proof (sticky_jam 0 1 22 M 1 M ltac:(lia) ltac:(lia) ltac:(lia)) as St. rewrite !Z.mul_1_l in St.
    apply (sticky_weaken 1); [lia|]. apply St. intros c. rewrite Z.mul_1_r. reflexivity. }
  change (qmin binary64) with (-1074). rewrite (round_den binary32 _ s M 1 _ 22 (E - 1053)), Z.mul_1_l by (cbn; lia).
  split; [apply roundPackToF32_sticky; try assumption; lia|].
  replace (E - 1053) with (E - 0x381 + qmin binary32 - 7) by (change (qmin binary32) with (-149); lia).
  apply (round_from_sticky binary32); try assumption; cbn; lia.
Qed.

(** The reference value of a normal form. *)
Lemma round_normal F G mode s m x E M : 1 < emax G -> normal_form F (Finite s m x) s E M ->
  round G mode s m 1 x = round G mode s M 1 (qmin F + E - 1).
Proof.
  intros He (m' & e' & k & Q & Pm & Hk & -> & -> & _ & _). injection Q as -> ->.
  apply (round_shl G mode s m' 1 (qmin F + (E - 1) + k) k); try assumption; lia.
Qed.

Lemma jam_0 x k : 0 <= k -> 0 <= x -> (jam x k =? 0) = (x =? 0).
Proof.
  intros Hk Hx. unfold jam. rewrite lor_1. pose proof (pow2_pos k Hk). pose proof (Z.div_mod x (2 ^ k) ltac:(lia)).
  pose proof (Z.mod_pos_bound x (2 ^ k) ltac:(lia)). assert (0 <= x / 2 ^ k) by (apply Z.div_pos; lia).
  destruct (Z.eqb_spec (x mod 2 ^ k) 0); [|destruct (Z.odd _) eqn:O].
  - destruct (Z.eqb_spec (x / 2 ^ k) 0) as [Z0|], (Z.eqb_spec x 0); nia || reflexivity.
  - replace (x / 2 ^ k =? 0) with false; [lia|]. symmetry. apply Z.eqb_neq. intros Z0. now rewrite Z0 in O.
  - lia.
Qed.

Lemma jam_fits x k n : 0 <= k -> 1 <= n -> fits (n + k) x -> fits n (jam x k).
Proof.
  intros Hk Hn [L U]. pose proof (pow2_pos k Hk). rewrite Z.pow_add_r in U by lia.
  assert (B : fits n (x / 2 ^ k)) by (split; [apply Z.div_pos; lia|apply Z.div_lt_upper_bound; lia]).
  unfold jam. destruct (_ =? 0); [exact B|]. apply lor_fits; [lia|exact B|].
  assert (2 ^ 1 <= 2 ^ n) by (apply Z.pow_le_mono_r; lia). unfold fits. lia.
Qed.

(** [f64_to_f32] rounds to the narrower format. *)
Lemma f64_to_f32_correct a e : fits 64 a -> valid_mode (softfloat_roundingMode e) ->
  implements (f64_to_f32 a) e (convert binary64 binary32 (softfloat_roundingMode e) a).
Proof.
  intros Ha V. unfold f64_to_f32, convert. rewrite signF64_spec, expF64_spec, fracF64_spec by assumption.
  pose proof (expo64_range a). pose proof (frac64_range a) as Rf.
  assert (Snan : expo binary64 a = 0x7FF -> 0 < frac binary64 a -> is_snan (decode binary64 a) = negb (z2b (a &w 0x0008000000000000))).
  { intros Ea Fa. rewrite is_snan_fields. change 0x0008000000000000 with (2 ^ 51). rewrite z2b_land_pow2 by lia.
    rewrite Ea. replace (frac binary64 a =? 0) with false by lia. now rewrite andb_true_r. }
  rewrite shortShiftRightJam64_jam by (lia || (unfold fits; lia)). revert Snan.
  destruct (view64 a) as [q Ea Fa|Ea Fa|Ea Fa|m x Ea Za Da]; change (einf binary64) with 0x7FF in *; cbn [is_snan]; intros Snan.
  - settle. rewrite Snan by assumption. unfold nan_result. rewrite orb_false_r.
    eapply implements_eq; [apply implements_raise_if; intros e'; apply implements_ret|]. now destruct (negb _).
  - settle. apply ret_inf_f32.
  - rewrite Ea, Fa. cbn -[packToF32UI]. apply ret_zero_f32.
  - replace (expo binary64 a =? 0x7FF) with false by lia. rewrite lor_eq_0, jam_0 by lia.
    replace ((expo binary64 a =? 0) && (frac binary64 a =? 0)) with false by lia.
    destruct (norm binary64 (expo binary64 a) (frac binary64 a)) as [E S] eqn:N.
    assert (Nf : normal_form binary64 (Finite (sign binary64 a) m x) (sign binary64 a) E (Z.lor S (2 ^ 52))).
    { rewrite <- Da. apply (norm_form binary64); try assumption; cbn; lia. }
    rewrite (round_normal binary64 binary32 _ _ _ _ E (Z.lor S (2 ^ 52))) by (assumption || (cbn; lia)).
    pose proof Nf as (_ & _ & _ & _ & _ & _ & _ & _ & Bm & Be). cbn [prec binary64] in Bm, Be. change (einf binary64) with 0x7FF in Be.
    destruct (narrow_f32 (sign binary64 a) E (Z.lor S (2 ^ 52)) e V Bm ltac:(lia)) as [Ok Eq].
    destruct (Z.eqb_spec (expo binary64 a) 0) as [E0|N0].
    + assert (E <= 1).
      { unfold norm in N. rewrite E0 in N. cbn [Z.eqb prec binary64] in N. injection N as <- _.
        assert (Z.log2 (frac binary64 a) < 52) by (apply Z.log2_lt_pow2; lia). lia. }
      rewrite Eq. pose proof (jam_range (Z.lor S (2 ^ 52)) 22 30 31 ltac:(lia) ltac:(lia) ltac:(lia) ltac:(lia)).
      pose proof (jam_fits (frac binary64 a) 22 30 ltac:(lia) ltac:(lia) Rf) as Fj. unfold fits in Fj.
      change 0x40000000 with (2 ^ 30). rewrite lor_top by (lia || exact Fj).
      rewrite (round_pack_far binary32 7 _ _ (E - 0x381) _ (expo binary64 a - 0x381) (2 ^ 30 + jam (frac binary64 a) 22)) by (cbn; lia).
      apply roundPackToF32_ok; try assumption; lia.
    + unfold norm in N. replace (expo binary64 a =? 0) with false in N by lia. injection N as <- <-.
      rewrite lor_top in Ok by (lia || exact Rf). rewrite (jam_shift_add _ 22 52) in Ok by (lia || exact Rf).
      change 0x40000000 with (2 ^ (52 - 22)). rewrite (lor_top (frac binary64 a) 52) by (lia || exact Rf). exact Ok.
Qed.

(** The normalised single-precision significand, lengthened: nothing is lost. *)
Lemma widen_f64 mode s E M : 2 ^ 23 <= M < 2 ^ 24 -> -23 < E < 0xFF ->
  round binary64 mode s M 1 (qmin binary32 + E - 1) = (sign_bits binary64 s + (E + 895) * 2 ^ 52 + M * 2 ^ 29, 0).
Proof.
  intros B HE. change (qmin binary32) with (-149). rewrite (round_shl binary64 _ _ M 1 _ 29 (E + 896 - 1075)) by (cbn; lia).
  rewrite round64_exact by lia. f_equal. lia.
Qed.

Lemma norm_f32_sub fr : 0 < fr < 2 ^ 23 ->
  softfloat_normSubnormalF32Sig fr = (1 - (24 - 1 - Z.log2 fr), fr * 2 ^ (24 - 1 - Z.log2 fr)).
Proof. intros H. exact (norm_f32_spec 0 fr ltac:(lia) ltac:(lia)). Qed.

(** [f32_to_f64] is exact. *)
Lemma f32_to_f64_correct a e : fits 32 a -> implements (f32_to_f64 a) e (convert binary32 binary64 (softfloat_roundingMode e) a).
Proof.
  intros Ha. unfold f32_to_f64, convert. rewrite signF32_spec, expF32_spec, fracF32_spec by assumption.
  pose proof (expo32_range a). pose proof (frac32_range a) as Rf.
  assert (Snan : expo binary32 a = 0xFF -> 0 < frac binary32 a -> is_snan (decode binary32 a) = negb (z2b (a &w 0x00400000))).
  { intros Ea Fa. rewrite is_snan_fields. change 0x00400000 with (2 ^ 22). rewrite z2b_land_pow2 by lia.
    rewrite Ea. replace (frac binary32 a =? 0) with false by lia. now rewrite andb_true_r. }
  revert Snan.
  destruct (view32 a) as [q Ea Fa|Ea Fa|Ea Fa|m x Ea Za Da]; change (einf binary32) with 0xFF in *; cbn [is_snan]; intros Snan.
  - settle. rewrite Snan by assumption. unfold nan_result. rewrite orb_false_r.
    eapply implements_eq; [apply implements_raise_if; intros e'; apply implements_ret|]. now destruct (negb _).
  - settle. apply ret_inf_f64.
  - settle. apply ret_zero_f64.
  - replace (expo binary32 a =? 0xFF) with false by lia. replace ((expo binary32 a =? 0) && (frac binary32 a =? 0)) with false by lia.
    destruct (norm_f32_form (sign binary32 a) (expo binary32 a) (frac binary32 a) m x Ea Za Rf Da) as (E & S & N & Nf).
    change 0x00800000 with (2 ^ 23) in Nf.
    rewrite (round_normal binary32 binary64 _ _ _ _ E (Z.lor S (2 ^ 23))) by (assumption || (cbn; lia)).
    pose proof Nf as (_ & _ & _ & _ & _ & _ & _ & _ & Bm & Be). cbn [prec binary32] in Bm, Be. change (einf binary32) with 0xFF in Be.
    rewrite (widen_f64 _ _ E (Z.lor S (2 ^ 23))) by (lia || exact Bm).
    unfold norm_f32 in N. destruct (Z.eqb_spec (expo binary32 a) 0) as [E0|N0].
    + assert (B : 2 ^ 23 <= S < 2 ^ 24).
      { specialize (Za E0). rewrite norm_f32_sub in N by lia. destruct (normalise (frac binary32 a) 24 ltac:(lia) ltac:(lia)) as [_ B].
        injection N as _ <-. exact B. }
      rewrite lor_top_id, N, shl64_small, ret_f64_packed, packed64_small by (lia || (unfold fits; lia)).
      replace (E - 1 + 0x380) with (E + 895) by lia. apply implements_ret.
    + injection N as <- <-. rewrite lor_top, shl64_small, ret_f64_packed, packed64_small by (lia || (unfold fits; lia)).
      replace (_ + (expo binary32 a + 895) * 2 ^ 52 + _) with
        (sign_bits binary64 (sign binary32 a) + (expo binary32 a + 0x380) * 2 ^ 52 + frac binary32 a * 2 ^ 29) by lia.
      apply implements_ret.
Qed.
