(* ===== verification/SoftIntFacts.v ===== *)
(** * SoftIntFacts: conversions from integers round correctly

    Each conversion of an integer of 32 or 64 bits, signed or not, to one of
    the two formats returns the integer, rounded once; those that the source
    packs without rounding are exact. *)
From Stdlib Require Import ZArith Lia Bool List.
From stdpp Require Import base list.
From S2P Require Import Prelude Arith SoftFloat SoftF32 SoftF64 SoftConv Ieee Sticky SoftFacts SoftFields SoftAdd SoftAdd32 SoftAdd64.
#[local] Open Scope Z_scope.
#[local] Open Scope word_scope.

(** ** The pieces the conversions share *)

(** The magnitude the code converts. *)
Lemma magnitude64_u a : - 2 ^ 63 <= a < 2 ^ 64 -> (if a <? 0 then neg64 (u64 a) else u64 a) = Z.abs a.
Proof.
  intros H. destruct (Z.ltb_spec a 0); [|rewrite uw_small by (unfold fits; lia); lia].
  unfold neg64. replace (- u64 a) with (0 - u64 a) by lia. rewrite uw_sub_r, uw_small by (unfold fits; lia). lia.
Qed.

(** The magnitude is 0, or just the bit below the sign. *)
Lemma low_bits_0 w a : 0 < w -> - 2 ^ (w - 1) <= a < 2 ^ (w - 1) ->
  ((a &w Z.ones (w - 1)) =? 0) = (a =? 0) || (a =? - 2 ^ (w - 1)).
Proof.
  intros Hw H. rewrite mask_low by lia. pose proof (pow2_pos (w - 1) ltac:(lia)).
  destruct (Z.ltb_spec a 0).
  - rewrite <- (Z.mod_add a 1) by lia. rewrite Z.mod_small by lia. destruct (Z.eqb_spec a 0), (Z.eqb_spec a (- 2 ^ (w - 1))); lia.
  - rewrite Z.mod_small by lia. destruct (Z.eqb_spec a 0), (Z.eqb_spec a (- 2 ^ (w - 1))); lia.
Qed.

(** The top bit, and a shift by one that keeps the bit lost. *)
Lemma top_bit w a : 0 < w -> 0 <= a < 2 ^ w -> Z.testbit a (w - 1) = (2 ^ (w - 1) <=? a).
Proof. intros Hw H. rewrite uw_top_bit, uw_small by (assumption || exact H). symmetry. apply Z.leb_antisym. Qed.

Lemma jam_1 a : 0 <= a -> (a >>w 1) |w (a &w 1) = jam a 1.
Proof.
  intros H. unfold jam. rewrite Z.shiftr_div_pow2 by lia. change 1 with (Z.ones 1) at 2. rewrite mask_low by lia.
  pose proof (Z.mod_pos_bound a (2 ^ 1) ltac:(lia)). destruct (Z.eqb_spec (a mod 2 ^ 1) 0) as [->|]; [apply Z.lor_0_r|].
  replace (a mod 2 ^ 1) with 1 by (change (2 ^ 1) with 2 in *; lia). reflexivity.
Qed.

(** A significand too wide by [j] bits, jammed. *)
Lemma jam_wide k n a j : 1 <= k < n -> 0 <= j -> 2 ^ (n + j) <= a < 2 ^ (n + 1 + j) ->
  2 ^ n <= jam a j < 2 ^ (n + 1) /\ sticky k a (2 ^ j) (jam a j).
Proof.
  intros Hk Hj H. split; [apply jam_range; lia || assumption|].
  pose proof (sticky_jam 0 k j a 1 a Hj ltac:(lia) ltac:(lia)) as St. rewrite Z.mul_1_l in St. apply St.
  intros c. rewrite Z.mul_1_r. reflexivity.
Qed.

(** ** To single precision *)

Lemma normRound32 s sig e : valid_mode (softfloat_roundingMode e) -> 0 < sig < 2 ^ 31 ->
  implements (softfloat_normRoundPackToF32 s 0x9C sig) e (round binary32 (softfloat_roundingMode e) s sig 1 0).
Proof.
  intros V H. destruct (normalise sig 31 H ltac:(lia)) as [Kr Kb].
  change (31 - 1) with 30 in *. pose proof (pow2_pos (30 - Z.log2 sig) ltac:(lia)).
  eapply implements_eq; [apply normRoundPackToF32_ok; lia || assumption|]. cbv zeta.
  rewrite (round_shl binary32 _ _ sig 1 0 (30 - Z.log2 sig) (0x9C - (30 - Z.log2 sig) + qmin binary32 - 7))
    by (change (qmin binary32) with (-149); cbn; lia).
  symmetry. apply (round_from_sticky binary32); try (cbn; lia).
  intros c. now rewrite Z.mul_1_r.
Qed.

(** A magnitude that fits the significand once it is shifted. *)
Lemma exact32 mode s a sh : 0 <= sh <= 23 -> 2 ^ 23 <= a * 2 ^ sh < 2 ^ 24 ->
  round binary32 mode s a 1 0 = (sign_bits binary32 s + (0x95 - sh) * 2 ^ 23 + a * 2 ^ sh, 0).
Proof.
  intros Hs B. pose proof (pow2_pos sh ltac:(lia)). rewrite (round_shl binary32 _ _ a 1 0 sh (150 - sh - 150)) by (cbn; lia || nia).
  rewrite round32_exact by lia. f_equal. lia.
Qed.

Lemma pow32_exact mode s n : 23 <= n <= 63 ->
  round binary32 mode s (2 ^ n) 1 0 = (sign_bits binary32 s + (n + 127) * 2 ^ 23, 0).
Proof.
  intros Hn. replace (2 ^ n) with (2 ^ 23 * 2 ^ (n - 23)) by (rewrite <- Z.pow_add_r by lia; f_equal; lia).
  rewrite <- (round_shl binary32 _ _ (2 ^ 23) 1 (n + 127 - 150)) by (cbn; lia). rewrite round32_exact by lia. f_equal. lia.
Qed.

Lemma abs64_to_f32_ok s a e : valid_mode (softfloat_roundingMode e) -> 0 < a < 2 ^ 64 ->
  implements (abs64_to_f32 s a) e (round binary32 (softfloat_roundingMode e) s a 1 0).
Proof.
  intros V H. unfold abs64_to_f32. rewrite clz64_log2 by assumption. pose proof (Z.log2_spec a ltac:(lia)) as [L1 L2].
  pose proof (Z.log2_nonneg a). assert (Z.log2 a < 64) by (apply Z.log2_lt_pow2; lia).
  replace (63 - Z.log2 a - 40) with (23 - Z.log2 a) by lia. replace (a =? 0) with false by lia.
  assert (Up : forall n, n = 23 \/ n = 30 -> Z.log2 a <= n ->
    2 ^ n <= a * 2 ^ (n - Z.log2 a) < 2 ^ (n + 1)).
  { intros n Hn L. destruct (normalise a (n + 1) ltac:(split; [lia|]; apply Z.log2_lt_pow2; lia) ltac:(lia)) as [_ B].
    replace (n + 1 - 1) with n in B by lia. exact B. }
  destruct (Z.leb_spec 0 (23 - Z.log2 a)) as [S|S].
  - specialize (Up 23 ltac:(lia) ltac:(lia)). change (23 + 1) with 24 in Up. rewrite (exact32 _ _ _ (23 - Z.log2 a)) by lia.
    rewrite shl64_small, ret_f32_packed, packed32_small by (lia || (unfold fits; lia)). apply implements_ret.
  - destruct (Z.ltb_spec (23 - Z.log2 a + 7) 0).
    + rewrite shortShiftRightJam64_jam by (lia || (unfold fits; lia)).
      destruct (jam_wide 6 30 a (- (23 - Z.log2 a + 7)) ltac:(lia) ltac:(lia)) as [B St].
      { replace (30 + - (23 - Z.log2 a + 7)) with (Z.log2 a) by lia. replace (30 + 1 + - (23 - Z.log2 a + 7)) with (Z.succ (Z.log2 a)) by lia. lia. }
      rewrite (round_den binary32 _ _ a 1 0 (- (23 - Z.log2 a + 7)) (- (23 - Z.log2 a + 7))) by (cbn; lia).
      rewrite Z.mul_1_l. apply roundPackToF32_sticky; try assumption; try lia.
    + specialize (Up 30 ltac:(lia) ltac:(lia)). change (30 + 1) with 31 in Up.
      replace (23 - Z.log2 a + 7) with (30 - Z.log2 a) by lia. pose proof (pow2_pos (30 - Z.log2 a) ltac:(lia)).
      rewrite shl64_small by (lia || (unfold fits; lia)).
      rewrite (round_shl binary32 _ _ a 1 0 (30 - Z.log2 a) (- (30 - Z.log2 a))) by (cbn; lia).
      apply roundPackToF32_sticky; try assumption; try lia. intros c. now rewrite Z.mul_1_r.
Qed.

Lemma ui32_to_f32_correct a e : valid_mode (softfloat_roundingMode e) -> fits 32 a ->
  implements (ui32_to_f32 a) e (of_int binary32 (softfloat_roundingMode e) a).
Proof.
  intros V H. unfold fits in H. unfold ui32_to_f32, of_int. destruct (Z.eqb_spec a 0) as [->|N]; [apply implements_ret|].
  replace (a <? 0) with false by lia. rewrite Z.abs_eq by lia.
  change 0x80000000 with (2 ^ 31). rewrite z2b_land_pow2, (top_bit 32) by lia. change (32 - 1) with 31.
  destruct (Z.leb_spec (2 ^ 31) a); [|apply normRound32; lia || assumption].
  rewrite jam_1 by lia. destruct (jam_wide 6 30 a 1 ltac:(lia) ltac:(lia) ltac:(lia)) as [B St].
  rewrite (round_den binary32 _ _ a 1 0 1 1), Z.mul_1_l by (cbn; lia). now apply roundPackToF32_sticky; try lia.
Qed.

Lemma i32_to_f32_correct a e : valid_mode (softfloat_roundingMode e) -> - 2 ^ 31 <= a < 2 ^ 31 ->
  implements (i32_to_f32 a) e (of_int binary32 (softfloat_roundingMode e) a).
Proof.
  intros V H. unfold i32_to_f32, of_int. change 0x7FFFFFFF with (Z.ones (32 - 1)). rewrite low_bits_0, magnitude64_u by lia.
  destruct (Z.eqb_spec a 0) as [->|N]; [apply implements_ret|]. destruct (Z.eqb_spec a (- 2 ^ (32 - 1))) as [->|N']; cbn [orb].
  - change (Z.abs (- 2 ^ (32 - 1))) with (2 ^ 31). rewrite pow32_exact by lia. apply implements_ret.
  - apply normRound32; lia || assumption.
Qed.

Lemma ui64_to_f32_correct a e : valid_mode (softfloat_roundingMode e) -> fits 64 a ->
  implements (ui64_to_f32 a) e (of_int binary32 (softfloat_roundingMode e) a).
Proof.
  intros V H. unfold fits in H. unfold ui64_to_f32, of_int. destruct (Z.eqb_spec a 0) as [->|N]; [apply implements_ret|].
  replace (a <? 0) with false by lia. rewrite Z.abs_eq by lia. apply abs64_to_f32_ok; lia || assumption.
Qed.

Lemma i64_to_f32_correct a e : valid_mode (softfloat_roundingMode e) -> - 2 ^ 63 <= a < 2 ^ 63 ->
  implements (i64_to_f32 a) e (of_int binary32 (softfloat_roundingMode e) a).
Proof.
  intros V H. unfold i64_to_f32, of_int. rewrite magnitude64_u by lia. destruct (Z.eqb_spec a 0) as [->|N]; [apply implements_ret|].
  apply abs64_to_f32_ok; lia || assumption.
Qed.

(** ** To double precision *)

Lemma normRound64 s sig e : valid_mode (softfloat_roundingMode e) -> 0 < sig < 2 ^ 63 ->
  implements (softfloat_normRoundPackToF64 s 0x43C sig) e (round binary64 (softfloat_roundingMode e) s sig 1 0).
Proof.
  intros V H. destruct (normalise sig 63 H ltac:(lia)) as [Kr Kb].
  change (63 - 1) with 62 in *. pose proof (pow2_pos (62 - Z.log2 sig) ltac:(lia)).
  eapply implements_eq; [apply normRoundPackToF64_ok; lia || assumption|]. cbv zeta.
  rewrite (round_shl binary64 _ _ sig 1 0 (62 - Z.log2 sig) (0x43C - (62 - Z.log2 sig) + qmin binary64 - 10))
    by (change (qmin binary64) with (-1074); cbn; lia).
  symmetry. apply (round_from_sticky binary64); try (cbn; lia).
  intros c. now rewrite Z.mul_1_r.
Qed.

Lemma exact64 mode s a sh : 0 <= sh <= 52 -> 2 ^ 52 <= a * 2 ^ sh < 2 ^ 53 ->
  round binary64 mode s a 1 0 = (sign_bits binary64 s + (0x432 - sh) * 2 ^ 52 + a * 2 ^ sh, 0).
Proof.
  intros Hs B. pose proof (pow2_pos sh ltac:(lia)). rewrite (round_shl binary64 _ _ a 1 0 sh (1075 - sh - 1075)) by (cbn; lia || nia).
  rewrite round64_exact by lia. f_equal. lia.
Qed.

Lemma abs32_to_f64_ok s a e : 0 < a < 2 ^ 32 ->
  implements (ret_f64 (abs32_to_f64 s a)) e (round binary64 (softfloat_roundingMode e) s a 1 0).
Proof.
  intros H. unfold abs32_to_f64. rewrite (uw_small 32 a) by (unfold fits; lia). rewrite clz32_log2 by assumption.
  pose proof (Z.log2_nonneg a). assert (Z.log2 a < 32) by (apply Z.log2_lt_pow2; lia).
  destruct (normalise a 53 ltac:(lia) ltac:(lia)) as [_ B]. change (53 - 1) with 52 in B.
  replace (31 - Z.log2 a + 21) with (52 - Z.log2 a) by lia. rewrite (exact64 _ _ _ (52 - Z.log2 a)) by lia.
  rewrite shl64_small, ret_f64_packed, packed64_small by (lia || (unfold fits; lia)). apply implements_ret.
Qed.

Lemma ui32_to_f64_correct a e : fits 32 a ->
  implements (ui32_to_f64 a) e (of_int binary64 (softfloat_roundingMode e) a).
Proof.
  intros H. unfold fits in H. unfold ui32_to_f64, of_int. destruct (Z.eqb_spec a 0) as [->|N]; [apply implements_ret|].
  replace (a <? 0) with false by lia. rewrite Z.abs_eq by lia. apply abs32_to_f64_ok; lia.
Qed.

Lemma i32_to_f64_correct a e : - 2 ^ 31 <= a < 2 ^ 31 ->
  implements (i32_to_f64 a) e (of_int binary64 (softfloat_roundingMode e) a).
Proof.
  intros H. unfold i32_to_f64, of_int. rewrite magnitude64_u by lia. destruct (Z.eqb_spec a 0) as [->|N]; [apply implements_ret|].
  apply abs32_to_f64_ok; lia.
Qed.

Lemma ui64_to_f64_correct a e : valid_mode (softfloat_roundingMode e) -> fits 64 a ->
  implements (ui64_to_f64 a) e (of_int binary64 (softfloat_roundingMode e) a).
Proof.
  intros V H. unfold fits in H. unfold ui64_to_f64, of_int. destruct (Z.eqb_spec a 0) as [->|N]; [apply implements_ret|].
  replace (a <? 0) with false by lia. rewrite Z.abs_eq by lia.
  change 0x8000000000000000 with (2 ^ 63). rewrite z2b_land_pow2, (top_bit 64) by lia. change (64 - 1) with 63.
  destruct (Z.leb_spec (2 ^ 63) a); [|apply normRound64; lia || assumption].
  rewrite shortShiftRightJam64_jam by (lia || (unfold fits; lia)). destruct (jam_wide 9 62 a 1 ltac:(lia) ltac:(lia) ltac:(lia)) as [B St].
  rewrite (round_den binary64 _ _ a 1 0 1 1), Z.mul_1_l by (cbn; lia). now apply roundPackToF64_sticky; try lia.
Qed.

Lemma i64_to_f64_correct a e : valid_mode (softfloat_roundingMode e) -> - 2 ^ 63 <= a < 2 ^ 63 ->
  implements (i64_to_f64 a) e (of_int binary64 (softfloat_roundingMode e) a).
Proof.
  intros V H. unfold i64_to_f64, of_int. change 0x7FFFFFFFFFFFFFFF with (Z.ones (64 - 1)). rewrite low_bits_0, magnitude64_u by lia.
  destruct (Z.eqb_spec a 0) as [->|N]; [apply implements_ret|]. destruct (Z.eqb_spec a (- 2 ^ (64 - 1))) as [->|N']; cbn [orb].
  - change (Z.abs (- 2 ^ (64 - 1))) with (2 ^ 63 * 1). rewrite <- (Z.mul_1_l (2 ^ 63)).
    replace (1 * 2 ^ 63 * 1) with (2 ^ 52 * 2 ^ 11) by reflexivity.
    rewrite <- (round_shl binary64 _ _ (2 ^ 52) 1 (1086 - 1075)) by (cbn; lia). rewrite round64_exact by lia. apply implements_ret.
  - apply normRound64; lia || assumption.
Qed.
