(* ===== verification/SoftToInt.v ===== *)
(** * SoftToInt: conversions to integers round correctly and saturate

    The roundings [softfloat_roundTo*] against the reference: a fixed-point
    significand is rounded to an integer, an integer out of range is replaced
    by the nearest end of the range and the operation is invalid.  The modes
    are those of instructions, 0 to 4. *)
From Stdlib Require Import ZArith Lia Bool List.
From stdpp Require Import base list.
From S2P Require Import Prelude Arith SoftFloat SoftF32 SoftF64 SoftConv Ieee Sticky SoftFacts SoftFields SoftAdd SoftIntFacts.
#[local] Open Scope Z_scope.
#[local] Open Scope word_scope.
#[local] Open Scope sf_scope.

(** An integer of sign [s] and magnitude [i], in the range from [lo] to [hi]. *)
Definition saturate (lo hi : Z) (s : bool) (r : Z * bool) : Z * Z :=
  let z := signed s r.1 in
  if (lo <=? z) && (z <=? hi) then (z, if r.2 then softfloat_flag_inexact else 0)
  else (if s then lo else hi, softfloat_flag_invalid).

Lemma to_int_finite F lo hi mode a s m e : decode F a = Finite s m e ->
  to_int F lo hi mode a = saturate lo hi s (rounded mode s (scale m 1 e).1 (scale m 1 e).2).
Proof. intros E. unfold to_int, saturate. rewrite E. destruct (scale m 1 e). cbn [fst snd]. now destruct (rounded _ _ _ _). Qed.

Lemma saturate_out lo hi (s : bool) (r : Z * bool) : (if s then - r.1 < lo else hi < r.1) -> saturate lo hi s r = (if s then lo else hi, softfloat_flag_invalid).
Proof.
  intros H. unfold saturate, signed. destruct s.
  - replace (lo <=? - r.1) with false by lia. reflexivity.
  - replace (r.1 <=? hi) with false by lia. now rewrite andb_false_r.
Qed.

Lemma implements_invalid {A} (z : A) e : implements (softfloat_raiseFlags softfloat_flag_invalid ;; sf_ret z) e (z, softfloat_flag_invalid).
Proof. rewrite <- (Z.lor_0_r softfloat_flag_invalid) at 2. apply implements_raise. intros. apply implements_ret. Qed.

Lemma implements_inexact {A} c (z : A) e :
  implements (raise_if c softfloat_flag_inexact ;; sf_ret z) e (z, if c then softfloat_flag_inexact else 0).
Proof. rewrite <- (Z.lor_0_r (if c then _ else _)). apply implements_raise_if. intros. apply implements_ret. Qed.

Lemma land_lnot_bool m (b : bool) : Z.land m (Z.lnot (b2z b)) = m - (if b then m mod 2 else 0).
Proof. destruct b; [apply mask_bit0|]. rewrite land_lnot_0. lia. Qed.

(** ** To 32 bits: twelve bits of fraction *)

(** What both roundings compute: the rounded magnitude, or its overflow. *)
Lemma round32_magnitude s sig mode : 0 <= mode <= 4 -> 0 <= sig < 2 ^ 63 ->
  let r := rounded mode s sig (2 ^ 12) in
  let x := sig +w roundIncrement32 mode s in
  z2b (x &w 0xFFFFF00000000000) = (2 ^ 32 <=? r.1) /\
  (x >>w 12) &w not64 (b2z (negb (z2b ((sig &w 0xFFF) ^w 0x800)) && (mode =? softfloat_round_near_even))) = r.1 /\
  z2b (sig &w 0xFFF) = r.2 /\ 0 <= r.1.
Proof.
  intros V Hs r x. pose proof (increment_range 12 mode s ltac:(lia)) as Ir.
  assert (X : x = sig + increment 12 mode s).
  { unfold x. change (roundIncrement32 mode s) with (increment 12 mode s). apply add64_small. unfold fits. lia. }
  assert (R : r.1 = Z.land ((sig + increment 12 mode s) / 2 ^ 12) (Z.lnot (b2z ((sig mod 2 ^ 12 =? 2 ^ 11) && (mode =? softfloat_round_near_even))))).
  { unfold r. rewrite <- incremented_rounded by (unfold valid_mode; lia). unfold incremented.
    replace (mode =? softfloat_round_odd) with false by (unfold softfloat_round_odd; lia). now rewrite andb_false_r. }
  assert (B : 0 <= (sig + increment 12 mode s) / 2 ^ 12 < 2 ^ 52) by (split; [apply Z.div_pos; lia|apply Z.div_lt_upper_bound; lia]).
  change 0xFFF with (Z.ones 12). rewrite xor_z2b, mask_low, X by lia. change 0x800 with (2 ^ 11).
  split; [|split; [|split]].
  - change 0xFFFFF00000000000 with (Z.ones 20 * 2 ^ 44). rewrite mask_field by lia.
    rewrite R, land_lnot_bool. set (m := (sig + increment 12 mode s) / 2 ^ 12) in *.
    assert (E : (sig + increment 12 mode s) / 2 ^ 44 = m / 2 ^ 32) by (unfold m; rewrite Z.div_div by lia; reflexivity).
    rewrite E, Z.mod_small by (split; [apply Z.div_pos; lia|apply Z.div_lt_upper_bound; lia]).
    pose proof (Z.div_mod m (2 ^ 32) ltac:(lia)). pose proof (Z.mod_pos_bound m (2 ^ 32) ltac:(lia)).
    pose proof (Z.mod_pos_bound m 2 ltac:(lia)). pose proof (Z.div_mod m 2 ltac:(lia)).
    unfold z2b. destruct (_ && _), (Z.eqb_spec (m / 2 ^ 32 * 2 ^ 44) 0); cbn [negb]; lia.
  - rewrite Z.shiftr_div_pow2, land_not64 by (lia || (unfold fits; lia)). symmetry. exact R.
  - unfold r. now rewrite rounded_inexact.
  - rewrite R, land_lnot_bool. clear R r. set (m := (sig + increment 12 mode s) / 2 ^ 12) in *. clearbody m.
    pose proof (Z.mod_le m 2 (proj1 B) eq_refl). destruct (_ && _); lia.
Qed.

Lemma roundToUI32_ok s sig mode e : 0 <= mode <= 4 -> 0 <= sig < 2 ^ 63 ->
  implements (softfloat_roundToUI32 s sig mode true) e (saturate 0 (2 ^ 32 - 1) s (rounded mode s sig (2 ^ 12))).
Proof.
  intros V Hs. destruct (round32_magnitude s sig mode V Hs) as (O & M & I & P). cbv zeta in *.
  unfold softfloat_roundToUI32. rewrite O, M, I. set (r := rounded mode s sig (2 ^ 12)) in *. cbn [andb].
  change (if s then ui32_fromNegOverflow else ui32_fromPosOverflow) with (if s then 0 else 2 ^ 32 - 1).
  destruct (Z.leb_spec (2 ^ 32) r.1) as [L|L].
  - rewrite saturate_out by (destruct s; lia). apply implements_invalid.
  - unfold z2b. destruct s; cbn [andb].
    + destruct (Z.eqb_spec r.1 0) as [Z0|N]; cbn [negb].
      * eapply implements_eq; [apply implements_inexact|]. unfold saturate, signed. now rewrite Z0.
      * rewrite saturate_out by lia. apply implements_invalid.
    + eapply implements_eq; [apply implements_inexact|]. unfold saturate, signed.
      now replace ((0 <=? r.1) && (r.1 <=? 2 ^ 32 - 1)) with true by lia.
Qed.

(** The two's-complement tail of the signed roundings. *)
Lemma signed_word w (s : bool) i : 0 < w <= 64 -> sw w (if s then neg64 i else i) = sw w (signed s i).
Proof. intros Hw. destruct s; [|reflexivity]. unfold neg64. now rewrite sw_of_uw by lia. Qed.

Lemma saturate_word w (s : bool) (r : Z * bool) e : 2 <= w <= 64 -> 0 <= r.1 < 2 ^ w ->
  let invalid := softfloat_raiseFlags softfloat_flag_invalid ;; sf_ret (if s then - 2 ^ (w - 1) else 2 ^ (w - 1) - 1) in
  let z := sw w (signed s r.1) in
  implements (if z2b z && xorb (z <? 0) s then invalid else raise_if r.2 softfloat_flag_inexact ;; sf_ret z) e
    (saturate (- 2 ^ (w - 1)) (2 ^ (w - 1) - 1) s r).
Proof.
  intros Hw Hr. cbv zeta. unfold z2b. pose proof (pow2_half w ltac:(lia)) as Hh. pose proof (pow2_pos (w - 1) ltac:(lia)).
  destruct (Z.leb_spec r.1 (if s then 2 ^ (w - 1) else 2 ^ (w - 1) - 1)) as [L'|L'].
  - rewrite sw_small by (destruct s; unfold sfits, signed in *; lia).
    replace (negb (signed s r.1 =? 0) && xorb (signed s r.1 <? 0) s) with false
      by (unfold signed; destruct s, (Z.eqb_spec r.1 0); rewrite ?xorb_true_r, ?xorb_false_r; lia).
    eapply implements_eq; [apply implements_inexact|]. unfold saturate.
    now replace ((- 2 ^ (w - 1) <=? signed s r.1) && (signed s r.1 <=? 2 ^ (w - 1) - 1)) with true by (destruct s; unfold signed; lia).
  - rewrite saturate_out by (destruct s; lia).
    assert (Q : sw w (signed s r.1) = signed s r.1 + (if s then 2 ^ w else - 2 ^ w)).
    { apply sw_unique; [lia|destruct s; unfold sfits, signed in *; lia|]. apply uw_congr; [lia|].
      exists (if s then -1 else 1). destruct s; lia. }
    rewrite Q. replace (negb _ && xorb _ s) with true
      by (unfold signed; destruct s; rewrite ?xorb_true_r, ?xorb_false_r; lia).
    apply implements_invalid.
Qed.

Lemma roundToI32_ok s sig mode e : 0 <= mode <= 4 -> 0 <= sig < 2 ^ 63 ->
  implements (softfloat_roundToI32 s sig mode true) e (saturate (- 2 ^ 31) (2 ^ 31 - 1) s (rounded mode s sig (2 ^ 12))).
Proof.
  intros V Hs. destruct (round32_magnitude s sig mode V Hs) as (O & M & I & P). cbv zeta in *.
  unfold softfloat_roundToI32. rewrite O, M, I. set (r := rounded mode s sig (2 ^ 12)) in *. cbn [andb].
  change (if s then i32_fromNegOverflow else i32_fromPosOverflow) with (if s then - 2 ^ 31 else 2 ^ 31 - 1).
  destruct (Z.leb_spec (2 ^ 32) r.1) as [L|L].
  - rewrite saturate_out by (destruct s; lia). apply implements_invalid.
  - rewrite signed_word by lia. apply (saturate_word 32); lia.
Qed.

(** ** Fixed-point operands *)

Lemma jam_small x k : 0 <= k -> 0 < x < 2 ^ k -> jam x k = 1.
Proof.
  intros Hk H. unfold jam. rewrite Z.mod_small, Z.div_small by lia. now replace (x =? 0) with false by lia.
Qed.

(** [m * 2 ^ x] with [g] bits of fraction, from the significand shifted left
    by [j] and then right by [sd]. *)
Lemma fixed_jam g m x j sd : 2 <= g -> 0 <= j -> 0 <= sd -> x = j - g - sd ->
  sticky (g - 1) ((scale m 1 x).1 * 2 ^ g) (scale m 1 x).2 (jam (m * 2 ^ j) sd).
Proof.
  intros Hg Hj Hd ->.
  pose proof (scale_spec m 1 (j - g - sd) (g + sd) ltac:(lia) ltac:(lia) ltac:(lia)) as S.
  destruct (scale m 1 (j - g - sd)) as [N D]. cbn [fst snd]. destruct S as [PD E]. replace (g + sd + (j - g - sd)) with j in E by lia.
  pose proof (pow2_pos sd Hd). pose proof (sticky_jam 0 (g - 1) sd (m * 2 ^ j) 1 (m * 2 ^ j) Hd ltac:(lia) ltac:(lia)) as St.
  apply (sticky_ratio _ (m * 2 ^ j) (1 * 2 ^ sd)); [lia..| |].
  - rewrite Z.mul_1_r in E. rewrite Z.pow_add_r in E by lia. lia.
  - apply St. intros c. now rewrite Z.mul_1_r.
Qed.

(** A value below one half is only a sticky bit. *)
Lemma fixed_tiny k N D : 1 <= k -> 0 < D -> 0 < N < 2 ^ k * D -> sticky k N D 1.
Proof.
  intros Hk PD H c. pose proof (pow2_pos (k - 1) ltac:(lia)). rewrite (pow2_half k) in * by lia.
  destruct (Z_le_gt_dec c 0).
  - assert (c * (2 * 2 ^ (k - 1)) <= 0) by nia. assert (c * (2 * 2 ^ (k - 1)) * D <= 0) by nia.
    transitivity Lt; [|symmetry]; apply Z.compare_lt_iff; lia.
  - assert (1 * (2 * 2 ^ (k - 1)) <= c * (2 * 2 ^ (k - 1))) by (apply Z.mul_le_mono_nonneg_r; lia).
    transitivity Gt; [|symmetry]; apply Z.compare_gt_iff; nia.
Qed.

(** What a fixed-point significand, with [g] bits of fraction, keeps of the
    operand: for integers of magnitude below [2 ^ n]. *)
Definition fixed_spec (F : format) (g n a sig : Z) : Prop :=
  match decode F a with
  | Nan _ | Infinity _ => 2 ^ (n + g) <= sig
  | Zero _ => sig = 0
  | Finite s m x =>
    sticky (g - 1) ((scale m 1 x).1 * 2 ^ g) (scale m 1 x).2 sig \/
    2 ^ (n + g) <= sig /\ 2 ^ n * (scale m 1 x).2 <= (scale m 1 x).1
  end.

Lemma finite_pos F a m x : 1 <= prec F -> (expo F a = 0 -> 0 < frac F a) -> 0 <= frac F a ->
  datum_of F (sign F a) (expo F a) (frac F a) = Finite (sign F a) m x -> 0 < m.
Proof.
  unfold datum_of. intros Hp Z0 Hf. pose proof (pow2_pos (prec F - 1) ltac:(lia)).
  destruct (_ =? einf F); [now destruct (_ =? 0)|].
  destruct (Z.eqb_spec (expo F a) 0); [destruct (Z.eqb_spec (frac F a) 0); [discriminate|]|]; intros E; injection E as <- _; lia.
Qed.

Lemma rounded_0 mode s D : 0 < D -> rounded mode s 0 D = (0, false).
Proof. exact (rounded_exact mode s 0 D). Qed.

Section FixedToInt.
Variables (F : format) (Hp : 3 <= prec F) (Hw : prec F + 1 < width F) (g n lo hi mode : Z).
Hypotheses (Hg : 2 <= g) (Hn : 0 <= n) (V : 0 <= mode <= 4) (Hlo : - 2 ^ n < lo <= 0) (Hhi : 0 <= hi < 2 ^ n).

(** A significand that large is out of range, however it is rounded. *)
Lemma saturate_large s N D : 0 < D -> 2 ^ n * D <= N ->
  saturate lo hi s (rounded mode s N D) = (if s then lo else hi, softfloat_flag_invalid).
Proof.
  intros PD H. pose proof (pow2_pos n Hn). assert (2 ^ n <= N / D) by (apply Z.div_le_lower_bound; lia).
  pose proof (rounded_bounds mode s N D PD ltac:(nia)). apply saturate_out. destruct s; lia.
Qed.

(** The operand's integer from the rounded significand. *)
Lemma fixed_to_int a sig : 0 <= sig -> fixed_spec F g n a sig ->
  let s := sign F a && negb (is_nan (decode F a)) in
  to_int F lo hi mode a = saturate lo hi s (rounded mode s sig (2 ^ g)).
Proof.
  intros Hs H. unfold fixed_spec, to_int in *. cbv zeta. pose proof (pow2_pos g ltac:(lia)).
  assert (Large : forall s, 2 ^ (n + g) <= sig -> saturate lo hi s (rounded mode s sig (2 ^ g)) = (if s then lo else hi, softfloat_flag_invalid)).
  { intros s L. apply saturate_large; [lia|]. rewrite <- Z.pow_add_r by lia. exact L. }
  destruct (decode_view F Hp Hw a) as [q Ea Fa|Ea Fa|Ea Fa|m x Ea Za Da]; cbn [is_nan negb]; rewrite ?andb_false_r, ?andb_true_r.
  - now rewrite Large.
  - now rewrite Large.
  - subst sig. rewrite rounded_0 by lia. unfold saturate, signed. cbn [fst snd].
    replace (if sign F a then - 0 else 0) with 0 by now destruct (sign F a). now replace ((lo <=? 0) && (0 <=? hi)) with true by lia.
  - pose proof (scale_spec m 1 x (Z.max 0 (- x)) ltac:(lia) ltac:(lia) ltac:(lia)) as PD.
    pose proof (scale_pos m 1 x) as PN. destruct (scale m 1 x) as [N D]. cbn [fst snd] in *. destruct PD as [PD _].
    transitivity (saturate lo hi (sign F a) (rounded mode (sign F a) N D)).
    { unfold saturate. now destruct (rounded mode (sign F a) N D). }
    destruct H as [St|[L1 L2]]; [|now rewrite Large, saturate_large].
    f_equal. rewrite <- (sticky_rounded g mode (sign F a) (N * 2 ^ g) D sig); try assumption; try lia.
    + apply rounded_ext; nia.
    + assert (0 < m) by (apply (finite_pos F a m x); try assumption; [lia|]; apply (frac_range F Hp)). specialize (PN ltac:(assumption)). nia.
Qed.

(** Operands that the code finds too large, NaNs among them. *)
Lemma to_int_overflow a : (forall m x, decode F a = Finite (sign F a) m x -> 2 ^ n * (scale m 1 x).2 <= (scale m 1 x).1) -> expo F a <> 0 ->
  to_int F lo hi mode a = (if is_nan (decode F a) then hi else if sign F a then lo else hi, softfloat_flag_invalid).
Proof.
  intros H N0. destruct (decode F a) as [q|s|s|s m x] eqn:Da; pose proof (decode_view F Hp Hw a) as W; rewrite Da in W.
  - unfold to_int. now rewrite Da.
  - unfold to_int. rewrite Da. now inversion W.
  - inversion W. congruence.
  - rewrite (to_int_finite _ _ _ _ _ s m x) by exact Da. cbn [is_nan]. inversion W as [| | |m' x' _ Za _]; subst.
    pose proof (scale_spec m 1 x (Z.max 0 (- x)) ltac:(lia) ltac:(lia) ltac:(lia)) as PD. specialize (H m x eq_refl).
    destruct (scale m 1 x) as [N D]. cbn [fst snd] in *. now rewrite saturate_large.
Qed.
End FixedToInt.

(** A large operand, and one so small that only the sticky bit is left. *)
Lemma fixed_big m x b c : 0 <= b -> 0 <= c <= b + x -> 2 ^ b <= m -> 2 ^ c * (scale m 1 x).2 <= (scale m 1 x).1.
Proof.
  intros Hb Hc Hm. set (E := Z.max 0 (- x)). pose proof (scale_spec m 1 x E ltac:(lia) ltac:(lia) ltac:(lia)) as S.
  destruct (scale m 1 x) as [N D]. cbn [fst snd]. destruct S as [PD S]. pose proof (pow2_pos E ltac:(lia)). pose proof (pow2_pos (E + x) ltac:(lia)).
  pose proof (Z.pow_le_mono_r 2 (c + E) (b + (E + x)) ltac:(lia) ltac:(lia)) as L. rewrite !Z.pow_add_r in L by lia.
  assert (2 ^ b * 2 ^ (E + x) <= m * 2 ^ (E + x)) by (apply Z.mul_le_mono_nonneg_r; lia).
  assert (2 ^ c * 2 ^ E * D <= m * 2 ^ (E + x) * D) by (apply Z.mul_le_mono_nonneg_r; lia).
  apply (Z.mul_le_mono_pos_r _ _ (2 ^ E)); [assumption|]. rewrite Z.mul_1_r in S. lia.
Qed.

Lemma fixed_small g m x b : 2 <= g -> 0 < m < 2 ^ b -> 0 <= b -> b + x < 0 ->
  sticky (g - 1) ((scale m 1 x).1 * 2 ^ g) (scale m 1 x).2 1.
Proof.
  intros Hg Hm Hb Hx. pose proof (scale_spec m 1 x (- x) ltac:(lia) ltac:(lia) ltac:(lia)) as S. pose proof (scale_pos m 1 x ltac:(lia)) as PN.
  destruct (scale m 1 x) as [N D]. cbn [fst snd] in *. destruct S as [PD E]. replace (- x + x) with 0 in E by lia.
  rewrite !Z.mul_1_r in E. pose proof (pow2_pos g ltac:(lia)). pose proof (pow2_pos b Hb).
  apply fixed_tiny; try lia. split; [nia|]. rewrite (pow2_half g) by lia. pose proof (pow2_pos (g - 1) ltac:(lia)).
  assert (L : 2 ^ (b + 1) <= 2 ^ (- x)) by (apply Z.pow_le_mono_r; lia). rewrite Z.pow_add_r in L by lia. change (2 ^ 1) with 2 in L.
  assert (N * (2 ^ b * 2) <= N * 2 ^ (- x)) by nia. assert (2 * N < D) by nia. nia.
Qed.

(** ** The 32-bit conversions *)

Lemma f32_fixed32_ok a : let sig := f32_fixed32 (expo binary32 a) (frac binary32 a) in
  0 <= sig < 2 ^ 63 /\ fixed_spec binary32 12 32 a sig.
Proof.
  pose proof (expo32_range a). pose proof (frac32_range a) as Rf. unfold f32_fixed32, fixed_spec. cbv zeta.
  change 0x00800000 with (2 ^ 23). rewrite lor_top by (lia || exact Rf). unfold z2b.
  destruct (view32 a) as [q Ea Fa|Ea Fa|Ea Fa|m x Ea Za Da]; change (einf binary32) with 0xFF in *.
  - rewrite Ea. change (0 <? 0xAA - 0xFF) with false. change (0xFF =? 0) with false. cbn [negb]. rewrite shl64_small by (lia || (unfold fits; lia)). lia.
  - rewrite Ea, Fa. split; [split|]; reflexivity || discriminate.
  - rewrite Ea, Fa. split; [split|]; reflexivity || discriminate.
  - unfold datum_of in Da. change (einf binary32) with 0xFF in Da. replace (expo binary32 a =? 0xFF) with false in Da by lia.
    change (qmin binary32) with (-149) in Da. change (2 ^ (prec binary32 - 1)) with (2 ^ 23) in Da.
    destruct (Z.eqb_spec (expo binary32 a) 0) as [E0|N0]; cbn [negb].
    + specialize (Za E0). replace (frac binary32 a =? 0) with false in Da by lia. injection Da as <- <-.
      rewrite E0. change (0 <? 0xAA - 0) with true. cbn match. rewrite shl64_small by (lia || (unfold fits; lia)).
      rewrite shiftRightJam64_jam, jam_small by (lia || (unfold fits; lia)). split; [lia|]. left. apply (fixed_small _ _ _ 23); lia.
    + injection Da as <- <-. rewrite shl64_small by (lia || (unfold fits; lia)).
      destruct (Z.ltb_spec 0 (0xAA - expo binary32 a)) as [L|L].
      * rewrite shiftRightJam64_jam by (lia || (unfold fits; lia)).
        split; [pose proof (jam_bounds ((2 ^ 23 + frac binary32 a) * 2 ^ 32) (0xAA - expo binary32 a)); lia|].
        left. apply fixed_jam; lia.
      * split; [lia|]. right. split; [lia|]. apply (fixed_big _ _ 23); lia.
Qed.

Lemma f64_fixed32_ok a : let sig := f64_fixed32 (expo binary64 a) (frac binary64 a) in
  0 <= sig < 2 ^ 63 /\ fixed_spec binary64 12 32 a sig.
Proof.
  pose proof (expo64_range a). pose proof (frac64_range a) as Rf. unfold f64_fixed32, fixed_spec. cbv zeta.
  change 0x0010000000000000 with (2 ^ 52). rewrite lor_top by (lia || exact Rf). unfold z2b.
  destruct (view64 a) as [q Ea Fa|Ea Fa|Ea Fa|m x Ea Za Da]; change (einf binary64) with 0x7FF in *.
  - rewrite Ea. change (0 <? 0x427 - 0x7FF) with false. change (0x7FF =? 0) with false. cbn [negb]. lia.
  - rewrite Ea, Fa. split; [split|]; reflexivity || discriminate.
  - rewrite Ea, Fa. split; [split|]; reflexivity || discriminate.
  - unfold datum_of in Da. change (einf binary64) with 0x7FF in Da. replace (expo binary64 a =? 0x7FF) with false in Da by lia.
    change (qmin binary64) with (-1074) in Da. change (2 ^ (prec binary64 - 1)) with (2 ^ 52) in Da.
    destruct (Z.eqb_spec (expo binary64 a) 0) as [E0|N0]; cbn [negb].
    + specialize (Za E0). replace (frac binary64 a =? 0) with false in Da by lia. injection Da as <- <-.
      rewrite E0. change (0 <? 0x427 - 0) with true. cbn match.
      rewrite shiftRightJam64_jam by (lia || (unfold fits; lia)). rewrite jam_small.
      2: lia. 2: { split; [lia|]. transitivity (2 ^ 52); [lia|]. apply Z.pow_lt_mono_r; lia. }
      split; [lia|]. left. apply (fixed_small _ _ _ 52); lia.
    + injection Da as <- <-. destruct (Z.ltb_spec 0 (0x427 - expo binary64 a)) as [L|L].
      * rewrite shiftRightJam64_jam by (lia || (unfold fits; lia)).
        split; [pose proof (jam_bounds (2 ^ 52 + frac binary64 a) (0x427 - expo binary64 a)); lia|].
        left. rewrite <- (Z.mul_1_r (2 ^ 52 + frac binary64 a)) at 3. apply (fixed_jam 12 _ _ 0); lia.
      * split; [lia|]. right. split; [lia|]. apply (fixed_big _ _ 52); lia.
Qed.

(** The sign the 32-bit conversions use: a NaN counts as positive. *)
Lemma nan_sign32 a : (if (expo binary32 a =? 0xFF) && z2b (frac binary32 a) then false else sign binary32 a) =
  sign binary32 a && negb (is_nan (decode binary32 a)).
Proof.
  rewrite is_nan_fields. change (einf binary32) with 0xFF. unfold z2b. destruct (_ && _); [now rewrite andb_false_r|now rewrite andb_true_r].
Qed.
Lemma nan_sign64 a : (if (expo binary64 a =? 0x7FF) && z2b (frac binary64 a) then false else sign binary64 a) =
  sign binary64 a && negb (is_nan (decode binary64 a)).
Proof.
  rewrite is_nan_fields. change (einf binary64) with 0x7FF. unfold z2b. destruct (_ && _); [now rewrite andb_false_r|now rewrite andb_true_r].
Qed.

#[local] Ltac to_32 nan_sign fixed F :=
  rewrite nan_sign; destruct fixed as [? ?];
  eapply implements_eq; [first [apply roundToUI32_ok | apply roundToI32_ok]; assumption || lia|];
  symmetry; apply (fixed_to_int F ltac:(cbn; lia) ltac:(cbn; lia) 12 32); lia || assumption.

Lemma f32_to_ui32_correct a mode e : fits 32 a -> 0 <= mode <= 4 ->
  implements (f32_to_ui32 a mode true) e (to_int binary32 0 (2 ^ 32 - 1) mode a).
Proof.
  intros Ha V. unfold f32_to_ui32. rewrite signF32_spec, expF32_spec, fracF32_spec by assumption. to_32 nan_sign32 (f32_fixed32_ok a) binary32.
Qed.
Lemma f32_to_i32_correct a mode e : fits 32 a -> 0 <= mode <= 4 ->
  implements (f32_to_i32 a mode true) e (to_int binary32 (- 2 ^ 31) (2 ^ 31 - 1) mode a).
Proof.
  intros Ha V. unfold f32_to_i32. rewrite signF32_spec, expF32_spec, fracF32_spec by assumption. to_32 nan_sign32 (f32_fixed32_ok a) binary32.
Qed.
Lemma f64_to_ui32_correct a mode e : fits 64 a -> 0 <= mode <= 4 ->
  implements (f64_to_ui32 a mode true) e (to_int binary64 0 (2 ^ 32 - 1) mode a).
Proof.
  intros Ha V. unfold f64_to_ui32. rewrite signF64_spec, expF64_spec, fracF64_spec by assumption. to_32 nan_sign64 (f64_fixed32_ok a) binary64.
Qed.
Lemma f64_to_i32_correct a mode e : fits 64 a -> 0 <= mode <= 4 ->
  implements (f64_to_i32 a mode true) e (to_int binary64 (- 2 ^ 31) (2 ^ 31 - 1) mode a).
Proof.
  intros Ha V. unfold f64_to_i32. rewrite signF64_spec, expF64_spec, fracF64_spec by assumption. to_32 nan_sign64 (f64_fixed32_ok a) binary64.
Qed.

(** ** To 64 bits: a word of fraction *)

Lemma half_compare x : fits 64 x -> (2 * x ?= 2 ^ 64) = (x ?= 2 ^ 63).
Proof. intros. destruct (Z.compare_spec (2 * x) (2 ^ 64)), (Z.compare_spec x (2 ^ 63)); lia || reflexivity. Qed.

(** [increment64] rounds [sig] and its fraction; it fails on a carry out. *)
Lemma increment64_ok s sig ex mode : 0 <= mode <= 4 -> fits 64 sig -> fits 64 ex ->
  let r := rounded mode s (sig * 2 ^ 64 + ex) (2 ^ 64) in
  increment64 mode s sig ex = (if r.1 <? 2 ^ 64 then Some r.1 else None) /\ z2b ex = r.2 /\ 0 <= r.1.
Proof.
  intros V Hs Hx. unfold fits in *. unfold rounded. cbv zeta. cbn [fst snd].
  rewrite (Z.add_comm (sig * _)), Z.div_add, Z.mod_add, (Z.div_small ex), (Z.mod_small ex), Z.add_0_l, half_compare by (lia || assumption).
  replace (mode =? softfloat_round_odd) with false by (unfold softfloat_round_odd; lia).
  split; [|split; [reflexivity|destruct (round_up _ _ _ _ _); cbn [b2z]; lia]].
  assert (Up : doIncrement64 mode s ex = true -> increment64 mode s sig ex =
    if sig + 1 =? 2 ^ 64 then None
    else Some (sig + 1 - (if (ex mod 2 ^ 63 =? 0) && (mode =? softfloat_round_near_even) then (sig + 1) mod 2 else 0))).
  { intros D. unfold increment64. rewrite D. change 0x7FFFFFFFFFFFFFFF with (Z.ones 63). rewrite mask_low by lia. unfold z2b. rewrite negb_involutive.
    destruct (Z.eqb_spec (sig + 1) (2 ^ 64)) as [E|N].
    { replace sig with (2 ^ 64 - 1) by lia. reflexivity. }
    rewrite add64_small by (unfold fits; lia).
    replace (sig + 1 =? 0) with false by lia. now rewrite land_not64, land_lnot_bool by (unfold fits; lia). }
  assert (No : doIncrement64 mode s ex = false -> increment64 mode s sig ex = Some sig) by (intros D; unfold increment64; now rewrite D).
  assert (C : (ex mod 2 ^ 63 =? 0) = (ex =? 0) || (ex =? 2 ^ 63)).
  { destruct (Z.leb_spec (2 ^ 63) ex); [rewrite <- (Z.mod_add ex (-1)) by lia|]; rewrite Z.mod_small by lia;
      destruct (Z.eqb_spec ex 0), (Z.eqb_spec ex (2 ^ 63)); lia. }
  assert (M : mode = 0 \/ mode = 1 \/ mode = 2 \/ mode = 3 \/ mode = 4) by lia.
  assert (O : Z.odd sig = ((sig + 1) mod 2 =? 0)) by (rewrite Zmod_odd, Z.odd_add; now destruct (Z.odd sig)).
  pose proof (Z.mod_pos_bound (sig + 1) 2 ltac:(lia)) as B. pose proof (Z.div_mod (sig + 1) 2 ltac:(lia)) as B'.
  rewrite O. destruct (doIncrement64 mode s ex) eqn:D; [rewrite (Up eq_refl)|rewrite (No eq_refl)]; rewrite ?C; clear Up No C O;
    unfold doIncrement64, z2b in D; destruct (Z.compare_spec ex (2 ^ 63)); destruct M as [-> |[-> |[-> |[-> | ->]]]]; destruct s; cbn in D |- *.
  all: try discriminate D; try lia; rewrite ?andb_true_r, ?andb_false_r, ?Z.add_0_r, ?Z.sub_0_r.
  all: repeat match goal with
    | |- context [?a =? ?b] => destruct (Z.eqb_spec a b)
    | |- context [?a <? ?b] => destruct (Z.ltb_spec a b)
    end; cbn [negb orb b2z] in *; reflexivity || lia || (f_equal; lia).
Qed.

Lemma roundToUI64_ok s sig ex mode e : 0 <= mode <= 4 -> fits 64 sig -> fits 64 ex ->
  implements (softfloat_roundToUI64 s sig ex mode true) e (saturate 0 (2 ^ 64 - 1) s (rounded mode s (sig * 2 ^ 64 + ex) (2 ^ 64))).
Proof.
  intros V Hs Hx. destruct (increment64_ok s sig ex mode V Hs Hx) as (O & I & P).
  unfold softfloat_roundToUI64. rewrite O, I. set (r := rounded mode s _ (2 ^ 64)) in *. cbn [andb].
  change (if s then ui64_fromNegOverflow else ui64_fromPosOverflow) with (if s then 0 else 2 ^ 64 - 1).
  destruct (Z.ltb_spec r.1 (2 ^ 64)) as [L|L].
  - unfold z2b. destruct s; cbn [andb].
    + destruct (Z.eqb_spec r.1 0) as [Z0|N]; cbn [negb].
      * eapply implements_eq; [apply implements_inexact|]. unfold saturate, signed. now rewrite Z0.
      * rewrite saturate_out by lia. apply implements_invalid.
    + eapply implements_eq; [apply implements_inexact|]. unfold saturate, signed.
      now replace ((0 <=? r.1) && (r.1 <=? 2 ^ 64 - 1)) with true by lia.
  - rewrite saturate_out by (destruct s; lia). apply implements_invalid.
Qed.

Lemma roundToI64_ok s sig ex mode e : 0 <= mode <= 4 -> fits 64 sig -> fits 64 ex ->
  implements (softfloat_roundToI64 s sig ex mode true) e (saturate (- 2 ^ 63) (2 ^ 63 - 1) s (rounded mode s (sig * 2 ^ 64 + ex) (2 ^ 64))).
Proof.
  intros V Hs Hx. destruct (increment64_ok s sig ex mode V Hs Hx) as (O & I & P).
  unfold softfloat_roundToI64. rewrite O, I. set (r := rounded mode s _ (2 ^ 64)) in *. cbn [andb].
  change (if s then i64_fromNegOverflow else i64_fromPosOverflow) with (if s then - 2 ^ 63 else 2 ^ 63 - 1).
  destruct (Z.ltb_spec r.1 (2 ^ 64)) as [L|L].
  - rewrite signed_word by lia. apply (saturate_word 64); lia.
  - rewrite saturate_out by (destruct s; lia). apply implements_invalid.
Qed.

(** A bit-exact shift, down to a last bit that stands for all it lost. *)
Lemma shiftRightJam64Extra_value a dist : fits 64 a -> 1 <= dist ->
  let x := softfloat_shiftRightJam64Extra a 0 dist in
  fits 64 (v x) /\ fits 64 (extra x) /\ v x * 2 ^ 64 + extra x = if dist <=? 64 then a * 2 ^ (64 - dist) else b2z (z2b a).
Proof.
  intros Ha Hd. unfold softfloat_shiftRightJam64Extra. change (b2z (z2b 0)) with 0.
  destruct (Z.ltb_spec dist 64); cbn [v extra]; rewrite Z.lor_0_r.
  - change 63 with (Z.ones 6). rewrite neg_land by lia. change (2 ^ 6) with 64. replace (dist <=? 64) with true by lia.
    rewrite Z.shiftr_div_pow2 by lia. unfold shl64. rewrite Z.shiftl_mul_pow2 by lia. pose proof (pow2_pos dist ltac:(lia)).
    split; [|split; [apply uw_fits; lia|]].
    + split; [apply Z.div_pos; unfold fits in Ha; lia|apply Z.div_lt_upper_bound; unfold fits in Ha; nia].
    + unfold uw. assert (E : 2 ^ 64 = 2 ^ dist * 2 ^ (64 - dist)) by (rewrite <- Z.pow_add_r by lia; f_equal; lia).
      rewrite E, Z.mul_mod_distr_r by (pose proof (pow2_pos (64 - dist) ltac:(lia)); lia).
      pose proof (Z.div_mod a (2 ^ dist) ltac:(lia)). nia.
  - destruct (Z.eqb_spec dist 64) as [->|]; cbn [v extra].
    + change (64 <=? 64) with true. change (64 - 64) with 0. split; [unfold fits; lia|split; [exact Ha|lia]].
    + replace (dist <=? 64) with false by lia. destruct (z2b a); unfold fits; cbn [b2z]; lia.
Qed.

(** The exact fixed-point operand. *)
Lemma fixed_exact g m x : 2 <= g -> 0 <= g + x -> sticky (g - 1) ((scale m 1 x).1 * 2 ^ g) (scale m 1 x).2 (m * 2 ^ (g + x)).
Proof.
  intros Hg H. pose proof (fixed_jam g m x (g + x) 0 Hg H ltac:(lia) ltac:(lia)) as St.
  unfold jam in St. rewrite Z.mod_1_r, Z.div_1_r in St. exact St.
Qed.

Lemma f32_fixed64_ok a : 0 <= 0xBE - expo binary32 a -> let x := f32_fixed64 (expo binary32 a) (frac binary32 a) (0xBE - expo binary32 a) in
  fits 64 (v x) /\ fits 64 (extra x) /\ fixed_spec binary32 64 64 a (v x * 2 ^ 64 + extra x).
Proof.
  intros Hd. pose proof (expo32_range a). pose proof (frac32_range a) as Rf. unfold f32_fixed64, fixed_spec. cbv zeta.
  change 0x00800000 with (2 ^ 23). rewrite lor_top by (lia || exact Rf).
  assert (Fx : forall m, 0 <= m < 2 ^ 24 -> let x := if z2b (0xBE - expo binary32 a) then softfloat_shiftRightJam64Extra (m <<w 40) 0 (0xBE - expo binary32 a)
      else mk_uint64_extra (m <<w 40) 0 in
    fits 64 (v x) /\ fits 64 (extra x) /\ v x * 2 ^ 64 + extra x =
      if 0xBE - expo binary32 a <=? 64 then m * 2 ^ (64 + (expo binary32 a - 150)) else b2z (z2b m)).
  { intros m Hm. rewrite shl64_small by (lia || (unfold fits; lia)). unfold z2b at 1.
    destruct (Z.eqb_spec (0xBE - expo binary32 a) 0) as [E|N]; cbn [negb].
    - cbv zeta. cbn [v extra]. replace (0xBE - expo binary32 a <=? 64) with true by lia.
      replace (64 + (expo binary32 a - 150)) with 104 by lia. unfold fits. lia.
    - pose proof (shiftRightJam64Extra_value (m * 2 ^ 40) (0xBE - expo binary32 a) ltac:(unfold fits; lia) ltac:(lia)) as (F1 & F2 & E).
      split; [exact F1|split; [exact F2|]]. rewrite E. destruct (Z.leb_spec (0xBE - expo binary32 a) 64).
      + rewrite <- Z.mul_assoc, <- Z.pow_add_r by lia. do 2 f_equal. lia.
      + unfold z2b. do 2 f_equal. destruct (Z.eqb_spec (m * 2 ^ 40) 0), (Z.eqb_spec m 0); lia. }
  destruct (Fx (if z2b (expo binary32 a) then 2 ^ 23 + frac binary32 a else frac binary32 a)) as (F1 & F2 & ->); [unfold z2b; destruct (_ =? 0); cbn; lia|].
  split; [exact F1|split; [exact F2|]]. clear Fx F1 F2. unfold z2b.
  destruct (view32 a) as [q Ea Fa|Ea Fa|Ea Fa|m x Ea Za Da]; change (einf binary32) with 0xFF in *; try lia.
  - rewrite Ea, Fa. reflexivity.
  - unfold datum_of in Da. change (einf binary32) with 0xFF in Da. replace (expo binary32 a =? 0xFF) with false in Da by lia.
    change (qmin binary32) with (-149) in Da. change (2 ^ (prec binary32 - 1)) with (2 ^ 23) in Da. left.
    destruct (Z.eqb_spec (expo binary32 a) 0) as [E0|N0]; cbn [negb].
    + specialize (Za E0). rewrite E0. replace (frac binary32 a =? 0) with false in * by lia. injection Da as <- <-.
      apply (fixed_small _ _ _ 23); lia.
    + injection Da as <- <-. replace (2 ^ 23 + frac binary32 a =? 0) with false by lia.
      destruct (Z.leb_spec (0xBE - expo binary32 a) 64).
      * replace (expo binary32 a - 150) with (-149 + expo binary32 a - 1) by lia. apply fixed_exact; lia.
      * apply (fixed_small _ _ _ 24); lia.
Qed.

Lemma f64_fixed64_ok a : match f64_fixed64 (expo binary64 a) (frac binary64 a) with
  | Some x => fits 64 (v x) /\ fits 64 (extra x) /\ fixed_spec binary64 64 64 a (v x * 2 ^ 64 + extra x) /\ expo binary64 a <> 0x7FF
  | None => 0x43E < expo binary64 a
  end.
Proof.
  pose proof (expo64_range a). pose proof (frac64_range a) as Rf. unfold f64_fixed64.
  change 0x0010000000000000 with (2 ^ 52). rewrite lor_top by (lia || exact Rf). unfold z2b.
  destruct (Z.leb_spec (0x433 - expo binary64 a) 0) as [L|L]; [destruct (Z.ltb_spec (0x433 - expo binary64 a) (-11)); [lia|]|].
  all: unfold fixed_spec; cbn [v extra].
  - replace (expo binary64 a =? 0) with false by lia. cbn [negb].
    assert (2 ^ (- (0x433 - expo binary64 a)) <= 2 ^ 11) by (apply Z.pow_le_mono_r; lia). pose proof (pow2_pos (- (0x433 - expo binary64 a)) ltac:(lia)).
    assert (fits 64 ((2 ^ 52 + frac binary64 a) * 2 ^ (- (0x433 - expo binary64 a)))).
    { unfold fits. assert ((2 ^ 52 + frac binary64 a) * 2 ^ (- (0x433 - expo binary64 a)) <= (2 ^ 53 - 1) * 2 ^ 11) by (apply Z.mul_le_mono_nonneg; lia). nia. }
    rewrite shl64_small by (lia || assumption). split; [assumption|split; [unfold fits; lia|split; [|lia]]].
    destruct (view64 a) as [q Ea Fa|Ea Fa|Ea Fa|m x Ea Za Da]; change (einf binary64) with 0x7FF in *; try lia.
    unfold datum_of in Da. change (einf binary64) with 0x7FF in Da. replace (expo binary64 a =? 0x7FF) with false in Da by lia.
    replace (expo binary64 a =? 0) with false in Da by lia.
    change (qmin binary64) with (-1074) in Da. change (2 ^ (prec binary64 - 1)) with (2 ^ 52) in Da. injection Da as <- <-. left.
    rewrite Z.add_0_r, <- Z.mul_assoc, <- Z.pow_add_r by lia.
    replace (- (0x433 - expo binary64 a) + 64) with (64 + (-1074 + expo binary64 a - 1)) by lia. apply fixed_exact; lia.
  - destruct (shiftRightJam64Extra_value (if negb (expo binary64 a =? 0) then 2 ^ 52 + frac binary64 a else frac binary64 a) (0x433 - expo binary64 a))
      as (F1 & F2 & ->); [destruct (_ =? 0); unfold fits; cbn [negb]; lia|lia|].
    split; [exact F1|split; [exact F2|split; [|lia]]]. clear F1 F2.
    destruct (view64 a) as [q Ea Fa|Ea Fa|Ea Fa|m x Ea Za Da]; change (einf binary64) with 0x7FF in *; try lia.
    + rewrite Ea, Fa. reflexivity.
    + unfold datum_of in Da. change (einf binary64) with 0x7FF in Da. replace (expo binary64 a =? 0x7FF) with false in Da by lia.
      change (qmin binary64) with (-1074) in Da. change (2 ^ (prec binary64 - 1)) with (2 ^ 52) in Da. left. unfold z2b.
      destruct (Z.eqb_spec (expo binary64 a) 0) as [E0|N0]; cbn [negb].
      * specialize (Za E0). rewrite E0. replace (frac binary64 a =? 0) with false in * by lia. injection Da as <- <-.
        apply (fixed_small _ _ _ 52); lia.
      * injection Da as <- <-. replace (2 ^ 52 + frac binary64 a =? 0) with false by lia.
        destruct (Z.leb_spec (0x433 - expo binary64 a) 64).
        -- replace (64 - (0x433 - expo binary64 a)) with (64 + (-1074 + expo binary64 a - 1)) by lia. apply fixed_exact; lia.
        -- apply (fixed_small _ _ _ 53); lia.
Qed.

(** ** The 64-bit conversions *)

Lemma finite_big F a c m x : 1 <= prec F -> 0 <= c <= prec F - 1 + (qmin F + expo F a - 1) -> expo F a <> 0 -> 0 <= frac F a ->
  decode F a = Finite (sign F a) m x -> 2 ^ c * (scale m 1 x).2 <= (scale m 1 x).1.
Proof.
  intros Hp Hc N0 Hf. rewrite decode_fields. unfold datum_of. destruct (_ =? einf F); [now destruct (_ =? 0)|].
  replace (expo F a =? 0) with false by lia. intros E. injection E as <- <-. apply (fixed_big _ _ (prec F - 1)); lia.
Qed.

Lemma f32_overflow64 a lo hi mode : 0 <= mode <= 4 -> - 2 ^ 64 < lo <= 0 -> 0 <= hi < 2 ^ 64 -> 0xBE < expo binary32 a ->
  to_int binary32 lo hi mode a =
    (if (expo binary32 a =? 0xFF) && z2b (frac binary32 a) then hi else if sign binary32 a then lo else hi, softfloat_flag_invalid).
Proof.
  intros V Hlo Hhi H. rewrite (to_int_overflow binary32 ltac:(cbn; lia) ltac:(cbn; lia) 64), is_nan_fields; try lia; [reflexivity|].
  intros m x. pose proof (frac32_range a). apply finite_big; change (qmin binary32) with (-149); cbn [prec binary32]; lia.
Qed.
Lemma f64_overflow64 a lo hi mode : 0 <= mode <= 4 -> - 2 ^ 64 < lo <= 0 -> 0 <= hi < 2 ^ 64 -> 0x43E < expo binary64 a ->
  to_int binary64 lo hi mode a =
    (if (expo binary64 a =? 0x7FF) && z2b (frac binary64 a) then hi else if sign binary64 a then lo else hi, softfloat_flag_invalid).
Proof.
  intros V Hlo Hhi H. rewrite (to_int_overflow binary64 ltac:(cbn; lia) ltac:(cbn; lia) 64), is_nan_fields; try lia; [reflexivity|].
  intros m x. pose proof (frac64_range a). apply finite_big; change (qmin binary64) with (-1074); cbn [prec binary64]; lia.
Qed.

(** Finite operands: no NaN, so the sign is the operand's. *)
Lemma fixed_finite F a (Hp : 3 <= prec F) (Hw : prec F + 1 < width F) sig lo hi mode : 0 <= mode <= 4 -> - 2 ^ 64 < lo <= 0 -> 0 <= hi < 2 ^ 64 -> 0 <= sig ->
  fixed_spec F 64 64 a sig -> expo F a <> einf F -> to_int F lo hi mode a = saturate lo hi (sign F a) (rounded mode (sign F a) sig (2 ^ 64)).
Proof.
  intros V Hlo Hhi Hs S N. rewrite (fixed_to_int F Hp Hw 64 64 lo hi mode) with (sig := sig) by (lia || exact S).
  rewrite is_nan_fields. replace (expo F a =? einf F) with false by lia. now rewrite andb_true_r.
Qed.

#[local] Ltac to_64_f32 :=
  rewrite signF32_spec, expF32_spec, fracF32_spec by assumption;
  match goal with |- context [expo binary32 ?a] =>
    destruct (Z.ltb_spec (0xBE - expo binary32 a) 0);
    [rewrite f32_overflow64 by (assumption || lia); apply implements_invalid
    |destruct (f32_fixed64_ok a) as (F1 & F2 & S); [assumption|]; 
     eapply implements_eq; [first [apply roundToUI64_ok | apply roundToI64_ok]; assumption|];
     symmetry; apply fixed_finite; try (cbn; lia); try assumption; unfold fits in F1, F2; change (einf binary32) with 0xFF; lia]
  end.
#[local] Ltac to_64_f64 :=
  rewrite signF64_spec, expF64_spec, fracF64_spec by assumption;
  match goal with |- context [expo binary64 ?a] =>
    let F := fresh in pose proof (f64_fixed64_ok a) as F; destruct (f64_fixed64 _ _) as [x|];
    [destruct F as (F1 & F2 & S & Fe);
     eapply implements_eq; [first [apply roundToUI64_ok | apply roundToI64_ok]; assumption|];
     symmetry; apply fixed_finite; try (cbn; lia); try assumption; unfold fits in F1, F2; lia
    |rewrite f64_overflow64 by (assumption || lia); apply implements_invalid]
  end.

Lemma f32_to_ui64_correct a mode e : fits 32 a -> 0 <= mode <= 4 ->
  implements (f32_to_ui64 a mode true) e (to_int binary32 0 (2 ^ 64 - 1) mode a).
Proof. intros Ha V. unfold f32_to_ui64. to_64_f32. Qed.
Lemma f32_to_i64_correct a mode e : fits 32 a -> 0 <= mode <= 4 ->
  implements (f32_to_i64 a mode true) e (to_int binary32 (- 2 ^ 63) (2 ^ 63 - 1) mode a).
Proof. intros Ha V. unfold f32_to_i64. to_64_f32. Qed.
Lemma f64_to_ui64_correct a mode e : fits 64 a -> 0 <= mode <= 4 ->
  implements (f64_to_ui64 a mode true) e (to_int binary64 0 (2 ^ 64 - 1) mode a).
Proof. intros Ha V. unfold f64_to_ui64. to_64_f64. Qed.
Lemma f64_to_i64_correct a mode e : fits 64 a -> 0 <= mode <= 4 ->
  implements (f64_to_i64 a mode true) e (to_int binary64 (- 2 ^ 63) (2 ^ 63 - 1) mode a).
Proof. intros Ha V. unfold f64_to_i64. to_64_f64. Qed.
