(* ===== verification/SoftProps.v ===== *)
(** * SoftProps: SoftFloat computes IEEE 754 arithmetic

    The theorems about the library itself: each function, run in any
    environment whose rounding mode SoftFloat knows, returns the reference
    result of [Ieee] and adds the reference flags to those already raised. *)
From Stdlib Require Import ZArith Lia Bool List.
From stdpp Require Import base list.
From S2P Require Import Prelude SoftFloat SoftF32 SoftF64 SoftConv Ieee SoftFields SoftCompare SoftMul SoftAdd32 SoftAdd64 SoftDiv64 SoftConvFacts SoftIntFacts SoftToInt.
#[local] Open Scope Z_scope.

#[local] Notation mode := softfloat_roundingMode.

(** A clear environment that rounds to nearest even. *)
Definition nearest : fenv_t := mk_fenv softfloat_round_near_even 0.
Lemma nearest_valid : valid_mode (mode nearest).
Proof. change (valid_mode 0). unfold valid_mode. lia. Qed.

(** C22. Sums and differences are the exact ones rounded once, in both formats:
    NaNs, infinities, signed zeros, cancellation, subnormal results and
    overflow included, in all six rounding modes. *)
Theorem sums_round_correctly e :
  valid_mode (mode e) ->
  (forall a b, fits 32 a -> fits 32 b ->
     implements (f32_add a b) e (Ieee.add binary32 (mode e) a b) /\ implements (f32_sub a b) e (Ieee.sub binary32 (mode e) a b)) /\
  (forall a b, fits 64 a -> fits 64 b ->
     implements (f64_add a b) e (Ieee.add binary64 (mode e) a b) /\ implements (f64_sub a b) e (Ieee.sub binary64 (mode e) a b)).
Proof.
  intros V. split; intros a b Ha Hb; split;
    [apply f32_add_correct | apply f32_sub_correct | apply f64_add_correct | apply f64_sub_correct]; assumption.
Qed.

(** 1 + 2^-23 - 1 leaves 2^-23, and 1 + 2^-53 ties to 1, inexact. *)
Lemma sums_round_correctly_witness :
  f32_sub 0x3F800001 0x3F800000 nearest = (0x34000000, nearest) /\
  f64_add 0x3FF0000000000000 0x3CA0000000000000 nearest =
    (0x3FF0000000000000, mk_fenv softfloat_round_near_even softfloat_flag_inexact).
Proof.
  destruct (sums_round_correctly nearest) as [S D]; [exact nearest_valid|]. split.
  - exact (proj2 (S 0x3F800001 0x3F800000 ltac:(unfold fits; lia) ltac:(unfold fits; lia))).
  - exact (proj1 (D 0x3FF0000000000000 0x3CA0000000000000 ltac:(unfold fits; lia) ltac:(unfold fits; lia))).
Defined.

(** C23. Products and quotients are the exact ones rounded once, in both
    formats; the double-precision quotient although its digits come from an
    approximate reciprocal. *)
Theorem products_and_quotients_round_correctly e :
  valid_mode (mode e) ->
  (forall a b, fits 32 a -> fits 32 b ->
     implements (f32_mul a b) e (Ieee.mul binary32 (mode e) a b) /\ implements (f32_div a b) e (Ieee.div binary32 (mode e) a b)) /\
  (forall a b, fits 64 a -> fits 64 b ->
     implements (f64_mul a b) e (Ieee.mul binary64 (mode e) a b) /\ implements (f64_div a b) e (Ieee.div binary64 (mode e) a b)).
Proof.
  intros V. split; intros a b Ha Hb; split;
    [apply f32_mul_correct | apply f32_div_correct | apply f64_mul_correct | apply f64_div_correct]; assumption.
Qed.

(** 1.5 * 1.5 is exact, one third is not, and 1 / 0 raises its own flag. *)
Lemma products_and_quotients_round_correctly_witness :
  f32_mul 0x3FC00000 0x3FC00000 nearest = (0x40100000, nearest) /\
  f64_div 0x3FF0000000000000 0x4008000000000000 nearest =
    (0x3FD5555555555555, mk_fenv softfloat_round_near_even softfloat_flag_inexact) /\
  f64_div 0x3FF0000000000000 0 nearest =
    (0x7FF0000000000000, mk_fenv softfloat_round_near_even softfloat_flag_infinite).
Proof.
  destruct (products_and_quotients_round_correctly nearest) as [S D]; [exact nearest_valid|]. split; [|split].
  - exact (proj1 (S 0x3FC00000 0x3FC00000 ltac:(unfold fits; lia) ltac:(unfold fits; lia))).
  - exact (proj2 (D 0x3FF0000000000000 0x4008000000000000 ltac:(unfold fits; lia) ltac:(unfold fits; lia))).
  - exact (proj2 (D 0x3FF0000000000000 0 ltac:(unfold fits; lia) ltac:(unfold fits; lia))).
Defined.

(** C24. Comparisons order the numbers and leave NaNs unordered; [eq] is quiet,
    [lt] and [le] signal; the quiet form of [lt] signals only for signalling NaNs. *)
Theorem comparisons_are_ieee e :
  (forall a b, fits 32 a -> fits 32 b ->
     implements (f32_eq a b) e (compare_with binary32 is_eq true a b) /\
     implements (f32_lt a b) e (compare_with binary32 is_lt false a b) /\
     implements (f32_le a b) e (compare_with binary32 is_le false a b) /\
     implements (f32_lt_quiet a b) e (compare_with binary32 is_lt true a b)) /\
  (forall a b, fits 64 a -> fits 64 b ->
     implements (f64_eq a b) e (compare_with binary64 is_eq true a b) /\
     implements (f64_lt a b) e (compare_with binary64 is_lt false a b) /\
     implements (f64_le a b) e (compare_with binary64 is_le false a b) /\
     implements (f64_lt_quiet a b) e (compare_with binary64 is_lt true a b)).
Proof. split; intros a b Ha Hb; [now apply f32_comparisons_ok | now apply f64_comparisons_ok]. Qed.

(** 1 < 2; a quiet NaN is not equal to itself, silently, and [lt] signals. *)
Lemma comparisons_are_ieee_witness :
  f32_lt 0x3F800000 0x40000000 nearest = (true, nearest) /\
  f64_eq 0x7FF8000000000000 0x7FF8000000000000 nearest = (false, nearest) /\
  f64_lt 0x7FF8000000000000 0 nearest = (false, mk_fenv softfloat_round_near_even softfloat_flag_invalid).
Proof.
  destruct (comparisons_are_ieee nearest) as [S D]. split; [|split].
  - exact (proj1 (proj2 (S 0x3F800000 0x40000000 ltac:(unfold fits; lia) ltac:(unfold fits; lia)))).
  - exact (proj1 (D 0x7FF8000000000000 0x7FF8000000000000 ltac:(unfold fits; lia) ltac:(unfold fits; lia))).
  - exact (proj1 (proj2 (D 0x7FF8000000000000 0 ltac:(unfold fits; lia) ltac:(unfold fits; lia)))).
Defined.

(** C25. Conversions between the formats: widening is exact, narrowing rounds
    once; signalling NaNs become the canonical quiet NaN and raise invalid. *)
Theorem format_conversions_round_correctly e :
  valid_mode (mode e) ->
  (forall a, fits 32 a -> implements (f32_to_f64 a) e (convert binary32 binary64 (mode e) a)) /\
  (forall a, fits 64 a -> implements (f64_to_f32 a) e (convert binary64 binary32 (mode e) a)).
Proof. intros V. split; intros a Ha; [now apply f32_to_f64_correct | now apply f64_to_f32_correct]. Qed.

(** The least subnormal single is 2^-149; the least subnormal double rounds to zero. *)
Lemma format_conversions_round_correctly_witness :
  f32_to_f64 1 nearest = (0x36A0000000000000, nearest) /\
  f64_to_f32 1 nearest = (0, mk_fenv softfloat_round_near_even (Z.lor softfloat_flag_underflow softfloat_flag_inexact)).
Proof.
  destruct (format_conversions_round_correctly nearest nearest_valid) as [S D]. split.
  - exact (S 1 ltac:(unfold fits; lia)).
  - exact (D 1 ltac:(unfold fits; lia)).
Defined.

(** C26. Conversions from integers: the integer rounded once, from 32 or 64
    bits, signed or not, to either format. *)
Theorem integers_convert_correctly e :
  valid_mode (mode e) ->
  (forall a, - 2 ^ 31 <= a < 2 ^ 31 ->
     implements (i32_to_f32 a) e (of_int binary32 (mode e) a) /\ implements (i32_to_f64 a) e (of_int binary64 (mode e) a)) /\
  (forall a, fits 32 a ->
     implements (ui32_to_f32 a) e (of_int binary32 (mode e) a) /\ implements (ui32_to_f64 a) e (of_int binary64 (mode e) a)) /\
  (forall a, - 2 ^ 63 <= a < 2 ^ 63 ->
     implements (i64_to_f32 a) e (of_int binary32 (mode e) a) /\ implements (i64_to_f64 a) e (of_int binary64 (mode e) a)) /\
  (forall a, fits 64 a ->
     implements (ui64_to_f32 a) e (of_int binary32 (mode e) a) /\ implements (ui64_to_f64 a) e (of_int binary64 (mode e) a)).
Proof.
  intros V. split_and!; intros a Ha; split;
    [apply i32_to_f32_correct | apply i32_to_f64_correct | apply ui32_to_f32_correct | apply ui32_to_f64_correct
    |apply i64_to_f32_correct | apply i64_to_f64_correct | apply ui64_to_f32_correct | apply ui64_to_f64_correct]; assumption.
Qed.

(** 2^24 + 1 is a tie in single precision; -2^63 is exact. *)
Lemma integers_convert_correctly_witness :
  i32_to_f32 16777217 nearest = (0x4B800000, mk_fenv softfloat_round_near_even softfloat_flag_inexact) /\
  i64_to_f64 (- 2 ^ 63) nearest = (0xC3E0000000000000, nearest).
Proof.
  destruct (integers_convert_correctly nearest nearest_valid) as (S & _ & L & _). split.
  - exact (proj1 (S 16777217 ltac:(lia))).
  - exact (proj2 (L (- 2 ^ 63) ltac:(lia))).
Defined.

(** C27. Conversions to integers, in the modes of instructions: the operand
    rounded once to an integer, or the end of the range that is nearest with
    the invalid flag; NaN converts to the greatest integer. *)
Theorem conversions_to_integers_saturate e rm :
  0 <= rm <= 4 ->
  (forall a, fits 32 a ->
     implements (f32_to_i32 a rm true) e (to_int binary32 (- 2 ^ 31) (2 ^ 31 - 1) rm a) /\
     implements (f32_to_ui32 a rm true) e (to_int binary32 0 (2 ^ 32 - 1) rm a) /\
     implements (f32_to_i64 a rm true) e (to_int binary32 (- 2 ^ 63) (2 ^ 63 - 1) rm a) /\
     implements (f32_to_ui64 a rm true) e (to_int binary32 0 (2 ^ 64 - 1) rm a)) /\
  (forall a, fits 64 a ->
     implements (f64_to_i32 a rm true) e (to_int binary64 (- 2 ^ 31) (2 ^ 31 - 1) rm a) /\
     implements (f64_to_ui32 a rm true) e (to_int binary64 0 (2 ^ 32 - 1) rm a) /\
     implements (f64_to_i64 a rm true) e (to_int binary64 (- 2 ^ 63) (2 ^ 63 - 1) rm a) /\
     implements (f64_to_ui64 a rm true) e (to_int binary64 0 (2 ^ 64 - 1) rm a)).
Proof.
  intros V. split; intros a Ha; split_and!;
    [apply f32_to_i32_correct | apply f32_to_ui32_correct | apply f32_to_i64_correct | apply f32_to_ui64_correct
    |apply f64_to_i32_correct | apply f64_to_ui32_correct | apply f64_to_i64_correct | apply f64_to_ui64_correct]; assumption.
Qed.

(** 2.5 rounds down to 2, upwards to 3; -1 is no unsigned integer. *)
Lemma conversions_to_integers_saturate_witness :
  f32_to_i32 0x40200000 softfloat_round_max true nearest = (3, mk_fenv softfloat_round_near_even softfloat_flag_inexact) /\
  f64_to_ui64 0xBFF0000000000000 softfloat_round_max true nearest = (0, mk_fenv softfloat_round_near_even softfloat_flag_invalid).
Proof.
  destruct (conversions_to_integers_saturate nearest softfloat_round_max ltac:(unfold softfloat_round_max; lia)) as [S D]. split.
  - exact (proj1 (S 0x40200000 ltac:(unfold fits; lia))).
  - exact (proj2 (proj2 (proj2 (D 0xBFF0000000000000 ltac:(unfold fits; lia))))).
Defined.
