(* ===== verification/Encoding.v ===== *)
(** * Encoding: the constants of [riscv/encoding.h]

    Fields of the status registers, debug and trigger registers, interrupt
    and privilege numbers, address-translation and PMP encodings, page-table
    entry bits, CSR numbers and exception causes, by their C names.  Constants
    that the modelled code does not mention are left out from the CSR list. *)
From Stdlib Require Import ZArith.
#[local] Open Scope Z_scope.

Definition IRQ_U_SOFT : Z := 0.
Definition IRQ_S_SOFT : Z := 1.
Definition IRQ_VS_SOFT : Z := 2.
Definition IRQ_M_SOFT : Z := 3.
Definition IRQ_U_TIMER : Z := 4.
Definition IRQ_S_TIMER : Z := 5.
Definition IRQ_VS_TIMER : Z := 6.
Definition IRQ_M_TIMER : Z := 7.
Definition IRQ_U_EXT : Z := 8.
Definition IRQ_S_EXT : Z := 9.
Definition IRQ_VS_EXT : Z := 10.
Definition IRQ_M_EXT : Z := 11.
Definition IRQ_S_GEXT : Z := 12.
Definition IRQ_COP : Z := 12.
Definition IRQ_HOST : Z := 13.
Definition MSTATUS_UIE : Z := 0x00000001.
Definition MSTATUS_SIE : Z := 0x00000002.
Definition MSTATUS_HIE : Z := 0x00000004.
Definition MSTATUS_MIE : Z := 0x00000008.
Definition MSTATUS_UPIE : Z := 0x00000010.
Definition MSTATUS_SPIE : Z := 0x00000020.
Definition MSTATUS_HPIE : Z := 0x00000040.
Definition MSTATUS_MPIE : Z := 0x00000080.
Definition MSTATUS_SPP : Z := 0x00000100.
Definition MSTATUS_VS : Z := 0x00000600.
Definition MSTATUS_MPP : Z := 0x00001800.
Definition MSTATUS_FS : Z := 0x00006000.
Definition MSTATUS_XS : Z := 0x00018000.
Definition MSTATUS_MPRV : Z := 0x00020000.
Definition MSTATUS_SUM : Z := 0x00040000.
Definition MSTATUS_MXR : Z := 0x00080000.
Definition MSTATUS_TVM : Z := 0x00100000.
Definition MSTATUS_TW : Z := 0x00200000.
Definition MSTATUS_TSR : Z := 0x00400000.
Definition MSTATUS32_SD : Z := 0x80000000.
Definition MSTATUS_UXL : Z := 0x0000000300000000.
Definition MSTATUS_SXL : Z := 0x0000000C00000000.
Definition MSTATUS_GVA : Z := 0x0000004000000000.
Definition MSTATUS_MPV : Z := 0x0000008000000000.
Definition MSTATUS64_SD : Z := 0x8000000000000000.
Definition SSTATUS_UIE : Z := 0x00000001.
Definition SSTATUS_SIE : Z := 0x00000002.
Definition SSTATUS_UPIE : Z := 0x00000010.
Definition SSTATUS_SPIE : Z := 0x00000020.
Definition SSTATUS_SPP : Z := 0x00000100.
Definition SSTATUS_VS : Z := 0x00000600.
Definition SSTATUS_FS : Z := 0x00006000.
Definition SSTATUS_XS : Z := 0x00018000.
Definition SSTATUS_SUM : Z := 0x00040000.
Definition SSTATUS_MXR : Z := 0x00080000.
Definition SSTATUS32_SD : Z := 0x80000000.
Definition SSTATUS_UXL : Z := 0x0000000300000000.
Definition SSTATUS64_SD : Z := 0x8000000000000000.
Definition SSTATUS_VS_MASK : Z :=
  Z.lor (Z.lor (Z.lor (Z.lor (Z.lor SSTATUS_SIE SSTATUS_SPIE) SSTATUS_SPP) SSTATUS_SUM) SSTATUS_MXR) SSTATUS_UXL.
Definition HSTATUS_VSXL : Z := 0x300000000.
Definition HSTATUS_VTSR : Z := 0x00400000.
Definition HSTATUS_VTW : Z := 0x00200000.
Definition HSTATUS_VTVM : Z := 0x00100000.
Definition HSTATUS_VGEIN : Z := 0x0003f000.
Definition HSTATUS_HU : Z := 0x00000200.
Definition HSTATUS_SPVP : Z := 0x00000100.
Definition HSTATUS_SPV : Z := 0x00000080.
Definition HSTATUS_GVA : Z := 0x00000040.
Definition HSTATUS_VSBE : Z := 0x00000020.
Definition USTATUS_UIE : Z := 0x00000001.
Definition USTATUS_UPIE : Z := 0x00000010.
Definition DCSR_XDEBUGVER : Z := Z.shiftl 3 30.
Definition DCSR_NDRESET : Z := Z.shiftl 1 29.
Definition DCSR_FULLRESET : Z := Z.shiftl 1 28.
Definition DCSR_EBREAKM : Z := Z.shiftl 1 15.
Definition DCSR_EBREAKH : Z := Z.shiftl 1 14.
Definition DCSR_EBREAKS : Z := Z.shiftl 1 13.
Definition DCSR_EBREAKU : Z := Z.shiftl 1 12.
Definition DCSR_STOPCYCLE : Z := Z.shiftl 1 10.
Definition DCSR_STOPTIME : Z := Z.shiftl 1 9.
Definition DCSR_CAUSE : Z := Z.shiftl 7 6.
Definition DCSR_DEBUGINT : Z := Z.shiftl 1 5.
Definition DCSR_HALT : Z := Z.shiftl 1 3.
Definition DCSR_STEP : Z := Z.shiftl 1 2.
Definition DCSR_PRV : Z := Z.shiftl 3 0.
Definition DCSR_CAUSE_NONE : Z := 0.
Definition DCSR_CAUSE_SWBP : Z := 1.
Definition DCSR_CAUSE_HWBP : Z := 2.
Definition DCSR_CAUSE_DEBUGINT : Z := 3.
Definition DCSR_CAUSE_STEP : Z := 4.
Definition DCSR_CAUSE_HALT : Z := 5.
Definition DCSR_CAUSE_GROUP : Z := 6.
Definition MCONTROL_TYPE (xlen : Z) : Z := Z.shiftl 0xf (xlen - 4).
Definition MCONTROL_DMODE (xlen : Z) : Z := Z.shiftl 1 (xlen - 5).
Definition MCONTROL_MASKMAX (xlen : Z) : Z := Z.shiftl 0x3f (xlen - 11).
Definition MCONTROL_SELECT : Z := Z.shiftl 1 19.
Definition MCONTROL_TIMING : Z := Z.shiftl 1 18.
Definition MCONTROL_ACTION : Z := Z.shiftl 0x3f 12.
Definition MCONTROL_CHAIN : Z := Z.shiftl 1 11.
Definition MCONTROL_MATCH : Z := Z.shiftl 0xf 7.
Definition MCONTROL_M : Z := Z.shiftl 1 6.
Definition MCONTROL_H : Z := Z.shiftl 1 5.
Definition MCONTROL_S : Z := Z.shiftl 1 4.
Definition MCONTROL_U : Z := Z.shiftl 1 3.
Definition MCONTROL_EXECUTE : Z := Z.shiftl 1 2.
Definition MCONTROL_STORE : Z := Z.shiftl 1 1.
Definition MCONTROL_LOAD : Z := Z.shiftl 1 0.
Definition MCONTROL_TYPE_NONE : Z := 0.
Definition MCONTROL_TYPE_MATCH : Z := 2.
Definition MCONTROL_ACTION_DEBUG_EXCEPTION : Z := 0.
Definition MCONTROL_ACTION_DEBUG_MODE : Z := 1.
Definition MCONTROL_ACTION_TRACE_START : Z := 2.
Definition MCONTROL_ACTION_TRACE_STOP : Z := 3.
Definition MCONTROL_ACTION_TRACE_EMIT : Z := 4.
Definition MCONTROL_MATCH_EQUAL : Z := 0.
Definition MCONTROL_MATCH_NAPOT : Z := 1.
Definition MCONTROL_MATCH_GE : Z := 2.
Definition MCONTROL_MATCH_LT : Z := 3.
Definition MCONTROL_MATCH_MASK_LOW : Z := 4.
Definition MCONTROL_MATCH_MASK_HIGH : Z := 5.
Definition MIP_USIP : Z := Z.shiftl 1 IRQ_U_SOFT.
Definition MIP_SSIP : Z := Z.shiftl 1 IRQ_S_SOFT.
Definition MIP_VSSIP : Z := Z.shiftl 1 IRQ_VS_SOFT.
Definition MIP_MSIP : Z := Z.shiftl 1 IRQ_M_SOFT.
Definition MIP_UTIP : Z := Z.shiftl 1 IRQ_U_TIMER.
Definition MIP_STIP : Z := Z.shiftl 1 IRQ_S_TIMER.
Definition MIP_VSTIP : Z := Z.shiftl 1 IRQ_VS_TIMER.
Definition MIP_MTIP : Z := Z.shiftl 1 IRQ_M_TIMER.
Definition MIP_UEIP : Z := Z.shiftl 1 IRQ_U_EXT.
Definition MIP_SEIP : Z := Z.shiftl 1 IRQ_S_EXT.
Definition MIP_VSEIP : Z := Z.shiftl 1 IRQ_VS_EXT.
Definition MIP_MEIP : Z := Z.shiftl 1 IRQ_M_EXT.
Definition MIP_SGEIP : Z := Z.shiftl 1 IRQ_S_GEXT.
Definition MIP_S_MASK : Z := Z.lor (Z.lor MIP_SSIP MIP_STIP) MIP_SEIP.
Definition MIP_VS_MASK : Z := Z.lor (Z.lor MIP_VSSIP MIP_VSTIP) MIP_VSEIP.
Definition MIP_HS_MASK : Z := Z.lor MIP_VS_MASK MIP_SGEIP.
Definition MIDELEG_FORCED_MASK : Z := MIP_HS_MASK.
Definition SIP_SSIP : Z := MIP_SSIP.
Definition SIP_STIP : Z := MIP_STIP.
Definition PRV_U : Z := 0.
Definition PRV_S : Z := 1.
Definition PRV_M : Z := 3.
Definition PRV_HS : Z := PRV_S + 1.
Definition SATP32_MODE : Z := 0x80000000.
Definition SATP32_ASID : Z := 0x7FC00000.
Definition SATP32_PPN : Z := 0x003FFFFF.
Definition SATP64_MODE : Z := 0xF000000000000000.
Definition SATP64_ASID : Z := 0x0FFFF00000000000.
Definition SATP64_PPN : Z := 0x00000FFFFFFFFFFF.
Definition SATP_MODE_OFF : Z := 0.
Definition SATP_MODE_SV32 : Z := 1.
Definition SATP_MODE_SV39 : Z := 8.
Definition SATP_MODE_SV48 : Z := 9.
Definition SATP_MODE_SV57 : Z := 10.
Definition SATP_MODE_SV64 : Z := 11.
Definition HGATP32_MODE : Z := 0x80000000.
Definition HGATP32_VMID : Z := 0x1FC00000.
Definition HGATP32_PPN : Z := 0x003FFFFF.
Definition HGATP64_MODE : Z := 0xF000000000000000.
Definition HGATP64_VMID : Z := 0x03FFF00000000000.
Definition HGATP64_PPN : Z := 0x00000FFFFFFFFFFF.
Definition HGATP_MODE_OFF : Z := 0.
Definition HGATP_MODE_SV32X4 : Z := 1.
Definition HGATP_MODE_SV39X4 : Z := 8.
Definition HGATP_MODE_SV48X4 : Z := 9.
Definition PMP_R : Z := 0x01.
Definition PMP_W : Z := 0x02.
Definition PMP_X : Z := 0x04.
Definition PMP_A : Z := 0x18.
Definition PMP_L : Z := 0x80.
Definition PMP_SHIFT : Z := 2.
Definition PMP_TOR : Z := 0x08.
Definition PMP_NA4 : Z := 0x10.
Definition PMP_NAPOT : Z := 0x18.
Definition DEFAULT_RSTVEC : Z := 0x00010000.
Definition CLINT_BASE : Z := 0x02000000.
Definition CLINT_SIZE : Z := 0x000c0000.
Definition EXT_IO_BASE : Z := 0x40000000.
Definition DRAM_BASE : Z := 0x80000000.
Definition PTE_V : Z := 0x001.
Definition PTE_R : Z := 0x002.
Definition PTE_W : Z := 0x004.
Definition PTE_X : Z := 0x008.
Definition PTE_U : Z := 0x010.
Definition PTE_G : Z := 0x020.
Definition PTE_A : Z := 0x040.
Definition PTE_D : Z := 0x080.
Definition PTE_SOFT : Z := 0x300.
Definition PTE_PPN_SHIFT : Z := 10.
Definition PTE_TABLE (PTE : Z) : bool :=
  Z.land PTE (Z.lor (Z.lor (Z.lor PTE_V PTE_R) PTE_W) PTE_X) =? PTE_V.
Definition CSR_FFLAGS : Z := 0x1.
Definition CSR_FRM : Z := 0x2.
Definition CSR_FCSR : Z := 0x3.
Definition CSR_VSTART : Z := 0x8.
Definition CSR_VXSAT : Z := 0x9.
Definition CSR_VXRM : Z := 0xa.
Definition CSR_VCSR : Z := 0xf.
Definition CSR_CYCLE : Z := 0xc00.
Definition CSR_INSTRET : Z := 0xc02.
Definition CSR_HPMCOUNTER3 : Z := 0xc03.
Definition CSR_HPMCOUNTER31 : Z := 0xc1f.
Definition CSR_VL : Z := 0xc20.
Definition CSR_VTYPE : Z := 0xc21.
Definition CSR_VLENB : Z := 0xc22.
Definition CSR_SSTATUS : Z := 0x100.
Definition CSR_SIE : Z := 0x104.
Definition CSR_STVEC : Z := 0x105.
Definition CSR_SCOUNTEREN : Z := 0x106.
Definition CSR_SSCRATCH : Z := 0x140.
Definition CSR_SEPC : Z := 0x141.
Definition CSR_SCAUSE : Z := 0x142.
Definition CSR_STVAL : Z := 0x143.
Definition CSR_SIP : Z := 0x144.
Definition CSR_SATP : Z := 0x180.
Definition CSR_VSSTATUS : Z := 0x200.
Definition CSR_VSIE : Z := 0x204.
Definition CSR_VSTVEC : Z := 0x205.
Definition CSR_VSSCRATCH : Z := 0x240.
Definition CSR_VSEPC : Z := 0x241.
Definition CSR_VSCAUSE : Z := 0x242.
Definition CSR_VSTVAL : Z := 0x243.
Definition CSR_VSIP : Z := 0x244.
Definition CSR_VSATP : Z := 0x280.
Definition CSR_HSTATUS : Z := 0x600.
Definition CSR_HEDELEG : Z := 0x602.
Definition CSR_HIDELEG : Z := 0x603.
Definition CSR_HIE : Z := 0x604.
Definition CSR_HTIMEDELTA : Z := 0x605.
Definition CSR_HCOUNTEREN : Z := 0x606.
Definition CSR_HGEIE : Z := 0x607.
Definition CSR_HTVAL : Z := 0x643.
Definition CSR_HIP : Z := 0x644.
Definition CSR_HVIP : Z := 0x645.
Definition CSR_HTINST : Z := 0x64a.
Definition CSR_HGATP : Z := 0x680.
Definition CSR_HGEIP : Z := 0xe12.
Definition CSR_MSTATUS : Z := 0x300.
Definition CSR_MISA : Z := 0x301.
Definition CSR_MEDELEG : Z := 0x302.
Definition CSR_MIDELEG : Z := 0x303.
Definition CSR_MIE : Z := 0x304.
Definition CSR_MTVEC : Z := 0x305.
Definition CSR_MCOUNTEREN : Z := 0x306.
Definition CSR_MCOUNTINHIBIT : Z := 0x320.
Definition CSR_MSCRATCH : Z := 0x340.
Definition CSR_MEPC : Z := 0x341.
Definition CSR_MCAUSE : Z := 0x342.
Definition CSR_MTVAL : Z := 0x343.
Definition CSR_MIP : Z := 0x344.
Definition CSR_MTINST : Z := 0x34a.
Definition CSR_MTVAL2 : Z := 0x34b.
Definition CSR_PMPCFG0 : Z := 0x3a0.
Definition CSR_PMPADDR0 : Z := 0x3b0.
Definition CSR_TSELECT : Z := 0x7a0.
Definition CSR_TDATA1 : Z := 0x7a1.
Definition CSR_TDATA2 : Z := 0x7a2.
Definition CSR_TDATA3 : Z := 0x7a3.
Definition CSR_DCSR : Z := 0x7b0.
Definition CSR_DPC : Z := 0x7b1.
Definition CSR_DSCRATCH0 : Z := 0x7b2.
Definition CSR_DSCRATCH1 : Z := 0x7b3.
Definition CSR_MCYCLE : Z := 0xb00.
Definition CSR_MINSTRET : Z := 0xb02.
Definition CSR_MHPMCOUNTER3 : Z := 0xb03.
Definition CSR_MHPMCOUNTER31 : Z := 0xb1f.
Definition CSR_MHPMEVENT3 : Z := 0x323.
Definition CSR_MHPMEVENT31 : Z := 0x33f.
Definition CSR_MVENDORID : Z := 0xf11.
Definition CSR_MARCHID : Z := 0xf12.
Definition CSR_MIMPID : Z := 0xf13.
Definition CSR_MHARTID : Z := 0xf14.
Definition CSR_HTIMEDELTAH : Z := 0x615.
Definition CSR_CYCLEH : Z := 0xc80.
Definition CSR_INSTRETH : Z := 0xc82.
Definition CSR_HPMCOUNTER3H : Z := 0xc83.
Definition CSR_HPMCOUNTER31H : Z := 0xc9f.
Definition CSR_MCYCLEH : Z := 0xb80.
Definition CSR_MINSTRETH : Z := 0xb82.
Definition CSR_MHPMCOUNTER3H : Z := 0xb83.
Definition CSR_MHPMCOUNTER31H : Z := 0xb9f.
Definition CAUSE_MISALIGNED_FETCH : Z := 0x0.
Definition CAUSE_FETCH_ACCESS : Z := 0x1.
Definition CAUSE_ILLEGAL_INSTRUCTION : Z := 0x2.
Definition CAUSE_BREAKPOINT : Z := 0x3.
Definition CAUSE_MISALIGNED_LOAD : Z := 0x4.
Definition CAUSE_LOAD_ACCESS : Z := 0x5.
Definition CAUSE_MISALIGNED_STORE : Z := 0x6.
Definition CAUSE_STORE_ACCESS : Z := 0x7.
Definition CAUSE_USER_ECALL : Z := 0x8.
Definition CAUSE_SUPERVISOR_ECALL : Z := 0x9.
Definition CAUSE_VIRTUAL_SUPERVISOR_ECALL : Z := 0xa.
Definition CAUSE_MACHINE_ECALL : Z := 0xb.
Definition CAUSE_FETCH_PAGE_FAULT : Z := 0xc.
Definition CAUSE_LOAD_PAGE_FAULT : Z := 0xd.
Definition CAUSE_STORE_PAGE_FAULT : Z := 0xf.
Definition CAUSE_FETCH_GUEST_PAGE_FAULT : Z := 0x14.
Definition CAUSE_LOAD_GUEST_PAGE_FAULT : Z := 0x15.
Definition CAUSE_VIRTUAL_INSTRUCTION : Z := 0x16.
Definition CAUSE_STORE_GUEST_PAGE_FAULT : Z := 0x17.
