(* ===== verification/Decode.v ===== *)
(** * Decode: the fields of an instruction word ([riscv/decode.h])

    [insn_t] wraps the 64-bit [insn_bits_t]; its methods select register
    numbers and assemble immediates.  A field of type [uint64_t] is the [Z] in
    [[0, 2^64)], one of type [int64_t] the signed [Z].  The second half gives
    the instruction formats of the ISA as encoders and shows that the methods
    read back what was encoded. *)
From Stdlib Require Import ZArith Lia Bool List.
From stdpp Require Import base list.
From S2P Require Import Prelude.
#[local] Open Scope Z_scope.
#[local] Open Scope word_scope.

Definition insn_length (x : Z) : Z :=
  if x &w 0x03 <? 0x03 then 2
  else if x &w 0x1f <? 0x1f then 4
  else if x &w 0x3f <? 0x3f then 6
  else 8.

(** [insn_t]: its only member is [insn_bits_t b]. *)
Record insn_t := mk_insn { b : Z }.

Module Insn.

Definition x (i : insn_t) (lo len : Z) : Z := (b i >>w lo) &w ((1 <<w len) -w 1).
Definition xs (i : insn_t) (lo len : Z) : Z :=
  u64 (s64 (Z.shiftl (s64 (b i)) (64 - lo - len)) >>w (64 - len)).
Definition imm_sign (i : insn_t) : Z := xs i 63 1.

Definition length (i : insn_t) : Z := insn_length (b i).
(** For a length of 8 the C++ shifts by the width, which is undefined; here the
    result is then the whole word. *)
Definition bits (i : insn_t) : Z := b i &w not64 ((2 ^ 64 - 1) <<w (length i * 8)).

Definition i_imm (i : insn_t) : Z := s64 (b i) >>w 20.
Definition shamt (i : insn_t) : Z := x i 20 6.
Definition s_imm (i : insn_t) : Z := s64 (x i 7 5 +w (xs i 25 7 <<w 5)).
Definition sb_imm (i : insn_t) : Z :=
  s64 ((x i 8 4 <<w 1) +w (x i 25 6 <<w 5) +w (x i 7 1 <<w 11) +w (imm_sign i <<w 12)).
Definition u_imm (i : insn_t) : Z := s64 (Z.shiftl (s64 (b i) >>w 12) 12).
Definition uj_imm (i : insn_t) : Z :=
  s64 ((x i 21 10 <<w 1) +w (x i 20 1 <<w 11) +w (x i 12 8 <<w 12) +w (imm_sign i <<w 20)).
Definition rd (i : insn_t) : Z := x i 7 5.
Definition rs1 (i : insn_t) : Z := x i 15 5.
Definition rs2 (i : insn_t) : Z := x i 20 5.
Definition rs3 (i : insn_t) : Z := x i 27 5.
Definition rm (i : insn_t) : Z := x i 12 3.
Definition csr (i : insn_t) : Z := x i 20 12.

Definition rvc_imm (i : insn_t) : Z := s64 (x i 2 5 +w (xs i 12 1 <<w 5)).
Definition rvc_zimm (i : insn_t) : Z := s64 (x i 2 5 +w (x i 12 1 <<w 5)).
Definition rvc_addi4spn_imm (i : insn_t) : Z :=
  s64 ((x i 6 1 <<w 2) +w (x i 5 1 <<w 3) +w (x i 11 2 <<w 4) +w (x i 7 4 <<w 6)).
Definition rvc_addi16sp_imm (i : insn_t) : Z :=
  s64 ((x i 6 1 <<w 4) +w (x i 2 1 <<w 5) +w (x i 5 1 <<w 6) +w (x i 3 2 <<w 7)
       +w (xs i 12 1 <<w 9)).
Definition rvc_lwsp_imm (i : insn_t) : Z :=
  s64 ((x i 4 3 <<w 2) +w (x i 12 1 <<w 5) +w (x i 2 2 <<w 6)).
Definition rvc_ldsp_imm (i : insn_t) : Z :=
  s64 ((x i 5 2 <<w 3) +w (x i 12 1 <<w 5) +w (x i 2 3 <<w 6)).
Definition rvc_swsp_imm (i : insn_t) : Z := s64 ((x i 9 4 <<w 2) +w (x i 7 2 <<w 6)).
Definition rvc_sdsp_imm (i : insn_t) : Z := s64 ((x i 10 3 <<w 3) +w (x i 7 3 <<w 6)).
Definition rvc_lw_imm (i : insn_t) : Z :=
  s64 ((x i 6 1 <<w 2) +w (x i 10 3 <<w 3) +w (x i 5 1 <<w 6)).
Definition rvc_ld_imm (i : insn_t) : Z := s64 ((x i 10 3 <<w 3) +w (x i 5 2 <<w 6)).
Definition rvc_j_imm (i : insn_t) : Z :=
  s64 ((x i 3 3 <<w 1) +w (x i 11 1 <<w 4) +w (x i 2 1 <<w 5) +w (x i 7 1 <<w 6)
       +w (x i 6 1 <<w 7) +w (x i 9 2 <<w 8) +w (x i 8 1 <<w 10) +w (xs i 12 1 <<w 11)).
Definition rvc_b_imm (i : insn_t) : Z :=
  s64 ((x i 3 2 <<w 1) +w (x i 10 2 <<w 3) +w (x i 2 1 <<w 5) +w (x i 5 2 <<w 6)
       +w (xs i 12 1 <<w 8)).
Definition rvc_simm3 (i : insn_t) : Z := s64 (x i 10 3).
Definition rvc_rd (i : insn_t) : Z := rd i.
Definition rvc_rs1 (i : insn_t) : Z := rd i.
Definition rvc_rs2 (i : insn_t) : Z := x i 2 5.
Definition rvc_rs1s (i : insn_t) : Z := 8 +w x i 7 3.
Definition rvc_rs2s (i : insn_t) : Z := 8 +w x i 2 3.

Definition v_vm (i : insn_t) : Z := x i 25 1.
Definition v_wd (i : insn_t) : Z := x i 26 1.
Definition v_nf (i : insn_t) : Z := x i 29 3.
Definition v_simm5 (i : insn_t) : Z := xs i 15 5.
Definition v_zimm5 (i : insn_t) : Z := x i 15 5.
Definition v_zimm11 (i : insn_t) : Z := x i 20 11.
Definition v_lmul (i : insn_t) : Z := x i 20 2.
Definition v_frac_lmul (i : insn_t) : Z := x i 22 1.
Definition v_sew (i : insn_t) : Z := u64 (Z.shiftl 1 (x i 23 3 +w 3)).
Definition v_width (i : insn_t) : Z := x i 12 3.
Definition v_mop (i : insn_t) : Z := x i 26 2.
Definition v_lumop (i : insn_t) : Z := x i 20 5.
Definition v_sumop (i : insn_t) : Z := x i 20 5.
Definition v_vta (i : insn_t) : Z := x i 26 1.
Definition v_vma (i : insn_t) : Z := x i 27 1.
Definition v_mew (i : insn_t) : Z := x i 28 1.

End Insn.

(** [get_field] and [set_field] on a 64-bit register; the factor
    [mask & ~(mask << 1)] is the lowest bit of the field. *)
Definition field_lsb (mask : Z) : Z := mask &w Z.lnot (Z.shiftl mask 1).
Definition get_field (reg mask : Z) : Z := (reg &w mask) / field_lsb mask.
Definition set_field (reg mask val : Z) : Z :=
  (reg &w not64 mask) |w ((val *w field_lsb mask) &w mask).

Definition sext32 (x : Z) : Z := s32 x.
Definition zext32 (x : Z) : Z := u32 x.
Definition sext_xlen (xlen x : Z) : Z := s64 (Z.shiftl (s64 x) (64 - xlen)) >>w (64 - xlen).
Definition zext_xlen (xlen x : Z) : Z := (u64 x <<w (64 - xlen)) >>w (64 - xlen).

(** ** The fields as arithmetic *)
Section Fields.
Import Insn.

Lemma x_div i lo len : 0 <= lo -> 0 <= len < 64 ->
  x i lo len = (b i / 2 ^ lo) mod 2 ^ len.
Proof.
  intros. unfold x, shl64, sub64. rewrite uw_sub_l, Z.shiftl_1_l.
  pose proof (Z.pow_lt_mono_r 2 len 64 ltac:(lia) ltac:(lia) ltac:(lia)).
  pose proof (pow2_pos len ltac:(lia)).
  rewrite uw_small by (unfold fits; lia).
  replace (2 ^ len - 1) with (Z.ones len) by (rewrite Z.ones_equiv; lia).
  rewrite Z.land_ones, Z.shiftr_div_pow2 by lia. reflexivity.
Qed.

Lemma x_range i lo len : 0 <= lo -> 0 <= len < 64 -> 0 <= x i lo len < 2 ^ len.
Proof. intros. rewrite x_div by lia. apply Z.mod_pos_bound, pow2_pos. lia. Qed.

Lemma xs_signed i lo len : 0 <= lo -> 0 < len -> lo + len <= 64 ->
  xs i lo len = u64 (sw len (b i / 2 ^ lo)).
Proof.
  intros. unfold xs. f_equal. rewrite Z.shiftl_mul_pow2, Z.shiftr_div_pow2 by lia.
  replace (64 - len) with (64 - lo - len + lo) by lia.
  replace 64 with (lo + len + (64 - lo - len)) at 1 by lia.
  rewrite sw_mul_pow by lia. rewrite (Z.add_comm (64 - lo - len) lo), Z.pow_add_r by lia.
  rewrite <- Z.div_div by (try apply Z.pow_nonzero; try apply pow2_pos; lia).
  pose proof (pow2_pos lo ltac:(lia)).
  rewrite (Z.mul_comm _ (2 ^ (64 - lo - len))).
  replace (2 ^ (64 - lo - len) * sw (lo + len) (s64 (b i)) / 2 ^ lo / 2 ^ (64 - lo - len))
    with (sw (lo + len) (s64 (b i)) / 2 ^ lo).
  - rewrite (Z.add_comm lo len), sw_div_pow by lia.
    rewrite <- sw_div_pow, (Z.add_comm len lo) by lia.
    rewrite <- sw_of_uw with (w := 64), uw_sw, sw_of_uw by lia.
    rewrite (Z.add_comm lo len). apply sw_div_pow; lia.
  - rewrite !Z.div_div by (try apply Z.pow_nonzero; try apply pow2_pos; lia).
    rewrite (Z.mul_comm (2 ^ lo)), Z.div_mul_cancel_l by (try apply Z.pow_nonzero; lia).
    reflexivity.
Qed.

Lemma sext_xlen_sw xlen v : 0 < xlen <= 64 -> sext_xlen xlen v = sw xlen v.
Proof.
  intros. unfold sext_xlen. rewrite Z.shiftl_mul_pow2, Z.shiftr_div_pow2 by lia.
  replace 64 with (xlen + (64 - xlen)) at 1 by lia.
  rewrite sw_mul_pow by lia. rewrite Z.div_mul by (apply Z.pow_nonzero; lia).
  rewrite <- (sw_of_uw xlen 64), uw_sw, sw_of_uw by lia. reflexivity.
Qed.

Lemma zext_xlen_uw xlen v : 0 < xlen <= 64 -> zext_xlen xlen v = uw xlen v.
Proof.
  intros. unfold zext_xlen, shl64. rewrite Z.shiftl_mul_pow2, Z.shiftr_div_pow2 by lia.
  unfold uw. rewrite Zmult_mod_idemp_l.
  replace 64 with (xlen + (64 - xlen)) at 2 by lia. rewrite Z.pow_add_r by lia.
  rewrite Z.mul_mod_distr_r by (try apply Z.pow_nonzero; lia).
  rewrite Z.div_mul by (apply Z.pow_nonzero; lia). reflexivity.
Qed.

(** What [refill_icache] passes to an instruction: the fetched parcel,
    sign-extended to 64 bits ([int16_t] casts of its last half-word). *)
Definition fetched32 (w : Z) : insn_t := mk_insn (u64 (s32 w)).
Definition fetched16 (w : Z) : insn_t := mk_insn (u64 (s16 w)).

Lemma x_fetched32 w lo len : 0 <= lo -> 0 <= len < 64 -> lo + len <= 32 ->
  x (fetched32 w) lo len = (w / 2 ^ lo) mod 2 ^ len.
Proof.
  intros. rewrite x_div, !div_mod_pow by lia. f_equal. cbn [b fetched32].
  change (uw (len + lo) (u64 (s32 w)) = uw (len + lo) w).
  rewrite uw_uw, <- (uw_uw (len + lo) 32), uw_sw, uw_uw by lia. reflexivity.
Qed.

Lemma x_fetched16 w lo len : 0 <= lo -> 0 <= len < 64 -> lo + len <= 16 ->
  x (fetched16 w) lo len = (w / 2 ^ lo) mod 2 ^ len.
Proof.
  intros. rewrite x_div, !div_mod_pow by lia. f_equal. cbn [b fetched16].
  change (uw (len + lo) (u64 (s16 w)) = uw (len + lo) w).
  rewrite uw_uw, <- (uw_uw (len + lo) 16), uw_sw, uw_uw by lia. reflexivity.
Qed.

Lemma xs_fetched32 w lo len : 0 <= lo -> 0 < len -> lo + len <= 32 ->
  xs (fetched32 w) lo len = u64 (sw len ((w / 2 ^ lo) mod 2 ^ len)).
Proof.
  intros. rewrite xs_signed by lia. rewrite <- x_fetched32, x_div by lia.
  fold (uw len (b (fetched32 w) / 2 ^ lo)). now rewrite sw_uw.
Qed.

Lemma xs_fetched16 w lo len : 0 <= lo -> 0 < len -> lo + len <= 16 ->
  xs (fetched16 w) lo len = u64 (sw len ((w / 2 ^ lo) mod 2 ^ len)).
Proof.
  intros. rewrite xs_signed by lia. rewrite <- x_fetched16, x_div by lia.
  fold (uw len (b (fetched16 w) / 2 ^ lo)). now rewrite sw_uw.
Qed.

Lemma imm_sign_fetched32 w : fits 32 w -> imm_sign (fetched32 w) = u64 (sw 1 (w / 2 ^ 31)).
Proof.
  unfold fits. intros. unfold imm_sign. rewrite xs_signed by lia. f_equal. cbn [b fetched32].
  unfold sw, uw. change (2 ^ (32 - 1)) with (2 ^ 31). change (2 ^ (1 - 1)) with 1. change (2 ^ 1) with 2.
  bcases; Z.div_mod_to_equations; lia.
Qed.

Lemma i_imm_fetched32 w : fits 32 w -> i_imm (fetched32 w) = sw 12 (w / 2 ^ 20).
Proof.
  intros. unfold i_imm. cbn [b fetched32]. rewrite sw_uw, Z.shiftr_div_pow2 by lia.
  rewrite (sw_small 64) by (pose proof (sw_fits 32 w); unfold sfits in *; lia).
  now rewrite <- sw_div_pow by lia.
Qed.

Lemma u_imm_fetched32 w : fits 32 w -> u_imm (fetched32 w) = sw 20 (w / 2 ^ 12) * 2 ^ 12.
Proof.
  intros. unfold u_imm. cbn [b fetched32]. rewrite sw_uw, Z.shiftr_div_pow2, Z.shiftl_mul_pow2 by lia.
  rewrite (sw_small 64 (s32 w)) by (pose proof (sw_fits 32 w); unfold sfits in *; lia).
  rewrite <- sw_div_pow by lia. change (20 + 12) with 32. apply sw_small; [lia|].
  pose proof (sw_fits 32 w ltac:(lia)) as [? ?]. unfold sfits. Z.div_mod_to_equations; lia.
Qed.

End Fields.

(** ** The instruction formats of the ISA *)

Definition enc_I (op f3 rd rs1 imm : Z) : Z :=
  op + rd * 2 ^ 7 + f3 * 2 ^ 12 + rs1 * 2 ^ 15 + imm mod 2 ^ 12 * 2 ^ 20.
Definition enc_S (op f3 rs1 rs2 imm : Z) : Z :=
  op + imm mod 2 ^ 5 * 2 ^ 7 + f3 * 2 ^ 12 + rs1 * 2 ^ 15 + rs2 * 2 ^ 20
  + (imm / 2 ^ 5) mod 2 ^ 7 * 2 ^ 25.
Definition enc_B (op f3 rs1 rs2 imm : Z) : Z :=
  op + (imm / 2 ^ 11) mod 2 * 2 ^ 7 + (imm / 2) mod 2 ^ 4 * 2 ^ 8 + f3 * 2 ^ 12 + rs1 * 2 ^ 15
  + rs2 * 2 ^ 20 + (imm / 2 ^ 5) mod 2 ^ 6 * 2 ^ 25 + (imm / 2 ^ 12) mod 2 * 2 ^ 31.
Definition enc_U (op rd imm : Z) : Z :=
  op + rd * 2 ^ 7 + (imm / 2 ^ 12) mod 2 ^ 20 * 2 ^ 12.
Definition enc_J (op rd imm : Z) : Z :=
  op + rd * 2 ^ 7 + (imm / 2 ^ 12) mod 2 ^ 8 * 2 ^ 12 + (imm / 2 ^ 11) mod 2 * 2 ^ 20
  + (imm / 2) mod 2 ^ 10 * 2 ^ 21 + (imm / 2 ^ 20) mod 2 * 2 ^ 31.

Section Formats.
Import Insn.

Lemma u64_shiftl_l a n : 0 <= n -> u64 (Z.shiftl (u64 a) n) = u64 (Z.shiftl a n).
Proof. intros. rewrite !Z.shiftl_mul_pow2 by lia. apply uw_mul_l. Qed.

(** Strip the intermediate wrap-arounds of a sum of shifted fields. *)
Ltac strip64 :=
  unfold add64, shl64; rewrite ?u64_shiftl_l by lia;
  repeat (progress (autorewrite with word_rw; rewrite <- ?Z.add_assoc));
  rewrite !Z.shiftl_mul_pow2 by lia.

Ltac field_lia := unfold sw, uw in *; bcases; Z.div_mod_to_equations; lia.

Lemma s_imm_fetched32 w : fits 32 w ->
  s_imm (fetched32 w) = (w / 2 ^ 7) mod 2 ^ 5 + sw 7 ((w / 2 ^ 25) mod 2 ^ 7) * 2 ^ 5.
Proof.
  intros F. unfold s_imm. rewrite x_fetched32, xs_fetched32 by lia. strip64.
  pose proof (sw_fits 7 ((w / 2 ^ 25) mod 2 ^ 7) ltac:(lia)) as [? ?].
  rewrite sw_small; [ring|lia|]. unfold sfits. Z.div_mod_to_equations; lia.
Qed.

Lemma sb_imm_fetched32 w : fits 32 w ->
  sb_imm (fetched32 w) = (w / 2 ^ 8) mod 2 ^ 4 * 2 + (w / 2 ^ 25) mod 2 ^ 6 * 2 ^ 5
    + (w / 2 ^ 7) mod 2 * 2 ^ 11 + sw 1 (w / 2 ^ 31) * 2 ^ 12.
Proof.
  intros F. unfold sb_imm. rewrite !x_fetched32, imm_sign_fetched32 by (auto; lia). strip64.
  change (2 ^ 1) with 2. pose proof (sw_fits 1 (w / 2 ^ 31) ltac:(lia)) as [? ?].
  rewrite sw_small; [ring|lia|]. unfold sfits. Z.div_mod_to_equations; lia.
Qed.

Lemma uj_imm_fetched32 w : fits 32 w ->
  uj_imm (fetched32 w) = (w / 2 ^ 21) mod 2 ^ 10 * 2 + (w / 2 ^ 20) mod 2 * 2 ^ 11
    + (w / 2 ^ 12) mod 2 ^ 8 * 2 ^ 12 + sw 1 (w / 2 ^ 31) * 2 ^ 20.
Proof.
  intros F. unfold uj_imm. rewrite !x_fetched32, imm_sign_fetched32 by (auto; lia). strip64.
  change (2 ^ 1) with 2. pose proof (sw_fits 1 (w / 2 ^ 31) ltac:(lia)) as [? ?].
  rewrite sw_small; [ring|lia|]. unfold sfits. Z.div_mod_to_equations; lia.
Qed.

Lemma I_format op f3 rd' rs1' imm :
  fits 7 op -> fits 3 f3 -> fits 5 rd' -> fits 5 rs1' -> sfits 12 imm ->
  let i := fetched32 (enc_I op f3 rd' rs1' imm) in
  rd i = rd' /\ rs1 i = rs1' /\ rm i = f3 /\ i_imm i = imm.
Proof.
  intros Ho Hf Hd Hs Hi i. subst i. unfold fits, sfits, enc_I, rd, rs1, rm in *.
  rewrite !x_fetched32, i_imm_fetched32 by
    (try lia; unfold fits; Z.div_mod_to_equations; lia).
  repeat split; field_lia.
Qed.

Lemma S_format op f3 rs1' rs2' imm :
  fits 7 op -> fits 3 f3 -> fits 5 rs1' -> fits 5 rs2' -> sfits 12 imm ->
  let i := fetched32 (enc_S op f3 rs1' rs2' imm) in
  rs1 i = rs1' /\ rs2 i = rs2' /\ rm i = f3 /\ s_imm i = imm.
Proof.
  intros Ho Hf Hd Hs Hi i. subst i. unfold fits, sfits, enc_S, rs1, rs2, rm in *.
  rewrite s_imm_fetched32 by (unfold fits; Z.div_mod_to_equations; lia).
  rewrite !x_fetched32 by lia.
  repeat split; field_lia.
Qed.

Lemma B_format op f3 rs1' rs2' imm :
  fits 7 op -> fits 3 f3 -> fits 5 rs1' -> fits 5 rs2' -> sfits 13 imm -> imm mod 2 = 0 ->
  let i := fetched32 (enc_B op f3 rs1' rs2' imm) in
  rs1 i = rs1' /\ rs2 i = rs2' /\ rm i = f3 /\ sb_imm i = imm.
Proof.
  intros Ho Hf Hd Hs Hi He i. subst i. unfold fits, sfits, enc_B, rs1, rs2, rm in *.
  rewrite sb_imm_fetched32 by (unfold fits; Z.div_mod_to_equations; lia).
  rewrite !x_fetched32 by lia.
  repeat split; field_lia.
Qed.

Lemma U_format op rd' imm :
  fits 7 op -> fits 5 rd' -> sfits 32 imm -> imm mod 2 ^ 12 = 0 ->
  let i := fetched32 (enc_U op rd' imm) in rd i = rd' /\ u_imm i = imm.
Proof.
  intros Ho Hd Hi He i. subst i. unfold fits, sfits, enc_U, rd in *.
  rewrite u_imm_fetched32, !x_fetched32 by (try lia; unfold fits; Z.div_mod_to_equations; lia).
  repeat split; field_lia.
Qed.

Lemma J_format op rd' imm :
  fits 7 op -> fits 5 rd' -> sfits 21 imm -> imm mod 2 = 0 ->
  let i := fetched32 (enc_J op rd' imm) in rd i = rd' /\ uj_imm i = imm.
Proof.
  intros Ho Hd Hi He i. subst i. unfold fits, sfits, enc_J, rd in *.
  rewrite uj_imm_fetched32 by (unfold fits; Z.div_mod_to_equations; lia).
  rewrite !x_fetched32 by lia.
  repeat split; field_lia.
Qed.

End Formats.
