(* ===== verification/Opcodes.v ===== *)
(** * Opcodes: the instruction encodings

    The [MATCH_*] and [MASK_*] constants and the [DECLARE_INSN] table of
    [riscv/encoding.h], in the order of that file, and the list of instructions
    that [riscv/riscv.mk.in] builds into the simulator.  A table is cut into
    pieces of at most 150 lines of the source. *)
From Stdlib Require Import ZArith List String.
From stdpp Require Import base list gmap strings.
#[local] Open Scope Z_scope.
#[local] Open Scope string_scope.

(** [(name, (m, k))]: "[#define MATCH_name m]" and "[#define MASK_name k]" *)
Definition encodings_0 : list (string * (Z * Z)) := [
   ("SLLI_RV32", (0x1013, 0xfe00707f)); ("SRLI_RV32", (0x5013, 0xfe00707f));
   ("SRAI_RV32", (0x40005013, 0xfe00707f)); ("FRFLAGS", (0x102073, 0xfffff07f));
   ("FSFLAGS", (0x101073, 0xfff0707f)); ("FSFLAGSI", (0x105073, 0xfff0707f));
   ("FRRM", (0x202073, 0xfffff07f)); ("FSRM", (0x201073, 0xfff0707f)); ("FSRMI", (0x205073, 0xfff0707f));
   ("FSCSR", (0x301073, 0xfff0707f)); ("FRCSR", (0x302073, 0xfffff07f));
   ("RDCYCLE", (0xc0002073, 0xfffff07f)); ("RDTIME", (0xc0102073, 0xfffff07f));
   ("RDINSTRET", (0xc0202073, 0xfffff07f)); ("RDCYCLEH", (0xc8002073, 0xfffff07f));
   ("RDTIMEH", (0xc8102073, 0xfffff07f)); ("RDINSTRETH", (0xc8202073, 0xfffff07f));
   ("SCALL", (0x73, 0xffffffff)); ("SBREAK", (0x100073, 0xffffffff)); ("FMV_X_S", (0xe0000053, 0xfff0707f));
   ("FMV_S_X", (0xf0000053, 0xfff0707f)); ("FENCE_TSO", (0x8330000f, 0xfff0707f));
   ("PAUSE", (0x100000f, 0xffffffff)); ("BEQ", (0x63, 0x707f)); ("BNE", (0x1063, 0x707f));
   ("BLT", (0x4063, 0x707f)); ("BGE", (0x5063, 0x707f)); ("BLTU", (0x6063, 0x707f));
   ("BGEU", (0x7063, 0x707f)); ("JALR", (0x67, 0x707f)); ("JAL", (0x6f, 0x7f)); ("LUI", (0x37, 0x7f));
   ("AUIPC", (0x17, 0x7f)); ("ADDI", (0x13, 0x707f)); ("SLLI", (0x1013, 0xfc00707f));
   ("SLTI", (0x2013, 0x707f)); ("SLTIU", (0x3013, 0x707f)); ("XORI", (0x4013, 0x707f));
   ("SRLI", (0x5013, 0xfc00707f)); ("SRAI", (0x40005013, 0xfc00707f)); ("ORI", (0x6013, 0x707f));
   ("ANDI", (0x7013, 0x707f)); ("ADD", (0x33, 0xfe00707f)); ("SUB", (0x40000033, 0xfe00707f));
   ("SLL", (0x1033, 0xfe00707f)); ("SLT", (0x2033, 0xfe00707f)); ("SLTU", (0x3033, 0xfe00707f));
   ("XOR", (0x4033, 0xfe00707f)); ("SRL", (0x5033, 0xfe00707f)); ("SRA", (0x40005033, 0xfe00707f));
   ("OR", (0x6033, 0xfe00707f)); ("AND", (0x7033, 0xfe00707f)); ("LB", (0x3, 0x707f));
   ("LH", (0x1003, 0x707f)); ("LW", (0x2003, 0x707f)); ("LBU", (0x4003, 0x707f)); ("LHU", (0x5003, 0x707f));
   ("SB", (0x23, 0x707f)); ("SH", (0x1023, 0x707f)); ("SW", (0x2023, 0x707f)); ("FENCE", (0xf, 0x707f));
   ("FENCE_I", (0x100f, 0x707f)); ("ADDIW", (0x1b, 0x707f)); ("SLLIW", (0x101b, 0xfe00707f));
   ("SRLIW", (0x501b, 0xfe00707f)); ("SRAIW", (0x4000501b, 0xfe00707f)); ("ADDW", (0x3b, 0xfe00707f));
   ("SUBW", (0x4000003b, 0xfe00707f)); ("SLLW", (0x103b, 0xfe00707f)); ("SRLW", (0x503b, 0xfe00707f));
   ("SRAW", (0x4000503b, 0xfe00707f)); ("LD", (0x3003, 0x707f)); ("LWU", (0x6003, 0x707f));
   ("SD", (0x3023, 0x707f)); ("MUL", (0x2000033, 0xfe00707f))].

Definition encodings_1 : list (string * (Z * Z)) := [
   ("MULH", (0x2001033, 0xfe00707f)); ("MULHSU", (0x2002033, 0xfe00707f));
   ("MULHU", (0x2003033, 0xfe00707f)); ("DIV", (0x2004033, 0xfe00707f)); ("DIVU", (0x2005033, 0xfe00707f));
   ("REM", (0x2006033, 0xfe00707f)); ("REMU", (0x2007033, 0xfe00707f)); ("MULW", (0x200003b, 0xfe00707f));
   ("DIVW", (0x200403b, 0xfe00707f)); ("DIVUW", (0x200503b, 0xfe00707f)); ("REMW", (0x200603b, 0xfe00707f));
   ("REMUW", (0x200703b, 0xfe00707f)); ("AMOADD_W", (0x202f, 0xf800707f));
   ("AMOXOR_W", (0x2000202f, 0xf800707f)); ("AMOOR_W", (0x4000202f, 0xf800707f));
   ("AMOAND_W", (0x6000202f, 0xf800707f)); ("AMOMIN_W", (0x8000202f, 0xf800707f));
   ("AMOMAX_W", (0xa000202f, 0xf800707f)); ("AMOMINU_W", (0xc000202f, 0xf800707f));
   ("AMOMAXU_W", (0xe000202f, 0xf800707f)); ("AMOSWAP_W", (0x800202f, 0xf800707f));
   ("LR_W", (0x1000202f, 0xf9f0707f)); ("SC_W", (0x1800202f, 0xf800707f));
   ("AMOADD_D", (0x302f, 0xf800707f)); ("AMOXOR_D", (0x2000302f, 0xf800707f));
   ("AMOOR_D", (0x4000302f, 0xf800707f)); ("AMOAND_D", (0x6000302f, 0xf800707f));
   ("AMOMIN_D", (0x8000302f, 0xf800707f)); ("AMOMAX_D", (0xa000302f, 0xf800707f));
   ("AMOMINU_D", (0xc000302f, 0xf800707f)); ("AMOMAXU_D", (0xe000302f, 0xf800707f));
   ("AMOSWAP_D", (0x800302f, 0xf800707f)); ("LR_D", (0x1000302f, 0xf9f0707f));
   ("SC_D", (0x1800302f, 0xf800707f)); ("HFENCE_VVMA", (0x22000073, 0xfe007fff));
   ("HFENCE_GVMA", (0x62000073, 0xfe007fff)); ("HLV_B", (0x60004073, 0xfff0707f));
   ("HLV_BU", (0x60104073, 0xfff0707f)); ("HLV_H", (0x64004073, 0xfff0707f));
   ("HLV_HU", (0x64104073, 0xfff0707f)); ("HLVX_HU", (0x64304073, 0xfff0707f));
   ("HLV_W", (0x68004073, 0xfff0707f)); ("HLVX_WU", (0x68304073, 0xfff0707f));
   ("HSV_B", (0x62004073, 0xfe007fff)); ("HSV_H", (0x66004073, 0xfe007fff));
   ("HSV_W", (0x6a004073, 0xfe007fff)); ("HLV_WU", (0x68104073, 0xfff0707f));
   ("HLV_D", (0x6c004073, 0xfff0707f)); ("HSV_D", (0x6e004073, 0xfe007fff)); ("FADD_S", (0x53, 0xfe00007f));
   ("FSUB_S", (0x8000053, 0xfe00007f)); ("FMUL_S", (0x10000053, 0xfe00007f));
   ("FDIV_S", (0x18000053, 0xfe00007f)); ("FSGNJ_S", (0x20000053, 0xfe00707f));
   ("FSGNJN_S", (0x20001053, 0xfe00707f)); ("FSGNJX_S", (0x20002053, 0xfe00707f));
   ("FMIN_S", (0x28000053, 0xfe00707f)); ("FMAX_S", (0x28001053, 0xfe00707f));
   ("FSQRT_S", (0x58000053, 0xfff0007f)); ("FLE_S", (0xa0000053, 0xfe00707f));
   ("FLT_S", (0xa0001053, 0xfe00707f)); ("FEQ_S", (0xa0002053, 0xfe00707f));
   ("FCVT_W_S", (0xc0000053, 0xfff0007f)); ("FCVT_WU_S", (0xc0100053, 0xfff0007f));
   ("FMV_X_W", (0xe0000053, 0xfff0707f)); ("FCLASS_S", (0xe0001053, 0xfff0707f));
   ("FCVT_S_W", (0xd0000053, 0xfff0007f)); ("FCVT_S_WU", (0xd0100053, 0xfff0007f));
   ("FMV_W_X", (0xf0000053, 0xfff0707f)); ("FLW", (0x2007, 0x707f)); ("FSW", (0x2027, 0x707f));
   ("FMADD_S", (0x43, 0x600007f)); ("FMSUB_S", (0x47, 0x600007f)); ("FNMSUB_S", (0x4b, 0x600007f));
   ("FNMADD_S", (0x4f, 0x600007f))].

Definition encodings_2 : list (string * (Z * Z)) := [
   ("FCVT_L_S", (0xc0200053, 0xfff0007f)); ("FCVT_LU_S", (0xc0300053, 0xfff0007f));
   ("FCVT_S_L", (0xd0200053, 0xfff0007f)); ("FCVT_S_LU", (0xd0300053, 0xfff0007f));
   ("FADD_D", (0x2000053, 0xfe00007f)); ("FSUB_D", (0xa000053, 0xfe00007f));
   ("FMUL_D", (0x12000053, 0xfe00007f)); ("FDIV_D", (0x1a000053, 0xfe00007f));
   ("FSGNJ_D", (0x22000053, 0xfe00707f)); ("FSGNJN_D", (0x22001053, 0xfe00707f));
   ("FSGNJX_D", (0x22002053, 0xfe00707f)); ("FMIN_D", (0x2a000053, 0xfe00707f));
   ("FMAX_D", (0x2a001053, 0xfe00707f)); ("FCVT_S_D", (0x40100053, 0xfff0007f));
   ("FCVT_D_S", (0x42000053, 0xfff0007f)); ("FSQRT_D", (0x5a000053, 0xfff0007f));
   ("FLE_D", (0xa2000053, 0xfe00707f)); ("FLT_D", (0xa2001053, 0xfe00707f));
   ("FEQ_D", (0xa2002053, 0xfe00707f)); ("FCVT_W_D", (0xc2000053, 0xfff0007f));
   ("FCVT_WU_D", (0xc2100053, 0xfff0007f)); ("FCLASS_D", (0xe2001053, 0xfff0707f));
   ("FCVT_D_W", (0xd2000053, 0xfff0007f)); ("FCVT_D_WU", (0xd2100053, 0xfff0007f));
   ("FLD", (0x3007, 0x707f)); ("FSD", (0x3027, 0x707f)); ("FMADD_D", (0x2000043, 0x600007f));
   ("FMSUB_D", (0x2000047, 0x600007f)); ("FNMSUB_D", (0x200004b, 0x600007f));
   ("FNMADD_D", (0x200004f, 0x600007f)); ("FCVT_L_D", (0xc2200053, 0xfff0007f));
   ("FCVT_LU_D", (0xc2300053, 0xfff0007f)); ("FMV_X_D", (0xe2000053, 0xfff0707f));
   ("FCVT_D_L", (0xd2200053, 0xfff0007f)); ("FCVT_D_LU", (0xd2300053, 0xfff0007f));
   ("FMV_D_X", (0xf2000053, 0xfff0707f)); ("FADD_Q", (0x6000053, 0xfe00007f));
   ("FSUB_Q", (0xe000053, 0xfe00007f)); ("FMUL_Q", (0x16000053, 0xfe00007f));
   ("FDIV_Q", (0x1e000053, 0xfe00007f)); ("FSGNJ_Q", (0x26000053, 0xfe00707f));
   ("FSGNJN_Q", (0x26001053, 0xfe00707f)); ("FSGNJX_Q", (0x26002053, 0xfe00707f));
   ("FMIN_Q", (0x2e000053, 0xfe00707f)); ("FMAX_Q", (0x2e001053, 0xfe00707f));
   ("FCVT_S_Q", (0x40300053, 0xfff0007f)); ("FCVT_Q_S", (0x46000053, 0xfff0007f));
   ("FCVT_D_Q", (0x42300053, 0xfff0007f)); ("FCVT_Q_D", (0x46100053, 0xfff0007f));
   ("FSQRT_Q", (0x5e000053, 0xfff0007f)); ("FLE_Q", (0xa6000053, 0xfe00707f));
   ("FLT_Q", (0xa6001053, 0xfe00707f)); ("FEQ_Q", (0xa6002053, 0xfe00707f));
   ("FCVT_W_Q", (0xc6000053, 0xfff0007f)); ("FCVT_WU_Q", (0xc6100053, 0xfff0007f));
   ("FCLASS_Q", (0xe6001053, 0xfff0707f)); ("FCVT_Q_W", (0xd6000053, 0xfff0007f));
   ("FCVT_Q_WU", (0xd6100053, 0xfff0007f)); ("FLQ", (0x4007, 0x707f)); ("FSQ", (0x4027, 0x707f));
   ("FMADD_Q", (0x6000043, 0x600007f)); ("FMSUB_Q", (0x6000047, 0x600007f));
   ("FNMSUB_Q", (0x600004b, 0x600007f)); ("FNMADD_Q", (0x600004f, 0x600007f));
   ("FCVT_L_Q", (0xc6200053, 0xfff0007f)); ("FCVT_LU_Q", (0xc6300053, 0xfff0007f));
   ("FCVT_Q_L", (0xd6200053, 0xfff0007f)); ("FCVT_Q_LU", (0xd6300053, 0xfff0007f));
   ("FMV_X_Q", (0xe6000053, 0xfff0707f)); ("FMV_Q_X", (0xf6000053, 0xfff0707f));
   ("FADD_H", (0x4000053, 0xfe00007f)); ("FSUB_H", (0xc000053, 0xfe00007f));
   ("FMUL_H", (0x14000053, 0xfe00007f)); ("FDIV_H", (0x1c000053, 0xfe00007f));
   ("FSGNJ_H", (0x24000053, 0xfe00707f))].

Definition encodings_3 : list (string * (Z * Z)) := [
   ("FSGNJN_H", (0x24001053, 0xfe00707f)); ("FSGNJX_H", (0x24002053, 0xfe00707f));
   ("FMIN_H", (0x2c000053, 0xfe00707f)); ("FMAX_H", (0x2c001053, 0xfe00707f));
   ("FCVT_H_S", (0x44000053, 0xfff0007f)); ("FCVT_S_H", (0x40200053, 0xfff0007f));
   ("FSQRT_H", (0x5c000053, 0xfff0007f)); ("FLE_H", (0xa4000053, 0xfe00707f));
   ("FLT_H", (0xa4001053, 0xfe00707f)); ("FEQ_H", (0xa4002053, 0xfe00707f));
   ("FCVT_W_H", (0xc4000053, 0xfff0007f)); ("FCVT_WU_H", (0xc4100053, 0xfff0007f));
   ("FMV_X_H", (0xe4000053, 0xfff0707f)); ("FCLASS_H", (0xe4001053, 0xfff0707f));
   ("FCVT_H_W", (0xd4000053, 0xfff0007f)); ("FCVT_H_WU", (0xd4100053, 0xfff0007f));
   ("FMV_H_X", (0xf4000053, 0xfff0707f)); ("FLH", (0x1007, 0x707f)); ("FSH", (0x1027, 0x707f));
   ("FMADD_H", (0x4000043, 0x600007f)); ("FMSUB_H", (0x4000047, 0x600007f));
   ("FNMSUB_H", (0x400004b, 0x600007f)); ("FNMADD_H", (0x400004f, 0x600007f));
   ("FCVT_H_D", (0x44100053, 0xfff0007f)); ("FCVT_D_H", (0x42200053, 0xfff0007f));
   ("FCVT_H_Q", (0x44300053, 0xfff0007f)); ("FCVT_Q_H", (0x46200053, 0xfff0007f));
   ("FCVT_L_H", (0xc4200053, 0xfff0007f)); ("FCVT_LU_H", (0xc4300053, 0xfff0007f));
   ("FCVT_H_L", (0xd4200053, 0xfff0007f)); ("FCVT_H_LU", (0xd4300053, 0xfff0007f));
   ("ECALL", (0x73, 0xffffffff)); ("EBREAK", (0x100073, 0xffffffff)); ("URET", (0x200073, 0xffffffff));
   ("SRET", (0x10200073, 0xffffffff)); ("MRET", (0x30200073, 0xffffffff));
   ("DRET", (0x7b200073, 0xffffffff)); ("SFENCE_VMA", (0x12000073, 0xfe007fff));
   ("WFI", (0x10500073, 0xffffffff)); ("CSRRW", (0x1073, 0x707f)); ("CSRRS", (0x2073, 0x707f));
   ("CSRRC", (0x3073, 0x707f)); ("CSRRWI", (0x5073, 0x707f)); ("CSRRSI", (0x6073, 0x707f));
   ("CSRRCI", (0x7073, 0x707f)); ("C_NOP", (0x1, 0xffff)); ("C_ADDI16SP", (0x6101, 0xef83));
   ("C_JR", (0x8002, 0xf07f)); ("C_JALR", (0x9002, 0xf07f)); ("C_EBREAK", (0x9002, 0xffff));
   ("C_ADDI4SPN", (0x0, 0xe003)); ("C_FLD", (0x2000, 0xe003)); ("C_LW", (0x4000, 0xe003));
   ("C_FLW", (0x6000, 0xe003)); ("C_FSD", (0xa000, 0xe003)); ("C_SW", (0xc000, 0xe003));
   ("C_FSW", (0xe000, 0xe003)); ("C_ADDI", (0x1, 0xe003)); ("C_JAL", (0x2001, 0xe003));
   ("C_LI", (0x4001, 0xe003)); ("C_LUI", (0x6001, 0xe003)); ("C_SRLI", (0x8001, 0xec03));
   ("C_SRAI", (0x8401, 0xec03)); ("C_ANDI", (0x8801, 0xec03)); ("C_SUB", (0x8c01, 0xfc63));
   ("C_XOR", (0x8c21, 0xfc63)); ("C_OR", (0x8c41, 0xfc63)); ("C_AND", (0x8c61, 0xfc63));
   ("C_J", (0xa001, 0xe003)); ("C_BEQZ", (0xc001, 0xe003)); ("C_BNEZ", (0xe001, 0xe003));
   ("C_SLLI", (0x2, 0xe003)); ("C_FLDSP", (0x2002, 0xe003)); ("C_LWSP", (0x4002, 0xe003));
   ("C_FLWSP", (0x6002, 0xe003))].

Definition encodings_4 : list (string * (Z * Z)) := [
   ("C_MV", (0x8002, 0xf003)); ("C_ADD", (0x9002, 0xf003)); ("C_FSDSP", (0xa002, 0xe003));
   ("C_SWSP", (0xc002, 0xe003)); ("C_FSWSP", (0xe002, 0xe003)); ("C_SRLI_RV32", (0x8001, 0xfc03));
   ("C_SRAI_RV32", (0x8401, 0xfc03)); ("C_SLLI_RV32", (0x2, 0xf003)); ("C_LD", (0x6000, 0xe003));
   ("C_SD", (0xe000, 0xe003)); ("C_SUBW", (0x9c01, 0xfc63)); ("C_ADDW", (0x9c21, 0xfc63));
   ("C_ADDIW", (0x2001, 0xe003)); ("C_LDSP", (0x6002, 0xe003)); ("C_SDSP", (0xe002, 0xe003));
   ("C_LQ", (0x2000, 0xe003)); ("C_SQ", (0xa000, 0xe003)); ("C_LQSP", (0x2002, 0xe003));
   ("C_SQSP", (0xa002, 0xe003)); ("CUSTOM0", (0xb, 0x707f)); ("CUSTOM0_RS1", (0x200b, 0x707f));
   ("CUSTOM0_RS1_RS2", (0x300b, 0x707f)); ("CUSTOM0_RD", (0x400b, 0x707f));
   ("CUSTOM0_RD_RS1", (0x600b, 0x707f)); ("CUSTOM0_RD_RS1_RS2", (0x700b, 0x707f));
   ("CUSTOM1", (0x2b, 0x707f)); ("CUSTOM1_RS1", (0x202b, 0x707f)); ("CUSTOM1_RS1_RS2", (0x302b, 0x707f));
   ("CUSTOM1_RD", (0x402b, 0x707f)); ("CUSTOM1_RD_RS1", (0x602b, 0x707f));
   ("CUSTOM1_RD_RS1_RS2", (0x702b, 0x707f)); ("CUSTOM2", (0x5b, 0x707f)); ("CUSTOM2_RS1", (0x205b, 0x707f));
   ("CUSTOM2_RS1_RS2", (0x305b, 0x707f)); ("CUSTOM2_RD", (0x405b, 0x707f));
   ("CUSTOM2_RD_RS1", (0x605b, 0x707f)); ("CUSTOM2_RD_RS1_RS2", (0x705b, 0x707f));
   ("CUSTOM3", (0x7b, 0x707f)); ("CUSTOM3_RS1", (0x207b, 0x707f)); ("CUSTOM3_RS1_RS2", (0x307b, 0x707f));
   ("CUSTOM3_RD", (0x407b, 0x707f)); ("CUSTOM3_RD_RS1", (0x607b, 0x707f));
   ("CUSTOM3_RD_RS1_RS2", (0x707b, 0x707f)); ("VSETVLI", (0x7057, 0x8000707f));
   ("VSETVL", (0x80007057, 0xfe00707f)); ("VLE8_V", (0x7, 0x1df0707f)); ("VLE16_V", (0x5007, 0x1df0707f));
   ("VLE32_V", (0x6007, 0x1df0707f)); ("VLE64_V", (0x7007, 0x1df0707f));
   ("VLE128_V", (0x10000007, 0x1df0707f)); ("VLE256_V", (0x10005007, 0x1df0707f));
   ("VLE512_V", (0x10006007, 0x1df0707f)); ("VLE1024_V", (0x10007007, 0x1df0707f));
   ("VSE8_V", (0x27, 0x1df0707f)); ("VSE16_V", (0x5027, 0x1df0707f)); ("VSE32_V", (0x6027, 0x1df0707f));
   ("VSE64_V", (0x7027, 0x1df0707f)); ("VSE128_V", (0x10000027, 0x1df0707f));
   ("VSE256_V", (0x10005027, 0x1df0707f)); ("VSE512_V", (0x10006027, 0x1df0707f));
   ("VSE1024_V", (0x10007027, 0x1df0707f)); ("VLSE8_V", (0x8000007, 0x1c00707f));
   ("VLSE16_V", (0x8005007, 0x1c00707f)); ("VLSE32_V", (0x8006007, 0x1c00707f));
   ("VLSE64_V", (0x8007007, 0x1c00707f)); ("VLSE128_V", (0x18000007, 0x1c00707f));
   ("VLSE256_V", (0x18005007, 0x1c00707f)); ("VLSE512_V", (0x18006007, 0x1c00707f));
   ("VLSE1024_V", (0x18007007, 0x1c00707f)); ("VSSE8_V", (0x8000027, 0x1c00707f));
   ("VSSE16_V", (0x8005027, 0x1c00707f)); ("VSSE32_V", (0x8006027, 0x1c00707f));
   ("VSSE64_V", (0x8007027, 0x1c00707f)); ("VSSE128_V", (0x18000027, 0x1c00707f));
   ("VSSE256_V", (0x18005027, 0x1c00707f))].

Definition encodings_5 : list (string * (Z * Z)) := [
   ("VSSE512_V", (0x18006027, 0x1c00707f)); ("VSSE1024_V", (0x18007027, 0x1c00707f));
   ("VLXEI8_V", (0xc000007, 0x1c00707f)); ("VLXEI16_V", (0xc005007, 0x1c00707f));
   ("VLXEI32_V", (0xc006007, 0x1c00707f)); ("VLXEI64_V", (0xc007007, 0x1c00707f));
   ("VLXEI128_V", (0x1c000007, 0x1c00707f)); ("VLXEI256_V", (0x1c005007, 0x1c00707f));
   ("VLXEI512_V", (0x1c006007, 0x1c00707f)); ("VLXEI1024_V", (0x1c007007, 0x1c00707f));
   ("VSXEI8_V", (0xc000027, 0x1c00707f)); ("VSXEI16_V", (0xc005027, 0x1c00707f));
   ("VSXEI32_V", (0xc006027, 0x1c00707f)); ("VSXEI64_V", (0xc007027, 0x1c00707f));
   ("VSXEI128_V", (0x1c000027, 0x1c00707f)); ("VSXEI256_V", (0x1c005027, 0x1c00707f));
   ("VSXEI512_V", (0x1c006027, 0x1c00707f)); ("VSXEI1024_V", (0x1c007027, 0x1c00707f));
   ("VSUXEI8_V", (0x4000027, 0x1c00707f)); ("VSUXEI16_V", (0x4005027, 0x1c00707f));
   ("VSUXEI32_V", (0x4006027, 0x1c00707f)); ("VSUXEI64_V", (0x4007027, 0x1c00707f));
   ("VSUXEI128_V", (0x14000027, 0x1c00707f)); ("VSUXEI256_V", (0x14005027, 0x1c00707f));
   ("VSUXEI512_V", (0x14006027, 0x1c00707f)); ("VSUXEI1024_V", (0x14007027, 0x1c00707f));
   ("VLE8FF_V", (0x1000007, 0x1df0707f)); ("VLE16FF_V", (0x1005007, 0x1df0707f));
   ("VLE32FF_V", (0x1006007, 0x1df0707f)); ("VLE64FF_V", (0x1007007, 0x1df0707f));
   ("VLE128FF_V", (0x11000007, 0x1df0707f)); ("VLE256FF_V", (0x11005007, 0x1df0707f));
   ("VLE512FF_V", (0x11006007, 0x1df0707f)); ("VLE1024FF_V", (0x11007007, 0x1df0707f));
   ("VL1RE8_V", (0x2800007, 0xfff0707f)); ("VL1RE16_V", (0x2805007, 0xfff0707f));
   ("VL1RE32_V", (0x2806007, 0xfff0707f)); ("VL1RE64_V", (0x2807007, 0xfff0707f));
   ("VL2RE8_V", (0x22800007, 0xfff0707f)); ("VL2RE16_V", (0x22805007, 0xfff0707f));
   ("VL2RE32_V", (0x22806007, 0xfff0707f)); ("VL2RE64_V", (0x22807007, 0xfff0707f));
   ("VL4RE8_V", (0x62800007, 0xfff0707f)); ("VL4RE16_V", (0x62805007, 0xfff0707f));
   ("VL4RE32_V", (0x62806007, 0xfff0707f)); ("VL4RE64_V", (0x62807007, 0xfff0707f));
   ("VL8RE8_V", (0xe2800007, 0xfff0707f)); ("VL8RE16_V", (0xe2805007, 0xfff0707f));
   ("VL8RE32_V", (0xe2806007, 0xfff0707f)); ("VL8RE64_V", (0xe2807007, 0xfff0707f));
   ("VS1R_V", (0x2800027, 0xfff0707f)); ("VS2R_V", (0x22800027, 0xfff0707f));
   ("VS4R_V", (0x62800027, 0xfff0707f)); ("VS8R_V", (0xe2800027, 0xfff0707f));
   ("VFADD_VF", (0x5057, 0xfc00707f)); ("VFSUB_VF", (0x8005057, 0xfc00707f));
   ("VFMIN_VF", (0x10005057, 0xfc00707f)); ("VFMAX_VF", (0x18005057, 0xfc00707f));
   ("VFSGNJ_VF", (0x20005057, 0xfc00707f)); ("VFSGNJN_VF", (0x24005057, 0xfc00707f));
   ("VFSGNJX_VF", (0x28005057, 0xfc00707f)); ("VFSLIDE1UP_VF", (0x38005057, 0xfc00707f));
   ("VFSLIDE1DOWN_VF", (0x3c005057, 0xfc00707f)); ("VFMV_S_F", (0x42005057, 0xfff0707f));
   ("VFMERGE_VFM", (0x5c005057, 0xfe00707f)); ("VFMV_V_F", (0x5e005057, 0xfff0707f));
   ("VMFEQ_VF", (0x60005057, 0xfc00707f)); ("VMFLE_VF", (0x64005057, 0xfc00707f));
   ("VMFLT_VF", (0x6c005057, 0xfc00707f)); ("VMFNE_VF", (0x70005057, 0xfc00707f));
   ("VMFGT_VF", (0x74005057, 0xfc00707f)); ("VMFGE_VF", (0x7c005057, 0xfc00707f));
   ("VFDIV_VF", (0x80005057, 0xfc00707f)); ("VFRDIV_VF", (0x84005057, 0xfc00707f));
   ("VFMUL_VF", (0x90005057, 0xfc00707f))].

Definition encodings_6 : list (string * (Z * Z)) := [
   ("VFRSUB_VF", (0x9c005057, 0xfc00707f)); ("VFMADD_VF", (0xa0005057, 0xfc00707f));
   ("VFNMADD_VF", (0xa4005057, 0xfc00707f)); ("VFMSUB_VF", (0xa8005057, 0xfc00707f));
   ("VFNMSUB_VF", (0xac005057, 0xfc00707f)); ("VFMACC_VF", (0xb0005057, 0xfc00707f));
   ("VFNMACC_VF", (0xb4005057, 0xfc00707f)); ("VFMSAC_VF", (0xb8005057, 0xfc00707f));
   ("VFNMSAC_VF", (0xbc005057, 0xfc00707f)); ("VFWADD_VF", (0xc0005057, 0xfc00707f));
   ("VFWSUB_VF", (0xc8005057, 0xfc00707f)); ("VFWADD_WF", (0xd0005057, 0xfc00707f));
   ("VFWSUB_WF", (0xd8005057, 0xfc00707f)); ("VFWMUL_VF", (0xe0005057, 0xfc00707f));
   ("VFWMACC_VF", (0xf0005057, 0xfc00707f)); ("VFWNMACC_VF", (0xf4005057, 0xfc00707f));
   ("VFWMSAC_VF", (0xf8005057, 0xfc00707f)); ("VFWNMSAC_VF", (0xfc005057, 0xfc00707f));
   ("VFADD_VV", (0x1057, 0xfc00707f)); ("VFREDSUM_VS", (0x4001057, 0xfc00707f));
   ("VFSUB_VV", (0x8001057, 0xfc00707f)); ("VFREDOSUM_VS", (0xc001057, 0xfc00707f));
   ("VFMIN_VV", (0x10001057, 0xfc00707f)); ("VFREDMIN_VS", (0x14001057, 0xfc00707f));
   ("VFMAX_VV", (0x18001057, 0xfc00707f)); ("VFREDMAX_VS", (0x1c001057, 0xfc00707f));
   ("VFSGNJ_VV", (0x20001057, 0xfc00707f)); ("VFSGNJN_VV", (0x24001057, 0xfc00707f));
   ("VFSGNJX_VV", (0x28001057, 0xfc00707f)); ("VFMV_F_S", (0x42001057, 0xfe0ff07f));
   ("VMFEQ_VV", (0x60001057, 0xfc00707f)); ("VMFLE_VV", (0x64001057, 0xfc00707f));
   ("VMFLT_VV", (0x6c001057, 0xfc00707f)); ("VMFNE_VV", (0x70001057, 0xfc00707f));
   ("VFDIV_VV", (0x80001057, 0xfc00707f)); ("VFMUL_VV", (0x90001057, 0xfc00707f));
   ("VFMADD_VV", (0xa0001057, 0xfc00707f)); ("VFNMADD_VV", (0xa4001057, 0xfc00707f));
   ("VFMSUB_VV", (0xa8001057, 0xfc00707f)); ("VFNMSUB_VV", (0xac001057, 0xfc00707f));
   ("VFMACC_VV", (0xb0001057, 0xfc00707f)); ("VFNMACC_VV", (0xb4001057, 0xfc00707f));
   ("VFMSAC_VV", (0xb8001057, 0xfc00707f)); ("VFNMSAC_VV", (0xbc001057, 0xfc00707f));
   ("VFCVT_XU_F_V", (0x48001057, 0xfc0ff07f)); ("VFCVT_X_F_V", (0x48009057, 0xfc0ff07f));
   ("VFCVT_F_XU_V", (0x48011057, 0xfc0ff07f)); ("VFCVT_F_X_V", (0x48019057, 0xfc0ff07f));
   ("VFCVT_RTZ_XU_F_V", (0x48031057, 0xfc0ff07f)); ("VFCVT_RTZ_X_F_V", (0x48039057, 0xfc0ff07f));
   ("VFWCVT_XU_F_V", (0x48041057, 0xfc0ff07f)); ("VFWCVT_X_F_V", (0x48049057, 0xfc0ff07f));
   ("VFWCVT_F_XU_V", (0x48051057, 0xfc0ff07f)); ("VFWCVT_F_X_V", (0x48059057, 0xfc0ff07f));
   ("VFWCVT_F_F_V", (0x48061057, 0xfc0ff07f)); ("VFWCVT_RTZ_XU_F_V", (0x48071057, 0xfc0ff07f));
   ("VFWCVT_RTZ_X_F_V", (0x48079057, 0xfc0ff07f)); ("VFNCVT_XU_F_W", (0x48081057, 0xfc0ff07f));
   ("VFNCVT_X_F_W", (0x48089057, 0xfc0ff07f)); ("VFNCVT_F_XU_W", (0x48091057, 0xfc0ff07f));
   ("VFNCVT_F_X_W", (0x48099057, 0xfc0ff07f)); ("VFNCVT_F_F_W", (0x480a1057, 0xfc0ff07f));
   ("VFNCVT_ROD_F_F_W", (0x480a9057, 0xfc0ff07f)); ("VFNCVT_RTZ_XU_F_W", (0x480b1057, 0xfc0ff07f));
   ("VFNCVT_RTZ_X_F_W", (0x480b9057, 0xfc0ff07f)); ("VFSQRT_V", (0x4c001057, 0xfc0ff07f));
   ("VFRSQRTE7_V", (0x4c021057, 0xfc0ff07f)); ("VFRECE7_V", (0x4c029057, 0xfc0ff07f));
   ("VFCLASS_V", (0x4c081057, 0xfc0ff07f)); ("VFWADD_VV", (0xc0001057, 0xfc00707f));
   ("VFWREDSUM_VS", (0xc4001057, 0xfc00707f)); ("VFWSUB_VV", (0xc8001057, 0xfc00707f));
   ("VFWREDOSUM_VS", (0xcc001057, 0xfc00707f)); ("VFWADD_WV", (0xd0001057, 0xfc00707f));
   ("VFWSUB_WV", (0xd8001057, 0xfc00707f))].

Definition encodings_7 : list (string * (Z * Z)) := [
   ("VFWMUL_VV", (0xe0001057, 0xfc00707f)); ("VFDOT_VV", (0xe4001057, 0xfc00707f));
   ("VFWMACC_VV", (0xf0001057, 0xfc00707f)); ("VFWNMACC_VV", (0xf4001057, 0xfc00707f));
   ("VFWMSAC_VV", (0xf8001057, 0xfc00707f)); ("VFWNMSAC_VV", (0xfc001057, 0xfc00707f));
   ("VADD_VX", (0x4057, 0xfc00707f)); ("VSUB_VX", (0x8004057, 0xfc00707f));
   ("VRSUB_VX", (0xc004057, 0xfc00707f)); ("VMINU_VX", (0x10004057, 0xfc00707f));
   ("VMIN_VX", (0x14004057, 0xfc00707f)); ("VMAXU_VX", (0x18004057, 0xfc00707f));
   ("VMAX_VX", (0x1c004057, 0xfc00707f)); ("VAND_VX", (0x24004057, 0xfc00707f));
   ("VOR_VX", (0x28004057, 0xfc00707f)); ("VXOR_VX", (0x2c004057, 0xfc00707f));
   ("VRGATHER_VX", (0x30004057, 0xfc00707f)); ("VSLIDEUP_VX", (0x38004057, 0xfc00707f));
   ("VSLIDEDOWN_VX", (0x3c004057, 0xfc00707f)); ("VADC_VXM", (0x40004057, 0xfe00707f));
   ("VMADC_VXM", (0x44004057, 0xfc00707f)); ("VSBC_VXM", (0x48004057, 0xfe00707f));
   ("VMSBC_VXM", (0x4c004057, 0xfc00707f)); ("VMERGE_VXM", (0x5c004057, 0xfe00707f));
   ("VMV_V_X", (0x5e004057, 0xfff0707f)); ("VMSEQ_VX", (0x60004057, 0xfc00707f));
   ("VMSNE_VX", (0x64004057, 0xfc00707f)); ("VMSLTU_VX", (0x68004057, 0xfc00707f));
   ("VMSLT_VX", (0x6c004057, 0xfc00707f)); ("VMSLEU_VX", (0x70004057, 0xfc00707f));
   ("VMSLE_VX", (0x74004057, 0xfc00707f)); ("VMSGTU_VX", (0x78004057, 0xfc00707f));
   ("VMSGT_VX", (0x7c004057, 0xfc00707f)); ("VSADDU_VX", (0x80004057, 0xfc00707f));
   ("VSADD_VX", (0x84004057, 0xfc00707f)); ("VSSUBU_VX", (0x88004057, 0xfc00707f));
   ("VSSUB_VX", (0x8c004057, 0xfc00707f)); ("VSLL_VX", (0x94004057, 0xfc00707f));
   ("VSMUL_VX", (0x9c004057, 0xfc00707f)); ("VSRL_VX", (0xa0004057, 0xfc00707f));
   ("VSRA_VX", (0xa4004057, 0xfc00707f)); ("VSSRL_VX", (0xa8004057, 0xfc00707f));
   ("VSSRA_VX", (0xac004057, 0xfc00707f)); ("VNSRL_WX", (0xb0004057, 0xfc00707f));
   ("VNSRA_WX", (0xb4004057, 0xfc00707f)); ("VNCLIPU_WX", (0xb8004057, 0xfc00707f));
   ("VNCLIP_WX", (0xbc004057, 0xfc00707f)); ("VADD_VV", (0x57, 0xfc00707f));
   ("VSUB_VV", (0x8000057, 0xfc00707f)); ("VMINU_VV", (0x10000057, 0xfc00707f));
   ("VMIN_VV", (0x14000057, 0xfc00707f)); ("VMAXU_VV", (0x18000057, 0xfc00707f));
   ("VMAX_VV", (0x1c000057, 0xfc00707f)); ("VAND_VV", (0x24000057, 0xfc00707f));
   ("VOR_VV", (0x28000057, 0xfc00707f)); ("VXOR_VV", (0x2c000057, 0xfc00707f));
   ("VRGATHER_VV", (0x30000057, 0xfc00707f)); ("VRGATHEREI16_VV", (0x38000057, 0xfc00707f));
   ("VADC_VVM", (0x40000057, 0xfe00707f)); ("VMADC_VVM", (0x44000057, 0xfc00707f));
   ("VSBC_VVM", (0x48000057, 0xfe00707f)); ("VMSBC_VVM", (0x4c000057, 0xfc00707f));
   ("VMERGE_VVM", (0x5c000057, 0xfe00707f)); ("VMV_V_V", (0x5e000057, 0xfff0707f));
   ("VMSEQ_VV", (0x60000057, 0xfc00707f)); ("VMSNE_VV", (0x64000057, 0xfc00707f));
   ("VMSLTU_VV", (0x68000057, 0xfc00707f)); ("VMSLT_VV", (0x6c000057, 0xfc00707f));
   ("VMSLEU_VV", (0x70000057, 0xfc00707f)); ("VMSLE_VV", (0x74000057, 0xfc00707f));
   ("VSADDU_VV", (0x80000057, 0xfc00707f)); ("VSADD_VV", (0x84000057, 0xfc00707f));
   ("VSSUBU_VV", (0x88000057, 0xfc00707f)); ("VSSUB_VV", (0x8c000057, 0xfc00707f));
   ("VSLL_VV", (0x94000057, 0xfc00707f))].

Definition encodings_8 : list (string * (Z * Z)) := [
   ("VSMUL_VV", (0x9c000057, 0xfc00707f)); ("VSRL_VV", (0xa0000057, 0xfc00707f));
   ("VSRA_VV", (0xa4000057, 0xfc00707f)); ("VSSRL_VV", (0xa8000057, 0xfc00707f));
   ("VSSRA_VV", (0xac000057, 0xfc00707f)); ("VNSRL_WV", (0xb0000057, 0xfc00707f));
   ("VNSRA_WV", (0xb4000057, 0xfc00707f)); ("VNCLIPU_WV", (0xb8000057, 0xfc00707f));
   ("VNCLIP_WV", (0xbc000057, 0xfc00707f)); ("VWREDSUMU_VS", (0xc0000057, 0xfc00707f));
   ("VWREDSUM_VS", (0xc4000057, 0xfc00707f)); ("VDOTU_VV", (0xe0000057, 0xfc00707f));
   ("VDOT_VV", (0xe4000057, 0xfc00707f)); ("VQMACCU_VV", (0xf0000057, 0xfc00707f));
   ("VQMACC_VV", (0xf4000057, 0xfc00707f)); ("VQMACCSU_VV", (0xfc000057, 0xfc00707f));
   ("VADD_VI", (0x3057, 0xfc00707f)); ("VRSUB_VI", (0xc003057, 0xfc00707f));
   ("VAND_VI", (0x24003057, 0xfc00707f)); ("VOR_VI", (0x28003057, 0xfc00707f));
   ("VXOR_VI", (0x2c003057, 0xfc00707f)); ("VRGATHER_VI", (0x30003057, 0xfc00707f));
   ("VSLIDEUP_VI", (0x38003057, 0xfc00707f)); ("VSLIDEDOWN_VI", (0x3c003057, 0xfc00707f));
   ("VADC_VIM", (0x40003057, 0xfe00707f)); ("VMADC_VIM", (0x44003057, 0xfc00707f));
   ("VMERGE_VIM", (0x5c003057, 0xfe00707f)); ("VMV_V_I", (0x5e003057, 0xfff0707f));
   ("VMSEQ_VI", (0x60003057, 0xfc00707f)); ("VMSNE_VI", (0x64003057, 0xfc00707f));
   ("VMSLEU_VI", (0x70003057, 0xfc00707f)); ("VMSLE_VI", (0x74003057, 0xfc00707f));
   ("VMSGTU_VI", (0x78003057, 0xfc00707f)); ("VMSGT_VI", (0x7c003057, 0xfc00707f));
   ("VSADDU_VI", (0x80003057, 0xfc00707f)); ("VSADD_VI", (0x84003057, 0xfc00707f));
   ("VSLL_VI", (0x94003057, 0xfc00707f)); ("VMV1R_V", (0x9e003057, 0xfe0ff07f));
   ("VMV2R_V", (0x9e00b057, 0xfe0ff07f)); ("VMV4R_V", (0x9e01b057, 0xfe0ff07f));
   ("VMV8R_V", (0x9e03b057, 0xfe0ff07f)); ("VSRL_VI", (0xa0003057, 0xfc00707f));
   ("VSRA_VI", (0xa4003057, 0xfc00707f)); ("VSSRL_VI", (0xa8003057, 0xfc00707f));
   ("VSSRA_VI", (0xac003057, 0xfc00707f)); ("VNSRL_WI", (0xb0003057, 0xfc00707f));
   ("VNSRA_WI", (0xb4003057, 0xfc00707f)); ("VNCLIPU_WI", (0xb8003057, 0xfc00707f));
   ("VNCLIP_WI", (0xbc003057, 0xfc00707f)); ("VREDSUM_VS", (0x2057, 0xfc00707f));
   ("VREDAND_VS", (0x4002057, 0xfc00707f)); ("VREDOR_VS", (0x8002057, 0xfc00707f));
   ("VREDXOR_VS", (0xc002057, 0xfc00707f)); ("VREDMINU_VS", (0x10002057, 0xfc00707f));
   ("VREDMIN_VS", (0x14002057, 0xfc00707f)); ("VREDMAXU_VS", (0x18002057, 0xfc00707f));
   ("VREDMAX_VS", (0x1c002057, 0xfc00707f)); ("VAADDU_VV", (0x20002057, 0xfc00707f));
   ("VAADD_VV", (0x24002057, 0xfc00707f)); ("VASUBU_VV", (0x28002057, 0xfc00707f));
   ("VASUB_VV", (0x2c002057, 0xfc00707f)); ("VMV_X_S", (0x42002057, 0xfe0ff07f));
   ("VZEXT_VF8", (0x48012057, 0xfc0ff07f)); ("VSEXT_VF8", (0x4801a057, 0xfc0ff07f));
   ("VZEXT_VF4", (0x48022057, 0xfc0ff07f)); ("VSEXT_VF4", (0x4802a057, 0xfc0ff07f));
   ("VZEXT_VF2", (0x48032057, 0xfc0ff07f)); ("VSEXT_VF2", (0x4803a057, 0xfc0ff07f));
   ("VCOMPRESS_VM", (0x5e002057, 0xfe00707f)); ("VMANDNOT_MM", (0x60002057, 0xfc00707f));
   ("VMAND_MM", (0x64002057, 0xfc00707f)); ("VMOR_MM", (0x68002057, 0xfc00707f));
   ("VMXOR_MM", (0x6c002057, 0xfc00707f)); ("VMORNOT_MM", (0x70002057, 0xfc00707f));
   ("VMNAND_MM", (0x74002057, 0xfc00707f))].

Definition encodings_9 : list (string * (Z * Z)) := [
   ("VMNOR_MM", (0x78002057, 0xfc00707f)); ("VMXNOR_MM", (0x7c002057, 0xfc00707f));
   ("VMSBF_M", (0x5000a057, 0xfc0ff07f)); ("VMSOF_M", (0x50012057, 0xfc0ff07f));
   ("VMSIF_M", (0x5001a057, 0xfc0ff07f)); ("VIOTA_M", (0x50082057, 0xfc0ff07f));
   ("VID_V", (0x5008a057, 0xfdfff07f)); ("VPOPC_M", (0x40082057, 0xfc0ff07f));
   ("VFIRST_M", (0x4008a057, 0xfc0ff07f)); ("VDIVU_VV", (0x80002057, 0xfc00707f));
   ("VDIV_VV", (0x84002057, 0xfc00707f)); ("VREMU_VV", (0x88002057, 0xfc00707f));
   ("VREM_VV", (0x8c002057, 0xfc00707f)); ("VMULHU_VV", (0x90002057, 0xfc00707f));
   ("VMUL_VV", (0x94002057, 0xfc00707f)); ("VMULHSU_VV", (0x98002057, 0xfc00707f));
   ("VMULH_VV", (0x9c002057, 0xfc00707f)); ("VMADD_VV", (0xa4002057, 0xfc00707f));
   ("VNMSUB_VV", (0xac002057, 0xfc00707f)); ("VMACC_VV", (0xb4002057, 0xfc00707f));
   ("VNMSAC_VV", (0xbc002057, 0xfc00707f)); ("VWADDU_VV", (0xc0002057, 0xfc00707f));
   ("VWADD_VV", (0xc4002057, 0xfc00707f)); ("VWSUBU_VV", (0xc8002057, 0xfc00707f));
   ("VWSUB_VV", (0xcc002057, 0xfc00707f)); ("VWADDU_WV", (0xd0002057, 0xfc00707f));
   ("VWADD_WV", (0xd4002057, 0xfc00707f)); ("VWSUBU_WV", (0xd8002057, 0xfc00707f));
   ("VWSUB_WV", (0xdc002057, 0xfc00707f)); ("VWMULU_VV", (0xe0002057, 0xfc00707f));
   ("VWMULSU_VV", (0xe8002057, 0xfc00707f)); ("VWMUL_VV", (0xec002057, 0xfc00707f));
   ("VWMACCU_VV", (0xf0002057, 0xfc00707f)); ("VWMACC_VV", (0xf4002057, 0xfc00707f));
   ("VWMACCSU_VV", (0xfc002057, 0xfc00707f)); ("VAADDU_VX", (0x20006057, 0xfc00707f));
   ("VAADD_VX", (0x24006057, 0xfc00707f)); ("VASUBU_VX", (0x28006057, 0xfc00707f));
   ("VASUB_VX", (0x2c006057, 0xfc00707f)); ("VMV_S_X", (0x42006057, 0xfff0707f));
   ("VSLIDE1UP_VX", (0x38006057, 0xfc00707f)); ("VSLIDE1DOWN_VX", (0x3c006057, 0xfc00707f));
   ("VDIVU_VX", (0x80006057, 0xfc00707f)); ("VDIV_VX", (0x84006057, 0xfc00707f));
   ("VREMU_VX", (0x88006057, 0xfc00707f)); ("VREM_VX", (0x8c006057, 0xfc00707f));
   ("VMULHU_VX", (0x90006057, 0xfc00707f)); ("VMUL_VX", (0x94006057, 0xfc00707f));
   ("VMULHSU_VX", (0x98006057, 0xfc00707f)); ("VMULH_VX", (0x9c006057, 0xfc00707f));
   ("VMADD_VX", (0xa4006057, 0xfc00707f)); ("VNMSUB_VX", (0xac006057, 0xfc00707f));
   ("VMACC_VX", (0xb4006057, 0xfc00707f)); ("VNMSAC_VX", (0xbc006057, 0xfc00707f));
   ("VWADDU_VX", (0xc0006057, 0xfc00707f)); ("VWADD_VX", (0xc4006057, 0xfc00707f));
   ("VWSUBU_VX", (0xc8006057, 0xfc00707f)); ("VWSUB_VX", (0xcc006057, 0xfc00707f));
   ("VWADDU_WX", (0xd0006057, 0xfc00707f)); ("VWADD_WX", (0xd4006057, 0xfc00707f));
   ("VWSUBU_WX", (0xd8006057, 0xfc00707f)); ("VWSUB_WX", (0xdc006057, 0xfc00707f));
   ("VWMULU_VX", (0xe0006057, 0xfc00707f)); ("VWMULSU_VX", (0xe8006057, 0xfc00707f));
   ("VWMUL_VX", (0xec006057, 0xfc00707f)); ("VWMACCU_VX", (0xf0006057, 0xfc00707f));
   ("VWMACC_VX", (0xf4006057, 0xfc00707f)); ("VWMACCUS_VX", (0xf8006057, 0xfc00707f));
   ("VWMACCSU_VX", (0xfc006057, 0xfc00707f)); ("VAMOSWAPEI8_V", (0x800002f, 0xf800707f));
   ("VAMOADDEI8_V", (0x2f, 0xf800707f)); ("VAMOXOREI8_V", (0x2000002f, 0xf800707f));
   ("VAMOANDEI8_V", (0x6000002f, 0xf800707f)); ("VAMOOREI8_V", (0x4000002f, 0xf800707f));
   ("VAMOMINEI8_V", (0x8000002f, 0xf800707f))].

Definition encodings_10 : list (string * (Z * Z)) := [
   ("VAMOMAXEI8_V", (0xa000002f, 0xf800707f)); ("VAMOMINUEI8_V", (0xc000002f, 0xf800707f));
   ("VAMOMAXUEI8_V", (0xe000002f, 0xf800707f)); ("VAMOSWAPEI16_V", (0x800502f, 0xf800707f));
   ("VAMOADDEI16_V", (0x502f, 0xf800707f)); ("VAMOXOREI16_V", (0x2000502f, 0xf800707f));
   ("VAMOANDEI16_V", (0x6000502f, 0xf800707f)); ("VAMOOREI16_V", (0x4000502f, 0xf800707f));
   ("VAMOMINEI16_V", (0x8000502f, 0xf800707f)); ("VAMOMAXEI16_V", (0xa000502f, 0xf800707f));
   ("VAMOMINUEI16_V", (0xc000502f, 0xf800707f)); ("VAMOMAXUEI16_V", (0xe000502f, 0xf800707f));
   ("VAMOSWAPEI32_V", (0x800602f, 0xf800707f)); ("VAMOADDEI32_V", (0x602f, 0xf800707f));
   ("VAMOXOREI32_V", (0x2000602f, 0xf800707f)); ("VAMOANDEI32_V", (0x6000602f, 0xf800707f));
   ("VAMOOREI32_V", (0x4000602f, 0xf800707f)); ("VAMOMINEI32_V", (0x8000602f, 0xf800707f));
   ("VAMOMAXEI32_V", (0xa000602f, 0xf800707f)); ("VAMOMINUEI32_V", (0xc000602f, 0xf800707f));
   ("VAMOMAXUEI32_V", (0xe000602f, 0xf800707f)); ("VAMOSWAPEI64_V", (0x800702f, 0xf800707f));
   ("VAMOADDEI64_V", (0x702f, 0xf800707f)); ("VAMOXOREI64_V", (0x2000702f, 0xf800707f));
   ("VAMOANDEI64_V", (0x6000702f, 0xf800707f)); ("VAMOOREI64_V", (0x4000702f, 0xf800707f));
   ("VAMOMINEI64_V", (0x8000702f, 0xf800707f)); ("VAMOMAXEI64_V", (0xa000702f, 0xf800707f));
   ("VAMOMINUEI64_V", (0xc000702f, 0xf800707f)); ("VAMOMAXUEI64_V", (0xe000702f, 0xf800707f));
   ("VMVNFR_V", (0x9e003057, 0xfe00707f)); ("VL1R_V", (0x2800007, 0xfff0707f));
   ("VL2R_V", (0x6805007, 0xfff0707f)); ("VL4R_V", (0xe806007, 0xfff0707f));
   ("VL8R_V", (0x1e807007, 0xfff0707f))].

Definition encodings : list (string * (Z * Z)) :=
  encodings_0 ++ encodings_1 ++ encodings_2 ++ encodings_3 ++ encodings_4 ++ encodings_5 ++
  encodings_6 ++ encodings_7 ++ encodings_8 ++ encodings_9 ++ encodings_10.

(** [(name, m)]: "[DECLARE_INSN(name, MATCH_m, MASK_m)]" *)
Definition declared_0 : list (string * string) := [
   ("slli_rv32", "SLLI_RV32"); ("srli_rv32", "SRLI_RV32"); ("srai_rv32", "SRAI_RV32");
   ("frflags", "FRFLAGS"); ("fsflags", "FSFLAGS"); ("fsflagsi", "FSFLAGSI"); ("frrm", "FRRM");
   ("fsrm", "FSRM"); ("fsrmi", "FSRMI"); ("fscsr", "FSCSR"); ("frcsr", "FRCSR"); ("rdcycle", "RDCYCLE");
   ("rdtime", "RDTIME"); ("rdinstret", "RDINSTRET"); ("rdcycleh", "RDCYCLEH"); ("rdtimeh", "RDTIMEH");
   ("rdinstreth", "RDINSTRETH"); ("scall", "SCALL"); ("sbreak", "SBREAK"); ("fmv_x_s", "FMV_X_S");
   ("fmv_s_x", "FMV_S_X"); ("fence_tso", "FENCE_TSO"); ("pause", "PAUSE"); ("beq", "BEQ"); ("bne", "BNE");
   ("blt", "BLT"); ("bge", "BGE"); ("bltu", "BLTU"); ("bgeu", "BGEU"); ("jalr", "JALR"); ("jal", "JAL");
   ("lui", "LUI"); ("auipc", "AUIPC"); ("addi", "ADDI"); ("slli", "SLLI"); ("slti", "SLTI");
   ("sltiu", "SLTIU"); ("xori", "XORI"); ("srli", "SRLI"); ("srai", "SRAI"); ("ori", "ORI");
   ("andi", "ANDI"); ("add", "ADD"); ("sub", "SUB"); ("sll", "SLL"); ("slt", "SLT"); ("sltu", "SLTU");
   ("xor", "XOR"); ("srl", "SRL"); ("sra", "SRA"); ("or", "OR"); ("and", "AND"); ("lb", "LB"); ("lh", "LH");
   ("lw", "LW"); ("lbu", "LBU"); ("lhu", "LHU"); ("sb", "SB"); ("sh", "SH"); ("sw", "SW");
   ("fence", "FENCE"); ("fence_i", "FENCE_I"); ("addiw", "ADDIW"); ("slliw", "SLLIW"); ("srliw", "SRLIW");
   ("sraiw", "SRAIW"); ("addw", "ADDW"); ("subw", "SUBW"); ("sllw", "SLLW"); ("srlw", "SRLW");
   ("sraw", "SRAW"); ("ld", "LD"); ("lwu", "LWU"); ("sd", "SD"); ("mul", "MUL"); ("mulh", "MULH");
   ("mulhsu", "MULHSU"); ("mulhu", "MULHU"); ("div", "DIV"); ("divu", "DIVU"); ("rem", "REM");
   ("remu", "REMU"); ("mulw", "MULW"); ("divw", "DIVW"); ("divuw", "DIVUW"); ("remw", "REMW");
   ("remuw", "REMUW"); ("amoadd_w", "AMOADD_W"); ("amoxor_w", "AMOXOR_W"); ("amoor_w", "AMOOR_W");
   ("amoand_w", "AMOAND_W"); ("amomin_w", "AMOMIN_W"); ("amomax_w", "AMOMAX_W"); ("amominu_w", "AMOMINU_W");
   ("amomaxu_w", "AMOMAXU_W"); ("amoswap_w", "AMOSWAP_W"); ("lr_w", "LR_W"); ("sc_w", "SC_W");
   ("amoadd_d", "AMOADD_D"); ("amoxor_d", "AMOXOR_D"); ("amoor_d", "AMOOR_D"); ("amoand_d", "AMOAND_D");
   ("amomin_d", "AMOMIN_D"); ("amomax_d", "AMOMAX_D"); ("amominu_d", "AMOMINU_D");
   ("amomaxu_d", "AMOMAXU_D"); ("amoswap_d", "AMOSWAP_D"); ("lr_d", "LR_D"); ("sc_d", "SC_D");
   ("hfence_vvma", "HFENCE_VVMA"); ("hfence_gvma", "HFENCE_GVMA"); ("hlv_b", "HLV_B"); ("hlv_bu", "HLV_BU");
   ("hlv_h", "HLV_H"); ("hlv_hu", "HLV_HU"); ("hlvx_hu", "HLVX_HU"); ("hlv_w", "HLV_W");
   ("hlvx_wu", "HLVX_WU"); ("hsv_b", "HSV_B"); ("hsv_h", "HSV_H"); ("hsv_w", "HSV_W"); ("hlv_wu", "HLV_WU");
   ("hlv_d", "HLV_D"); ("hsv_d", "HSV_D"); ("fadd_s", "FADD_S"); ("fsub_s", "FSUB_S"); ("fmul_s", "FMUL_S");
   ("fdiv_s", "FDIV_S"); ("fsgnj_s", "FSGNJ_S"); ("fsgnjn_s", "FSGNJN_S"); ("fsgnjx_s", "FSGNJX_S");
   ("fmin_s", "FMIN_S"); ("fmax_s", "FMAX_S"); ("fsqrt_s", "FSQRT_S"); ("fle_s", "FLE_S");
   ("flt_s", "FLT_S"); ("feq_s", "FEQ_S"); ("fcvt_w_s", "FCVT_W_S"); ("fcvt_wu_s", "FCVT_WU_S");
   ("fmv_x_w", "FMV_X_W"); ("fclass_s", "FCLASS_S"); ("fcvt_s_w", "FCVT_S_W"); ("fcvt_s_wu", "FCVT_S_WU");
   ("fmv_w_x", "FMV_W_X"); ("flw", "FLW"); ("fsw", "FSW"); ("fmadd_s", "FMADD_S"); ("fmsub_s", "FMSUB_S");
   ("fnmsub_s", "FNMSUB_S"); ("fnmadd_s", "FNMADD_S")].

Definition declared_1 : list (string * string) := [
   ("fcvt_l_s", "FCVT_L_S"); ("fcvt_lu_s", "FCVT_LU_S"); ("fcvt_s_l", "FCVT_S_L");
   ("fcvt_s_lu", "FCVT_S_LU"); ("fadd_d", "FADD_D"); ("fsub_d", "FSUB_D"); ("fmul_d", "FMUL_D");
   ("fdiv_d", "FDIV_D"); ("fsgnj_d", "FSGNJ_D"); ("fsgnjn_d", "FSGNJN_D"); ("fsgnjx_d", "FSGNJX_D");
   ("fmin_d", "FMIN_D"); ("fmax_d", "FMAX_D"); ("fcvt_s_d", "FCVT_S_D"); ("fcvt_d_s", "FCVT_D_S");
   ("fsqrt_d", "FSQRT_D"); ("fle_d", "FLE_D"); ("flt_d", "FLT_D"); ("feq_d", "FEQ_D");
   ("fcvt_w_d", "FCVT_W_D"); ("fcvt_wu_d", "FCVT_WU_D"); ("fclass_d", "FCLASS_D"); ("fcvt_d_w", "FCVT_D_W");
   ("fcvt_d_wu", "FCVT_D_WU"); ("fld", "FLD"); ("fsd", "FSD"); ("fmadd_d", "FMADD_D");
   ("fmsub_d", "FMSUB_D"); ("fnmsub_d", "FNMSUB_D"); ("fnmadd_d", "FNMADD_D"); ("fcvt_l_d", "FCVT_L_D");
   ("fcvt_lu_d", "FCVT_LU_D"); ("fmv_x_d", "FMV_X_D"); ("fcvt_d_l", "FCVT_D_L"); ("fcvt_d_lu", "FCVT_D_LU");
   ("fmv_d_x", "FMV_D_X"); ("fadd_q", "FADD_Q"); ("fsub_q", "FSUB_Q"); ("fmul_q", "FMUL_Q");
   ("fdiv_q", "FDIV_Q"); ("fsgnj_q", "FSGNJ_Q"); ("fsgnjn_q", "FSGNJN_Q"); ("fsgnjx_q", "FSGNJX_Q");
   ("fmin_q", "FMIN_Q"); ("fmax_q", "FMAX_Q"); ("fcvt_s_q", "FCVT_S_Q"); ("fcvt_q_s", "FCVT_Q_S");
   ("fcvt_d_q", "FCVT_D_Q"); ("fcvt_q_d", "FCVT_Q_D"); ("fsqrt_q", "FSQRT_Q"); ("fle_q", "FLE_Q");
   ("flt_q", "FLT_Q"); ("feq_q", "FEQ_Q"); ("fcvt_w_q", "FCVT_W_Q"); ("fcvt_wu_q", "FCVT_WU_Q");
   ("fclass_q", "FCLASS_Q"); ("fcvt_q_w", "FCVT_Q_W"); ("fcvt_q_wu", "FCVT_Q_WU"); ("flq", "FLQ");
   ("fsq", "FSQ"); ("fmadd_q", "FMADD_Q"); ("fmsub_q", "FMSUB_Q"); ("fnmsub_q", "FNMSUB_Q");
   ("fnmadd_q", "FNMADD_Q"); ("fcvt_l_q", "FCVT_L_Q"); ("fcvt_lu_q", "FCVT_LU_Q"); ("fcvt_q_l", "FCVT_Q_L");
   ("fcvt_q_lu", "FCVT_Q_LU"); ("fmv_x_q", "FMV_X_Q"); ("fmv_q_x", "FMV_Q_X"); ("fadd_h", "FADD_H");
   ("fsub_h", "FSUB_H"); ("fmul_h", "FMUL_H"); ("fdiv_h", "FDIV_H"); ("fsgnj_h", "FSGNJ_H");
   ("fsgnjn_h", "FSGNJN_H"); ("fsgnjx_h", "FSGNJX_H"); ("fmin_h", "FMIN_H"); ("fmax_h", "FMAX_H");
   ("fcvt_h_s", "FCVT_H_S"); ("fcvt_s_h", "FCVT_S_H"); ("fsqrt_h", "FSQRT_H"); ("fle_h", "FLE_H");
   ("flt_h", "FLT_H"); ("feq_h", "FEQ_H"); ("fcvt_w_h", "FCVT_W_H"); ("fcvt_wu_h", "FCVT_WU_H");
   ("fmv_x_h", "FMV_X_H"); ("fclass_h", "FCLASS_H"); ("fcvt_h_w", "FCVT_H_W"); ("fcvt_h_wu", "FCVT_H_WU");
   ("fmv_h_x", "FMV_H_X"); ("flh", "FLH"); ("fsh", "FSH"); ("fmadd_h", "FMADD_H"); ("fmsub_h", "FMSUB_H");
   ("fnmsub_h", "FNMSUB_H"); ("fnmadd_h", "FNMADD_H"); ("fcvt_h_d", "FCVT_H_D"); ("fcvt_d_h", "FCVT_D_H");
   ("fcvt_h_q", "FCVT_H_Q"); ("fcvt_q_h", "FCVT_Q_H"); ("fcvt_l_h", "FCVT_L_H"); ("fcvt_lu_h", "FCVT_LU_H");
   ("fcvt_h_l", "FCVT_H_L"); ("fcvt_h_lu", "FCVT_H_LU"); ("ecall", "ECALL"); ("ebreak", "EBREAK");
   ("uret", "URET"); ("sret", "SRET"); ("mret", "MRET"); ("dret", "DRET"); ("sfence_vma", "SFENCE_VMA");
   ("wfi", "WFI"); ("csrrw", "CSRRW"); ("csrrs", "CSRRS"); ("csrrc", "CSRRC"); ("csrrwi", "CSRRWI");
   ("csrrsi", "CSRRSI"); ("csrrci", "CSRRCI"); ("c_nop", "C_NOP"); ("c_addi16sp", "C_ADDI16SP");
   ("c_jr", "C_JR"); ("c_jalr", "C_JALR"); ("c_ebreak", "C_EBREAK"); ("c_addi4spn", "C_ADDI4SPN");
   ("c_fld", "C_FLD"); ("c_lw", "C_LW"); ("c_flw", "C_FLW"); ("c_fsd", "C_FSD"); ("c_sw", "C_SW");
   ("c_fsw", "C_FSW"); ("c_addi", "C_ADDI"); ("c_jal", "C_JAL"); ("c_li", "C_LI"); ("c_lui", "C_LUI");
   ("c_srli", "C_SRLI"); ("c_srai", "C_SRAI"); ("c_andi", "C_ANDI"); ("c_sub", "C_SUB"); ("c_xor", "C_XOR");
   ("c_or", "C_OR"); ("c_and", "C_AND"); ("c_j", "C_J"); ("c_beqz", "C_BEQZ"); ("c_bnez", "C_BNEZ");
   ("c_slli", "C_SLLI"); ("c_fldsp", "C_FLDSP"); ("c_lwsp", "C_LWSP"); ("c_flwsp", "C_FLWSP")].

Definition declared_2 : list (string * string) := [
   ("c_mv", "C_MV"); ("c_add", "C_ADD"); ("c_fsdsp", "C_FSDSP"); ("c_swsp", "C_SWSP");
   ("c_fswsp", "C_FSWSP"); ("c_srli_rv32", "C_SRLI_RV32"); ("c_srai_rv32", "C_SRAI_RV32");
   ("c_slli_rv32", "C_SLLI_RV32"); ("c_ld", "C_LD"); ("c_sd", "C_SD"); ("c_subw", "C_SUBW");
   ("c_addw", "C_ADDW"); ("c_addiw", "C_ADDIW"); ("c_ldsp", "C_LDSP"); ("c_sdsp", "C_SDSP");
   ("c_lq", "C_LQ"); ("c_sq", "C_SQ"); ("c_lqsp", "C_LQSP"); ("c_sqsp", "C_SQSP"); ("custom0", "CUSTOM0");
   ("custom0_rs1", "CUSTOM0_RS1"); ("custom0_rs1_rs2", "CUSTOM0_RS1_RS2"); ("custom0_rd", "CUSTOM0_RD");
   ("custom0_rd_rs1", "CUSTOM0_RD_RS1"); ("custom0_rd_rs1_rs2", "CUSTOM0_RD_RS1_RS2");
   ("custom1", "CUSTOM1"); ("custom1_rs1", "CUSTOM1_RS1"); ("custom1_rs1_rs2", "CUSTOM1_RS1_RS2");
   ("custom1_rd", "CUSTOM1_RD"); ("custom1_rd_rs1", "CUSTOM1_RD_RS1");
   ("custom1_rd_rs1_rs2", "CUSTOM1_RD_RS1_RS2"); ("custom2", "CUSTOM2"); ("custom2_rs1", "CUSTOM2_RS1");
   ("custom2_rs1_rs2", "CUSTOM2_RS1_RS2"); ("custom2_rd", "CUSTOM2_RD");
   ("custom2_rd_rs1", "CUSTOM2_RD_RS1"); ("custom2_rd_rs1_rs2", "CUSTOM2_RD_RS1_RS2");
   ("custom3", "CUSTOM3"); ("custom3_rs1", "CUSTOM3_RS1"); ("custom3_rs1_rs2", "CUSTOM3_RS1_RS2");
   ("custom3_rd", "CUSTOM3_RD"); ("custom3_rd_rs1", "CUSTOM3_RD_RS1");
   ("custom3_rd_rs1_rs2", "CUSTOM3_RD_RS1_RS2"); ("vsetvli", "VSETVLI"); ("vsetvl", "VSETVL");
   ("vle8_v", "VLE8_V"); ("vle16_v", "VLE16_V"); ("vle32_v", "VLE32_V"); ("vle64_v", "VLE64_V");
   ("vle128_v", "VLE128_V"); ("vle256_v", "VLE256_V"); ("vle512_v", "VLE512_V"); ("vle1024_v", "VLE1024_V");
   ("vse8_v", "VSE8_V"); ("vse16_v", "VSE16_V"); ("vse32_v", "VSE32_V"); ("vse64_v", "VSE64_V");
   ("vse128_v", "VSE128_V"); ("vse256_v", "VSE256_V"); ("vse512_v", "VSE512_V"); ("vse1024_v", "VSE1024_V");
   ("vlse8_v", "VLSE8_V"); ("vlse16_v", "VLSE16_V"); ("vlse32_v", "VLSE32_V"); ("vlse64_v", "VLSE64_V");
   ("vlse128_v", "VLSE128_V"); ("vlse256_v", "VLSE256_V"); ("vlse512_v", "VLSE512_V");
   ("vlse1024_v", "VLSE1024_V"); ("vsse8_v", "VSSE8_V"); ("vsse16_v", "VSSE16_V"); ("vsse32_v", "VSSE32_V");
   ("vsse64_v", "VSSE64_V"); ("vsse128_v", "VSSE128_V"); ("vsse256_v", "VSSE256_V");
   ("vsse512_v", "VSSE512_V"); ("vsse1024_v", "VSSE1024_V"); ("vlxei8_v", "VLXEI8_V");
   ("vlxei16_v", "VLXEI16_V"); ("vlxei32_v", "VLXEI32_V"); ("vlxei64_v", "VLXEI64_V");
   ("vlxei128_v", "VLXEI128_V"); ("vlxei256_v", "VLXEI256_V"); ("vlxei512_v", "VLXEI512_V");
   ("vlxei1024_v", "VLXEI1024_V"); ("vsxei8_v", "VSXEI8_V"); ("vsxei16_v", "VSXEI16_V");
   ("vsxei32_v", "VSXEI32_V"); ("vsxei64_v", "VSXEI64_V"); ("vsxei128_v", "VSXEI128_V");
   ("vsxei256_v", "VSXEI256_V"); ("vsxei512_v", "VSXEI512_V"); ("vsxei1024_v", "VSXEI1024_V");
   ("vsuxei8_v", "VSUXEI8_V"); ("vsuxei16_v", "VSUXEI16_V"); ("vsuxei32_v", "VSUXEI32_V");
   ("vsuxei64_v", "VSUXEI64_V"); ("vsuxei128_v", "VSUXEI128_V"); ("vsuxei256_v", "VSUXEI256_V");
   ("vsuxei512_v", "VSUXEI512_V"); ("vsuxei1024_v", "VSUXEI1024_V"); ("vle8ff_v", "VLE8FF_V");
   ("vle16ff_v", "VLE16FF_V"); ("vle32ff_v", "VLE32FF_V"); ("vle64ff_v", "VLE64FF_V");
   ("vle128ff_v", "VLE128FF_V"); ("vle256ff_v", "VLE256FF_V"); ("vle512ff_v", "VLE512FF_V");
   ("vle1024ff_v", "VLE1024FF_V"); ("vl1re8_v", "VL1RE8_V"); ("vl1re16_v", "VL1RE16_V");
   ("vl1re32_v", "VL1RE32_V"); ("vl1re64_v", "VL1RE64_V"); ("vl2re8_v", "VL2RE8_V");
   ("vl2re16_v", "VL2RE16_V"); ("vl2re32_v", "VL2RE32_V"); ("vl2re64_v", "VL2RE64_V");
   ("vl4re8_v", "VL4RE8_V"); ("vl4re16_v", "VL4RE16_V"); ("vl4re32_v", "VL4RE32_V");
   ("vl4re64_v", "VL4RE64_V"); ("vl8re8_v", "VL8RE8_V"); ("vl8re16_v", "VL8RE16_V");
   ("vl8re32_v", "VL8RE32_V"); ("vl8re64_v", "VL8RE64_V"); ("vs1r_v", "VS1R_V"); ("vs2r_v", "VS2R_V");
   ("vs4r_v", "VS4R_V"); ("vs8r_v", "VS8R_V"); ("vfadd_vf", "VFADD_VF"); ("vfsub_vf", "VFSUB_VF");
   ("vfmin_vf", "VFMIN_VF"); ("vfmax_vf", "VFMAX_VF"); ("vfsgnj_vf", "VFSGNJ_VF");
   ("vfsgnjn_vf", "VFSGNJN_VF"); ("vfsgnjx_vf", "VFSGNJX_VF"); ("vfslide1up_vf", "VFSLIDE1UP_VF");
   ("vfslide1down_vf", "VFSLIDE1DOWN_VF"); ("vfmv_s_f", "VFMV_S_F"); ("vfmerge_vfm", "VFMERGE_VFM");
   ("vfmv_v_f", "VFMV_V_F"); ("vmfeq_vf", "VMFEQ_VF"); ("vmfle_vf", "VMFLE_VF"); ("vmflt_vf", "VMFLT_VF");
   ("vmfne_vf", "VMFNE_VF"); ("vmfgt_vf", "VMFGT_VF"); ("vmfge_vf", "VMFGE_VF"); ("vfdiv_vf", "VFDIV_VF");
   ("vfrdiv_vf", "VFRDIV_VF"); ("vfmul_vf", "VFMUL_VF")].

Definition declared_3 : list (string * string) := [
   ("vfrsub_vf", "VFRSUB_VF"); ("vfmadd_vf", "VFMADD_VF"); ("vfnmadd_vf", "VFNMADD_VF");
   ("vfmsub_vf", "VFMSUB_VF"); ("vfnmsub_vf", "VFNMSUB_VF"); ("vfmacc_vf", "VFMACC_VF");
   ("vfnmacc_vf", "VFNMACC_VF"); ("vfmsac_vf", "VFMSAC_VF"); ("vfnmsac_vf", "VFNMSAC_VF");
   ("vfwadd_vf", "VFWADD_VF"); ("vfwsub_vf", "VFWSUB_VF"); ("vfwadd_wf", "VFWADD_WF");
   ("vfwsub_wf", "VFWSUB_WF"); ("vfwmul_vf", "VFWMUL_VF"); ("vfwmacc_vf", "VFWMACC_VF");
   ("vfwnmacc_vf", "VFWNMACC_VF"); ("vfwmsac_vf", "VFWMSAC_VF"); ("vfwnmsac_vf", "VFWNMSAC_VF");
   ("vfadd_vv", "VFADD_VV"); ("vfredsum_vs", "VFREDSUM_VS"); ("vfsub_vv", "VFSUB_VV");
   ("vfredosum_vs", "VFREDOSUM_VS"); ("vfmin_vv", "VFMIN_VV"); ("vfredmin_vs", "VFREDMIN_VS");
   ("vfmax_vv", "VFMAX_VV"); ("vfredmax_vs", "VFREDMAX_VS"); ("vfsgnj_vv", "VFSGNJ_VV");
   ("vfsgnjn_vv", "VFSGNJN_VV"); ("vfsgnjx_vv", "VFSGNJX_VV"); ("vfmv_f_s", "VFMV_F_S");
   ("vmfeq_vv", "VMFEQ_VV"); ("vmfle_vv", "VMFLE_VV"); ("vmflt_vv", "VMFLT_VV"); ("vmfne_vv", "VMFNE_VV");
   ("vfdiv_vv", "VFDIV_VV"); ("vfmul_vv", "VFMUL_VV"); ("vfmadd_vv", "VFMADD_VV");
   ("vfnmadd_vv", "VFNMADD_VV"); ("vfmsub_vv", "VFMSUB_VV"); ("vfnmsub_vv", "VFNMSUB_VV");
   ("vfmacc_vv", "VFMACC_VV"); ("vfnmacc_vv", "VFNMACC_VV"); ("vfmsac_vv", "VFMSAC_VV");
   ("vfnmsac_vv", "VFNMSAC_VV"); ("vfcvt_xu_f_v", "VFCVT_XU_F_V"); ("vfcvt_x_f_v", "VFCVT_X_F_V");
   ("vfcvt_f_xu_v", "VFCVT_F_XU_V"); ("vfcvt_f_x_v", "VFCVT_F_X_V");
   ("vfcvt_rtz_xu_f_v", "VFCVT_RTZ_XU_F_V"); ("vfcvt_rtz_x_f_v", "VFCVT_RTZ_X_F_V");
   ("vfwcvt_xu_f_v", "VFWCVT_XU_F_V"); ("vfwcvt_x_f_v", "VFWCVT_X_F_V"); ("vfwcvt_f_xu_v", "VFWCVT_F_XU_V");
   ("vfwcvt_f_x_v", "VFWCVT_F_X_V"); ("vfwcvt_f_f_v", "VFWCVT_F_F_V");
   ("vfwcvt_rtz_xu_f_v", "VFWCVT_RTZ_XU_F_V"); ("vfwcvt_rtz_x_f_v", "VFWCVT_RTZ_X_F_V");
   ("vfncvt_xu_f_w", "VFNCVT_XU_F_W"); ("vfncvt_x_f_w", "VFNCVT_X_F_W"); ("vfncvt_f_xu_w", "VFNCVT_F_XU_W");
   ("vfncvt_f_x_w", "VFNCVT_F_X_W"); ("vfncvt_f_f_w", "VFNCVT_F_F_W");
   ("vfncvt_rod_f_f_w", "VFNCVT_ROD_F_F_W"); ("vfncvt_rtz_xu_f_w", "VFNCVT_RTZ_XU_F_W");
   ("vfncvt_rtz_x_f_w", "VFNCVT_RTZ_X_F_W"); ("vfsqrt_v", "VFSQRT_V"); ("vfrsqrte7_v", "VFRSQRTE7_V");
   ("vfrece7_v", "VFRECE7_V"); ("vfclass_v", "VFCLASS_V"); ("vfwadd_vv", "VFWADD_VV");
   ("vfwredsum_vs", "VFWREDSUM_VS"); ("vfwsub_vv", "VFWSUB_VV"); ("vfwredosum_vs", "VFWREDOSUM_VS");
   ("vfwadd_wv", "VFWADD_WV"); ("vfwsub_wv", "VFWSUB_WV"); ("vfwmul_vv", "VFWMUL_VV");
   ("vfdot_vv", "VFDOT_VV"); ("vfwmacc_vv", "VFWMACC_VV"); ("vfwnmacc_vv", "VFWNMACC_VV");
   ("vfwmsac_vv", "VFWMSAC_VV"); ("vfwnmsac_vv", "VFWNMSAC_VV"); ("vadd_vx", "VADD_VX");
   ("vsub_vx", "VSUB_VX"); ("vrsub_vx", "VRSUB_VX"); ("vminu_vx", "VMINU_VX"); ("vmin_vx", "VMIN_VX");
   ("vmaxu_vx", "VMAXU_VX"); ("vmax_vx", "VMAX_VX"); ("vand_vx", "VAND_VX"); ("vor_vx", "VOR_VX");
   ("vxor_vx", "VXOR_VX"); ("vrgather_vx", "VRGATHER_VX"); ("vslideup_vx", "VSLIDEUP_VX");
   ("vslidedown_vx", "VSLIDEDOWN_VX"); ("vadc_vxm", "VADC_VXM"); ("vmadc_vxm", "VMADC_VXM");
   ("vsbc_vxm", "VSBC_VXM"); ("vmsbc_vxm", "VMSBC_VXM"); ("vmerge_vxm", "VMERGE_VXM");
   ("vmv_v_x", "VMV_V_X"); ("vmseq_vx", "VMSEQ_VX"); ("vmsne_vx", "VMSNE_VX"); ("vmsltu_vx", "VMSLTU_VX");
   ("vmslt_vx", "VMSLT_VX"); ("vmsleu_vx", "VMSLEU_VX"); ("vmsle_vx", "VMSLE_VX");
   ("vmsgtu_vx", "VMSGTU_VX"); ("vmsgt_vx", "VMSGT_VX"); ("vsaddu_vx", "VSADDU_VX");
   ("vsadd_vx", "VSADD_VX"); ("vssubu_vx", "VSSUBU_VX"); ("vssub_vx", "VSSUB_VX"); ("vsll_vx", "VSLL_VX");
   ("vsmul_vx", "VSMUL_VX"); ("vsrl_vx", "VSRL_VX"); ("vsra_vx", "VSRA_VX"); ("vssrl_vx", "VSSRL_VX");
   ("vssra_vx", "VSSRA_VX"); ("vnsrl_wx", "VNSRL_WX"); ("vnsra_wx", "VNSRA_WX");
   ("vnclipu_wx", "VNCLIPU_WX"); ("vnclip_wx", "VNCLIP_WX"); ("vadd_vv", "VADD_VV"); ("vsub_vv", "VSUB_VV");
   ("vminu_vv", "VMINU_VV"); ("vmin_vv", "VMIN_VV"); ("vmaxu_vv", "VMAXU_VV"); ("vmax_vv", "VMAX_VV");
   ("vand_vv", "VAND_VV"); ("vor_vv", "VOR_VV"); ("vxor_vv", "VXOR_VV"); ("vrgather_vv", "VRGATHER_VV");
   ("vrgatherei16_vv", "VRGATHEREI16_VV"); ("vadc_vvm", "VADC_VVM"); ("vmadc_vvm", "VMADC_VVM");
   ("vsbc_vvm", "VSBC_VVM"); ("vmsbc_vvm", "VMSBC_VVM"); ("vmerge_vvm", "VMERGE_VVM");
   ("vmv_v_v", "VMV_V_V"); ("vmseq_vv", "VMSEQ_VV"); ("vmsne_vv", "VMSNE_VV"); ("vmsltu_vv", "VMSLTU_VV");
   ("vmslt_vv", "VMSLT_VV"); ("vmsleu_vv", "VMSLEU_VV"); ("vmsle_vv", "VMSLE_VV");
   ("vsaddu_vv", "VSADDU_VV"); ("vsadd_vv", "VSADD_VV"); ("vssubu_vv", "VSSUBU_VV");
   ("vssub_vv", "VSSUB_VV"); ("vsll_vv", "VSLL_VV")].

Definition declared_4 : list (string * string) := [
   ("vsmul_vv", "VSMUL_VV"); ("vsrl_vv", "VSRL_VV"); ("vsra_vv", "VSRA_VV"); ("vssrl_vv", "VSSRL_VV");
   ("vssra_vv", "VSSRA_VV"); ("vnsrl_wv", "VNSRL_WV"); ("vnsra_wv", "VNSRA_WV");
   ("vnclipu_wv", "VNCLIPU_WV"); ("vnclip_wv", "VNCLIP_WV"); ("vwredsumu_vs", "VWREDSUMU_VS");
   ("vwredsum_vs", "VWREDSUM_VS"); ("vdotu_vv", "VDOTU_VV"); ("vdot_vv", "VDOT_VV");
   ("vqmaccu_vv", "VQMACCU_VV"); ("vqmacc_vv", "VQMACC_VV"); ("vqmaccsu_vv", "VQMACCSU_VV");
   ("vadd_vi", "VADD_VI"); ("vrsub_vi", "VRSUB_VI"); ("vand_vi", "VAND_VI"); ("vor_vi", "VOR_VI");
   ("vxor_vi", "VXOR_VI"); ("vrgather_vi", "VRGATHER_VI"); ("vslideup_vi", "VSLIDEUP_VI");
   ("vslidedown_vi", "VSLIDEDOWN_VI"); ("vadc_vim", "VADC_VIM"); ("vmadc_vim", "VMADC_VIM");
   ("vmerge_vim", "VMERGE_VIM"); ("vmv_v_i", "VMV_V_I"); ("vmseq_vi", "VMSEQ_VI"); ("vmsne_vi", "VMSNE_VI");
   ("vmsleu_vi", "VMSLEU_VI"); ("vmsle_vi", "VMSLE_VI"); ("vmsgtu_vi", "VMSGTU_VI");
   ("vmsgt_vi", "VMSGT_VI"); ("vsaddu_vi", "VSADDU_VI"); ("vsadd_vi", "VSADD_VI"); ("vsll_vi", "VSLL_VI");
   ("vmv1r_v", "VMV1R_V"); ("vmv2r_v", "VMV2R_V"); ("vmv4r_v", "VMV4R_V"); ("vmv8r_v", "VMV8R_V");
   ("vsrl_vi", "VSRL_VI"); ("vsra_vi", "VSRA_VI"); ("vssrl_vi", "VSSRL_VI"); ("vssra_vi", "VSSRA_VI");
   ("vnsrl_wi", "VNSRL_WI"); ("vnsra_wi", "VNSRA_WI"); ("vnclipu_wi", "VNCLIPU_WI");
   ("vnclip_wi", "VNCLIP_WI"); ("vredsum_vs", "VREDSUM_VS"); ("vredand_vs", "VREDAND_VS");
   ("vredor_vs", "VREDOR_VS"); ("vredxor_vs", "VREDXOR_VS"); ("vredminu_vs", "VREDMINU_VS");
   ("vredmin_vs", "VREDMIN_VS"); ("vredmaxu_vs", "VREDMAXU_VS"); ("vredmax_vs", "VREDMAX_VS");
   ("vaaddu_vv", "VAADDU_VV"); ("vaadd_vv", "VAADD_VV"); ("vasubu_vv", "VASUBU_VV");
   ("vasub_vv", "VASUB_VV"); ("vmv_x_s", "VMV_X_S"); ("vzext_vf8", "VZEXT_VF8"); ("vsext_vf8", "VSEXT_VF8");
   ("vzext_vf4", "VZEXT_VF4"); ("vsext_vf4", "VSEXT_VF4"); ("vzext_vf2", "VZEXT_VF2");
   ("vsext_vf2", "VSEXT_VF2"); ("vcompress_vm", "VCOMPRESS_VM"); ("vmandnot_mm", "VMANDNOT_MM");
   ("vmand_mm", "VMAND_MM"); ("vmor_mm", "VMOR_MM"); ("vmxor_mm", "VMXOR_MM"); ("vmornot_mm", "VMORNOT_MM");
   ("vmnand_mm", "VMNAND_MM"); ("vmnor_mm", "VMNOR_MM"); ("vmxnor_mm", "VMXNOR_MM"); ("vmsbf_m", "VMSBF_M");
   ("vmsof_m", "VMSOF_M"); ("vmsif_m", "VMSIF_M"); ("viota_m", "VIOTA_M"); ("vid_v", "VID_V");
   ("vpopc_m", "VPOPC_M"); ("vfirst_m", "VFIRST_M"); ("vdivu_vv", "VDIVU_VV"); ("vdiv_vv", "VDIV_VV");
   ("vremu_vv", "VREMU_VV"); ("vrem_vv", "VREM_VV"); ("vmulhu_vv", "VMULHU_VV"); ("vmul_vv", "VMUL_VV");
   ("vmulhsu_vv", "VMULHSU_VV"); ("vmulh_vv", "VMULH_VV"); ("vmadd_vv", "VMADD_VV");
   ("vnmsub_vv", "VNMSUB_VV"); ("vmacc_vv", "VMACC_VV"); ("vnmsac_vv", "VNMSAC_VV");
   ("vwaddu_vv", "VWADDU_VV"); ("vwadd_vv", "VWADD_VV"); ("vwsubu_vv", "VWSUBU_VV");
   ("vwsub_vv", "VWSUB_VV"); ("vwaddu_wv", "VWADDU_WV"); ("vwadd_wv", "VWADD_WV");
   ("vwsubu_wv", "VWSUBU_WV"); ("vwsub_wv", "VWSUB_WV"); ("vwmulu_vv", "VWMULU_VV");
   ("vwmulsu_vv", "VWMULSU_VV"); ("vwmul_vv", "VWMUL_VV"); ("vwmaccu_vv", "VWMACCU_VV");
   ("vwmacc_vv", "VWMACC_VV"); ("vwmaccsu_vv", "VWMACCSU_VV"); ("vaaddu_vx", "VAADDU_VX");
   ("vaadd_vx", "VAADD_VX"); ("vasubu_vx", "VASUBU_VX"); ("vasub_vx", "VASUB_VX"); ("vmv_s_x", "VMV_S_X");
   ("vslide1up_vx", "VSLIDE1UP_VX"); ("vslide1down_vx", "VSLIDE1DOWN_VX"); ("vdivu_vx", "VDIVU_VX");
   ("vdiv_vx", "VDIV_VX"); ("vremu_vx", "VREMU_VX"); ("vrem_vx", "VREM_VX"); ("vmulhu_vx", "VMULHU_VX");
   ("vmul_vx", "VMUL_VX"); ("vmulhsu_vx", "VMULHSU_VX"); ("vmulh_vx", "VMULH_VX"); ("vmadd_vx", "VMADD_VX");
   ("vnmsub_vx", "VNMSUB_VX"); ("vmacc_vx", "VMACC_VX"); ("vnmsac_vx", "VNMSAC_VX");
   ("vwaddu_vx", "VWADDU_VX"); ("vwadd_vx", "VWADD_VX"); ("vwsubu_vx", "VWSUBU_VX");
   ("vwsub_vx", "VWSUB_VX"); ("vwaddu_wx", "VWADDU_WX"); ("vwadd_wx", "VWADD_WX");
   ("vwsubu_wx", "VWSUBU_WX"); ("vwsub_wx", "VWSUB_WX"); ("vwmulu_vx", "VWMULU_VX");
   ("vwmulsu_vx", "VWMULSU_VX"); ("vwmul_vx", "VWMUL_VX"); ("vwmaccu_vx", "VWMACCU_VX");
   ("vwmacc_vx", "VWMACC_VX"); ("vwmaccus_vx", "VWMACCUS_VX"); ("vwmaccsu_vx", "VWMACCSU_VX");
   ("vamoswapei8_v", "VAMOSWAPEI8_V"); ("vamoaddei8_v", "VAMOADDEI8_V"); ("vamoxorei8_v", "VAMOXOREI8_V");
   ("vamoandei8_v", "VAMOANDEI8_V"); ("vamoorei8_v", "VAMOOREI8_V"); ("vamominei8_v", "VAMOMINEI8_V")].

Definition declared_5 : list (string * string) := [
   ("vamomaxei8_v", "VAMOMAXEI8_V"); ("vamominuei8_v", "VAMOMINUEI8_V"); ("vamomaxuei8_v", "VAMOMAXUEI8_V");
   ("vamoswapei16_v", "VAMOSWAPEI16_V"); ("vamoaddei16_v", "VAMOADDEI16_V");
   ("vamoxorei16_v", "VAMOXOREI16_V"); ("vamoandei16_v", "VAMOANDEI16_V"); ("vamoorei16_v", "VAMOOREI16_V");
   ("vamominei16_v", "VAMOMINEI16_V"); ("vamomaxei16_v", "VAMOMAXEI16_V");
   ("vamominuei16_v", "VAMOMINUEI16_V"); ("vamomaxuei16_v", "VAMOMAXUEI16_V");
   ("vamoswapei32_v", "VAMOSWAPEI32_V"); ("vamoaddei32_v", "VAMOADDEI32_V");
   ("vamoxorei32_v", "VAMOXOREI32_V"); ("vamoandei32_v", "VAMOANDEI32_V"); ("vamoorei32_v", "VAMOOREI32_V");
   ("vamominei32_v", "VAMOMINEI32_V"); ("vamomaxei32_v", "VAMOMAXEI32_V");
   ("vamominuei32_v", "VAMOMINUEI32_V"); ("vamomaxuei32_v", "VAMOMAXUEI32_V");
   ("vamoswapei64_v", "VAMOSWAPEI64_V"); ("vamoaddei64_v", "VAMOADDEI64_V");
   ("vamoxorei64_v", "VAMOXOREI64_V"); ("vamoandei64_v", "VAMOANDEI64_V"); ("vamoorei64_v", "VAMOOREI64_V");
   ("vamominei64_v", "VAMOMINEI64_V"); ("vamomaxei64_v", "VAMOMAXEI64_V");
   ("vamominuei64_v", "VAMOMINUEI64_V"); ("vamomaxuei64_v", "VAMOMAXUEI64_V"); ("vmvnfr_v", "VMVNFR_V");
   ("vl1r_v", "VL1R_V"); ("vl2r_v", "VL2R_V"); ("vl4r_v", "VL4R_V"); ("vl8r_v", "VL8R_V")].

Definition declared : list (string * string) :=
  declared_0 ++ declared_1 ++ declared_2 ++ declared_3 ++ declared_4 ++ declared_5.

(** The lists of [riscv.mk.in]. *)

Definition riscv_insn_ext_i : list string := [
   "add"; "addi"; "addiw"; "addw"; "and"; "andi"; "auipc"; "beq"; "bge"; "bgeu"; "blt"; "bltu"; "bne"; "jal";
   "jalr"; "lb"; "lbu"; "ld"; "lh"; "lhu"; "lui"; "lw"; "lwu"; "or"; "ori"; "sb"; "sd"; "sh"; "sll"; "slli";
   "slliw"; "sllw"; "slt"; "slti"; "sltiu"; "sltu"; "sra"; "srai"; "sraiw"; "sraw"; "srl"; "srli"; "srliw";
   "srlw"; "sub"; "subw"; "sw"; "xor"; "xori"; "fence"; "fence_i"].

Definition riscv_insn_ext_a : list string := [
   "amoadd_d"; "amoadd_w"; "amoand_d"; "amoand_w"; "amomax_d"; "amomaxu_d"; "amomaxu_w"; "amomax_w";
   "amomin_d"; "amominu_d"; "amominu_w"; "amomin_w"; "amoor_d"; "amoor_w"; "amoswap_d"; "amoswap_w";
   "amoxor_d"; "amoxor_w"; "lr_d"; "lr_w"; "sc_d"; "sc_w"].

Definition riscv_insn_ext_c : list string := [
   "c_add"; "c_addi"; "c_addi4spn"; "c_addw"; "c_and"; "c_andi"; "c_beqz"; "c_bnez"; "c_ebreak"; "c_fld";
   "c_fldsp"; "c_flw"; "c_flwsp"; "c_fsd"; "c_fsdsp"; "c_fsw"; "c_fswsp"; "c_j"; "c_jal"; "c_jalr"; "c_jr";
   "c_li"; "c_lui"; "c_lw"; "c_lwsp"; "c_mv"; "c_or"; "c_slli"; "c_srai"; "c_srli"; "c_sub"; "c_subw";
   "c_sw"; "c_swsp"; "c_xor"].

Definition riscv_insn_ext_m : list string := [
   "div"; "divu"; "divuw"; "divw"; "mul"; "mulh"; "mulhsu"; "mulhu"; "mulw"; "rem"; "remu"; "remuw"; "remw"].

Definition riscv_insn_ext_f : list string := [
   "fadd_s"; "fclass_s"; "fcvt_l_s"; "fcvt_lu_s"; "fcvt_s_l"; "fcvt_s_lu"; "fcvt_s_w"; "fcvt_s_wu";
   "fcvt_w_s"; "fcvt_wu_s"; "fdiv_s"; "feq_s"; "fle_s"; "flt_s"; "flw"; "fmadd_s"; "fmax_s"; "fmin_s";
   "fmsub_s"; "fmul_s"; "fmv_w_x"; "fmv_x_w"; "fnmadd_s"; "fnmsub_s"; "fsgnj_s"; "fsgnjn_s"; "fsgnjx_s";
   "fsqrt_s"; "fsub_s"; "fsw"].

Definition riscv_insn_ext_d : list string := [
   "fadd_d"; "fclass_d"; "fcvt_d_l"; "fcvt_d_lu"; "fcvt_d_q"; "fcvt_d_s"; "fcvt_d_w"; "fcvt_d_wu";
   "fcvt_l_d"; "fcvt_lu_d"; "fcvt_s_d"; "fcvt_w_d"; "fcvt_wu_d"; "fdiv_d"; "feq_d"; "fld"; "fle_d"; "flt_d";
   "fmadd_d"; "fmax_d"; "fmin_d"; "fmsub_d"; "fmul_d"; "fmv_d_x"; "fmv_x_d"; "fnmadd_d"; "fnmsub_d"; "fsd";
   "fsgnj_d"; "fsgnjn_d"; "fsgnjx_d"; "fsqrt_d"; "fsub_d"].

Definition riscv_insn_ext_zfh : list string := [
   "fadd_h"; "fclass_h"; "fcvt_l_h"; "fcvt_lu_h"; "fcvt_d_h"; "fcvt_h_d"; "fcvt_h_l"; "fcvt_h_lu";
   "fcvt_h_q"; "fcvt_h_s"; "fcvt_h_w"; "fcvt_h_wu"; "fcvt_q_h"; "fcvt_s_h"; "fcvt_w_h"; "fcvt_wu_h";
   "fdiv_h"; "feq_h"; "fle_h"; "flh"; "flt_h"; "fmadd_h"; "fmax_h"; "fmin_h"; "fmsub_h"; "fmul_h"; "fmv_h_x";
   "fmv_x_h"; "fnmadd_h"; "fnmsub_h"; "fsgnj_h"; "fsgnjn_h"; "fsgnjx_h"; "fsh"; "fsqrt_h"; "fsub_h"].

Definition riscv_insn_ext_q : list string := [
   "fadd_q"; "fclass_q"; "fcvt_l_q"; "fcvt_lu_q"; "fcvt_q_d"; "fcvt_q_l"; "fcvt_q_lu"; "fcvt_q_s";
   "fcvt_q_w"; "fcvt_q_wu"; "fcvt_s_q"; "fcvt_w_q"; "fcvt_wu_q"; "fdiv_q"; "feq_q"; "fle_q"; "flq"; "flt_q";
   "fmadd_q"; "fmax_q"; "fmin_q"; "fmsub_q"; "fmul_q"; "fnmadd_q"; "fnmsub_q"; "fsgnj_q"; "fsgnjn_q";
   "fsgnjx_q"; "fsq"; "fsqrt_q"; "fsub_q"].

Definition riscv_insn_ext_v_alu_int : list string := [
   "vaadd_vv"; "vaaddu_vv"; "vaadd_vx"; "vaaddu_vx"; "vadc_vim"; "vadc_vvm"; "vadc_vxm"; "vadd_vi";
   "vadd_vv"; "vadd_vx"; "vand_vi"; "vand_vv"; "vand_vx"; "vasub_vv"; "vasubu_vv"; "vasub_vx"; "vasubu_vx";
   "vcompress_vm"; "vdiv_vv"; "vdiv_vx"; "vdivu_vv"; "vdivu_vx"; "vdot_vv"; "vdotu_vv"; "vid_v"; "viota_m";
   "vmacc_vv"; "vmacc_vx"; "vmadc_vim"; "vmadc_vvm"; "vmadc_vxm"; "vmadd_vv"; "vmadd_vx"; "vmand_mm";
   "vmandnot_mm"; "vmax_vv"; "vmax_vx"; "vmaxu_vv"; "vmaxu_vx"; "vmerge_vim"; "vmerge_vvm"; "vmerge_vxm";
   "vfirst_m"; "vmin_vv"; "vmin_vx"; "vminu_vv"; "vminu_vx"; "vmnand_mm"; "vmnor_mm"; "vmor_mm";
   "vmornot_mm"; "vpopc_m"; "vmsbc_vvm"; "vmsbc_vxm"; "vmsbf_m"; "vmseq_vi"; "vmseq_vv"; "vmseq_vx";
   "vmsgt_vi"; "vmsgt_vx"; "vmsgtu_vi"; "vmsgtu_vx"; "vmsif_m"; "vmsle_vi"; "vmsle_vv"; "vmsle_vx";
   "vmsleu_vi"; "vmsleu_vv"; "vmsleu_vx"; "vmslt_vv"; "vmslt_vx"; "vmsltu_vv"; "vmsltu_vx"; "vmsne_vi";
   "vmsne_vv"; "vmsne_vx"; "vmsof_m"; "vmul_vv"; "vmul_vx"; "vmulh_vv"; "vmulh_vx"; "vmulhsu_vv";
   "vmulhsu_vx"; "vmulhu_vv"; "vmulhu_vx"; "vmv_s_x"; "vmv_v_i"; "vmv_v_v"; "vmv_v_x"; "vmv_x_s"; "vmv1r_v";
   "vmv2r_v"; "vmv4r_v"; "vmv8r_v"; "vmxnor_mm"; "vmxor_mm"; "vnclip_wi"; "vnclip_wv"; "vnclip_wx";
   "vnclipu_wi"; "vnclipu_wv"; "vnclipu_wx"; "vnmsac_vv"; "vnmsac_vx"; "vnmsub_vv"; "vnmsub_vx"; "vnsra_wi";
   "vnsra_wv"; "vnsra_wx"; "vnsrl_wi"; "vnsrl_wv"; "vnsrl_wx"; "vor_vi"; "vor_vv"; "vor_vx"; "vredand_vs";
   "vredmax_vs"; "vredmaxu_vs"; "vredmin_vs"; "vredminu_vs"; "vredor_vs"; "vredsum_vs"; "vredxor_vs";
   "vrem_vv"; "vrem_vx"; "vremu_vv"; "vremu_vx"; "vrgather_vi"; "vrgather_vv"; "vrgather_vx";
   "vrgatherei16_vv"; "vrsub_vi"; "vrsub_vx"; "vsadd_vi"; "vsadd_vv"; "vsadd_vx"; "vsaddu_vi"; "vsaddu_vv";
   "vsaddu_vx"; "vsbc_vvm"; "vsbc_vxm"; "vsext_vf2"; "vsext_vf4"; "vsext_vf8"; "vslide1down_vx";
   "vslide1up_vx"; "vslidedown_vi"; "vslidedown_vx"; "vslideup_vi"; "vslideup_vx"; "vsll_vi"; "vsll_vv";
   "vsll_vx"; "vsmul_vv"; "vsmul_vx"; "vsra_vi"; "vsra_vv"; "vsra_vx"; "vsrl_vi"; "vsrl_vv"; "vsrl_vx";
   "vssra_vi"; "vssra_vv"; "vssra_vx"; "vssrl_vi"; "vssrl_vv"; "vssrl_vx"; "vssub_vv"; "vssub_vx";
   "vssubu_vv"; "vssubu_vx"; "vsub_vv"; "vsub_vx"; "vwadd_vv"; "vwadd_vx"; "vwadd_wv"; "vwadd_wx";
   "vwaddu_vv"; "vwaddu_vx"; "vwaddu_wv"; "vwaddu_wx"; "vwmacc_vv"; "vwmacc_vx"; "vwmaccsu_vv";
   "vwmaccsu_vx"; "vwmaccu_vv"; "vwmaccu_vx"; "vwmaccus_vx"; "vwmul_vv"; "vwmul_vx"; "vwmulsu_vv";
   "vwmulsu_vx"; "vwmulu_vv"; "vwmulu_vx"; "vwredsum_vs"; "vwredsumu_vs"; "vwsub_vv"; "vwsub_vx"; "vwsub_wv";
   "vwsub_wx"; "vwsubu_vv"; "vwsubu_vx"; "vwsubu_wv"; "vwsubu_wx"; "vxor_vi"; "vxor_vv"; "vxor_vx";
   "vzext_vf2"; "vzext_vf4"; "vzext_vf8"].

Definition riscv_insn_ext_v_alu_fp : list string := [
   "vfadd_vf"; "vfadd_vv"; "vfclass_v"; "vfcvt_f_x_v"; "vfcvt_f_xu_v"; "vfcvt_rtz_x_f_v"; "vfcvt_rtz_xu_f_v";
   "vfcvt_x_f_v"; "vfcvt_xu_f_v"; "vfdiv_vf"; "vfdiv_vv"; "vfdot_vv"; "vfmacc_vf"; "vfmacc_vv"; "vfmadd_vf";
   "vfmadd_vv"; "vfmax_vf"; "vfmax_vv"; "vfmerge_vfm"; "vfmin_vf"; "vfmin_vv"; "vfmsac_vf"; "vfmsac_vv";
   "vfmsub_vf"; "vfmsub_vv"; "vfmul_vf"; "vfmul_vv"; "vfmv_f_s"; "vfmv_s_f"; "vfmv_v_f"; "vfncvt_f_f_w";
   "vfncvt_f_x_w"; "vfncvt_f_xu_w"; "vfncvt_rod_f_f_w"; "vfncvt_rtz_x_f_w"; "vfncvt_rtz_xu_f_w";
   "vfncvt_x_f_w"; "vfncvt_xu_f_w"; "vfnmacc_vf"; "vfnmacc_vv"; "vfnmadd_vf"; "vfnmadd_vv"; "vfnmsac_vf";
   "vfnmsac_vv"; "vfnmsub_vf"; "vfnmsub_vv"; "vfrdiv_vf"; "vfredmax_vs"; "vfredmin_vs"; "vfredosum_vs";
   "vfredsum_vs"; "vfrece7_v"; "vfrsub_vf"; "vfrsqrte7_v"; "vfsgnj_vf"; "vfsgnj_vv"; "vfsgnjn_vf";
   "vfsgnjn_vv"; "vfsgnjx_vf"; "vfsgnjx_vv"; "vfsqrt_v"; "vfslide1down_vf"; "vfslide1up_vf"; "vfsub_vf";
   "vfsub_vv"; "vfwadd_vf"; "vfwadd_vv"; "vfwadd_wf"; "vfwadd_wv"; "vfwcvt_f_f_v"; "vfwcvt_f_x_v";
   "vfwcvt_f_xu_v"; "vfwcvt_rtz_x_f_v"; "vfwcvt_rtz_xu_f_v"; "vfwcvt_x_f_v"; "vfwcvt_xu_f_v"; "vfwmacc_vf";
   "vfwmacc_vv"; "vfwmsac_vf"; "vfwmsac_vv"; "vfwmul_vf"; "vfwmul_vv"; "vfwnmacc_vf"; "vfwnmacc_vv";
   "vfwnmsac_vf"; "vfwnmsac_vv"; "vfwredosum_vs"; "vfwredsum_vs"; "vfwsub_vf"; "vfwsub_vv"; "vfwsub_wf";
   "vfwsub_wv"; "vmfeq_vf"; "vmfeq_vv"; "vmfge_vf"; "vmfgt_vf"; "vmfle_vf"; "vmfle_vv"; "vmflt_vf";
   "vmflt_vv"; "vmfne_vf"; "vmfne_vv"].

Definition riscv_insn_ext_v_amo : list string := [
   "vamoswapei8_v"; "vamoaddei8_v"; "vamoandei8_v"; "vamomaxei8_v"; "vamomaxuei8_v"; "vamominei8_v";
   "vamominuei8_v"; "vamoorei8_v"; "vamoxorei8_v"; "vamoswapei16_v"; "vamoaddei16_v"; "vamoandei16_v";
   "vamomaxei16_v"; "vamomaxuei16_v"; "vamominei16_v"; "vamominuei16_v"; "vamoorei16_v"; "vamoxorei16_v";
   "vamoswapei32_v"; "vamoaddei32_v"; "vamoandei32_v"; "vamomaxei32_v"; "vamomaxuei32_v"; "vamominei32_v";
   "vamominuei32_v"; "vamoorei32_v"; "vamoxorei32_v"; "vamoswapei64_v"; "vamoaddei64_v"; "vamoandei64_v";
   "vamomaxei64_v"; "vamomaxuei64_v"; "vamominei64_v"; "vamominuei64_v"; "vamoorei64_v"; "vamoxorei64_v"].

Definition riscv_insn_ext_v_ldst : list string := [
   "vle8_v"; "vle16_v"; "vle32_v"; "vle64_v"; "vlse8_v"; "vlse16_v"; "vlse32_v"; "vlse64_v"; "vlxei8_v";
   "vlxei16_v"; "vlxei32_v"; "vlxei64_v"; "vle8ff_v"; "vle16ff_v"; "vle32ff_v"; "vle64ff_v"; "vl1re8_v";
   "vl2re8_v"; "vl4re8_v"; "vl8re8_v"; "vl1re16_v"; "vl2re16_v"; "vl4re16_v"; "vl8re16_v"; "vl1re32_v";
   "vl2re32_v"; "vl4re32_v"; "vl8re32_v"; "vl1re64_v"; "vl2re64_v"; "vl4re64_v"; "vl8re64_v"; "vse8_v";
   "vse16_v"; "vse32_v"; "vse64_v"; "vsse8_v"; "vsse16_v"; "vsse32_v"; "vsse64_v"; "vsxei8_v"; "vsxei16_v";
   "vsxei32_v"; "vsxei64_v"; "vsuxei8_v"; "vsuxei16_v"; "vsuxei32_v"; "vsuxei64_v"; "vs1r_v"; "vs2r_v";
   "vs4r_v"; "vs8r_v"].

Definition riscv_insn_ext_v_ctrl : list string := [
   "vsetvli"; "vsetvl"].

Definition riscv_insn_ext_v : list string :=
  riscv_insn_ext_v_alu_fp ++ riscv_insn_ext_v_alu_int ++ riscv_insn_ext_v_amo ++ riscv_insn_ext_v_ctrl ++
  riscv_insn_ext_v_ldst.

Definition riscv_insn_ext_h : list string := [
   "hfence_gvma"; "hfence_vvma"; "hlv_b"; "hlv_bu"; "hlv_h"; "hlv_hu"; "hlvx_hu"; "hlv_w"; "hlv_wu";
   "hlvx_wu"; "hlv_d"; "hsv_b"; "hsv_h"; "hsv_w"; "hsv_d"].

Definition riscv_insn_priv : list string := [
   "csrrc"; "csrrci"; "csrrs"; "csrrsi"; "csrrw"; "csrrwi"; "dret"; "ebreak"; "ecall"; "mret"; "sfence_vma";
   "sret"; "wfi"].

Definition riscv_insn_list : list string :=
  riscv_insn_ext_a ++ riscv_insn_ext_c ++ riscv_insn_ext_i ++ riscv_insn_ext_m ++ riscv_insn_ext_f ++
  riscv_insn_ext_d ++ riscv_insn_ext_zfh ++ riscv_insn_ext_q ++ riscv_insn_ext_v ++ riscv_insn_ext_h ++
  riscv_insn_priv.
