(* ===== verification/Decoder.v ===== *)
(** * Decoder: from instruction bits to the function that executes them

    [register_base_instructions], [build_opcode_map] and [decode_insn] of
    [riscv/processor.cc]: a linear search over a sorted table that reorders
    itself, behind a direct-mapped cache.  An instruction's functions
    [rv32_NAME] and [rv64_NAME] are named here; the instruction files give
    their meaning. *)
From Stdlib Require Import ZArith Lia Bool List Permutation Mergesort Orders Sorted.
From stdpp Require Import base list gmap strings.
From S2P Require Import Prelude Arith Decode Opcodes.
#[local] Open Scope Z_scope.
#[local] Open Scope word_scope.

Inductive insn_func_t :=
| illegal_instruction
| rv32 (name : string)
| rv64 (name : string).

Record insn_desc_t := mk_insn_desc {
  d_match : Z;
  d_mask : Z;
  d_rv32 : insn_func_t;
  d_rv64 : insn_func_t
}.

Definition illegal_desc : insn_desc_t := mk_insn_desc 0 0 illegal_instruction illegal_instruction.

Definition OPCODE_CACHE_SIZE : Z := 8191.

(** [instructions] and [opcode_cache]; an index of the cache that is not in
    the map holds the entry [build_opcode_map] stores there. *)
Record decoder_t := mk_decoder {
  instructions : list insn_desc_t;
  opcode_cache : gmap Z insn_desc_t
}.

(** ** Building the table *)

(** The [insn_bits_t] variables that [DECLARE_INSN] introduces in
    [register_base_instructions]. *)
Definition declared_map : gmap string string := list_to_map declared.
Definition encodings_map : gmap string (Z * Z) := list_to_map encodings.
Definition match_mask (name : string) : option (Z * Z) := m ← declared_map !! name; encodings_map !! m.

(** [REGISTER_INSN] *)
Definition insn_desc (name : string) : option insn_desc_t :=
  '(mt, mk) ← match_mask name;
  Some (mk_insn_desc mt mk (rv32 name) (rv64 name)).

(** [cmp] of [build_opcode_map]. *)
Definition cmp (lhs rhs : insn_desc_t) : bool :=
  if d_match lhs =? d_match rhs then d_mask lhs >? d_mask rhs else d_match lhs >? d_match rhs.

(** [std::sort], as the merge sort of the Standard Library. *)
Module InsnOrder <: TotalLeBool.
Definition t := insn_desc_t.
Definition leb (x y : insn_desc_t) : bool := negb (cmp y x).
Lemma leb_total x y : leb x y = true \/ leb y x = true.
Proof.
  unfold leb, cmp. rewrite (Z.eqb_sym (d_match y)). destruct (Z.eqb_spec (d_match x) (d_match y)); lia.
Qed.
End InsnOrder.

Module InsnSort := Sort InsnOrder.

Definition sort_insns (l : list insn_desc_t) : list insn_desc_t := InsnSort.sort l.

Definition register_insn (desc : insn_desc_t) (d : decoder_t) : decoder_t :=
  mk_decoder (instructions d ++ [desc]) (opcode_cache d).

Definition build_opcode_map (d : decoder_t) : decoder_t := mk_decoder (sort_insns (instructions d)) ∅.

(** [l] is the list of [insn_list.h]. *)
Definition register_base_instructions_from (l : list string) (d : decoder_t) : decoder_t :=
  build_opcode_map (register_insn illegal_desc
    (fold_left (fun d name => match insn_desc name with
                              | Some desc => register_insn desc d
                              | None => d
                              end) l d)).
Definition register_base_instructions : decoder_t -> decoder_t := register_base_instructions_from riscv_insn_list.

Definition base_decoder : decoder_t := register_base_instructions (mk_decoder [] ∅).

(** ** Decoding *)

Definition matches (bits : Z) (e : insn_desc_t) : bool := (bits &w d_mask e) =? d_match e.

(** The linear search: the entries passed (last first), the entry found and
    those after it; [None] if it would run off the end of the table. *)
Fixpoint search (bits : Z) (before l : list insn_desc_t) :
  option (list insn_desc_t * insn_desc_t * list insn_desc_t) :=
  match l with
  | [] => None
  | p :: l' => if matches bits p then Some (before, p, l') else search bits (p :: before) l'
  end.

(** "move to front of opcode list to reduce miss penalty"; [None] if [p + 1]
    is past the end. *)
Definition move_to_front (before : list insn_desc_t) (p : insn_desc_t) (after : list insn_desc_t) :
  option (list insn_desc_t) :=
  let unmoved := rev before ++ p :: after in
  match before with
  | prev :: _ =>
    if d_mask p =? 0 then Some unmoved
    else if d_match p =? d_match prev then Some unmoved
    else match after with
         | [] => None
         | next :: _ => Some (if d_match p =? d_match next then unmoved else p :: rev before ++ after)
         end
  | [] => Some unmoved
  end.

Definition with_match (bits : Z) (e : insn_desc_t) : insn_desc_t :=
  mk_insn_desc bits (d_mask e) (d_rv32 e) (d_rv64 e).

Definition cached (d : decoder_t) (idx : Z) : insn_desc_t := default illegal_desc (opcode_cache d !! idx).

Definition func_of (xlen : Z) (e : insn_desc_t) : insn_func_t := if xlen =? 64 then d_rv64 e else d_rv32 e.

Definition decode_insn (xlen : Z) (d : decoder_t) (bits : Z) : option (insn_func_t * decoder_t) :=
  let idx := bits mod OPCODE_CACHE_SIZE in
  let desc := cached d idx in
  if bits =? d_match desc then Some (func_of xlen desc, d)
  else
    '(before, p, after) ← search bits [] (instructions d);
    insns ← move_to_front before p after;
    Some (func_of xlen p, mk_decoder insns (<[idx := with_match bits p]> (opcode_cache d))).

(** A run of the decoder. *)
Fixpoint decode_all (d : decoder_t) (l : list (Z * Z)) : option decoder_t :=
  match l with
  | [] => Some d
  | (xlen, bits) :: l' => '(_, d') ← decode_insn xlen d bits; decode_all d' l'
  end.

(** The specification: the first matching entry of the table as it was built. *)
Definition lookup_insn (table : list insn_desc_t) (bits : Z) : option insn_desc_t :=
  List.find (matches bits) table.

(** ** Groups of entries with one [match] *)

Definition add_insn (x : insn_desc_t) (gs : list (list insn_desc_t)) : list (list insn_desc_t) :=
  match gs with
  | (y :: g) :: gs' => if d_match x =? d_match y then (x :: y :: g) :: gs' else [x] :: gs
  | _ => [x] :: gs
  end.
Definition group_insns (l : list insn_desc_t) : list (list insn_desc_t) := fold_right add_insn [] l.

(** Two entries that no bits match both. *)
Definition disjoint_insns (a b : insn_desc_t) : bool :=
  negb ((d_match a &w d_mask b) =? (d_match b &w d_mask a)).

Lemma disjoint_sound a b bits : disjoint_insns a b = true -> matches bits a = true -> matches bits b = true -> False.
Proof.
  unfold disjoint_insns, matches. intros D A B. apply negb_true_iff, Z.eqb_neq in D. apply D.
  apply Z.eqb_eq in A, B. rewrite <- A, <- B, <- !Z.land_assoc. f_equal. apply Z.land_comm.
Qed.

Definition uniform (g : list insn_desc_t) : Prop :=
  g <> [] /\ forall a b, In a g -> In b g -> d_match a = d_match b.

Definition hit (bits : Z) (g : list insn_desc_t) : Prop := exists e, In e g /\ matches bits e = true.

Section Groups.
Variable groups : list (list insn_desc_t).
Variable tail : list insn_desc_t.

Definition groups_disjoint (gs : list (list insn_desc_t)) : Prop :=
  forall bits g1 g2, In g1 gs -> In g2 gs -> hit bits g1 -> hit bits g2 -> g1 = g2.

Lemma find_app_split {A} (f : A -> bool) l1 l2 :
  List.find f (l1 ++ l2) = match List.find f l1 with Some x => Some x | None => List.find f l2 end.
Proof. induction l1 as [|x l1 IH]; [reflexivity|]. cbn. destruct (f x); auto. Qed.

Lemma find_hit bits g e : List.find (matches bits) g = Some e -> hit bits g.
Proof. intros F. apply List.find_some in F. now exists e. Qed.

Lemma find_concat bits gs e : groups_disjoint gs ->
  List.find (matches bits) (concat gs) = Some e <-> exists g, In g gs /\ List.find (matches bits) g = Some e.
Proof.
  induction gs as [|g gs IH]; intros D; cbn [concat].
  - split; [discriminate|intros (? & [] & _)].
  - assert (D' : groups_disjoint gs) by (intros b g1 g2 H1 H2; apply D; now right).
    rewrite find_app_split. split.
    + destruct (List.find (matches bits) g) as [x|] eqn:F; [intros [= ->]; exists g; split; [now left|exact F]|].
      intros H. apply (IH D') in H as (g' & Hi & Hf). exists g'. split; [now right|exact Hf].
    + intros (g' & [->|Hi] & Hf); [now rewrite Hf|]. destruct (List.find (matches bits) g) as [x|] eqn:F.
      * assert (g = g') as <- by (apply (D bits); [now left|now right|now apply find_hit in F|now apply find_hit in Hf]).
        congruence.
      * apply (IH D'). now exists g'.
Qed.

(** The order of disjoint groups does not matter to the search. *)
Lemma find_permuted bits gs gs' t : Permutation gs gs' -> groups_disjoint gs ->
  List.find (matches bits) (concat gs ++ t) = List.find (matches bits) (concat gs' ++ t).
Proof.
  intros P D. assert (D' : groups_disjoint gs').
  { intros b g1 g2 H1 H2. apply D; now apply (Permutation_in _ (Permutation_sym P)). }
  rewrite !find_app_split.
  assert (E : List.find (matches bits) (concat gs) = List.find (matches bits) (concat gs')).
  { destruct (List.find (matches bits) (concat gs)) as [e|] eqn:F; symmetry.
    - apply (find_concat bits gs e D) in F as (g & Hi & Hf). apply (find_concat bits gs' e D').
      exists g. split; [now apply (Permutation_in _ P)|exact Hf].
    - destruct (List.find (matches bits) (concat gs')) as [e|] eqn:F'; [|reflexivity].
      apply (find_concat bits gs' e D') in F' as (g & Hi & Hf). exfalso.
      assert (List.find (matches bits) (concat gs) = Some e); [|congruence].
      apply (find_concat bits gs e D). exists g. split; [now apply (Permutation_in _ (Permutation_sym P))|exact Hf]. }
  now rewrite E.
Qed.

(** An entry whose neighbours have other [match] fields is a group of its own. *)
Lemma lone_entry gs t pre x post : Forall uniform gs ->
  concat gs ++ t = pre ++ x :: post ->
  (forall y, last pre = Some y -> d_match x <> d_match y) ->
  (forall y, head post = Some y -> d_match x <> d_match y) ->
  (exists gs1 gs2, gs = gs1 ++ [x] :: gs2 /\ pre = concat gs1 /\ post = concat gs2 ++ t) \/
  (exists t1, t = t1 ++ x :: post /\ pre = concat gs ++ t1).
Proof.
  revert pre. induction gs as [|g gs IH]; intros pre U E Hp Hq; cbn [concat] in *.
  { right. now exists pre. }
  inversion U as [|? ? [Ne Ug] Us]; subst. rewrite <- app_assoc in E.
  destruct (app_eq_inv _ _ _ _ E) as [(k & Eg & Ek)|(k & Ep & Ek)].
  - destruct k as [|y k]; cbn in Ek.
    + destruct (IH [] Us) as [(gs1 & gs2 & -> & E1 & E2)|(t1 & -> & E1)]; auto; try easy.
      * left. exists (g :: gs1), gs2. rewrite app_nil_r in Eg. subst pre. cbn [concat]. rewrite <- E1, app_nil_r. auto.
      * right. exists t1. rewrite app_nil_r in Eg. subst pre. rewrite <- app_assoc, <- E1, app_nil_r. auto.
    + injection Ek as <- Ek. subst g. left. exists [], gs. cbn [concat app].
      destruct (last pre) as [y|] eqn:L.
      { exfalso. apply (Hp y eq_refl). apply Ug; [apply in_elt|].
        apply last_Some in L as [l' ->]. rewrite <- app_assoc. apply in_elt. }
      apply last_None in L as ->. destruct k as [|y k]; [cbn in Ek; auto|].
      exfalso. subst post. apply (Hq y eq_refl). apply Ug; cbn; auto.
  - subst pre. destruct (IH k Us) as [(gs1 & gs2 & -> & -> & ->)|(t1 & -> & ->)]; auto.
    + intros y Hy. apply Hp. rewrite last_app, Hy. reflexivity.
    + left. now exists (g :: gs1), gs2.
    + right. exists t1. now rewrite app_assoc.
Qed.

End Groups.

(** ** The decoder against its specification *)

Section Refinement.
Variable groups : list (list insn_desc_t).
Variable last_insn : insn_desc_t.
#[local] Notation tail := [last_insn].
#[local] Notation base := (concat groups ++ tail).
Hypothesis Hu : Forall uniform groups.
Hypothesis Hd : groups_disjoint groups.
Hypothesis Hm : d_mask last_insn = 0.
Hypothesis Hz : d_match last_insn = 0.

(** The table is a permutation of the groups, and a cache entry holds the
    functions of the instruction its bits select. *)
Definition decoder_ok (d : decoder_t) : Prop :=
  (exists gs, Permutation groups gs /\ instructions d = concat gs ++ tail) /\
  (forall idx e, opcode_cache d !! idx = Some e -> exists p, lookup_insn base (d_match e) = Some p /\
     d_rv32 e = d_rv32 p /\ d_rv64 e = d_rv64 p).

Lemma lookup_total l bits : exists p, lookup_insn (l ++ tail) bits = Some p.
Proof.
  unfold lookup_insn. rewrite find_app_split. destruct (List.find _ l); [eauto|]. cbn.
  unfold matches. rewrite Hm, Hz, Z.land_0_r. cbn. eauto.
Qed.

Lemma search_find bits l : forall p before, List.find (matches bits) l = Some p ->
  exists b after, search bits before l = Some (b ++ before, p, after) /\ l = rev b ++ p :: after.
Proof.
  induction l as [|x l IH]; intros p before; cbn; [discriminate|]. destruct (matches bits x) eqn:E.
  - intros [= ->]. exists [], l. auto.
  - intros F. destruct (IH p (x :: before) F) as (b & after & -> & ->). exists (b ++ [x]), after.
    rewrite <- app_assoc, rev_app_distr. auto.
Qed.

Lemma last_rev {A} (x : A) l : last (rev (x :: l)) = Some x.
Proof. cbn [rev]. apply last_snoc. Qed.

Lemma move_to_front_ok gs before p after :
  Permutation groups gs -> concat gs ++ tail = rev before ++ p :: after ->
  exists gs', Permutation groups gs' /\ move_to_front before p after = Some (concat gs' ++ tail).
Proof.
  intros P E. unfold move_to_front. rewrite <- E.
  destruct before as [|prev before]; [now exists gs|]. destruct (Z.eqb_spec (d_mask p) 0); [now exists gs|].
  destruct (Z.eqb_spec (d_match p) (d_match prev)); [now exists gs|].
  destruct after as [|next after].
  { exfalso. apply app_inj_tail in E as [_ ->]. auto. }
  destruct (Z.eqb_spec (d_match p) (d_match next)); [now exists gs|].
  assert (Ug : Forall uniform gs) by (apply (Forall_Permutation P); [auto|exact Hu] || now rewrite <- P).
  destruct (lone_entry gs tail _ _ _ Ug E) as [(gs1 & gs2 & -> & E1 & E2)|(t1 & T & _)].
  - intros y. rewrite last_rev. now intros [= <-].
  - now intros y [= <-].
  - exists ([p] :: gs1 ++ gs2). split.
    + etransitivity; [exact P|]. symmetry. apply Permutation_middle.
    + rewrite E1, E2. cbn [concat]. now rewrite concat_app, <- !app_assoc.
  - exfalso. destruct t1 as [|? [|? ?]]; try discriminate.
Qed.

Lemma cached_ok d bits : decoder_ok d -> bits = d_match (cached d (bits mod OPCODE_CACHE_SIZE)) ->
  (exists p, lookup_insn base bits = Some p /\
     d_rv32 (cached d (bits mod OPCODE_CACHE_SIZE)) = d_rv32 p /\
     d_rv64 (cached d (bits mod OPCODE_CACHE_SIZE)) = d_rv64 p) \/
  (bits = 0 /\ cached d (bits mod OPCODE_CACHE_SIZE) = illegal_desc).
Proof.
  intros [_ C] E. unfold cached in *. destruct (opcode_cache d !! _) as [e|] eqn:L; cbn in *; [|auto].
  left. rewrite E. eauto.
Qed.

(** One decode finds what a search of the original table finds; only the
    all-zero word may still hit an initial entry of the cache. *)
Lemma decode_insn_ok xlen d bits : decoder_ok d -> exists f d',
  decode_insn xlen d bits = Some (f, d') /\ decoder_ok d' /\
  ((exists p, lookup_insn base bits = Some p /\ f = func_of xlen p) \/
   (bits = 0 /\ f = illegal_instruction)).
Proof.
  intros H. pose proof H as [(gs & P & E) C]. unfold decode_insn. cbv zeta.
  destruct (Z.eqb_spec bits (d_match (cached d (bits mod OPCODE_CACHE_SIZE)))) as [Eb|Eb].
  - do 2 eexists. split; [reflexivity|]. split; [exact H|].
    destruct (cached_ok d bits H Eb) as [(p & L & E1 & E2)|[-> ->]].
    + left. exists p. split; [exact L|]. unfold func_of. now rewrite E1, E2.
    + right. split; [reflexivity|]. unfold func_of. now destruct (xlen =? 64).
  - destruct (lookup_total (concat groups) bits) as [p L].
    pose proof L as L'. unfold lookup_insn in L'. rewrite (find_permuted bits groups gs tail P Hd), <- E in L'.
    destruct (search_find bits _ p [] L') as (b & after & -> & E'). rewrite app_nil_r. cbn.
    destruct (move_to_front_ok gs b p after P ltac:(now rewrite <- E, E')) as (gs' & P' & ->). cbn.
    do 2 eexists. split; [reflexivity|]. split; [|left; now exists p]. split.
    + now exists gs'.
    + cbn [opcode_cache]. intros idx e. destruct (decide (idx = bits mod OPCODE_CACHE_SIZE)) as [->|N].
      * rewrite lookup_insert_eq. intros [= <-]. now exists p.
      * rewrite lookup_insert_ne by congruence. apply C.
Qed.

Lemma decode_all_ok l : forall d, decoder_ok d -> exists d', decode_all d l = Some d' /\ decoder_ok d'.
Proof.
  induction l as [|[xlen bits] l IH]; intros d H; cbn [decode_all]; [now exists d|].
  destruct (decode_insn_ok xlen d bits H) as (f & d' & -> & H' & _). cbn. auto.
Qed.

End Refinement.

(** ** Checking a table *)

Lemma group_insns_concat l : concat (group_insns l) = l.
Proof.
  induction l as [|x l IH]; [reflexivity|]. cbn [group_insns fold_right]. fold (group_insns l). unfold add_insn.
  destruct (group_insns l) as [|[|y g] gs]; [| |destruct (_ =? _)]; cbn in *; now rewrite <- IH.
Qed.

Lemma uniform_one x : uniform [x].
Proof. split; [discriminate|]. now intros a b [<-|[]] [<-|[]]. Qed.

Lemma group_insns_uniform l : Forall uniform (group_insns l).
Proof.
  induction l as [|x l IH]; cbn [group_insns fold_right]; [constructor|]. fold (group_insns l). unfold add_insn.
  destruct (group_insns l) as [|[|y g] gs]; [| |destruct (Z.eqb_spec (d_match x) (d_match y)) as [E|E]];
    try (constructor; [apply uniform_one|exact IH]).
  inversion IH as [|? ? [_ U] Us]; subst. constructor; [|exact Us]. split; [discriminate|].
  assert (K : forall a, In a (x :: y :: g) -> d_match a = d_match y)
    by (intros a [<-|Ha]; [exact E|apply U; [exact Ha|now left]]).
  intros a b Ha Hb. now rewrite (K a Ha), (K b Hb).
Qed.

(** Entries with different [match] fields are told apart by bits that both
    masks fix.  The check splits the table at a bit all its masks fix. *)
Fixpoint separated (fuel : nat) (l : list insn_desc_t) : bool :=
  match l with
  | [] => true
  | x :: l' =>
    forallb (fun e => d_match e =? d_match x) l' ||
    match fuel with
    | O => false
    | S fuel' =>
      let common := fold_right (fun e k => d_mask e &w k) (d_mask x) l' in
      let varying := fold_right (fun e v => (d_match e ^w d_match x) |w v) 0 l' in
      let i := Z.log2 (common &w varying) in
      forallb (fun e => Z.testbit (d_mask e) i) l &&
      separated fuel' (List.filter (fun e => Z.testbit (d_match e) i) l) &&
      separated fuel' (List.filter (fun e => negb (Z.testbit (d_match e) i)) l)
    end
  end.

Definition apart (a b : insn_desc_t) : Prop := forall bits, matches bits a = true -> matches bits b = true -> False.

Lemma bit_apart i a b : 0 <= i -> Z.testbit (d_mask a) i = true -> Z.testbit (d_mask b) i = true ->
  Z.testbit (d_match a) i <> Z.testbit (d_match b) i -> apart a b.
Proof.
  intros Hi Ka Kb N bits Ma Mb. apply N. unfold matches in *. apply Z.eqb_eq in Ma, Mb.
  rewrite <- Ma, <- Mb, !Z.land_spec, Ka, Kb. reflexivity.
Qed.

Lemma separated_sound fuel : forall l a b, separated fuel l = true -> In a l -> In b l ->
  d_match a = d_match b \/ apart a b.
Proof.
  induction fuel as [|fuel IH]; intros [|x l] a b H Ha Hb; try easy; cbn [separated] in H;
    apply orb_true_iff in H as [H|H]; try discriminate;
    try (left; rewrite forallb_forall in H;
      assert (K : forall c, In c (x :: l) -> d_match c = d_match x)
        by (intros c [<-|Hc]; [reflexivity|now apply Z.eqb_eq, H]); now rewrite (K a Ha), (K b Hb)).
  cbv zeta in H. set (i := Z.log2 _) in H. apply andb_true_iff in H as [H H2]. apply andb_true_iff in H as [H H1].
  rewrite forallb_forall in H. pose proof (Z.log2_nonneg : forall n, 0 <= Z.log2 n) as Hi.
  destruct (Z.testbit (d_match a) i) eqn:Ta, (Z.testbit (d_match b) i) eqn:Tb.
  - apply (IH _ _ _ H1); apply filter_In; auto.
  - right. apply (bit_apart i); [apply Hi|now apply H|now apply H|congruence].
  - right. apply (bit_apart i); [apply Hi|now apply H|now apply H|congruence].
  - apply (IH _ _ _ H2); apply filter_In; rewrite ?Ta, ?Tb; auto.
Qed.

(** The [match] fields of the groups decrease. *)
Definition key (g : list insn_desc_t) : Z := match g with [] => 0 | e :: _ => d_match e end.
Fixpoint decreasing (gs : list (list insn_desc_t)) : bool :=
  match gs with
  | g1 :: (g2 :: _) as gs' => (key g2 <? key g1) && decreasing gs'
  | _ => true
  end.

Lemma decreasing_head gs : forall g g', decreasing (g :: gs) = true -> In g' gs -> key g' < key g.
Proof.
  induction gs as [|h gs IH]; intros g g' H Hin; [easy|]. cbn [decreasing] in H. fold decreasing in H.
  apply andb_true_iff in H as [H1 H2]. destruct Hin as [->|Hin]; [lia|]. specialize (IH h g' H2 Hin). lia.
Qed.

Lemma decreasing_inj gs g1 g2 : decreasing gs = true -> In g1 gs -> In g2 gs -> key g1 = key g2 -> g1 = g2.
Proof.
  induction gs as [|g gs IH]; intros H H1 H2 E; [easy|].
  assert (H' : decreasing gs = true) by (destruct gs; [reflexivity|now apply andb_true_iff in H]).
  destruct H1 as [->|H1], H2 as [->|H2]; auto.
  - pose proof (decreasing_head gs g1 g2 H H2). lia.
  - pose proof (decreasing_head gs g2 g1 H H1). lia.
Qed.

Lemma separated_groups fuel l : separated fuel l = true -> decreasing (group_insns l) = true ->
  groups_disjoint (group_insns l).
Proof.
  intros Hs Hd bits g1 g2 H1 H2 (a & Ha & Ma) (b & Hb & Mb).
  pose proof (group_insns_uniform l) as U. rewrite List.Forall_forall in U.
  assert (K : forall g e, In g (group_insns l) -> In e g -> In e l /\ d_match e = key g).
  { intros g e Hg He. split; [rewrite <- (group_insns_concat l); apply in_concat; now exists g|].
    destruct (U g Hg) as [_ Ug]. destruct g as [|x g]; [easy|]. apply Ug; [exact He|now left]. }
  destruct (K g1 a H1 Ha) as [Ia Ea], (K g2 b H2 Hb) as [Ib Eb].
  destruct (separated_sound fuel l a b Hs Ia Ib) as [E|D]; [|destruct (D bits Ma Mb)].
  apply (decreasing_inj _ _ _ Hd H1 H2). congruence.
Qed.

(** Within a group, a later entry fixes a subset of the bits of an earlier one. *)
Fixpoint nested (g : list insn_desc_t) : bool :=
  match g with
  | [] => true
  | e :: g' => forallb (fun e' => (d_mask e' &w d_mask e) =? d_mask e') g' && nested g'
  end.

(** ** The base table *)

Definition base_table : list insn_desc_t := sort_insns (omap insn_desc riscv_insn_list ++ [illegal_desc]).
Definition base_groups : list (list insn_desc_t) := group_insns (removelast base_table).

(** All that has to be computed, on a table. *)
Definition groups_ok (fuel : nat) (l : list insn_desc_t) (gs : list (list insn_desc_t)) : bool :=
  separated fuel l && decreasing gs && forallb nested gs.
Definition last_ok (e : insn_desc_t) : bool := (d_mask e =? 0) && (d_match e =? 0).
Definition table_ok (fuel : nat) (t : list insn_desc_t) : bool :=
  match t with
  | [] => false
  | _ :: _ => groups_ok fuel (removelast t) (group_insns (removelast t)) && last_ok (List.last t illegal_desc)
  end.

Lemma base_table_ok : table_ok 32 base_table = true.
Proof. vm_compute. reflexivity. Qed.

Lemma nested_first bits g p e : nested g = true -> List.find (matches bits) g = Some p -> In e g ->
  matches bits e = true -> (d_mask e &w d_mask p) = d_mask e.
Proof.
  induction g as [|x g IH]; intros N F He Me; [easy|]. cbn [nested List.find] in *.
  apply andb_true_iff in N as [N1 N2]. destruct (matches bits x) eqn:M.
  - injection F as ->. destruct He as [->|He]; [apply Z.land_diag|].
    rewrite forallb_forall in N1. now apply Z.eqb_eq, N1.
  - destruct He as [->|He]; [congruence|now apply IH].
Qed.

Lemma find_most_specific bits gs t p e : groups_disjoint gs -> forallb nested gs = true ->
  List.find (matches bits) (concat gs ++ t) = Some p -> In e (concat gs) -> matches bits e = true ->
  (d_mask e &w d_mask p) = d_mask e.
Proof.
  intros D N F He Me. apply in_concat in He as (g & Hg & He).
  destruct (List.find (matches bits) g) as [q|] eqn:Fg; [|now rewrite (List.find_none _ _ Fg e He) in Me].
  assert (Fq : List.find (matches bits) (concat gs) = Some q) by (apply (find_concat bits gs q D); now exists g).
  rewrite find_app_split, Fq in F. injection F as <-. rewrite forallb_forall in N.
  exact (nested_first bits g q e (N g Hg) Fg He Me).
Qed.

Section Table.
Variable t : list insn_desc_t.
Variable fuel : nat.
Hypothesis T : table_ok fuel t = true.
#[local] Notation groups := (group_insns (removelast t)).
#[local] Notation last_insn := (List.last t illegal_desc).

Lemma table_ok_facts : separated fuel (removelast t) = true /\ decreasing groups = true /\
  forallb nested groups = true /\ t <> [] /\ d_mask last_insn = 0 /\ d_match last_insn = 0.
Proof.
  assert (N : t <> []) by (intros E; pose proof T as T'; rewrite E in T'; discriminate).
  assert (T' : groups_ok fuel (removelast t) groups = true /\ last_ok last_insn = true)
    by (destruct t; [discriminate|exact (proj1 (andb_true_iff _ _) T)]).
  unfold groups_ok, last_ok in T'. rewrite !andb_true_iff, !Z.eqb_eq in T'. tauto.
Qed.

Lemma table_groups : t = concat groups ++ [last_insn].
Proof. rewrite group_insns_concat. apply app_removelast_last, (proj1 (proj2 (proj2 (proj2 table_ok_facts)))). Qed.

Lemma table_groups_disjoint : groups_disjoint groups.
Proof. exact (separated_groups fuel _ (proj1 table_ok_facts) (proj1 (proj2 table_ok_facts))). Qed.

Lemma table_most_specific bits p e : lookup_insn t bits = Some p -> In e t -> matches bits e = true ->
  (d_mask e &w d_mask p) = d_mask e.
Proof.
  intros L He Me. unfold lookup_insn in L. rewrite table_groups in L, He. apply in_app_or in He as [He|[<-|[]]].
  - exact (find_most_specific bits groups _ p e table_groups_disjoint (proj1 (proj2 (proj2 table_ok_facts))) L He Me).
  - destruct table_ok_facts as (_ & _ & _ & _ & Hm & _). rewrite Hm. reflexivity.
Qed.

Lemma table_decoder_ok : decoder_ok groups last_insn (mk_decoder t ∅).
Proof.
  split.
  - exists groups. split; [apply Permutation_refl|exact table_groups].
  - intros idx e E. cbn [opcode_cache] in E. rewrite lookup_empty in E. discriminate.
Qed.

Lemma table_refines history xlen bits :
  exists d f d' p, decode_all (mk_decoder t ∅) history = Some d /\
    decode_insn xlen d bits = Some (f, d') /\ lookup_insn t bits = Some p /\
    (f = func_of xlen p \/ (bits = 0 /\ f = illegal_instruction)).
Proof.
  destruct table_ok_facts as (_ & _ & _ & _ & Hm & Hz).
  destruct (decode_all_ok groups last_insn (group_insns_uniform _) table_groups_disjoint Hm Hz history _ table_decoder_ok)
    as (d & Hd & Hok).
  destruct (decode_insn_ok groups last_insn (group_insns_uniform _) table_groups_disjoint Hm Hz xlen d bits Hok)
    as (f & d' & E & _ & R).
  destruct (lookup_total last_insn Hm Hz (concat groups) bits) as [p L].
  rewrite <- table_groups in L, R. exists d, f, d', p. split; [exact Hd|]. split; [exact E|]. split; [exact L|].
  destruct R as [(p' & L' & R)|R]; [|now right]. left. congruence.
Qed.

End Table.

Lemma sorted_members {A} (f : A -> option insn_desc_t) l x e : In e (sort_insns (omap f l ++ [x])) <->
  e = x \/ exists n, In n l /\ f n = Some e.
Proof.
  assert (P : In e (sort_insns (omap f l ++ [x])) <-> In e (omap f l ++ [x])).
  { split; apply Permutation_in; [apply Permutation_sym|]; apply InsnSort.Permuted_sort. }
  rewrite P, in_app_iff, <- list_elem_of_In, list_elem_of_omap. split.
  - intros [(n & Hn & En)|[<-|[]]]; [right|now left].
    exists n. now rewrite <- list_elem_of_In.
  - intros [->|(n & Hn & En)]; [right; now left|left]. exists n. now rewrite list_elem_of_In.
Qed.

(** The table holds the built instructions and the catch-all entry. *)
Lemma register_all l : forall d, instructions (fold_left (fun d name => match insn_desc name with
    | Some desc => register_insn desc d | None => d end) l d) = instructions d ++ omap insn_desc l.
Proof.
  induction l as [|n l IH]; intros d; cbn; [now rewrite app_nil_r|]. rewrite IH.
  destruct (insn_desc n); cbn; [|reflexivity]. now rewrite <- app_assoc.
Qed.

Lemma registered_table l : register_base_instructions_from l (mk_decoder [] ∅) =
  mk_decoder (sort_insns (omap insn_desc l ++ [illegal_desc])) ∅.
Proof.
  unfold register_base_instructions_from, build_opcode_map, register_insn. cbn [instructions].
  rewrite register_all. reflexivity.
Qed.

Lemma base_decoder_table : base_decoder = mk_decoder base_table ∅.
Proof. exact (registered_table riscv_insn_list). Qed.

(** A function for registers of [xlen] bits. *)
Definition func_xlen (xlen : Z) (f : insn_func_t) : Prop :=
  match f with illegal_instruction => True | rv32 _ => xlen = 32 | rv64 _ => xlen = 64 end.

Lemma insn_desc_xlen name e xlen : insn_desc name = Some e -> xlen = 32 \/ xlen = 64 -> func_xlen xlen (func_of xlen e).
Proof.
  unfold insn_desc. destruct (match_mask name) as [[mt mk]|]; [|discriminate].
  intros [= <-] [-> | ->]; reflexivity.
Qed.

(** Every built instruction fixes the bits that make it a 16- or a 32-bit one. *)
Definition short_code (mt mk : Z) : bool :=
  ((mk &w 3) =? 3) && ((mt &w 3) <? 3) || ((mk &w 0x1f) =? 0x1f) && ((mt &w 0x1f) <? 0x1f).

Lemma encodings_short : forallb (fun e => short_code (fst (snd e)) (snd (snd e))) encodings = true.
Proof. vm_compute. reflexivity. Qed.

Lemma insn_desc_short name e : insn_desc name = Some e -> short_code (d_match e) (d_mask e) = true.
Proof.
  unfold insn_desc, match_mask. destruct (declared_map !! name) as [m|]; [|discriminate]. cbn [mbind option_bind].
  destruct (encodings_map !! m) as [[mt mk]|] eqn:L; [|discriminate]. intros [= <-]. cbn [d_match d_mask].
  apply elem_of_list_to_map_2, list_elem_of_In in L.
  pose proof encodings_short as F. rewrite forallb_forall in F. exact (F _ L).
Qed.

Lemma matches_short bits e : short_code (d_match e) (d_mask e) = true -> matches bits e = true -> insn_length bits <= 4.
Proof.
  unfold short_code, matches, insn_length. intros H M. apply Z.eqb_eq in M. rewrite <- M in H.
  destruct (bits &w 3 <? 3) eqn:E3; [lia|]. destruct (bits &w 31 <? 31) eqn:E5; [lia|]. exfalso.
  apply orb_true_iff in H as [H|H]; apply andb_true_iff in H as [H1 H2]; apply Z.eqb_eq in H1;
    rewrite <- Z.land_assoc, H1 in H2; congruence.
Qed.

#[local] Strategy opaque [base_decoder base_table riscv_insn_list insn_desc].

Lemma base_table_members e : In e base_table <->
  e = illegal_desc \/ exists name, In name riscv_insn_list /\ insn_desc name = Some e.
Proof. exact (sorted_members insn_desc riscv_insn_list illegal_desc e). Qed.

(** *** The decoder as an invariant of the processor *)

Definition decoder_inv (d : decoder_t) : Prop :=
  decoder_ok (group_insns (removelast base_table)) (List.last base_table illegal_desc) d.

Lemma base_table_xlen e xlen : In e base_table -> xlen = 32 \/ xlen = 64 -> func_xlen xlen (func_of xlen e).
Proof.
  intros He Hx. destruct (proj1 (base_table_members e) He) as [->|(name & _ & E)].
  - destruct Hx as [-> | ->]; exact I.
  - exact (insn_desc_xlen name e xlen E Hx).
Qed.

Lemma decoder_inv_base : decoder_inv base_decoder.
Proof. rewrite base_decoder_table. exact (table_decoder_ok base_table 32 base_table_ok). Qed.

Lemma decoder_inv_step xlen d bits : decoder_inv d -> xlen = 32 \/ xlen = 64 ->
  exists f d', decode_insn xlen d bits = Some (f, d') /\ decoder_inv d' /\ func_xlen xlen f /\
    (f = illegal_instruction \/ insn_length bits <= 4).
Proof.
  intros Hd Hx. destruct (table_ok_facts base_table 32 base_table_ok) as (_ & _ & _ & _ & Hm & Hz).
  destruct (decode_insn_ok _ _ (group_insns_uniform _) (table_groups_disjoint base_table 32 base_table_ok) Hm Hz
    xlen d bits Hd) as (f & d' & E & Hd' & R).
  exists f, d'. split; [exact E|]. split; [exact Hd'|].
  destruct R as [(p & L & ->)|[_ ->]]; [|split; [exact I|left; reflexivity]].
  rewrite <- (table_groups base_table 32 base_table_ok) in L.
  destruct (List.find_some _ _ L) as [Hin M].
  split; [exact (base_table_xlen p xlen Hin Hx)|].
  destruct (proj1 (base_table_members p) Hin) as [->|(name & _ & E')].
  - left. destruct Hx as [-> | ->]; reflexivity.
  - right. exact (matches_short bits p (insn_desc_short name p E') M).
Qed.

(** ** Properties *)

(** C30.  The decoder is a function of the instruction word: after any sequence
    of decodes, whatever it has done to the order of the table and to the
    cache, [decode_insn] terminates inside the table and returns the function
    of the first matching entry of the table as it was built, for every word
    but zero; for zero it returns that function or [illegal_instruction]. *)
Theorem decode_insn_refines (history : list (Z * Z)) (xlen bits : Z) :
  exists d f d' p, decode_all base_decoder history = Some d /\
    decode_insn xlen d bits = Some (f, d') /\ lookup_insn base_table bits = Some p /\
    (f = func_of xlen p \/ (bits = 0 /\ f = illegal_instruction)).
Proof. rewrite base_decoder_table. exact (table_refines base_table 32 base_table_ok history xlen bits). Qed.

(** C31.  The table resolves overlapping encodings by specificity: what the
    lookup returns matches the word and is an instruction that was built in or
    the catch-all; every built instruction that matches the word fixes a
    subset of the bits that it fixes; and the catch-all is returned only if no
    instruction that fixes any bit matches. *)
Theorem lookup_most_specific (bits : Z) (p : insn_desc_t) :
  lookup_insn base_table bits = Some p ->
  matches bits p = true /\
  (p = illegal_desc \/ exists name, In name riscv_insn_list /\ insn_desc name = Some p) /\
  (forall name e, In name riscv_insn_list -> insn_desc name = Some e -> matches bits e = true ->
     (d_mask e &w d_mask p) = d_mask e /\ (p = illegal_desc -> d_mask e = 0)).
Proof.
  intros L. pose proof (List.find_some _ _ L) as [Hin Hm].
  split; [exact Hm|]. split; [exact (proj1 (base_table_members p) Hin)|]. intros name e Hn En He.
  assert (Q : (d_mask e &w d_mask p) = d_mask e).
  { assert (Hie : In e base_table)
      by exact (proj2 (base_table_members e) (or_intror (ex_intro _ name (conj Hn En)))).
    exact (table_most_specific base_table 32 base_table_ok bits p e L Hie He). }
  split; [exact Q|]. intros ->. rewrite <- Q. apply Z.land_0_r.
Qed.

Lemma lookup_most_specific_witness :
  lookup_insn base_table 0x9002 = Some (mk_insn_desc 0x9002 0xffff (rv32 "c_ebreak") (rv64 "c_ebreak")) /\
  (0xf003 &w 0xffff) = 0xf003.
Proof.
  assert (L : lookup_insn base_table 0x9002 =
    Some (mk_insn_desc 0x9002 0xffff (rv32 "c_ebreak") (rv64 "c_ebreak"))) by (vm_compute; reflexivity).
  split; [exact L|]. destruct (lookup_most_specific 0x9002 _ L) as (_ & _ & H).
  apply (H "c_add" (mk_insn_desc 0x9002 0xf003 (rv32 "c_add") (rv64 "c_add"))); [|vm_compute; reflexivity..].
  apply list_elem_of_In. apply (bool_decide_unpack _). vm_compute. exact I.
Defined.

(** The reordering at work: decoding [addi] twice moves it to the front, and
    [c_ebreak] keeps its place before [c_jalr] and [c_add]. *)
Example decode_run :
  option_map (fun d => (option_map fst (decode_insn 64 d 0x9002), option_map fst (decode_insn 64 d 0x9102),
    List.map d_rv64 (firstn 1 (instructions d)))) (decode_all base_decoder [(64, 0x00100093); (32, 0x9002); (64, 0x02a00513)]) =
  Some (Some (rv64 "c_ebreak"), Some (rv64 "c_jalr"), [rv64 "addi"]).
Proof. vm_compute. reflexivity. Qed.
