(* ===== verification/State.v ===== *)
(** * State: the architectural state, the processor object and its monad

    The records of [riscv/processor.h] ([state_t], [dcsr_t], [mcontrol_t], the
    members of [processor_t] and of its vector unit that the modelled code
    uses), the trap classes of [riscv/trap.h], the data members of [mmu_t], and
    the monad in which member functions and instruction bodies run: state
    passing over the whole hart with C++ exceptions, where a [throw] keeps
    every state change made before it.

    [simif_t] is the abstract interface of [riscv/simif.h]; the type class
    [SimIf] states it together with the host memory behind its pointers. *)
From Stdlib Require Import ZArith Lia Bool List.
From stdpp Require Import base list gmap.
From S2P Require Import Prelude SoftFloat Encoding Decode Decoder.
#[local] Open Scope Z_scope.

(** ** Record update

    [r <| f := x |>] replaces one field.  A setter is derived from the eta
    expansion of its record by abstracting the projection. *)

Class Eta (R : Type) := eta : R -> R.
Class Setter {R T : Type} (proj : R -> T) := set_field_of : (T -> T) -> R -> R.
Arguments set_field_of {R T} proj {Setter} f r : simpl never.

Ltac derive_setter :=
  lazymatch goal with
  | |- @Setter ?R ?T ?proj =>
    let f := fresh "f" in
    let r := fresh "r" in
    exact (fun (f : T -> T) (r : R) =>
      ltac:(let e := eval hnf in (eta r) in
            let p := eval pattern (proj r) in e in
            lazymatch p with
            | ?g _ => let body := eval cbv beta in (g (f (proj r))) in exact body
            end))
  end.

Declare Scope record_scope.
Delimit Scope record_scope with record.
Notation "r <| proj := x |>" := (set_field_of proj (fun _ => x) r)
  (at level 1, left associativity, format "r  <| proj  :=  x |>") : record_scope.
Notation "r <| proj ::= f |>" := (set_field_of proj f r)
  (at level 1, left associativity, format "r  <| proj  ::=  f |>") : record_scope.
#[local] Open Scope record_scope.

(** ** Registers *)

Section Regfile.
Context {T : Type}.

Definition regfile_write (zero_reg : bool) (i : Z) (value : T) (data : list T) : list T :=
  if negb zero_reg || negb (i =? 0) then <[Z.to_nat i := value]> data else data.
Definition regfile_read (d : T) (data : list T) (i : Z) : T := nth (Z.to_nat i) data d.

End Regfile.

(** [freg_t] is [float128_t]: the two 64-bit words [v[0]] and [v[1]]. *)
Record freg_t := mk_freg { v0 : Z; v1 : Z }.

Definition NXPR : nat := 32.
Definition NFPR : nat := 32.

(** Debug control and status, one field per member of [dcsr_t]. *)
Record dcsr_t := mk_dcsr {
  dcsr_prv : Z;
  dcsr_step : bool;
  dcsr_ebreakm : bool;
  dcsr_ebreakh : bool;
  dcsr_ebreaks : bool;
  dcsr_ebreaku : bool;
  dcsr_halt : bool;
  dcsr_cause : Z
}.

#[export] Instance eta_dcsr_t : Eta dcsr_t := fun s =>
  mk_dcsr
    (dcsr_prv s) (dcsr_step s) (dcsr_ebreakm s) (dcsr_ebreakh s) (dcsr_ebreaks s)
    (dcsr_ebreaku s) (dcsr_halt s) (dcsr_cause s).

#[export] Instance set_dcsr_prv : Setter dcsr_prv := ltac:(derive_setter).
#[export] Instance set_dcsr_step : Setter dcsr_step := ltac:(derive_setter).
#[export] Instance set_dcsr_ebreakm : Setter dcsr_ebreakm := ltac:(derive_setter).
#[export] Instance set_dcsr_ebreakh : Setter dcsr_ebreakh := ltac:(derive_setter).
#[export] Instance set_dcsr_ebreaks : Setter dcsr_ebreaks := ltac:(derive_setter).
#[export] Instance set_dcsr_ebreaku : Setter dcsr_ebreaku := ltac:(derive_setter).
#[export] Instance set_dcsr_halt : Setter dcsr_halt := ltac:(derive_setter).
#[export] Instance set_dcsr_cause : Setter dcsr_cause := ltac:(derive_setter).

(** A trigger of [mcontrol_t]; the enumerations of [action] and [match] are the
    integers they are cast from. *)
Record mcontrol_t := mk_mcontrol {
  mc_type : Z;
  mc_dmode : bool;
  mc_maskmax : Z;
  mc_select : bool;
  mc_timing : bool;
  mc_action : Z;
  mc_chain : bool;
  mc_match : Z;
  mc_m : bool;
  mc_h : bool;
  mc_s : bool;
  mc_u : bool;
  mc_execute : bool;
  mc_store : bool;
  mc_load : bool
}.

#[export] Instance eta_mcontrol_t : Eta mcontrol_t := fun s =>
  mk_mcontrol
    (mc_type s) (mc_dmode s) (mc_maskmax s) (mc_select s) (mc_timing s) (mc_action s)
    (mc_chain s) (mc_match s) (mc_m s) (mc_h s) (mc_s s) (mc_u s) (mc_execute s)
    (mc_store s) (mc_load s).

#[export] Instance set_mc_type : Setter mc_type := ltac:(derive_setter).
#[export] Instance set_mc_dmode : Setter mc_dmode := ltac:(derive_setter).
#[export] Instance set_mc_maskmax : Setter mc_maskmax := ltac:(derive_setter).
#[export] Instance set_mc_select : Setter mc_select := ltac:(derive_setter).
#[export] Instance set_mc_timing : Setter mc_timing := ltac:(derive_setter).
#[export] Instance set_mc_action : Setter mc_action := ltac:(derive_setter).
#[export] Instance set_mc_chain : Setter mc_chain := ltac:(derive_setter).
#[export] Instance set_mc_match : Setter mc_match := ltac:(derive_setter).
#[export] Instance set_mc_m : Setter mc_m := ltac:(derive_setter).
#[export] Instance set_mc_h : Setter mc_h := ltac:(derive_setter).
#[export] Instance set_mc_s : Setter mc_s := ltac:(derive_setter).
#[export] Instance set_mc_u : Setter mc_u := ltac:(derive_setter).
#[export] Instance set_mc_execute : Setter mc_execute := ltac:(derive_setter).
#[export] Instance set_mc_store : Setter mc_store := ltac:(derive_setter).
#[export] Instance set_mc_load : Setter mc_load := ltac:(derive_setter).

Definition num_triggers : nat := 4.
Definition max_pmp : nat := 16.

Inductive single_step_t := STEP_NONE | STEP_STEPPING | STEP_STEPPED.

(** [state_t], in declaration order ([v] is called [v_]); the commit-log members
    belong to a build option that is off. *)
Record state_t := mk_state {
  pc : Z;
  XPR : list Z;
  FPR : list freg_t;
  prv : Z;
  v_ : bool;
  misa : Z;
  mstatus : Z;
  mepc : Z;
  mtval : Z;
  mscratch : Z;
  mtvec : Z;
  mcause : Z;
  minstret : Z;
  mie : Z;
  mip : Z;
  medeleg : Z;
  mideleg : Z;
  mcounteren : Z;
  scounteren : Z;
  sepc : Z;
  stval : Z;
  sscratch : Z;
  stvec : Z;
  satp : Z;
  scause : Z;
  mtval2 : Z;
  mtinst : Z;
  hstatus : Z;
  hideleg : Z;
  hedeleg : Z;
  hcounteren : Z;
  htval : Z;
  htinst : Z;
  hgatp : Z;
  vsstatus : Z;
  vstvec : Z;
  vsscratch : Z;
  vsepc : Z;
  vscause : Z;
  vstval : Z;
  vsatp : Z;
  dpc : Z;
  dscratch0 : Z;
  dscratch1 : Z;
  dcsr : dcsr_t;
  tselect : Z;
  mcontrol : list mcontrol_t;
  tdata2 : list Z;
  debug_mode : bool;
  pmpcfg : list Z;
  pmpaddr : list Z;
  fflags : Z;
  frm : Z;
  serialized : bool;
  single_step : single_step_t
}.

#[export] Instance eta_state_t : Eta state_t := fun s =>
  mk_state
    (pc s) (XPR s) (FPR s) (prv s) (v_ s) (misa s) (mstatus s) (mepc s) (mtval s)
    (mscratch s) (mtvec s) (mcause s) (minstret s) (mie s) (mip s) (medeleg s) (mideleg
    s) (mcounteren s) (scounteren s) (sepc s) (stval s) (sscratch s) (stvec s) (satp s)
    (scause s) (mtval2 s) (mtinst s) (hstatus s) (hideleg s) (hedeleg s) (hcounteren s)
    (htval s) (htinst s) (hgatp s) (vsstatus s) (vstvec s) (vsscratch s) (vsepc s)
    (vscause s) (vstval s) (vsatp s) (dpc s) (dscratch0 s) (dscratch1 s) (dcsr s)
    (tselect s) (mcontrol s) (tdata2 s) (debug_mode s) (pmpcfg s) (pmpaddr s) (fflags s)
    (frm s) (serialized s) (single_step s).

#[export] Instance set_pc : Setter pc := ltac:(derive_setter).
#[export] Instance set_XPR : Setter XPR := ltac:(derive_setter).
#[export] Instance set_FPR : Setter FPR := ltac:(derive_setter).
#[export] Instance set_prv : Setter prv := ltac:(derive_setter).
#[export] Instance set_v_ : Setter v_ := ltac:(derive_setter).
#[export] Instance set_misa : Setter misa := ltac:(derive_setter).
#[export] Instance set_mstatus : Setter mstatus := ltac:(derive_setter).
#[export] Instance set_mepc : Setter mepc := ltac:(derive_setter).
#[export] Instance set_mtval : Setter mtval := ltac:(derive_setter).
#[export] Instance set_mscratch : Setter mscratch := ltac:(derive_setter).
#[export] Instance set_mtvec : Setter mtvec := ltac:(derive_setter).
#[export] Instance set_mcause : Setter mcause := ltac:(derive_setter).
#[export] Instance set_minstret : Setter minstret := ltac:(derive_setter).
#[export] Instance set_mie : Setter mie := ltac:(derive_setter).
#[export] Instance set_mip : Setter mip := ltac:(derive_setter).
#[export] Instance set_medeleg : Setter medeleg := ltac:(derive_setter).
#[export] Instance set_mideleg : Setter mideleg := ltac:(derive_setter).
#[export] Instance set_mcounteren : Setter mcounteren := ltac:(derive_setter).
#[export] Instance set_scounteren : Setter scounteren := ltac:(derive_setter).
#[export] Instance set_sepc : Setter sepc := ltac:(derive_setter).
#[export] Instance set_stval : Setter stval := ltac:(derive_setter).
#[export] Instance set_sscratch : Setter sscratch := ltac:(derive_setter).
#[export] Instance set_stvec : Setter stvec := ltac:(derive_setter).
#[export] Instance set_satp : Setter satp := ltac:(derive_setter).
#[export] Instance set_scause : Setter scause := ltac:(derive_setter).
#[export] Instance set_mtval2 : Setter mtval2 := ltac:(derive_setter).
#[export] Instance set_mtinst : Setter mtinst := ltac:(derive_setter).
#[export] Instance set_hstatus : Setter hstatus := ltac:(derive_setter).
#[export] Instance set_hideleg : Setter hideleg := ltac:(derive_setter).
#[export] Instance set_hedeleg : Setter hedeleg := ltac:(derive_setter).
#[export] Instance set_hcounteren : Setter hcounteren := ltac:(derive_setter).
#[export] Instance set_htval : Setter htval := ltac:(derive_setter).
#[export] Instance set_htinst : Setter htinst := ltac:(derive_setter).
#[export] Instance set_hgatp : Setter hgatp := ltac:(derive_setter).
#[export] Instance set_vsstatus : Setter vsstatus := ltac:(derive_setter).
#[export] Instance set_vstvec : Setter vstvec := ltac:(derive_setter).
#[export] Instance set_vsscratch : Setter vsscratch := ltac:(derive_setter).
#[export] Instance set_vsepc : Setter vsepc := ltac:(derive_setter).
#[export] Instance set_vscause : Setter vscause := ltac:(derive_setter).
#[export] Instance set_vstval : Setter vstval := ltac:(derive_setter).
#[export] Instance set_vsatp : Setter vsatp := ltac:(derive_setter).
#[export] Instance set_dpc : Setter dpc := ltac:(derive_setter).
#[export] Instance set_dscratch0 : Setter dscratch0 := ltac:(derive_setter).
#[export] Instance set_dscratch1 : Setter dscratch1 := ltac:(derive_setter).
#[export] Instance set_dcsr : Setter dcsr := ltac:(derive_setter).
#[export] Instance set_tselect : Setter tselect := ltac:(derive_setter).
#[export] Instance set_mcontrol : Setter mcontrol := ltac:(derive_setter).
#[export] Instance set_tdata2 : Setter tdata2 := ltac:(derive_setter).
#[export] Instance set_debug_mode : Setter debug_mode := ltac:(derive_setter).
#[export] Instance set_pmpcfg : Setter pmpcfg := ltac:(derive_setter).
#[export] Instance set_pmpaddr : Setter pmpaddr := ltac:(derive_setter).
#[export] Instance set_fflags : Setter fflags := ltac:(derive_setter).
#[export] Instance set_frm : Setter frm := ltac:(derive_setter).
#[export] Instance set_serialized : Setter serialized := ltac:(derive_setter).
#[export] Instance set_single_step : Setter single_step := ltac:(derive_setter).

(** ** The vector unit's control registers *)

(** The scalar members of [vectorUnit_t] that the CSR accessors read or write. *)
Record vectorUnit_t := mk_vu {
  vstart : Z;
  vxrm : Z;
  vxsat : Z;
  vl : Z;
  vtype : Z;
  vlenb : Z;
  VLEN : Z;
  ELEN : Z;
  vill : bool;
  vstart_alu : bool
}.

#[export] Instance eta_vectorUnit_t : Eta vectorUnit_t := fun s =>
  mk_vu
    (vstart s) (vxrm s) (vxsat s) (vl s) (vtype s) (vlenb s) (VLEN s) (ELEN s) (vill s)
    (vstart_alu s).

#[export] Instance set_vstart : Setter vstart := ltac:(derive_setter).
#[export] Instance set_vxrm : Setter vxrm := ltac:(derive_setter).
#[export] Instance set_vxsat : Setter vxsat := ltac:(derive_setter).
#[export] Instance set_vl : Setter vl := ltac:(derive_setter).
#[export] Instance set_vtype : Setter vtype := ltac:(derive_setter).
#[export] Instance set_vlenb : Setter vlenb := ltac:(derive_setter).
#[export] Instance set_VLEN : Setter VLEN := ltac:(derive_setter).
#[export] Instance set_ELEN : Setter ELEN := ltac:(derive_setter).
#[export] Instance set_vill : Setter vill := ltac:(derive_setter).
#[export] Instance set_vstart_alu : Setter vstart_alu := ltac:(derive_setter).

Inductive halt_request_t := HR_NONE | HR_REGULAR | HR_GROUP.

(** [processor_t] without [state], [mmu] and [sim], which are fields of [hart];
    [has_ext] is [ext != NULL] and [decoder] holds [instructions] and [opcode_cache]. *)
Record processor_t := mk_processor {
  halt_request : halt_request_t;
  has_ext : bool;
  id : Z;
  max_xlen : Z;
  xlen : Z;
  max_isa : Z;
  halt_on_reset : bool;
  extension_table : Z -> bool;
  n_pmp : Z;
  lg_pmp_granularity : Z;
  VU : vectorUnit_t;
  decoder : decoder_t
}.

#[export] Instance eta_processor_t : Eta processor_t := fun s =>
  mk_processor
    (halt_request s) (has_ext s) (id s) (max_xlen s) (xlen s) (max_isa s) (halt_on_reset
    s) (extension_table s) (n_pmp s) (lg_pmp_granularity s) (VU s) (decoder s).

#[export] Instance set_halt_request : Setter halt_request := ltac:(derive_setter).
#[export] Instance set_has_ext : Setter has_ext := ltac:(derive_setter).
#[export] Instance set_id : Setter id := ltac:(derive_setter).
#[export] Instance set_max_xlen : Setter max_xlen := ltac:(derive_setter).
#[export] Instance set_xlen : Setter xlen := ltac:(derive_setter).
#[export] Instance set_max_isa : Setter max_isa := ltac:(derive_setter).
#[export] Instance set_halt_on_reset : Setter halt_on_reset := ltac:(derive_setter).
#[export] Instance set_extension_table : Setter extension_table := ltac:(derive_setter).
#[export] Instance set_n_pmp : Setter n_pmp := ltac:(derive_setter).
#[export] Instance set_lg_pmp_granularity : Setter lg_pmp_granularity := ltac:(derive_setter).
#[export] Instance set_VU : Setter VU := ltac:(derive_setter).
#[export] Instance set_decoder : Setter decoder := ltac:(derive_setter).

(** ** Traps ([riscv/trap.h]) *)

Inductive trap_t :=
| Trap (which : Z)
| InsnTrap (which tval : Z)
| MemTrap (which : Z) (gva : bool) (tval tval2 tinst : Z).

Definition cause (t : trap_t) : Z :=
  match t with Trap w => w | InsnTrap w _ => w | MemTrap w _ _ _ _ => w end.
Definition has_gva (t : trap_t) : bool :=
  match t with MemTrap _ g _ _ _ => g | _ => false end.
Definition has_tval (t : trap_t) : bool :=
  match t with Trap _ => false | _ => true end.
Definition get_tval (t : trap_t) : Z :=
  match t with Trap _ => 0 | InsnTrap _ x => x | MemTrap _ _ x _ _ => x end.
Definition get_tval2 (t : trap_t) : Z :=
  match t with MemTrap _ _ _ x _ => x | _ => 0 end.
Definition get_tinst (t : trap_t) : Z :=
  match t with MemTrap _ _ _ _ x => x | _ => 0 end.

Definition trap_instruction_address_misaligned (tval tval2 tinst : Z) : trap_t :=
  MemTrap CAUSE_MISALIGNED_FETCH true tval tval2 tinst.
Definition trap_instruction_access_fault (tval tval2 tinst : Z) : trap_t :=
  MemTrap CAUSE_FETCH_ACCESS true tval tval2 tinst.
Definition trap_load_address_misaligned (tval tval2 tinst : Z) : trap_t :=
  MemTrap CAUSE_MISALIGNED_LOAD true tval tval2 tinst.
Definition trap_store_address_misaligned (tval tval2 tinst : Z) : trap_t :=
  MemTrap CAUSE_MISALIGNED_STORE true tval tval2 tinst.
Definition trap_load_access_fault (tval tval2 tinst : Z) : trap_t :=
  MemTrap CAUSE_LOAD_ACCESS true tval tval2 tinst.
Definition trap_store_access_fault (tval tval2 tinst : Z) : trap_t :=
  MemTrap CAUSE_STORE_ACCESS true tval tval2 tinst.
Definition trap_instruction_page_fault (tval tval2 tinst : Z) : trap_t :=
  MemTrap CAUSE_FETCH_PAGE_FAULT true tval tval2 tinst.
Definition trap_load_page_fault (tval tval2 tinst : Z) : trap_t :=
  MemTrap CAUSE_LOAD_PAGE_FAULT true tval tval2 tinst.
Definition trap_store_page_fault (tval tval2 tinst : Z) : trap_t :=
  MemTrap CAUSE_STORE_PAGE_FAULT true tval tval2 tinst.
Definition trap_instruction_guest_page_fault (tval tval2 tinst : Z) : trap_t :=
  MemTrap CAUSE_FETCH_GUEST_PAGE_FAULT true tval tval2 tinst.
Definition trap_load_guest_page_fault (tval tval2 tinst : Z) : trap_t :=
  MemTrap CAUSE_LOAD_GUEST_PAGE_FAULT true tval tval2 tinst.
Definition trap_store_guest_page_fault (tval tval2 tinst : Z) : trap_t :=
  MemTrap CAUSE_STORE_GUEST_PAGE_FAULT true tval tval2 tinst.
Definition trap_illegal_instruction (tval : Z) : trap_t := InsnTrap CAUSE_ILLEGAL_INSTRUCTION tval.
Definition trap_breakpoint (tval : Z) : trap_t := InsnTrap CAUSE_BREAKPOINT tval.
Definition trap_virtual_instruction (tval : Z) : trap_t := InsnTrap CAUSE_VIRTUAL_INSTRUCTION tval.
Definition trap_user_ecall : trap_t := Trap CAUSE_USER_ECALL.
Definition trap_supervisor_ecall : trap_t := Trap CAUSE_SUPERVISOR_ECALL.
Definition trap_virtual_supervisor_ecall : trap_t := Trap CAUSE_VIRTUAL_SUPERVISOR_ECALL.
Definition trap_machine_ecall : trap_t := Trap CAUSE_MACHINE_ECALL.

Inductive access_type := LOAD | STORE | FETCH.
Inductive trigger_operation_t := OPERATION_EXECUTE | OPERATION_STORE | OPERATION_LOAD.

#[export] Instance access_type_eq_dec : EqDecision access_type.
Proof. solve_decision. Defined.
#[export] Instance single_step_eq_dec : EqDecision single_step_t.
Proof. solve_decision. Defined.

Record trigger_matched_t := mk_trigger_matched {
  tm_index : Z;
  tm_operation : trigger_operation_t;
  tm_address : Z;
  tm_data : Z
}.

#[export] Instance eta_trigger_matched_t : Eta trigger_matched_t := fun s =>
  mk_trigger_matched
    (tm_index s) (tm_operation s) (tm_address s) (tm_data s).

#[export] Instance set_tm_index : Setter tm_index := ltac:(derive_setter).
#[export] Instance set_tm_operation : Setter tm_operation := ltac:(derive_setter).
#[export] Instance set_tm_address : Setter tm_address := ltac:(derive_setter).
#[export] Instance set_tm_data : Setter tm_data := ltac:(derive_setter).

(** What a member function can throw; [E_abort] is [abort()]. *)
Inductive exn :=
| E_trap (t : trap_t)
| E_trigger (t : trigger_matched_t)
| E_wfi
| E_abort.

(** ** The memory-management unit's data members ([riscv/mmu.h])

    Tags and entries are arrays of [TLB_ENTRIES] elements: an index that is
    not in the map holds the value [flush_tlb] stores, [-1]. *)

Record tlb_entry_t := mk_tlb_entry {
  host_offset : Z;
  target_offset : Z
}.

#[export] Instance eta_tlb_entry_t : Eta tlb_entry_t := fun s =>
  mk_tlb_entry
    (host_offset s) (target_offset s).

#[export] Instance set_host_offset : Setter host_offset := ltac:(derive_setter).
#[export] Instance set_target_offset : Setter target_offset := ltac:(derive_setter).
Record insn_fetch_t := mk_insn_fetch {
  fetch_func : insn_func_t;
  fetch_insn : insn_t
}.

#[export] Instance eta_insn_fetch_t : Eta insn_fetch_t := fun s =>
  mk_insn_fetch
    (fetch_func s) (fetch_insn s).

#[export] Instance set_fetch_func : Setter fetch_func := ltac:(derive_setter).
#[export] Instance set_fetch_insn : Setter fetch_insn := ltac:(derive_setter).
(** An entry of the instruction cache; [next] is the index of the entry it points to. *)
Record icache_entry_t := mk_icache_entry {
  ic_tag : Z;
  ic_next : Z;
  ic_data : insn_fetch_t
}.

#[export] Instance eta_icache_entry_t : Eta icache_entry_t := fun s =>
  mk_icache_entry
    (ic_tag s) (ic_next s) (ic_data s).

#[export] Instance set_ic_tag : Setter ic_tag := ltac:(derive_setter).
#[export] Instance set_ic_next : Setter ic_next := ltac:(derive_setter).
#[export] Instance set_ic_data : Setter ic_data := ltac:(derive_setter).

(** [mmu_t] *)
Record mmu_t := mk_mmu {
  load_reservation_address : Z;
  fetch_temp : Z;
  tlb_data : gmap Z tlb_entry_t;
  tlb_insn_tag : gmap Z Z;
  tlb_load_tag : gmap Z Z;
  tlb_store_tag : gmap Z Z;
  check_triggers_fetch : bool;
  check_triggers_load : bool;
  check_triggers_store : bool;
  matched_trigger : option trigger_matched_t;
  icache : gmap Z icache_entry_t
}.

#[export] Instance eta_mmu_t : Eta mmu_t := fun s =>
  mk_mmu
    (load_reservation_address s) (fetch_temp s) (tlb_data s) (tlb_insn_tag s)
    (tlb_load_tag s) (tlb_store_tag s) (check_triggers_fetch s) (check_triggers_load s)
    (check_triggers_store s) (matched_trigger s) (icache s).

#[export] Instance set_load_reservation_address : Setter load_reservation_address := ltac:(derive_setter).
#[export] Instance set_fetch_temp : Setter fetch_temp := ltac:(derive_setter).
#[export] Instance set_tlb_data : Setter tlb_data := ltac:(derive_setter).
#[export] Instance set_tlb_insn_tag : Setter tlb_insn_tag := ltac:(derive_setter).
#[export] Instance set_tlb_load_tag : Setter tlb_load_tag := ltac:(derive_setter).
#[export] Instance set_tlb_store_tag : Setter tlb_store_tag := ltac:(derive_setter).
#[export] Instance set_check_triggers_fetch : Setter check_triggers_fetch := ltac:(derive_setter).
#[export] Instance set_check_triggers_load : Setter check_triggers_load := ltac:(derive_setter).
#[export] Instance set_check_triggers_store : Setter check_triggers_store := ltac:(derive_setter).
#[export] Instance set_matched_trigger : Setter matched_trigger := ltac:(derive_setter).
#[export] Instance set_icache : Setter icache := ltac:(derive_setter).

(** ** The simulator's interface ([riscv/simif.h])

    [addr_to_mem] returns a host pointer ([None] for [NULL]); [host_read] and
    [host_write] are the accesses through such pointers, byte by byte.  The
    MMIO callbacks may change device state and, because the devices hold
    references to the harts, the interrupt-pending register of the caller,
    which they take and return. *)
Class SimIf (S : Type) := {
  addr_to_mem : S -> Z -> option Z;
  host_read : S -> Z -> Z;
  host_write : S -> Z -> Z -> S;
  mmio_load : S -> Z -> Z -> nat -> option (list Z) * S * Z;
  mmio_store : S -> Z -> Z -> list Z -> bool * S * Z;
}.

(** Two simulator states with the same memory. *)
Definition same_memory {S : Type} `{SimIf S} (s s' : S) : Prop :=
  (forall p, host_read s' p = host_read s p) /\
  (forall a, addr_to_mem s' a = addr_to_mem s a).

(** The laws a client of the interface relies on: host memory is a byte array,
    writing it does not move it, a page that is memory is contiguous host
    memory (memory regions are made of whole pages), and the devices behind
    MMIO do not write memory and drive a 64-bit register. *)
Class SimIfLaws (S : Type) `{SimIf S} := {
  host_read_byte : forall s p, fits 8 (host_read s p);
  host_read_write : forall s p x q, fits 8 x ->
    host_read (host_write s p x) q = if q =? p then x else host_read s q;
  addr_to_mem_write : forall s p x a, addr_to_mem (host_write s p x) a = addr_to_mem s a;
  addr_to_mem_range : forall s a p, addr_to_mem s a = Some p -> fits 64 p;
  addr_to_mem_page : forall s a p a', fits 64 a -> fits 64 a' ->
    Z.shiftr a' 12 = Z.shiftr a 12 ->
    addr_to_mem s a = Some p -> addr_to_mem s a' = Some (p + (a' - a));
  mmio_load_mem : forall s m a n, same_memory s (mmio_load s m a n).1.2;
  mmio_store_mem : forall s m a bs, same_memory s (mmio_store s m a bs).1.2;
  mmio_load_mip : forall s m a n, fits 64 m -> fits 64 (mmio_load s m a n).2;
  mmio_store_mip : forall s m a bs, fits 64 m -> fits 64 (mmio_store s m a bs).2;
}.

Section Hart.
Context {S : Type}.

(** [fenv] is SoftFloat's global environment. *)
Record hart := mk_hart { st : state_t; proc : processor_t; mmu : mmu_t; sim : S; fenv : fenv_t }.

#[export] Instance eta_hart : Eta hart := fun h => mk_hart (st h) (proc h) (mmu h) (sim h) (fenv h).
#[export] Instance set_st : Setter st := ltac:(derive_setter).
#[export] Instance set_proc : Setter proc := ltac:(derive_setter).
#[export] Instance set_mmu : Setter mmu := ltac:(derive_setter).
#[export] Instance set_sim : Setter sim := ltac:(derive_setter).
#[export] Instance set_fenv : Setter fenv := ltac:(derive_setter).

(** ** The monad *)

Definition M (A : Type) : Type := hart -> (exn + A) * hart.

Definition ret {A} (a : A) : M A := fun h => (inr a, h).
Definition bind {A B} (m : M A) (k : A -> M B) : M B := fun h =>
  match m h with
  | (inr a, h') => k a h'
  | (inl e, h') => (inl e, h')
  end.
Definition throw {A} (e : exn) : M A := fun h => (inl e, h).
Definition throw_trap {A} (t : trap_t) : M A := throw (E_trap t).
Definition gets {A} (f : hart -> A) : M A := fun h => (inr (f h), h).
Definition modify (f : hart -> hart) : M unit := fun h => (inr tt, f h).
Definition when (c : bool) (m : M unit) : M unit := if c then m else ret tt.

(** [try m catch handler]: the handler sees the exception and the state at
    the throw. *)
Definition try_catch {A} (m : M A) (handler : exn -> M A) : M A := fun h =>
  match m h with
  | (inr a, h') => (inr a, h')
  | (inl e, h') => handler e h'
  end.

End Hart.
Arguments hart S : clear implicits.
Arguments M S A : clear implicits.

Declare Scope monad_scope.
Delimit Scope monad_scope with monad.
Notation "x <- m ;; k" := (bind m (fun x => k))
  (at level 100, m at next level, right associativity) : monad_scope.
Notation "m ;; k" := (bind m (fun _ => k)) (at level 100, right associativity) : monad_scope.
