(* ===== verification/Processor.v ===== *)
(** * Processor: the small member functions of [processor_t]

    Extension tests, PC alignment, privilege legalisation and hardware
    triggers ([riscv/processor.h], [riscv/processor.cc]).  They only read the
    architectural state and the processor object. *)
From Stdlib Require Import ZArith Lia Bool List.
From stdpp Require Import base list gmap.
From S2P Require Import Prelude Arith Encoding Decode State.
#[local] Open Scope Z_scope.
#[local] Open Scope word_scope.
#[local] Open Scope record_scope.
#[local] Open Scope monad_scope.

(** Character codes of the single-letter extensions, and [isa_extension_t]. *)
Definition chr_A : Z := 65.
Definition chr_C : Z := 67.
Definition chr_D : Z := 68.
Definition chr_F : Z := 70.
Definition chr_H : Z := 72.
Definition chr_I : Z := 73.
Definition chr_M : Z := 77.
Definition chr_Q : Z := 81.
Definition chr_S : Z := 83.
Definition chr_U : Z := 85.
Definition chr_V : Z := 86.
Definition chr_Z : Z := 90.
Definition EXT_ZFH : Z := 0.

(** [state_t::reset]. *)
Definition state_reset (max_isa : Z) : state_t := {|
  pc := DEFAULT_RSTVEC;
  XPR := replicate NXPR 0;
  FPR := replicate NFPR (mk_freg 0 0);
  prv := PRV_M;
  v_ := false;
  misa := max_isa;
  mstatus := 0;
  mepc := 0;
  mtval := 0;
  mscratch := 0;
  mtvec := 0;
  mcause := 0;
  minstret := 0;
  mie := 0;
  mip := 0;
  medeleg := 0;
  mideleg := 0;
  mcounteren := 0;
  scounteren := 0;
  sepc := 0;
  stval := 0;
  sscratch := 0;
  stvec := 0;
  satp := 0;
  scause := 0;
  mtval2 := 0;
  mtinst := 0;
  hstatus := 0;
  hideleg := 0;
  hedeleg := 0;
  hcounteren := 0;
  htval := 0;
  htinst := 0;
  hgatp := 0;
  vsstatus := 0;
  vstvec := 0;
  vsscratch := 0;
  vsepc := 0;
  vscause := 0;
  vstval := 0;
  vsatp := 0;
  dpc := 0;
  dscratch0 := 0;
  dscratch1 := 0;
  dcsr := mk_dcsr 0 false false false false false false 0;
  tselect := 0;
  mcontrol := replicate num_triggers
    (mk_mcontrol 2 false 0 false false 0 false 0 false false false false false false false);
  tdata2 := replicate num_triggers 0;
  debug_mode := false;
  pmpcfg := replicate max_pmp 0;
  pmpaddr := replicate max_pmp 0;
  fflags := 0;
  frm := 0;
  serialized := false;
  single_step := STEP_NONE
|}.

Section Processor.
Variable s : state_t.
Variable p : processor_t.

Definition supports_extension (ext : Z) : bool :=
  if (chr_A <=? ext) && (ext <=? chr_Z)
  then z2b ((misa s >>w (ext - chr_A)) &w 1)
  else extension_table p ext.

Definition get_flen : Z :=
  if supports_extension chr_Q then 128
  else if supports_extension chr_D then 64
  else if supports_extension chr_F then 32 else 0.

Definition pc_alignment_mask : Z := not64 (if supports_extension chr_C then 0 else 2).

(** [None] is a normal return. *)
Definition check_pc_alignment (pc : Z) : option trap_t :=
  if z2b (pc &w not64 pc_alignment_mask)
  then Some (trap_instruction_address_misaligned pc 0 0) else None.

(** [assert(prv <= PRV_M)] holds at every call site: see [legalize_privilege_le]. *)
Definition legalize_privilege (prv : Z) : Z :=
  if negb (supports_extension chr_U) then PRV_M
  else if ((prv =? PRV_HS) && negb (supports_extension chr_H))
          || ((prv =? PRV_S) && negb (supports_extension chr_S))
  then PRV_U
  else prv.

Definition pmp_tor_mask : Z := neg64 (1 <<w (lg_pmp_granularity p - PMP_SHIFT)).

Definition default_mcontrol : mcontrol_t :=
  mk_mcontrol 0 false 0 false false 0 false 0 false false false false false false false.

Definition get_mcontrol (i : Z) : mcontrol_t := nth (Z.to_nat i) (mcontrol s) default_mcontrol.
Definition get_tdata2 (i : Z) : Z := nth (Z.to_nat i) (tdata2 s) 0.

(** The [switch] on [match]; [true] is a [break], [false] a [continue].  The
    mask of [MATCH_NAPOT] is an [int] expression, whose shift is only defined
    for fewer than 31 trailing ones in [tdata2]; beyond, the model truncates. *)
Definition trigger_value_match (match_ value tdata : Z) : bool :=
  if match_ =? MCONTROL_MATCH_EQUAL then value =? tdata
  else if match_ =? MCONTROL_MATCH_NAPOT then
    let mask := u64 (Z.lnot (s32 (s32 (Z.shiftl 1 (cto tdata + 1)) - 1))) in
    (value &w mask) =? (tdata &w mask)
  else if match_ =? MCONTROL_MATCH_GE then tdata <=? value
  else if match_ =? MCONTROL_MATCH_LT then value <? tdata
  else if match_ =? MCONTROL_MATCH_MASK_LOW then
    let mask := tdata >>w (xlen p / 2) in
    (value &w mask) =? (tdata &w mask)
  else if match_ =? MCONTROL_MATCH_MASK_HIGH then
    let mask := tdata >>w (xlen p / 2) in
    ((value >>w (xlen p / 2)) &w mask) =? (tdata &w mask)
  else true.

Definition trigger_not_applicable (operation : trigger_operation_t) (mc : mcontrol_t) : bool :=
  match operation with
  | OPERATION_EXECUTE => negb (mc_execute mc)
  | OPERATION_STORE => negb (mc_store mc)
  | OPERATION_LOAD => negb (mc_load mc)
  end
  || ((prv s =? PRV_M) && negb (mc_m mc))
  || ((prv s =? PRV_S) && negb (mc_s mc))
  || ((prv s =? PRV_U) && negb (mc_u mc)).

Fixpoint trigger_match_loop (operation : trigger_operation_t) (address data : Z)
    (left : nat) (i : Z) (chain_ok : bool) : Z :=
  match left with
  | O => -1
  | S left' =>
    let mc := get_mcontrol i in
    if negb chain_ok then
      trigger_match_loop operation address data left' (i + 1) (chain_ok || negb (mc_chain mc))
    else if trigger_not_applicable operation mc then
      trigger_match_loop operation address data left' (i + 1) chain_ok
    else
      let value := if mc_select mc then data else address in
      let value := if xlen p =? 32 then value &w 0xffffffff else value in
      if negb (trigger_value_match (mc_match mc) value (get_tdata2 i)) then
        trigger_match_loop operation address data left' (i + 1) chain_ok
      else if negb (mc_chain mc) then i
      else trigger_match_loop operation address data left' (i + 1) true
  end.

Definition trigger_match (operation : trigger_operation_t) (address data : Z) : Z :=
  if debug_mode s then -1
  else trigger_match_loop operation address data num_triggers 0 true.

(** ** Facts *)

Lemma legalize_privilege_le prv : prv <= PRV_M -> legalize_privilege prv <= PRV_M.
Proof.
  unfold legalize_privilege, PRV_U, PRV_M. intros.
  destruct (negb _); [lia|]. destruct (_ || _); lia.
Qed.

Lemma trigger_match_loop_range op a d left : forall i ok,
  0 <= i -> trigger_match_loop op a d left i ok = -1 \/
  i <= trigger_match_loop op a d left i ok < i + Z.of_nat left.
Proof.
  induction left as [|left IH]; intros i ok Hi; cbn [trigger_match_loop]; [now left|].
  assert (N : forall ok', trigger_match_loop op a d left (i + 1) ok' = -1 \/
    i <= trigger_match_loop op a d left (i + 1) ok' < i + Z.of_nat (S left)).
  { intros ok'. destruct (IH (i + 1) ok' ltac:(lia)) as [E|E]; [now left|right; lia]. }
  repeat match goal with |- context [if ?c then _ else _] => destruct c end; auto.
  all: right; lia.
Qed.

End Processor.
