(* ===== verification/Pmp.v ===== *)
(** * Pmp: physical memory protection ([mmu_t::pmp_ok], [mmu_t::pmp_homogeneous])

    [pmp_ok] decides one access, [pmp_homogeneous] whether a page may enter
    the TLB, which is consulted without repeating the PMP check.  The main
    result is that a homogeneous page has one answer for all accesses inside
    it, so that skipping the check is sound. *)
From Stdlib Require Import ZArith Lia Bool List.
From stdpp Require Import base list gmap.
From S2P Require Import Prelude Arith Encoding Decode State Processor Decoder.
#[local] Open Scope Z_scope.
#[local] Open Scope word_scope.

Definition PGSHIFT : Z := 12.
Definition PGSIZE : Z := Z.shiftl 1 PGSHIFT.
Definition MAX_PADDR_BITS : Z := 32.

Section Pmp.
Variable s : state_t.
Variable p : processor_t.

Definition get_pmpaddr (i : Z) : Z := nth (Z.to_nat i) (pmpaddr s) 0.
Definition get_pmpcfg (i : Z) : Z := nth (Z.to_nat i) (pmpcfg s) 0.

(** [tor], [is_tor], [is_na4] and the NAPOT mask of entry [i]. *)
Definition pmp_tor (i : Z) : Z := (get_pmpaddr i &w pmp_tor_mask p) <<w PMP_SHIFT.
Definition pmp_is_tor (i : Z) : bool := (get_pmpcfg i &w PMP_A) =? PMP_TOR.
Definition pmp_is_na4 (i : Z) : bool := (get_pmpcfg i &w PMP_A) =? PMP_NA4.
Definition pmp_napot_mask (i : Z) : Z :=
  let mask := (get_pmpaddr i <<w 1) |w b2z (negb (pmp_is_na4 i)) |w not64 (pmp_tor_mask p) in
  not64 (mask &w not64 (mask +w 1)) <<w PMP_SHIFT.

(** Does entry [i], whose lower neighbour ends at [base], match one address? *)
Definition pmp_sector_match (i base cur_addr : Z) : bool :=
  let tor := pmp_tor i in
  let mask := pmp_napot_mask i in
  let napot_match := ((cur_addr ^w tor) &w mask) =? 0 in
  let tor_match := (base <=? cur_addr) && (cur_addr <? tor) in
  if pmp_is_tor i then tor_match else napot_match.

(** "Check each 4-byte sector of the access": the pair is
    [(any_match, all_match)]; [len] iterations are more than enough. *)
Fixpoint pmp_sector_loop (fuel : nat) (i base addr offset len : Z) (acc : bool * bool) : bool * bool :=
  match fuel with
  | O => acc
  | S fuel' =>
    if offset <? len then
      let match_ := pmp_sector_match i base (addr +w offset) in
      pmp_sector_loop fuel' i base addr (offset + Z.shiftl 1 PMP_SHIFT) len
        (acc.1 || match_, acc.2 && match_)
    else acc
  end.

Definition pmp_permission (cfg : Z) (type : access_type) (mode : Z) : bool :=
  ((mode =? PRV_M) && negb (z2b (cfg &w PMP_L)))
  || (bool_decide (type = LOAD) && z2b (cfg &w PMP_R))
  || (bool_decide (type = STORE) && z2b (cfg &w PMP_W))
  || (bool_decide (type = FETCH) && z2b (cfg &w PMP_X)).

Fixpoint pmp_ok_loop (left : nat) (i base addr len : Z) (type : access_type) (mode : Z) : bool :=
  match left with
  | O => mode =? PRV_M
  | S left' =>
    let cfg := get_pmpcfg i in
    if z2b (cfg &w PMP_A) then
      let '(any_match, all_match) :=
        pmp_sector_loop (Z.to_nat len) i base addr 0 len (false, true) in
      if any_match then
        if negb all_match then false else pmp_permission cfg type mode
      else pmp_ok_loop left' (i + 1) (pmp_tor i) addr len type mode
    else pmp_ok_loop left' (i + 1) (pmp_tor i) addr len type mode
  end.

Definition pmp_ok (addr len : Z) (type : access_type) (mode : Z) : bool :=
  if n_pmp p =? 0 then true
  else pmp_ok_loop (Z.to_nat (n_pmp p)) 0 0 addr len type mode.

Definition pmp_entry_homogeneous (i base addr len : Z) : bool :=
  let tor := pmp_tor i in
  let begins_after_lower := base <=? addr in
  let begins_after_upper := tor <=? addr in
  let ends_before_lower := (addr &w neg64 len) <? (base &w neg64 len) in
  let ends_before_upper := (addr &w neg64 len) <? (tor &w neg64 len) in
  let tor_homogeneous :=
    ends_before_lower || begins_after_upper || (begins_after_lower && ends_before_upper) in
  let mask := pmp_napot_mask i in
  let mask_homogeneous := z2b (not64 (mask <<w 1) &w len) in
  let napot_homogeneous := mask_homogeneous || negb ((addr ^w tor) / len =? 0) in
  if pmp_is_tor i then tor_homogeneous else napot_homogeneous.

Fixpoint pmp_homogeneous_loop (left : nat) (i base addr len : Z) : bool :=
  match left with
  | O => true
  | S left' =>
    if z2b (get_pmpcfg i &w PMP_A) then
      if negb (pmp_entry_homogeneous i base addr len) then false
      else pmp_homogeneous_loop left' (i + 1) (pmp_tor i) addr len
    else pmp_homogeneous_loop left' (i + 1) (pmp_tor i) addr len
  end.

(** [None] is [abort()]. *)
Definition pmp_homogeneous (addr len : Z) : option bool :=
  if z2b ((addr |w len) &w (len -w 1)) then None
  else Some (pmp_homogeneous_loop (Z.to_nat (n_pmp p)) 0 0 addr len).

End Pmp.

(** ** Bit patterns of the NAPOT mask *)

Lemma not64_bits x i : 0 <= i -> Z.testbit (not64 x) i = (i <? 64) && negb (Z.testbit x i).
Proof. intros. unfold not64. rewrite uw_testbit, Z.lnot_spec by lia. reflexivity. Qed.

Lemma shl64_bits x n i : 0 <= n -> 0 <= i ->
  Z.testbit (shl64 x n) i = (i <? 64) && (n <=? i) && Z.testbit x (i - n).
Proof.
  intros. unfold shl64. rewrite uw_testbit by lia. destruct (Z.leb_spec n i).
  - rewrite Z.shiftl_spec by lia. now rewrite andb_true_r.
  - rewrite Z.shiftl_spec_low by lia. now rewrite !andb_false_r.
Qed.

(** [m & ~(m + 1)] isolates the trailing ones of [m]. *)
Lemma trailing_ones_mask m : fits 64 m ->
  Z.land m (not64 (add64 m 1)) = Z.ones (cto m).
Proof.
  intros F. destruct (cto_trailing_ones m F) as ([Ht0 Ht1] & Hz & Ho).
  set (t := cto m) in *. clearbody t. destruct (Z.eqb_spec t 64) as [->|Hne].
  { assert (m = 2 ^ 64 - 1) as ->; [|reflexivity].
    change (2 ^ 64 - 1) with (Z.ones 64). bits i. rewrite Z.testbit_ones by lia.
    destruct (Z.ltb_spec i 64).
    - rewrite Ho by lia. destruct (Z.leb_spec 0 i); [reflexivity|lia].
    - rewrite (fits_testbit 64 m i) by (auto; lia). now rewrite andb_false_r. }
  assert (Em : m = (m / 2 ^ (t + 1)) * 2 ^ (t + 1) + Z.ones t).
  { rewrite <- lor_add_shift; [|lia|].
    - bits i. rewrite Z.lor_spec, Z.testbit_ones, Z.shiftl_spec by lia.
      destruct (Z.ltb_spec i t); [rewrite Ho, orb_comm by lia; bcases; simpl; lia|].
      rewrite andb_false_r, orb_false_r. destruct (Z.eqb_spec i t) as [->|].
      + rewrite Hz, Z.testbit_neg_r by lia. reflexivity.
      + rewrite <- Z.shiftr_div_pow2, Z.shiftr_spec by lia. f_equal; lia.
    - rewrite Z.ones_equiv. unfold fits. pose proof (Z.pow_lt_mono_r 2 t (t + 1)).
      pose proof (pow2_pos t ltac:(lia)). lia. }
  set (q := m / 2 ^ (t + 1)) in *.
  assert (Em1 : m + 1 = q * 2 ^ (t + 1) + 2 ^ t) by (rewrite Z.ones_equiv in Em; lia).
  assert (Fp : fits (t + 1) (2 ^ t)).
  { unfold fits. pose proof (pow2_pos t ltac:(lia)). rewrite Z.pow_add_r by lia. lia. }
  assert (B : forall i, t < i -> Z.testbit (m + 1) i = Z.testbit m i).
  { intros i Hi. rewrite Em1. rewrite Em at 1. rewrite <- !lor_add_shift; try lia; auto.
    - rewrite !Z.lor_spec, Z.pow2_bits_eqb, Z.testbit_ones by lia. bcases; simpl; try lia; reflexivity.
    - rewrite Z.ones_equiv. unfold fits in *. lia. }
  bits i. rewrite Z.land_spec, not64_bits, Z.testbit_ones by lia. unfold add64.
  rewrite uw_testbit by lia. destruct (Z.ltb_spec i 64); cbn [andb].
  2:{ rewrite (fits_testbit 64 m i) by (auto; lia). bcases; simpl; lia. }
  destruct (Z.ltb_spec i t).
  - rewrite Ho, Em1, <- lor_add_shift by (auto; lia).
    rewrite Z.lor_spec, Z.shiftl_spec_low, Z.pow2_bits_eqb by lia. bcases; simpl; lia.
  - rewrite andb_false_r. destruct (Z.eqb_spec i t) as [->|]; [now rewrite Hz|].
    rewrite B by lia. now destruct (Z.testbit m i).
Qed.

Section Homogeneous.
Variable s : state_t.
Variable p : processor_t.

(** Log2 of the size of the NAPOT or NA4 region of entry [i]. *)
Definition napot_log2 (i : Z) : Z :=
  cto ((get_pmpaddr s i <<w 1) |w b2z (negb (pmp_is_na4 s i)) |w not64 (pmp_tor_mask p)) + PMP_SHIFT.

Lemma pmp_tor_fits i : fits 64 (pmp_tor s p i).
Proof. apply uw_fits. lia. Qed.

Lemma napot_mask_bits i j : 0 <= j ->
  Z.testbit (pmp_napot_mask s p i) j = (j <? 64) && (napot_log2 i <=? j).
Proof.
  intros Hj. unfold pmp_napot_mask, napot_log2. cbv zeta.
  set (m := _ |w _). assert (F : fits 64 m).
  { unfold m. apply lor_fits; [lia| |apply uw_fits; lia].
    apply lor_fits; [lia|apply uw_fits; lia|apply b2z_fits; lia]. }
  pose proof (cto_trailing_ones m F) as ([Ht0 Ht1] & _).
  rewrite trailing_ones_mask by auto. change PMP_SHIFT with 2.
  rewrite shl64_bits by lia. destruct (Z.ltb_spec j 64); [|reflexivity]. cbn [andb].
  destruct (Z.leb_spec 2 j); cbn [andb].
  - rewrite not64_bits, Z.testbit_ones by lia. bcases; simpl; lia.
  - bcases; simpl; lia.
Qed.

Lemma napot_log2_pos i : 2 <= napot_log2 i.
Proof.
  unfold napot_log2. change PMP_SHIFT with 2.
  set (m := _ |w _). assert (F : fits 64 m).
  { unfold m. apply lor_fits; [lia| |apply uw_fits; lia].
    apply lor_fits; [lia|apply uw_fits; lia|apply b2z_fits; lia]. }
  pose proof (cto_trailing_ones m F) as ([Ht0 Ht1] & _). lia.
Qed.

Lemma xor_div_0 a c k : 0 <= k -> Z.lxor a c / 2 ^ k = 0 <-> a / 2 ^ k = c / 2 ^ k.
Proof.
  intros. rewrite <- !Z.shiftr_div_pow2, Z.shiftr_lxor by lia. split; intros E.
  - now apply Z.lxor_eq.
  - rewrite E. apply Z.lxor_nilpotent.
Qed.

(** Two addresses match a NAPOT entry together when they share the region number. *)
Lemma napot_match_region i a : fits 64 a ->
  (Z.land (Z.lxor a (pmp_tor s p i)) (pmp_napot_mask s p i) =? 0)
  = (a / 2 ^ napot_log2 i =? pmp_tor s p i / 2 ^ napot_log2 i).
Proof.
  intros Fa. pose proof (napot_log2_pos i). pose proof (pmp_tor_fits i) as Ft.
  apply eq_true_iff_eq. rewrite !Z.eqb_eq, <- xor_div_0 by lia.
  rewrite <- Z.shiftr_div_pow2 by lia. split; intros E.
  - bits j. rewrite Z.shiftr_spec, Z.bits_0 by lia.
    pose proof (f_equal (fun z => Z.testbit z (j + napot_log2 i)) E) as T. cbv beta in T.
    rewrite Z.land_spec, Z.bits_0, napot_mask_bits in T by lia.
    destruct (Z.ltb_spec (j + napot_log2 i) 64).
    + destruct (Z.leb_spec (napot_log2 i) (j + napot_log2 i)); [|lia]. now rewrite andb_true_r in T.
    + apply (fits_testbit 64); [apply lxor_fits; auto; lia|lia|lia].
  - bits j. rewrite Z.land_spec, Z.bits_0, napot_mask_bits by lia.
    destruct (Z.leb_spec (napot_log2 i) j); [|now rewrite !andb_false_r].
    pose proof (f_equal (fun z => Z.testbit z (j - napot_log2 i)) E) as T. cbv beta in T.
    rewrite Z.shiftr_spec, Z.bits_0 in T by lia.
    replace (j - napot_log2 i + napot_log2 i) with j in T by lia. now rewrite T.
Qed.

Lemma land_neg_page a : fits 64 a -> Z.land a (neg64 PGSIZE) = a / 2 ^ 12 * 2 ^ 12.
Proof.
  intros F. rewrite <- Z.shiftr_div_pow2, <- Z.shiftl_mul_pow2 by lia. bits i.
  change (neg64 PGSIZE) with (not64 (Z.ones 12)).
  rewrite Z.land_spec, not64_bits, Z.testbit_ones by lia.
  destruct (Z_lt_le_dec i 12).
  - rewrite Z.shiftl_spec_low by lia. bcases; simpl; try lia; apply andb_false_r.
  - rewrite Z.shiftl_spec, Z.shiftr_spec by lia. replace (i - 12 + 12) with i by lia.
    destruct (Z.ltb_spec i 64).
    + replace (i <? 12) with false by lia. rewrite andb_false_r. apply andb_true_r.
    + rewrite (fits_testbit 64 a i) by (auto; lia). reflexivity.
Qed.

(** Inside a homogeneous page an entry gives every address the same answer. *)
Lemma entry_homogeneous_uniform i base page a :
  fits 64 base -> fits 64 page -> page mod 2 ^ 12 = 0 -> page <= a < page + 2 ^ 12 ->
  pmp_entry_homogeneous s p i base page PGSIZE = true ->
  pmp_sector_match s p i base a = pmp_sector_match s p i base page.
Proof.
  intros Fb Fp Hal Ha. assert (Fa : fits 64 a) by (unfold fits in *; Z.div_mod_to_equations; lia).
  pose proof (pmp_tor_fits i) as Ft.
  unfold pmp_entry_homogeneous, pmp_sector_match. cbv zeta.
  destruct (pmp_is_tor s i).
  - rewrite !land_neg_page by auto. unfold fits in *.
    set (tor := pmp_tor s p i) in *. clearbody tor. intros H.
    assert (a / 2 ^ 12 = page / 2 ^ 12) by (Z.div_mod_to_equations; lia).
    bcases; simpl in *; try reflexivity; try discriminate; Z.div_mod_to_equations; lia.
  - rewrite !napot_match_region by auto. pose proof (napot_log2_pos i).
    set (k := napot_log2 i) in *. intros Hh. apply orb_true_iff in Hh as [Hh|Hh].
    + assert (12 <= k).
      { apply z2b_true in Hh. destruct (Z_lt_le_dec k 12); [exfalso|lia]. apply Hh. bits j.
        rewrite Z.land_spec, Z.bits_0, not64_bits by lia.
        change PGSIZE with (2 ^ 12). rewrite Z.pow2_bits_eqb by lia.
        destruct (Z.eqb_spec 12 j) as [<-|]; [|apply andb_false_r].
        rewrite shl64_bits, napot_mask_bits by lia. fold k.
        bcases; simpl; lia. }
      assert (a / 2 ^ k = page / 2 ^ k) as ->; [|reflexivity].
      replace k with (12 + (k - 12)) by lia. rewrite Z.pow_add_r by lia.
      rewrite <- !Z.div_div by (try apply Z.pow_nonzero; try apply pow2_pos; lia).
      f_equal. Z.div_mod_to_equations; lia.
    + destruct (Z_lt_le_dec k 12).
      * apply negb_true_iff, Z.eqb_neq in Hh. change PGSIZE with (2 ^ 12) in Hh.
        rewrite xor_div_0 in Hh by lia.
        assert (N : forall c, c / 2 ^ 12 = page / 2 ^ 12 ->
          (c / 2 ^ k =? pmp_tor s p i / 2 ^ k) = false).
        { intros c Hc. apply Z.eqb_neq. intros E. apply Hh. rewrite <- Hc.
          replace 12 with (k + (12 - k)) by lia. rewrite !Z.pow_add_r by lia.
          rewrite <- !Z.div_div by (try apply Z.pow_nonzero; try apply pow2_pos; lia).
          now rewrite E. }
        rewrite !N; auto. Z.div_mod_to_equations; lia.
      * assert (a / 2 ^ k = page / 2 ^ k) as ->; [|reflexivity].
        replace k with (12 + (k - 12)) by lia. rewrite Z.pow_add_r by lia.
        rewrite <- !Z.div_div by (try apply Z.pow_nonzero; try apply pow2_pos; lia).
        f_equal. Z.div_mod_to_equations; lia.
Qed.

(** The sector loop of an access whose sectors all answer [m]. *)
Lemma sector_loop_uniform i base addr len m fuel : forall offset acc,
  0 <= offset -> offset + Z.of_nat fuel >= len ->
  (forall o, 0 <= o < len -> pmp_sector_match s p i base (addr +w o) = m) ->
  pmp_sector_loop s p fuel i base addr offset len acc =
  if offset <? len then (acc.1 || m, acc.2 && m) else acc.
Proof.
  induction fuel as [|fuel IH]; intros offset acc Ho Hf Hm; cbn [pmp_sector_loop].
  - now replace (offset <? len) with false by lia.
  - destruct (Z.ltb_spec offset len) as [L|L]; [|reflexivity].
    change (Z.shiftl 1 PMP_SHIFT) with 4. rewrite Hm by lia.
    rewrite IH by (auto; lia). cbn [fst snd].
    destruct (offset + 4 <? len), acc as [[] []], m; reflexivity.
Qed.

Lemma ok_loop_homogeneous page a len type mode left : forall i base,
  fits 64 base -> fits 64 page -> page mod 2 ^ 12 = 0 ->
  page <= a -> 0 < len -> a + len <= page + 2 ^ 12 ->
  pmp_homogeneous_loop s p left i base page PGSIZE = true ->
  pmp_ok_loop s p left i base a len type mode = pmp_ok_loop s p left i base page 1 type mode.
Proof.
  induction left as [|left IH]; intros i base Fb Fp Hal H1 H2 H3 H; [reflexivity|].
  cbn [pmp_ok_loop pmp_homogeneous_loop] in *. pose proof (pmp_tor_fits i) as Ft.
  destruct (z2b (get_pmpcfg s i &w PMP_A)); [|now apply IH].
  destruct (pmp_entry_homogeneous s p i base page PGSIZE) eqn:E; [|discriminate].
  cbn [negb] in H. assert (W : forall x, page <= x < page + 2 ^ 12 -> x +w 0 = x /\ fits 64 x).
  { intros x Hx. unfold fits in *. assert (0 <= x < 2 ^ 64) by (Z.div_mod_to_equations; lia).
    split; [|lia]. unfold add64. rewrite Z.add_0_r. apply uw_small. unfold fits. lia. }
  assert (U : forall c l, page <= c -> c + l <= page + 2 ^ 12 -> forall o, 0 <= o < l ->
    pmp_sector_match s p i base (c +w o) = pmp_sector_match s p i base page).
  { intros c l Hc Hl o Ho. apply entry_homogeneous_uniform; auto;
    replace (c +w o) with (c + o); try lia;
    symmetry; apply uw_small; apply (W (c + o)); lia. }
  rewrite (sector_loop_uniform i base a len (pmp_sector_match s p i base page))
    by (try lia; eapply U; lia).
  rewrite (sector_loop_uniform i base page 1 (pmp_sector_match s p i base page))
    by (try lia; eapply U; lia).
  replace (0 <? len) with true by lia. cbn [Z.ltb Z.compare fst snd orb andb].
  destruct (pmp_sector_match s p i base page); [reflexivity|]. now apply IH.
Qed.

Lemma pmp_ok_page page a len type mode :
  fits 64 page -> page mod 2 ^ 12 = 0 -> page <= a -> 0 < len -> a + len <= page + 2 ^ 12 ->
  pmp_homogeneous s p page PGSIZE = Some true ->
  pmp_ok s p a len type mode = pmp_ok s p page 1 type mode.
Proof.
  intros. unfold pmp_homogeneous, pmp_ok in *. destruct (z2b _); [discriminate|].
  destruct (n_pmp p =? 0); [reflexivity|].
  apply ok_loop_homogeneous; auto; [unfold fits; lia|congruence].
Qed.

(** [pmp_homogeneous] never aborts on a page. *)
Lemma pmp_homogeneous_total page : fits 64 page -> page mod 2 ^ 12 = 0 ->
  exists r, pmp_homogeneous s p page PGSIZE = Some r.
Proof.
  intros F H. unfold pmp_homogeneous.
  replace (z2b _) with false; [eauto|]. symmetry. apply z2b_false. bits i.
  change (PGSIZE -w 1) with (Z.ones 12). change PGSIZE with (2 ^ 12).
  rewrite Z.land_spec, Z.lor_spec, Z.bits_0, Z.testbit_ones, Z.pow2_bits_eqb by lia.
  destruct (Z.ltb_spec i 12); [|now rewrite !andb_false_r].
  rewrite <- (Z.mod_pow2_bits_low page 12 i), H, Z.bits_0 by lia.
  now replace (12 =? i) with false by lia.
Qed.

End Homogeneous.

(** ** Properties *)

(** C21.  When [pmp_homogeneous] accepts a page, every access that stays inside
    it gets the same PMP verdict, whatever its size and alignment: a TLB entry
    for the page may be used without checking the PMP again.  On a page
    [pmp_homogeneous] always answers, it does not abort. *)
Theorem pmp_homogeneous_sound (s : state_t) (p : processor_t) (page a len a' len' : Z)
    (type : access_type) (mode : Z) :
  fits 64 page -> page mod PGSIZE = 0 ->
  page <= a -> 0 < len -> a + len <= page + PGSIZE ->
  page <= a' -> 0 < len' -> a' + len' <= page + PGSIZE ->
  (exists r, pmp_homogeneous s p page PGSIZE = Some r) /\
  (pmp_homogeneous s p page PGSIZE = Some true ->
   pmp_ok s p a len type mode = pmp_ok s p a' len' type mode).
Proof.
  intros. split; [now apply pmp_homogeneous_total|]. intros.
  rewrite (pmp_ok_page s p page a len), (pmp_ok_page s p page a' len'); auto.
Qed.

(** One NAPOT entry covering [[0x80000000, 0x80010000)], read-only. *)
Definition example_state : state_t :=
  set_field_of pmpcfg (fun _ => [0x19; 0; 0; 0; 0; 0; 0; 0; 0; 0; 0; 0; 0; 0; 0; 0])
    (set_field_of pmpaddr (fun _ => [0x20001fff; 0; 0; 0; 0; 0; 0; 0; 0; 0; 0; 0; 0; 0; 0; 0])
      (state_reset 0)).
Definition example_processor : processor_t :=
  mk_processor HR_NONE false 0 64 64 0 false (fun _ => false) 16 2
    (mk_vu 0 0 0 0 0 16 128 64 true false) (mk_decoder [] ∅).

Lemma pmp_homogeneous_sound_witness :
  pmp_ok example_state example_processor 0x80001ffc 4 STORE PRV_S =
  pmp_ok example_state example_processor 0x80001003 8 STORE PRV_S.
Proof.
  apply (pmp_homogeneous_sound example_state example_processor 0x80001000 0x80001ffc 4
    0x80001003 8 STORE PRV_S); try (vm_compute; intuition congruence).
Defined.
