(* ===== verification/Mmu.v ===== *)
(** * Mmu: address translation, the TLB and memory accesses

    [mmu_t] of [riscv/mmu.h] and [riscv/mmu.cc]: page-table walks (both
    stages), [translate], the three TLBs and their refill, loads, stores,
    atomics and load reservations, against the interface [SimIf].  The build
    is the repository's ([setup.sh]: [configure] without options), so the
    [RISCV_ENABLE_DIRTY], [_MISALIGNED] and [_COMMITLOG] branches are absent,
    and no memory tracer is hooked. *)
From Stdlib Require Import ZArith Lia Bool List.
From stdpp Require Import base list gmap.
From S2P Require Import Prelude Arith Encoding Decode State Processor Pmp.
#[local] Open Scope Z_scope.
#[local] Open Scope word_scope.
#[local] Open Scope record_scope.
#[local] Open Scope monad_scope.

Definition TLB_ENTRIES : Z := 256.
Definition TLB_CHECK_TRIGGERS : Z := Z.shiftl 1 63.
Definition RISCV_XLATE_VIRT : Z := Z.shiftl 1 0.
Definition RISCV_XLATE_VIRT_MXR : Z := Z.shiftl 1 1.
Definition minus_1 : Z := 2 ^ 64 - 1.
Definition DEBUG_START : Z := 0x0.
Definition DEBUG_END : Z := 0x1000 - 1.

(** A tag array read: absent indices hold [-1]. *)
Definition tlb_tag (tags : gmap Z Z) (idx : Z) : Z := default minus_1 (tags !! idx).
Definition tlb_entry (data : gmap Z tlb_entry_t) (idx : Z) : tlb_entry_t :=
  default (mk_tlb_entry 0 0) (data !! idx).

(** [vm_info] and [decode_vm_info]; [None] is [abort()]. *)
Record vm_info := mk_vm_info { levels : Z; idxbits : Z; widenbits : Z; ptesize : Z; ptbase : Z }.

Definition decode_vm_info (xlen : Z) (stage2 : bool) (prv satp : Z) : option vm_info :=
  let off := Some (mk_vm_info 0 0 0 0 0) in
  if prv =? PRV_M then off
  else if negb stage2 && (prv <=? PRV_S) && (xlen =? 32) then
    let mode := get_field satp SATP32_MODE in
    if mode =? SATP_MODE_OFF then off
    else if mode =? SATP_MODE_SV32 then Some (mk_vm_info 2 10 0 4 ((satp &w SATP32_PPN) <<w PGSHIFT))
    else None
  else if negb stage2 && (prv <=? PRV_S) && (xlen =? 64) then
    let mode := get_field satp SATP64_MODE in
    let base := (satp &w SATP64_PPN) <<w PGSHIFT in
    if mode =? SATP_MODE_OFF then off
    else if mode =? SATP_MODE_SV39 then Some (mk_vm_info 3 9 0 8 base)
    else if mode =? SATP_MODE_SV48 then Some (mk_vm_info 4 9 0 8 base)
    else if mode =? SATP_MODE_SV57 then Some (mk_vm_info 5 9 0 8 base)
    else if mode =? SATP_MODE_SV64 then Some (mk_vm_info 6 9 0 8 base)
    else None
  else if stage2 && (xlen =? 32) then
    let mode := get_field satp HGATP32_MODE in
    if mode =? HGATP_MODE_OFF then off
    else if mode =? HGATP_MODE_SV32X4 then Some (mk_vm_info 2 10 2 4 ((satp &w HGATP32_PPN) <<w PGSHIFT))
    else None
  else if stage2 && (xlen =? 64) then
    let mode := get_field satp HGATP64_MODE in
    let base := (satp &w HGATP64_PPN) <<w PGSHIFT in
    if mode =? HGATP_MODE_OFF then off
    else if mode =? HGATP_MODE_SV39X4 then Some (mk_vm_info 3 9 2 8 base)
    else if mode =? HGATP_MODE_SV48X4 then Some (mk_vm_info 4 9 2 8 base)
    else None
  else None.

Definition throw_access_exception (addr : Z) (type : access_type) : trap_t :=
  match type with
  | FETCH => trap_instruction_access_fault addr 0 0
  | LOAD => trap_load_access_fault addr 0 0
  | STORE => trap_store_access_fault addr 0 0
  end.

(** The traps at the end of [walk] and of [s2xlate]. *)
Definition page_fault (type : access_type) (addr : Z) : trap_t :=
  match type with
  | FETCH => trap_instruction_page_fault addr 0 0
  | LOAD => trap_load_page_fault addr 0 0
  | STORE => trap_store_page_fault addr 0 0
  end.
Definition guest_page_fault (type : access_type) (gva gpa : Z) : trap_t :=
  match type with
  | FETCH => trap_instruction_guest_page_fault gva (gpa >>w 2) 0
  | LOAD => trap_load_guest_page_fault gva (gpa >>w 2) 0
  | STORE => trap_store_guest_page_fault gva (gpa >>w 2) 0
  end.

Definition bit (x mask : Z) : bool := z2b (x &w mask).

(** The permission test common to [walk] and [s2xlate]: [true] is a [break]. *)
Definition pte_no_permission (type : access_type) (pte : Z) (mxr : bool) : bool :=
  match type with
  | FETCH => negb (bit pte PTE_X)
  | LOAD => negb (bit pte PTE_R) && negb (mxr && bit pte PTE_X)
  | STORE => negb (bit pte PTE_R && bit pte PTE_W)
  end.

(** [PTE_A | ((type == STORE) * PTE_D)] *)
Definition pte_ad (type : access_type) : Z :=
  PTE_A |w (b2z (bool_decide (type = STORE)) * PTE_D).

Definition reg_from_bytes (len : nat) (bytes : list Z) : Z :=
  let byte i := nth i bytes 0 in
  match len with
  | 1%nat => byte 0%nat
  | 2%nat => byte 0%nat |w (byte 1%nat <<w 8)
  | 4%nat => byte 0%nat |w (byte 1%nat <<w 8) |w (byte 2%nat <<w 16) |w (byte 3%nat <<w 24)
  | 8%nat => byte 0%nat |w (byte 1%nat <<w 8) |w (byte 2%nat <<w 16) |w (byte 3%nat <<w 24)
             |w (byte 4%nat <<w 32) |w (byte 5%nat <<w 40) |w (byte 6%nat <<w 48)
             |w (byte 7%nat <<w 56)
  | _ => 0
  end.

Section Mmu.
Context {S : Type} `{!SimIf S}.

#[local] Notation M := (State.M S).
#[local] Notation hart := (State.hart S).

(** ** Host memory through a pointer *)

Fixpoint host_load (sm : S) (ptr : Z) (n : nat) : list Z :=
  match n with
  | O => []
  | Datatypes.S n' => host_read sm ptr :: host_load sm (ptr +w 1) n'
  end.

Fixpoint host_store (sm : S) (ptr : Z) (bytes : list Z) : S :=
  match bytes with
  | [] => sm
  | x :: bytes' => host_store (host_write sm ptr x) (ptr +w 1) bytes'
  end.

(** [from_le] of an [n]-byte access; the host is little-endian. *)
Definition host_load_int (sm : S) (ptr : Z) (n : nat) : Z := le_value (host_load sm ptr n).

(** ** Flushes *)

Definition flush_icache : M unit :=
  modify (fun h => h <| mmu ::= fun m => m <| icache ::= fmap (set_field_of ic_tag (fun _ => minus_1)) |> |>).

Definition flush_tlb : M unit :=
  modify (fun h => h <| mmu ::= fun m =>
    m <| tlb_insn_tag := ∅ |> <| tlb_load_tag := ∅ |> <| tlb_store_tag := ∅ |> |>) ;;
  flush_icache.

(** ** Page-table walks

    Without [RISCV_ENABLE_DIRTY] a walk only reads, so that it is a function
    of the state returning the translated address or the trap it throws. *)
Definition xlate := (exn + Z)%type.

Section Walk.
Variable h : hart.

Definition pmp_ok_h (addr len : Z) (type : access_type) (mode : Z) : bool :=
  pmp_ok (st h) (proc h) addr len type mode.

(** [ppte], and the test "physical address of PTE is legal". *)
Definition read_pte (pte_paddr : Z) (ptesize : Z) : option Z :=
  match addr_to_mem (sim h) pte_paddr with
  | None => None
  | Some ppte =>
    if negb (pmp_ok_h pte_paddr ptesize LOAD PRV_S) then None
    else Some (host_load_int (sim h) ppte (Z.to_nat ptesize))
  end.

Fixpoint s2xlate_loop (vm : vm_info) (gva gpa : Z) (type : access_type) (mxr : bool)
    (n : nat) (base : Z) : xlate :=
  match n with
  | O => inl (E_trap (guest_page_fault type gva gpa))
  | Datatypes.S i' =>
    let i := Z.of_nat i' in
    let ptshift := i * idxbits vm in
    let idxbits' := if i =? levels vm - 1 then idxbits vm + widenbits vm else idxbits vm in
    let idx := (gpa >>w (PGSHIFT + ptshift)) &w ((1 <<w idxbits') -w 1) in
    let pte_paddr := base +w (idx *w ptesize vm) in
    match read_pte pte_paddr (ptesize vm) with
    | None => inl (E_trap (throw_access_exception gva type))
    | Some pte =>
      let ppn := pte >>w PTE_PPN_SHIFT in
      let fault := inl (E_trap (guest_page_fault type gva gpa)) in
      if PTE_TABLE pte then s2xlate_loop vm gva gpa type mxr i' (ppn <<w PGSHIFT)
      else if negb (bit pte PTE_V) || (negb (bit pte PTE_R) && bit pte PTE_W) then fault
      else if negb (bit pte PTE_U) then fault
      else if pte_no_permission type pte mxr then fault
      else if z2b (ppn &w ((1 <<w ptshift) -w 1)) then fault
      else
        let ad := pte_ad type in
        if negb ((pte &w ad) =? ad) then fault
        else
          let vpn := gpa >>w PGSHIFT in
          let page_mask := (1 <<w PGSHIFT) -w 1 in
          let page_base := (ppn |w (vpn &w ((1 <<w ptshift) -w 1))) <<w PGSHIFT in
          inr (page_base |w (gpa &w page_mask))
    end
  end.

Definition s2xlate (gva gpa : Z) (type : access_type) (virt mxr : bool) : xlate :=
  if negb virt then inr gpa
  else
    match decode_vm_info (max_xlen (proc h)) true 0 (hgatp (st h)) with
    | None => inl E_abort
    | Some vm =>
      if levels vm =? 0 then inr gpa
      else s2xlate_loop vm gva gpa type mxr (Z.to_nat (levels vm)) (ptbase vm)
    end.

Fixpoint walk_loop (vm : vm_info) (addr : Z) (type : access_type) (s_mode sum virt mxr : bool)
    (n : nat) (base : Z) : xlate :=
  match n with
  | O => inl (E_trap (page_fault type addr))
  | Datatypes.S i' =>
    let i := Z.of_nat i' in
    let ptshift := i * idxbits vm in
    let idx := (addr >>w (PGSHIFT + ptshift)) &w (Z.shiftl 1 (idxbits vm) - 1) in
    match s2xlate addr (base +w (idx *w ptesize vm)) LOAD virt false with
    | inl e => inl e
    | inr pte_paddr =>
      match read_pte pte_paddr (ptesize vm) with
      | None => inl (E_trap (throw_access_exception addr type))
      | Some pte =>
        let ppn := pte >>w PTE_PPN_SHIFT in
        let fault := inl (E_trap (page_fault type addr)) in
        if PTE_TABLE pte then walk_loop vm addr type s_mode sum virt mxr i' (ppn <<w PGSHIFT)
        else if (if bit pte PTE_U then s_mode && (bool_decide (type = FETCH) || negb sum)
                 else negb s_mode) then fault
        else if negb (bit pte PTE_V) || (negb (bit pte PTE_R) && bit pte PTE_W) then fault
        else if pte_no_permission type pte mxr then fault
        else if z2b (ppn &w ((1 <<w ptshift) -w 1)) then fault
        else
          let ad := pte_ad type in
          if negb ((pte &w ad) =? ad) then fault
          else
            let page_mask := (1 <<w PGSHIFT) -w 1 in
            let vpn := addr >>w PGSHIFT in
            let page_base := (ppn |w (vpn &w ((1 <<w ptshift) -w 1))) <<w PGSHIFT in
            let phys := page_base |w (addr &w page_mask) in
            match s2xlate addr phys type virt mxr with
            | inl e => inl e
            | inr x => inr (x &w not64 page_mask)
            end
      end
    end
  end.

Definition walk (addr : Z) (type : access_type) (mode : Z) (virt mxr : bool) : xlate :=
  let page_mask := (1 <<w PGSHIFT) -w 1 in
  let satp' := if virt then vsatp (st h) else satp (st h) in
  match decode_vm_info (max_xlen (proc h)) false mode satp' with
  | None => inl E_abort
  | Some vm =>
    if levels vm =? 0 then
      match s2xlate addr (addr &w ((2 <<w (xlen (proc h) - 1)) -w 1)) type virt mxr with
      | inl e => inl e
      | inr x => inr (x &w not64 page_mask)
      end
    else
      let s_mode := mode =? PRV_S in
      let sum := z2b (get_field (mstatus (st h)) MSTATUS_SUM) in
      let va_bits := PGSHIFT + levels vm * idxbits vm in
      let mask := (1 <<w (xlen (proc h) - (va_bits - 1))) -w 1 in
      let masked_msbs := (addr >>w (va_bits - 1)) &w mask in
      let levels' :=
        if negb (masked_msbs =? 0) && negb (masked_msbs =? mask) then 0 else levels vm in
      walk_loop vm addr type s_mode sum virt mxr (Z.to_nat levels') (ptbase vm)
  end.

(** [translate]; the [proc == NULL] case is the debug MMU's, not a hart's. *)
Definition translate_mode (type : access_type) (xlate_flags : Z) : Z * bool * bool :=
  let s := st h in
  let mxr := z2b (get_field (mstatus s) MSTATUS_MXR) in
  let virt := v_ s in
  let mode := prv s in
  if bool_decide (type = FETCH) then (mode, virt, mxr)
  else
    let '(mode, virt) :=
      if negb (debug_mode s) && z2b (get_field (mstatus s) MSTATUS_MPRV) then
        (get_field (mstatus s) MSTATUS_MPP,
         if z2b (get_field (mstatus s) MSTATUS_MPV) then true else virt)
      else (mode, virt) in
    if negb (debug_mode s) && bit xlate_flags RISCV_XLATE_VIRT then
      (get_field (hstatus s) HSTATUS_SPVP, true,
       if bool_decide (type = LOAD) && bit xlate_flags RISCV_XLATE_VIRT_MXR then true else mxr)
    else (mode, virt, mxr).

Definition translate (addr len : Z) (type : access_type) (xlate_flags : Z) : xlate :=
  let '(mode, virt, mxr) := translate_mode type xlate_flags in
  match walk addr type mode virt mxr with
  | inl e => inl e
  | inr page =>
    let paddr := page |w (addr &w (PGSIZE -w 1)) in
    if negb (pmp_ok_h paddr len type mode) then inl (E_trap (throw_access_exception addr type))
    else inr paddr
  end.

End Walk.

(** A walk run as a member function. *)
Definition lift (f : hart -> xlate) : M Z := fun h => (f h, h).

(** ** MMIO *)

Definition mmio_ok (h : hart) (addr : Z) : bool :=
  negb ((DEBUG_START <=? addr) && (addr <=? DEBUG_END) && negb (debug_mode (st h))).

Definition mmu_mmio_load (addr : Z) (len : nat) : M (option (list Z)) := fun h =>
  if negb (mmio_ok h addr) then (inr None, h)
  else
    let '(r, sm, mip') := mmio_load (sim h) (mip (st h)) addr len in
    (inr r, h <| sim := sm |> <| st ::= fun s => s <| mip := mip' |> |>).

Definition mmu_mmio_store (addr : Z) (bytes : list Z) : M bool := fun h =>
  if negb (mmio_ok h addr) then (inr false, h)
  else
    let '(r, sm, mip') := mmio_store (sim h) (mip (st h)) addr bytes in
    (inr r, h <| sim := sm |> <| st ::= fun s => s <| mip := mip' |> |>).

(** ** TLB refill *)

Definition stale_tag (tags : gmap Z Z) (idx expected_tag : Z) : gmap Z Z :=
  if (tlb_tag tags idx &w not64 TLB_CHECK_TRIGGERS) =? expected_tag then tags
  else <[idx := minus_1]> tags.

Definition refill_tlb_mmu (m : mmu_t) (vaddr paddr host_addr : Z) (type : access_type)
    (homogeneous : bool) : mmu_t * tlb_entry_t :=
  let idx := (vaddr >>w PGSHIFT) mod TLB_ENTRIES in
  let expected_tag := vaddr >>w PGSHIFT in
  let m := m <| tlb_load_tag := stale_tag (tlb_load_tag m) idx expected_tag |>
             <| tlb_store_tag := stale_tag (tlb_store_tag m) idx expected_tag |>
             <| tlb_insn_tag := stale_tag (tlb_insn_tag m) idx expected_tag |> in
  let expected_tag :=
    if (check_triggers_fetch m && bool_decide (type = FETCH))
       || (check_triggers_load m && bool_decide (type = LOAD))
       || (check_triggers_store m && bool_decide (type = STORE))
    then expected_tag |w TLB_CHECK_TRIGGERS else expected_tag in
  let m :=
    if homogeneous then
      match type with
      | FETCH => m <| tlb_insn_tag ::= <[idx := expected_tag]> |>
      | STORE => m <| tlb_store_tag ::= <[idx := expected_tag]> |>
      | LOAD => m <| tlb_load_tag ::= <[idx := expected_tag]> |>
      end
    else m in
  let entry := mk_tlb_entry (host_addr -w vaddr) (paddr -w vaddr) in
  (m <| tlb_data ::= <[idx := entry]> |>, entry).

Definition refill_tlb (vaddr paddr host_addr : Z) (type : access_type) : M tlb_entry_t := fun h =>
  match pmp_homogeneous (st h) (proc h) (paddr &w not64 (PGSIZE -w 1)) PGSIZE with
  | None => (inl E_abort, h)
  | Some homogeneous =>
    let '(m, entry) := refill_tlb_mmu (mmu h) vaddr paddr host_addr type homogeneous in
    (inr entry, h <| mmu := m |>)
  end.

(** ** Triggers *)

Definition trigger_exception (operation : trigger_operation_t) (address data : Z)
    : M (option trigger_matched_t) := fun h =>
  let match_ := trigger_match (st h) (proc h) operation address data in
  if match_ =? -1 then (inr None, h)
  else
    let t := mk_trigger_matched match_ operation address data in
    if negb (mc_timing (get_mcontrol (st h) match_)) then (inl (E_trigger t), h)
    else (inr (Some t), h).

(** "[if (!matched_trigger) { matched_trigger = trigger_exception(...);
    if (matched_trigger) throw *matched_trigger; }]" *)
Definition check_trigger (operation : trigger_operation_t) (address data : Z) : M unit :=
  pending <- gets (fun h => matched_trigger (mmu h)) ;;
  match pending with
  | Some _ => ret tt
  | None =>
    t <- trigger_exception operation address data ;;
    modify (fun h => h <| mmu ::= fun m => m <| matched_trigger := t |> |>) ;;
    match t with
    | Some t' => throw (E_trigger t')
    | None => ret tt
    end
  end.

(** ** Loads *)

Definition load_slow_path (addr : Z) (len : nat) (xlate_flags : Z) : M (list Z) :=
  paddr <- lift (fun h => translate h addr (Z.of_nat len) LOAD xlate_flags) ;;
  host_addr <- gets (fun h => addr_to_mem (sim h) paddr) ;;
  bytes <-
    match host_addr with
    | Some ptr =>
      bytes <- gets (fun h => host_load (sim h) ptr len) ;;
      refill_tlb addr paddr ptr LOAD ;;
      ret bytes
    | None =>
      r <- mmu_mmio_load paddr len ;;
      match r with
      | Some bytes => ret bytes
      | None => throw_trap (trap_load_access_fault addr 0 0)
      end
    end ;;
  check_trigger OPERATION_LOAD addr (reg_from_bytes len bytes) ;;
  ret bytes.

Definition misaligned (addr : Z) (size : nat) : bool := z2b (addr &w (Z.of_nat size - 1)).

(** [load_func(type, prefix, xlate_flags)]: [size] is [sizeof(type##_t)], [cast]
    the conversion of the loaded bytes to [type##_t]. *)
Definition load_func (size : nat) (cast : Z -> Z) (xlate_flags : Z) (addr : Z) : M Z :=
  when (z2b xlate_flags) flush_tlb ;;
  m <- gets mmu ;;
  let vpn := addr >>w PGSHIFT in
  let idx := vpn mod TLB_ENTRIES in
  let tlb_read :=
    gets (fun h => cast (host_load_int (sim h)
                           (host_offset (tlb_entry (tlb_data (mmu h)) idx) +w addr) size)) in
  if tlb_tag (tlb_load_tag m) idx =? vpn then tlb_read
  else if tlb_tag (tlb_load_tag m) idx =? (vpn |w TLB_CHECK_TRIGGERS) then
    data <- tlb_read ;;
    check_trigger OPERATION_LOAD addr (u64 data) ;;
    ret data
  else
    bytes <- load_slow_path addr size xlate_flags ;;
    if misaligned addr size then throw_trap (trap_load_address_misaligned addr 0 0)
    else
      when (z2b xlate_flags) flush_tlb ;;
      ret (cast (le_value bytes)).

Definition load_uint8 := load_func 1 u8 0.
Definition load_uint16 := load_func 2 u16 0.
Definition load_uint32 := load_func 4 u32 0.
Definition load_uint64 := load_func 8 u64 0.
Definition guest_load_uint8 := load_func 1 u8 RISCV_XLATE_VIRT.
Definition guest_load_uint16 := load_func 2 u16 RISCV_XLATE_VIRT.
Definition guest_load_uint32 := load_func 4 u32 RISCV_XLATE_VIRT.
Definition guest_load_uint64 := load_func 8 u64 RISCV_XLATE_VIRT.
Definition guest_load_x_uint16 := load_func 2 u16 (RISCV_XLATE_VIRT |w RISCV_XLATE_VIRT_MXR).
Definition guest_load_x_uint32 := load_func 4 u32 (RISCV_XLATE_VIRT |w RISCV_XLATE_VIRT_MXR).
Definition load_int8 := load_func 1 s8 0.
Definition load_int16 := load_func 2 s16 0.
Definition load_int32 := load_func 4 s32 0.
Definition load_int64 := load_func 8 s64 0.
Definition guest_load_int8 := load_func 1 s8 RISCV_XLATE_VIRT.
Definition guest_load_int16 := load_func 2 s16 RISCV_XLATE_VIRT.
Definition guest_load_int32 := load_func 4 s32 RISCV_XLATE_VIRT.
Definition guest_load_int64 := load_func 8 s64 RISCV_XLATE_VIRT.

(** ** Stores *)

Definition store_slow_path (addr : Z) (bytes : list Z) (xlate_flags : Z) : M unit :=
  let len := length bytes in
  paddr <- lift (fun h => translate h addr (Z.of_nat len) STORE xlate_flags) ;;
  check_trigger OPERATION_STORE addr (reg_from_bytes len bytes) ;;
  host_addr <- gets (fun h => addr_to_mem (sim h) paddr) ;;
  match host_addr with
  | Some ptr =>
    modify (fun h => h <| sim ::= fun sm => host_store sm ptr bytes |>) ;;
    refill_tlb addr paddr ptr STORE ;;
    ret tt
  | None =>
    ok <- mmu_mmio_store paddr bytes ;;
    if ok then ret tt else throw_trap (trap_store_access_fault addr 0 0)
  end.

(** [store_func(type, prefix, xlate_flags)]: the misalignment test comes after
    the store. *)
Definition store_func (size : nat) (xlate_flags : Z) (addr val : Z) : M unit :=
  when (z2b xlate_flags) flush_tlb ;;
  m <- gets mmu ;;
  let val := uw (8 * Z.of_nat size) val in
  let vpn := addr >>w PGSHIFT in
  let idx := vpn mod TLB_ENTRIES in
  let tlb_write :=
    modify (fun h => h <| sim ::= fun sm =>
      host_store sm (host_offset (tlb_entry (tlb_data (mmu h)) idx) +w addr) (le_bytes size val) |>) in
  (if tlb_tag (tlb_store_tag m) idx =? vpn then tlb_write
   else if tlb_tag (tlb_store_tag m) idx =? (vpn |w TLB_CHECK_TRIGGERS) then
     check_trigger OPERATION_STORE addr val ;;
     tlb_write
   else store_slow_path addr (le_bytes size val) xlate_flags) ;;
  if misaligned addr size then throw_trap (trap_store_address_misaligned addr 0 0)
  else when (z2b xlate_flags) flush_tlb.

Definition store_uint8 := store_func 1 0.
Definition store_uint16 := store_func 2 0.
Definition store_uint32 := store_func 4 0.
Definition store_uint64 := store_func 8 0.
Definition guest_store_uint8 := store_func 1 RISCV_XLATE_VIRT.
Definition guest_store_uint16 := store_func 2 RISCV_XLATE_VIRT.
Definition guest_store_uint32 := store_func 4 RISCV_XLATE_VIRT.
Definition guest_store_uint64 := store_func 8 RISCV_XLATE_VIRT.

(** Quad-precision accesses are two 64-bit ones; the alignment test is first. *)
Definition store_float128 (addr : Z) (val : freg_t) : M unit :=
  if z2b (addr &w 15) then throw_trap (trap_store_address_misaligned addr 0 0)
  else store_uint64 addr (v0 val) ;; store_uint64 (addr +w 8) (v1 val).

Definition load_float128 (addr : Z) : M freg_t :=
  if z2b (addr &w 15) then throw_trap (trap_load_address_misaligned addr 0 0)
  else lo <- load_uint64 addr ;; hi <- load_uint64 (addr +w 8) ;; ret (mk_freg lo hi).

(** ** Atomics and reservations *)

(** [amo_func(type)]: load faults are reported as store faults. *)
Definition amo_catch {A : Type} (e : exn) : M A :=
  match e with
  | E_trap t =>
    if cause t =? CAUSE_LOAD_PAGE_FAULT
    then throw_trap (trap_store_page_fault (get_tval t) (get_tval2 t) (get_tinst t))
    else if cause t =? CAUSE_LOAD_ACCESS
    then throw_trap (trap_store_access_fault (get_tval t) (get_tval2 t) (get_tinst t))
    else throw e
  | _ => throw e
  end.

Definition amo_func (size : nat) (addr : Z) (f : Z -> Z) : M Z :=
  if misaligned addr size then throw_trap (trap_store_address_misaligned addr 0 0)
  else
    try_catch
      (lhs <- load_func size (uw (8 * Z.of_nat size)) 0 addr ;;
       store_func size 0 addr (f lhs) ;;
       ret lhs)
      amo_catch.

Definition amo_uint32 := amo_func 4.
Definition amo_uint64 := amo_func 8.

Definition yield_load_reservation : M unit :=
  modify (fun h => h <| mmu ::= fun m => m <| load_reservation_address := minus_1 |> |>).

Definition acquire_load_reservation (vaddr : Z) : M unit :=
  paddr <- lift (fun h => translate h vaddr 1 LOAD 0) ;;
  host_addr <- gets (fun h => addr_to_mem (sim h) paddr) ;;
  match host_addr with
  | Some ptr =>
    e <- refill_tlb vaddr paddr ptr LOAD ;;
    modify (fun h => h <| mmu ::= fun m =>
      m <| load_reservation_address := target_offset e +w vaddr |> |>)
  | None => throw_trap (trap_load_access_fault vaddr 0 0)
  end.

Definition check_load_reservation (vaddr : Z) (size : nat) : M bool :=
  if misaligned vaddr size then throw_trap (trap_store_address_misaligned vaddr 0 0)
  else
    paddr <- lift (fun h => translate h vaddr 1 STORE 0) ;;
    host_addr <- gets (fun h => addr_to_mem (sim h) paddr) ;;
    match host_addr with
    | Some ptr =>
      e <- refill_tlb vaddr paddr ptr STORE ;;
      gets (fun h => load_reservation_address (mmu h) =? target_offset e +w vaddr)
    | None => throw_trap (trap_store_access_fault vaddr 0 0)
    end.

End Mmu.
