(* ===== verification/Csr.v ===== *)
(** * Csr: control and status registers

    [processor_t::set_csr] and [get_csr] of [riscv/processor.cc], with the
    helpers they call: [set_privilege], [set_virt], [trigger_updated].  The
    [switch] is cut into groups of cases ([csr_write_*], [csr_read_*]), each
    falling through to the next.  The commit log is compiled out. *)
From Stdlib Require Import ZArith Lia Bool List.
From stdpp Require Import base list gmap.
From S2P Require Import Prelude Arith Encoding Decode State Processor Pmp Mmu.
#[local] Open Scope Z_scope.
#[local] Open Scope word_scope.
#[local] Open Scope record_scope.
#[local] Open Scope monad_scope.

(** Constants of [riscv/decode.h] and [riscv/debug_rom_defines.h]. *)
Definition FSR_RD_SHIFT : Z := 5.
Definition FSR_RD : Z := Z.shiftl 0x7 FSR_RD_SHIFT.
Definition FPEXC_NX : Z := 0x01.
Definition FPEXC_UF : Z := 0x02.
Definition FPEXC_OF : Z := 0x04.
Definition FPEXC_DZ : Z := 0x08.
Definition FPEXC_NV : Z := 0x10.
Definition FSR_AEXC_SHIFT : Z := 0.
Definition FSR_AEXC : Z :=
  Z.shiftl FPEXC_NV FSR_AEXC_SHIFT |w Z.shiftl FPEXC_OF FSR_AEXC_SHIFT
  |w Z.shiftl FPEXC_UF FSR_AEXC_SHIFT |w Z.shiftl FPEXC_DZ FSR_AEXC_SHIFT
  |w Z.shiftl FPEXC_NX FSR_AEXC_SHIFT.
Definition VCSR_VXRM_SHIFT : Z := 1.
Definition VCSR_VXRM : Z := Z.shiftl 0x3 VCSR_VXRM_SHIFT.
Definition VCSR_VXSAT_SHIFT : Z := 0.
Definition VCSR_VXSAT : Z := Z.shiftl 0x1 VCSR_VXSAT_SHIFT.
Definition DEBUG_ROM_ENTRY : Z := 0x800.
Definition DEBUG_ROM_TVEC : Z := 0x808.

(** "[(reg & ~mask) | (val & mask)]" *)
Definition merge (reg mask val : Z) : Z := (reg &w not64 mask) |w (val &w mask).

(** [c ? x : 0] *)
Definition iff_ (c : bool) (x : Z) : Z := if c then x else 0.

(** [dirty_fp_state], [dirty_vs_state]. *)
Definition sd_bit (xlen : Z) : Z := if xlen =? 64 then MSTATUS64_SD else MSTATUS32_SD.
Definition dirty_fp_state (p : processor_t) (s : state_t) : state_t :=
  s <| mstatus := mstatus s |w (MSTATUS_FS |w sd_bit (xlen p)) |>.
Definition dirty_vs_state (p : processor_t) (s : state_t) : state_t :=
  s <| mstatus := mstatus s |w (MSTATUS_VS |w sd_bit (xlen p)) |>.

Definition xlen_to_uxl (xlen : Z) : option Z :=
  if xlen =? 32 then Some 1 else if xlen =? 64 then Some 2 else None.

(** ** The new value of [mstatus]

    The case [CSR_MSTATUS] up to its side effects (a TLB flush, and
    [xlen = max_xlen]); [None] is the [abort()] of [xlen_to_uxl]. *)
Section Mstatus.
Variable s : state_t.
Variable p : processor_t.
#[local] Notation supports := (supports_extension s p).

Definition mstatus_mask : Z :=
  let has_fs := supports chr_S || supports chr_F || supports chr_V in
  let has_vs := supports chr_V in
  let has_mpv := supports chr_S && supports chr_H in
  let has_gva := has_mpv in
  let mask :=
    MSTATUS_MIE |w MSTATUS_MPIE |w MSTATUS_MPRV
    |w iff_ (supports chr_S) (MSTATUS_SUM |w MSTATUS_SIE |w MSTATUS_SPIE)
    |w MSTATUS_MXR |w MSTATUS_TW |w MSTATUS_TVM |w MSTATUS_TSR
    |w iff_ has_fs MSTATUS_FS |w iff_ has_vs MSTATUS_VS |w iff_ (has_ext p) MSTATUS_XS
    |w iff_ has_gva MSTATUS_GVA |w iff_ has_mpv MSTATUS_MPV in
  if supports chr_S then mask |w MSTATUS_SPP else mask.

Definition mstatus_dirty (m : Z) : bool :=
  ((m &w MSTATUS_FS) =? MSTATUS_FS) || ((m &w MSTATUS_XS) =? MSTATUS_XS)
  || ((m &w MSTATUS_VS) =? MSTATUS_VS).

(** MPP and the writable bits; FS is written as OFF or DIRTY ("Match Rocket CSR"). *)
Definition merge_mstatus (val : Z) : Z :=
  let mask := mstatus_mask in
  let rocket_mask := if z2b (val &w MSTATUS_FS) then MSTATUS_FS else 0 in
  let requested_mpp := legalize_privilege s p (get_field val MSTATUS_MPP) in
  let m := set_field (mstatus s) MSTATUS_MPP requested_mpp in
  (m &w not64 mask) |w ((val &w mask) |w rocket_mask).

(** The summary bit SD. *)
Definition mstatus_with_sd (m : Z) : Z :=
  let dirty := b2z (mstatus_dirty m) in
  if max_xlen p =? 32 then set_field m MSTATUS32_SD dirty else set_field m MSTATUS64_SD dirty.

(** UXL and SXL. *)
Definition mstatus_with_xl (uxl m : Z) : Z :=
  let m := if supports chr_U then set_field m MSTATUS_UXL uxl else m in
  if supports chr_S then set_field m MSTATUS_SXL uxl else m.

Definition write_mstatus (val : Z) : option Z :=
  let m := mstatus_with_sd (merge_mstatus val) in
  match xlen_to_uxl (max_xlen p) with
  | Some uxl => Some (mstatus_with_xl uxl m)
  | None => if supports chr_U || supports chr_S then None else Some m
  end.

(** The legal values of the translation registers. *)
Definition rv64_ppn_mask : Z := (1 <<w (MAX_PADDR_BITS - PGSHIFT)) -w 1.

Definition satp_mode_ok (val : Z) : bool :=
  (get_field val SATP64_MODE =? SATP_MODE_OFF) || (get_field val SATP64_MODE =? SATP_MODE_SV39)
  || (get_field val SATP64_MODE =? SATP_MODE_SV48).
Definition hgatp_mode_ok (val : Z) : bool :=
  (get_field val HGATP64_MODE =? HGATP_MODE_OFF) || (get_field val HGATP64_MODE =? HGATP_MODE_SV39X4)
  || (get_field val HGATP64_MODE =? HGATP_MODE_SV48X4).

Definition legal_satp (val : Z) : Z :=
  let r := if max_xlen p =? 32 then val &w (SATP32_PPN |w SATP32_MODE) else 0 in
  if (max_xlen p =? 64) && satp_mode_ok val
  then val &w ((SATP64_PPN &w rv64_ppn_mask) |w SATP64_MODE) else r.
Definition legal_vsatp (val : Z) : Z :=
  let r := if max_xlen p =? 32 then val &w (SATP32_PPN |w SATP32_MODE) else 0 in
  if (max_xlen p =? 64) && satp_mode_ok val
  then val &w (SATP64_PPN |w SATP64_MODE |w rv64_ppn_mask) else r.
Definition legal_hgatp (val : Z) : Z :=
  let r := if max_xlen p =? 32 then val &w (HGATP32_PPN |w HGATP32_MODE) else 0 in
  if (max_xlen p =? 64) && hgatp_mode_ok val
  then val &w (HGATP64_PPN |w HGATP64_MODE |w rv64_ppn_mask) else r.

(** [mepc] and [sepc] keep 40 bits, sign-extended from bit 39. *)
Definition legal_epc (val : Z) : Z :=
  let mask := (1 <<w 40) -w 1 in
  let upper_mask := neg64 ((val >>w 39) &w 1) <<w 39 in
  upper_mask |w ((val &w not64 1) &w mask).

Definition misa_bit (c : Z) : Z := Z.shiftl 1 (c - chr_A).
Definition misa_mask : Z :=
  (misa_bit chr_M |w misa_bit chr_A |w misa_bit chr_F |w misa_bit chr_D |w misa_bit chr_C |w misa_bit chr_H)
  &w max_isa p.

Definition vsstatus_mask : Z :=
  SSTATUS_VS_MASK |w iff_ (supports chr_F) SSTATUS_FS |w iff_ (supports chr_V) SSTATUS_VS
  |w (if xlen p =? 64 then SSTATUS64_SD else SSTATUS32_SD).

(** The interrupts that can be enabled or delegated. *)
Definition supervisor_ints : Z := iff_ (supports chr_S) (MIP_SSIP |w MIP_STIP |w MIP_SEIP).
Definition vssip_int : Z := iff_ (supports chr_H) MIP_VSSIP.
Definition hypervisor_ints : Z := iff_ (supports chr_H) MIP_HS_MASK.
Definition coprocessor_ints : Z := Z.shiftl (b2z (has_ext p)) IRQ_COP.
Definition delegable_ints : Z := supervisor_ints |w coprocessor_ints.
Definition all_ints : Z := delegable_ints |w hypervisor_ints |w MIP_MSIP |w MIP_MTIP |w MIP_MEIP.

(** ** PMP registers *)

Definition pmp_locked (i : Z) : bool := z2b (get_pmpcfg s i &w PMP_L).

(** May [pmpaddr[i]] be written? *)
Definition pmpaddr_writable (i : Z) : bool :=
  let next_locked := (i + 1 <? Z.of_nat max_pmp) && pmp_locked (i + 1) in
  let next_tor := (i + 1 <? Z.of_nat max_pmp) && ((get_pmpcfg s (i + 1) &w PMP_A) =? PMP_TOR) in
  (i <? n_pmp p) && negb (pmp_locked i) && negb (next_locked && next_tor).

Definition pmpaddr_mask : Z := (1 <<w (MAX_PADDR_BITS - PMP_SHIFT)) -w 1.

(** One byte of [pmpcfg], legalised. *)
Definition legal_pmpcfg (byte : Z) : Z :=
  let cfg := byte &w (PMP_R |w PMP_W |w PMP_X |w PMP_A |w PMP_L) in
  let cfg := cfg &w (u8 (Z.lnot PMP_W) |w (if z2b (cfg &w PMP_R) then PMP_W else 0)) in
  if negb (lg_pmp_granularity p =? PMP_SHIFT) && ((cfg &w PMP_A) =? PMP_NA4)
  then cfg |w PMP_NAPOT else cfg.

End Mstatus.

(** The loop over the bytes of a [pmpcfg] register: entries [i], [i + 1], ... *)
Fixpoint pmpcfg_loop (p : processor_t) (left : nat) (i0 i val : Z) (s : state_t) : state_t :=
  match left with
  | O => s
  | S left' =>
    let s' :=
      if (i <? n_pmp p) && negb (pmp_locked s i)
      then s <| pmpcfg ::= <[Z.to_nat i := legal_pmpcfg p (u8 (val >>w (8 * (i - i0))))]> |>
      else s in
    pmpcfg_loop p left' i0 (i + 1) val s'
  end.

(** ** Triggers *)

Definition mcontrol_of (xlen val : Z) (mc : mcontrol_t) : mcontrol_t :=
  let flag mask := z2b (get_field val mask) in
  let execute := flag MCONTROL_EXECUTE in
  mk_mcontrol (mc_type mc) (flag (MCONTROL_DMODE xlen)) (mc_maskmax mc) (flag MCONTROL_SELECT)
    (if execute then false else flag MCONTROL_TIMING) (get_field val MCONTROL_ACTION)
    (flag MCONTROL_CHAIN) (get_field val MCONTROL_MATCH) (flag MCONTROL_M) (flag MCONTROL_H)
    (flag MCONTROL_S) (flag MCONTROL_U) execute (flag MCONTROL_STORE) (flag MCONTROL_LOAD).

Definition mcontrol_bits (xlen : Z) (mc : mcontrol_t) : Z :=
  let v := set_field 0 (MCONTROL_TYPE xlen) (mc_type mc) in
  let v := set_field v (MCONTROL_DMODE xlen) (b2z (mc_dmode mc)) in
  let v := set_field v (MCONTROL_MASKMAX xlen) (mc_maskmax mc) in
  let v := set_field v MCONTROL_SELECT (b2z (mc_select mc)) in
  let v := set_field v MCONTROL_TIMING (b2z (mc_timing mc)) in
  let v := set_field v MCONTROL_ACTION (mc_action mc) in
  let v := set_field v MCONTROL_CHAIN (b2z (mc_chain mc)) in
  let v := set_field v MCONTROL_MATCH (mc_match mc) in
  let v := set_field v MCONTROL_M (b2z (mc_m mc)) in
  let v := set_field v MCONTROL_H (b2z (mc_h mc)) in
  let v := set_field v MCONTROL_S (b2z (mc_s mc)) in
  let v := set_field v MCONTROL_U (b2z (mc_u mc)) in
  let v := set_field v MCONTROL_EXECUTE (b2z (mc_execute mc)) in
  let v := set_field v MCONTROL_STORE (b2z (mc_store mc)) in
  set_field v MCONTROL_LOAD (b2z (mc_load mc)).

Definition dcsr_of (val : Z) (d : dcsr_t) : dcsr_t :=
  let flag mask := z2b (get_field val mask) in
  mk_dcsr (get_field val DCSR_PRV) (flag DCSR_STEP) (flag DCSR_EBREAKM) (flag DCSR_EBREAKH)
    (flag DCSR_EBREAKS) (flag DCSR_EBREAKU) (flag DCSR_HALT) (dcsr_cause d).

Definition dcsr_bits (d : dcsr_t) : Z :=
  let v := set_field 0 DCSR_XDEBUGVER 1 in
  let v := set_field v DCSR_EBREAKM (b2z (dcsr_ebreakm d)) in
  let v := set_field v DCSR_EBREAKH (b2z (dcsr_ebreakh d)) in
  let v := set_field v DCSR_EBREAKS (b2z (dcsr_ebreaks d)) in
  let v := set_field v DCSR_EBREAKU (b2z (dcsr_ebreaku d)) in
  let v := set_field v DCSR_STOPCYCLE 0 in
  let v := set_field v DCSR_STOPTIME 0 in
  let v := set_field v DCSR_CAUSE (dcsr_cause d) in
  let v := set_field v DCSR_STEP (b2z (dcsr_step d)) in
  set_field v DCSR_PRV (dcsr_prv d).

(** ** Operations *)

Section Operations.
Context {S : Type} `{!SimIf S}.
#[local] Notation M := (State.M S).
#[local] Notation hart := (State.hart S).

Definition upd (f : state_t -> state_t) : M unit := modify (fun h => h <| st ::= f |>).
Definition upd_proc (f : processor_t -> processor_t) : M unit := modify (fun h => h <| proc ::= f |>).

Definition set_privilege (prv' : Z) : M unit :=
  flush_tlb ;;
  modify (fun h => h <| st ::= fun s => s <| prv := legalize_privilege s (proc h) prv' |> |>).

(** The three "[state.vsstatus |= ...; ... |= SD]" of [set_virt]. *)
Definition sync_vs (mask sd : Z) (s : state_t) : state_t :=
  if (mstatus s &w mask) =? mask then s <| vsstatus ::= fun x => (x |w mask) |w sd |> else s.

Definition set_virt_state (p : processor_t) (virt : bool) (s : state_t) : state_t :=
  if prv s =? PRV_M then s
  else if Bool.eqb (v_ s) virt then s
  else
    let sd := if xlen p =? 64 then SSTATUS64_SD else SSTATUS32_SD in
    let s :=
      if v_ s && negb virt
      then sync_vs SSTATUS_XS sd (sync_vs SSTATUS_VS sd (sync_vs SSTATUS_FS sd s)) else s in
    let mask := vsstatus_mask s p in
    let tmp := mstatus s &w mask in
    s <| mstatus := merge (mstatus s) mask (vsstatus s) |> <| vsstatus := tmp |> <| v_ := virt |>.

Definition set_virt (virt : bool) : M unit :=
  modify (fun h => h <| st ::= set_virt_state (proc h) virt |>).

(** [trigger_updated]: [exists] over the triggers. *)
Definition trigger_updated : M unit :=
  flush_tlb ;;
  modify (fun h => h <| mmu ::= fun m =>
    m <| check_triggers_fetch := existsb mc_execute (mcontrol (st h)) |>
      <| check_triggers_load := existsb mc_load (mcontrol (st h)) |>
      <| check_triggers_store := existsb mc_store (mcontrol (st h)) |> |>).

(** *** [set_csr] *)

Definition set_pmpaddr (i val : Z) : M unit :=
  p <- gets proc ;;
  if n_pmp p =? 0 then ret tt
  else
    upd (fun s => if pmpaddr_writable s p i
                  then s <| pmpaddr ::= <[Z.to_nat i := val &w pmpaddr_mask]> |> else s) ;;
    flush_tlb.

Definition set_pmpcfg (i0 val : Z) : M unit :=
  p <- gets proc ;;
  if n_pmp p =? 0 then ret tt
  else
    upd (pmpcfg_loop p (Z.to_nat (xlen p / 8)) i0 i0 val) ;;
    flush_tlb.

Definition set_mstatus_csr (val : Z) : M unit :=
  s <- gets st ;;
  p <- gets proc ;;
  when (z2b ((val ^w mstatus s) &w (MSTATUS_MPP |w MSTATUS_MPRV |w MSTATUS_SUM |w MSTATUS_MXR))) flush_tlb ;;
  match write_mstatus s p val with
  | None => throw E_abort
  | Some m => upd (fun s => s <| mstatus := m |>) ;; upd_proc (fun p => p <| xlen := max_xlen p |>)
  end.

Definition csr_write_float (which val : Z) (next : M unit) : M unit :=
  p <- gets proc ;;
  if which =? CSR_FFLAGS then
    upd (fun s => dirty_fp_state p s <| fflags := u32 (val &w (FSR_AEXC >>w FSR_AEXC_SHIFT)) |>)
  else if which =? CSR_FRM then
    upd (fun s => dirty_fp_state p s <| frm := u32 (val &w (FSR_RD >>w FSR_RD_SHIFT)) |>)
  else if which =? CSR_FCSR then
    upd (fun s => dirty_fp_state p s
      <| fflags := u32 ((val &w FSR_AEXC) >>w FSR_AEXC_SHIFT) |>
      <| frm := u32 ((val &w FSR_RD) >>w FSR_RD_SHIFT) |>)
  else if which =? CSR_VCSR then
    upd (dirty_vs_state p) ;;
    upd_proc (fun p => p <| VU ::= fun vu =>
      vu <| vxsat := (val &w VCSR_VXSAT) >>w VCSR_VXSAT_SHIFT |>
         <| vxrm := (val &w VCSR_VXRM) >>w VCSR_VXRM_SHIFT |> |>)
  else next.

Definition medeleg_mask : Z :=
  Z.shiftl 1 CAUSE_MISALIGNED_FETCH |w Z.shiftl 1 CAUSE_ILLEGAL_INSTRUCTION
  |w Z.shiftl 1 CAUSE_BREAKPOINT |w Z.shiftl 1 CAUSE_MISALIGNED_LOAD
  |w Z.shiftl 1 CAUSE_MISALIGNED_STORE |w Z.shiftl 1 CAUSE_USER_ECALL
  |w Z.shiftl 1 CAUSE_FETCH_PAGE_FAULT |w Z.shiftl 1 CAUSE_LOAD_PAGE_FAULT
  |w Z.shiftl 1 CAUSE_STORE_PAGE_FAULT.

Definition csr_write_machine (which val : Z) (next : M unit) : M unit :=
  s <- gets st ;;
  p <- gets proc ;;
  if which =? CSR_MSTATUS then set_mstatus_csr val
  else if which =? CSR_MIP then
    let mask := (supervisor_ints s p |w hypervisor_ints s p)
                &w (MIP_SSIP |w MIP_STIP |w vssip_int s p |w MIP_SEIP |w MIP_MEIP) in
    upd (fun s => s <| mip ::= fun x => merge x mask val |>)
  else if which =? CSR_MIE then upd (fun s => s <| mie ::= fun x => merge x (all_ints s p) val |>)
  else if which =? CSR_MIDELEG then
    upd (fun s => s <| mideleg ::= fun x => merge x (delegable_ints s p) val |>)
  else if which =? CSR_MEDELEG then upd (fun s => s <| medeleg ::= fun x => merge x medeleg_mask val |>)
  else if (which =? CSR_MINSTRET) || (which =? CSR_MCYCLE) then
    let v := if xlen p =? 32
             then (minstret s >>w 32 <<w 32) |w (val &w 0xffffffff) else val in
    upd (fun s => s <| minstret := v -w 1 |>)
  else if (which =? CSR_MINSTRETH) || (which =? CSR_MCYCLEH) then
    upd (fun s => s <| minstret := ((val <<w 32) |w (minstret s <<w 32 >>w 32)) -w 1 |>)
  else if which =? CSR_SCOUNTEREN then upd (fun s => s <| scounteren := u32 val |>)
  else if which =? CSR_MCOUNTEREN then upd (fun s => s <| mcounteren := u32 val |>)
  else if which =? CSR_MEPC then upd (fun s => s <| mepc := legal_epc val |>)
  else if which =? CSR_MTVEC then upd (fun s => s <| mtvec := val &w not64 2 |>)
  else if which =? CSR_MSCRATCH then upd (fun s => s <| mscratch := val |>)
  else if which =? CSR_MCAUSE then
    upd (fun s => s <| mcause ::= fun x => merge x ((1 <<w (xlen p - 1)) +w 15) val |>)
  else if which =? CSR_MTVAL then upd (fun s => s <| mtval := val |>)
  else if which =? CSR_MTVAL2 then
    if supports_extension s p chr_H then upd (fun s => s <| mtval2 := val |>)
    else throw_trap (trap_illegal_instruction 0)
  else if which =? CSR_MTINST then
    if supports_extension s p chr_H then upd (fun s => s <| mtinst := val |>)
    else throw_trap (trap_illegal_instruction 0)
  else if which =? CSR_MISA then
    if negb (z2b (val &w misa_bit chr_C)) && z2b (pc s &w 2) then ret tt
    else
      let val := if negb (z2b (val &w misa_bit chr_F)) then val &w not64 (misa_bit chr_D) else val in
      let mask := misa_mask p in
      upd (fun s => s <| misa := (val &w mask) |w (misa s &w not64 mask) |>) ;;
      upd (fun s => s <| mideleg ::= fun x =>
        if supports_extension s p chr_H then x |w MIDELEG_FORCED_MASK
        else x &w not64 MIDELEG_FORCED_MASK |>)
  else next.

Definition sstatus_write_mask (s : state_t) (p : processor_t) : Z :=
  SSTATUS_SIE |w SSTATUS_SPIE |w SSTATUS_SPP |w SSTATUS_FS |w SSTATUS_XS |w SSTATUS_SUM |w SSTATUS_MXR
  |w iff_ (supports_extension s p chr_V) SSTATUS_VS.

Definition csr_write_supervisor (which val : Z) (next : M unit) : M unit :=
  s <- gets st ;;
  p <- gets proc ;;
  if which =? CSR_SSTATUS then
    set_mstatus_csr (zext_xlen (xlen p) (merge (mstatus s) (sstatus_write_mask s p) val))
  else if which =? CSR_SIP then
    if v_ s then upd (fun s => s <| mip ::= fun x => merge x (hideleg s &w MIP_VSSIP) (val <<w 1) |>)
    else upd (fun s => s <| mip ::= fun x => merge x (mideleg s &w MIP_SSIP) val |>)
  else if which =? CSR_SIE then
    if v_ s then upd (fun s => s <| mie ::= fun x => merge x (hideleg s &w MIP_VS_MASK) (val <<w 1) |>)
    else upd (fun s => s <| mie ::= fun x => merge x (mideleg s &w not64 MIP_HS_MASK) val |>)
  else if which =? CSR_SATP then
    flush_tlb ;;
    upd (fun s => if v_ s then s <| vsatp := legal_satp p val |> else s <| satp := legal_satp p val |>)
  else if which =? CSR_SEPC then
    upd (fun s => if v_ s then s <| vsepc := val &w not64 1 |> else s <| sepc := legal_epc val |>)
  else if which =? CSR_STVEC then
    upd (fun s => if v_ s then s <| vstvec := val &w not64 2 |> else s <| stvec := val &w not64 2 |>)
  else if which =? CSR_SSCRATCH then
    upd (fun s => if v_ s then s <| vsscratch := val |> else s <| sscratch := val |>)
  else if which =? CSR_SCAUSE then
    upd (fun s => if v_ s then s <| vscause := val |>
                  else s <| scause ::= fun x => merge x ((1 <<w (xlen p - 1)) +w 31) val |>)
  else if which =? CSR_STVAL then
    upd (fun s => if v_ s then s <| vstval := val |> else s <| stval := val |>)
  else next.

Definition hstatus_mask : Z :=
  HSTATUS_VTSR |w HSTATUS_VTW |w HSTATUS_VTVM |w HSTATUS_HU |w HSTATUS_SPVP |w HSTATUS_SPV |w HSTATUS_GVA.

Definition hedeleg_mask : Z :=
  Z.shiftl 1 CAUSE_MISALIGNED_FETCH |w Z.shiftl 1 CAUSE_BREAKPOINT |w Z.shiftl 1 CAUSE_MISALIGNED_LOAD
  |w Z.shiftl 1 CAUSE_LOAD_ACCESS |w Z.shiftl 1 CAUSE_MISALIGNED_STORE |w Z.shiftl 1 CAUSE_STORE_ACCESS
  |w Z.shiftl 1 CAUSE_USER_ECALL |w Z.shiftl 1 CAUSE_FETCH_PAGE_FAULT |w Z.shiftl 1 CAUSE_LOAD_PAGE_FAULT
  |w Z.shiftl 1 CAUSE_STORE_PAGE_FAULT.

Definition csr_write_hypervisor (which val : Z) (next : M unit) : M unit :=
  s <- gets st ;;
  p <- gets proc ;;
  if which =? CSR_HSTATUS then upd (fun s => s <| hstatus ::= fun x => merge x hstatus_mask val |>)
  else if which =? CSR_HEDELEG then upd (fun s => s <| hedeleg ::= fun x => merge x hedeleg_mask val |>)
  else if which =? CSR_HIDELEG then upd (fun s => s <| hideleg ::= fun x => merge x MIP_VS_MASK val |>)
  else if which =? CSR_HIE then upd (fun s => s <| mie ::= fun x => merge x MIP_HS_MASK val |>)
  else if (which =? CSR_HTIMEDELTA) || (which =? CSR_HTIMEDELTAH) then
    throw_trap (trap_illegal_instruction 0)
  else if which =? CSR_HCOUNTEREN then upd (fun s => s <| hcounteren := u32 val |>)
  else if which =? CSR_HGEIE then ret tt
  else if which =? CSR_HTVAL then upd (fun s => s <| htinst := val |>)
  else if which =? CSR_HIP then upd (fun s => s <| mip ::= fun x => merge x MIP_VSSIP val |>)
  else if which =? CSR_HVIP then upd (fun s => s <| mip ::= fun x => merge x MIP_VS_MASK val |>)
  else if which =? CSR_HTINST then upd (fun s => s <| htinst := val |>)
  else if which =? CSR_HGATP then flush_tlb ;; upd (fun s => s <| hgatp := legal_hgatp p val |>)
  else if which =? CSR_VSSTATUS then
    upd (fun s => s <| vsstatus ::= fun x => merge x (vsstatus_mask s p) val |>)
  else if which =? CSR_VSIE then
    upd (fun s => s <| mie ::= fun x => merge x (hideleg s &w MIP_VS_MASK) (val <<w 1) |>)
  else if which =? CSR_VSTVEC then upd (fun s => s <| vstvec := val &w not64 2 |>)
  else if which =? CSR_VSSCRATCH then upd (fun s => s <| vsscratch := val |>)
  else if which =? CSR_VSEPC then upd (fun s => s <| vsepc := val &w not64 1 |>)
  else if which =? CSR_VSCAUSE then upd (fun s => s <| vscause := val |>)
  else if which =? CSR_VSTVAL then upd (fun s => s <| vstval := val |>)
  else if which =? CSR_VSIP then
    upd (fun s => s <| mip ::= fun x => merge x (hideleg s &w MIP_VSSIP) (val <<w 1) |>)
  else if which =? CSR_VSATP then flush_tlb ;; upd (fun s => s <| vsatp := legal_vsatp p val |>)
  else next.

Definition csr_write_debug (which val : Z) (next : M unit) : M unit :=
  s <- gets st ;;
  p <- gets proc ;;
  let locked := mc_dmode (get_mcontrol s (tselect s)) && negb (debug_mode s) in
  if which =? CSR_TSELECT then
    if val <? Z.of_nat num_triggers then upd (fun s => s <| tselect := val |>) else ret tt
  else if which =? CSR_TDATA1 then
    if locked then ret tt
    else
      upd (fun s => s <| mcontrol ::=
        <[Z.to_nat (tselect s) := mcontrol_of (xlen p) val (get_mcontrol s (tselect s))]> |>) ;;
      trigger_updated
  else if which =? CSR_TDATA2 then
    if locked then ret tt
    else if tselect s <? Z.of_nat num_triggers
    then upd (fun s => s <| tdata2 ::= <[Z.to_nat (tselect s) := val]> |>) else ret tt
  else if which =? CSR_DCSR then upd (fun s => s <| dcsr ::= dcsr_of val |>)
  else if which =? CSR_DPC then upd (fun s => s <| dpc := val &w not64 1 |>)
  else if which =? CSR_DSCRATCH0 then upd (fun s => s <| dscratch0 := val |>)
  else if which =? CSR_DSCRATCH1 then upd (fun s => s <| dscratch1 := val |>)
  else next.

Definition csr_write_vector (which val : Z) : M unit :=
  p <- gets proc ;;
  if which =? CSR_VSTART then
    upd (dirty_vs_state p) ;;
    upd_proc (fun p => p <| VU ::= fun vu => vu <| vstart := val &w (VLEN vu -w 1) |> |>)
  else if which =? CSR_VXSAT then
    upd (dirty_vs_state p) ;; upd_proc (fun p => p <| VU ::= fun vu => vu <| vxsat := val &w 1 |> |>)
  else if which =? CSR_VXRM then
    upd (dirty_vs_state p) ;; upd_proc (fun p => p <| VU ::= fun vu => vu <| vxrm := val &w 3 |> |>)
  else ret tt.

Definition is_pmpaddr (which : Z) : bool := (CSR_PMPADDR0 <=? which) && (which <? CSR_PMPADDR0 + Z.of_nat max_pmp).
Definition is_pmpcfg (which : Z) : bool := (CSR_PMPCFG0 <=? which) && (which <? CSR_PMPCFG0 + Z.of_nat max_pmp / 4).

Definition set_csr (which val : Z) : M unit :=
  p <- gets proc ;;
  let val := zext_xlen (xlen p) val in
  if is_pmpaddr which then set_pmpaddr (which - CSR_PMPADDR0) val
  else if is_pmpcfg which then set_pmpcfg ((which - CSR_PMPCFG0) * 4) val
  else
    csr_write_float which val (csr_write_machine which val (csr_write_supervisor which val
      (csr_write_hypervisor which val (csr_write_debug which val (csr_write_vector which val))))).

End Operations.

(** ** [get_csr] *)

Section GetCsr.
Variable s : state_t.
Variable p : processor_t.
Variable insn : insn_t.
#[local] Notation supports := (supports_extension s p).
#[local] Notation result := (trap_t + Z)%type.

Definition illegal : trap_t := trap_illegal_instruction (Insn.bits insn).
Definition virtual : trap_t := trap_virtual_instruction (Insn.bits insn).
Definition throw_illegal : result := inl illegal.
Definition throw_virtual : result := inl virtual.
(** [require(c)], then [k]. *)
Definition req (c : bool) (k : result) : result := if c then k else throw_illegal.
Definition fp_on : bool := negb (mstatus s &w MSTATUS_FS =? 0).
Definition vs_on : bool := negb (mstatus s &w MSTATUS_VS =? 0).

Definition ctr_en : Z :=
  let en := 0xffffffff in
  let en := if prv s <? PRV_M then en &w mcounteren s else en in
  let en := if v_ s then en &w hcounteren s else en in
  if prv s <? PRV_S then en &w scounteren s else en.
Definition ctr_ok (which : Z) : bool := z2b ((ctr_en >>w (which &w 31)) &w 1).
(** The guest may not see a counter that the host allows. *)
Definition ctr_virtual (which : Z) : bool :=
  v_ s && z2b ((mcounteren s >>w (which &w 31)) &w 1) && negb (z2b ((hcounteren s >>w (which &w 31)) &w 1)).

Definition get_pmpaddr_csr (i : Z) : result :=
  if n_pmp p =? 0 then throw_illegal
  else if PMP_NAPOT <=? (get_pmpcfg s i &w PMP_A)
  then inr (get_pmpaddr s i |w (not64 (pmp_tor_mask p) >>w 1))
  else inr (get_pmpaddr s i &w pmp_tor_mask p).

(** The bytes of [pmpcfg] from entry [i], [left] of them, placed from bit
    [8 * (i - i0)]. *)
Fixpoint pmpcfg_read_loop (left : nat) (i0 i res : Z) : Z :=
  match left with
  | O => res
  | S left' =>
    if i <? Z.of_nat max_pmp
    then pmpcfg_read_loop left' i0 (i + 1) (res |w (get_pmpcfg s i <<w (8 * (i - i0))))
    else res
  end.

Definition get_pmpcfg_csr (which : Z) : result :=
  req ((which &w (xlen p / 32 - 1)) =? 0)
    (let i0 := (which - CSR_PMPCFG0) * 4 in inr (pmpcfg_read_loop (Z.to_nat (xlen p / 8)) i0 i0 0)).

Definition csr_read_float (which : Z) (next : result) : result :=
  let guarded v := req fp_on (if supports chr_F then inr v else throw_illegal) in
  if which =? CSR_FFLAGS then guarded (fflags s)
  else if which =? CSR_FRM then guarded (frm s)
  else if which =? CSR_FCSR then
    guarded (u32 (Z.shiftl (fflags s) FSR_AEXC_SHIFT) |w u32 (Z.shiftl (frm s) FSR_RD_SHIFT))
  else next.

Definition csr_read_vector (which : Z) (next : result) : result :=
  let guarded v := req vs_on (if supports chr_V then inr v else throw_illegal) in
  if which =? CSR_VCSR then
    guarded ((vxsat (VU p) <<w VCSR_VXSAT_SHIFT) |w (vxrm (VU p) <<w VCSR_VXRM_SHIFT))
  else if which =? CSR_VSTART then guarded (vstart (VU p))
  else if which =? CSR_VXSAT then guarded (vxsat (VU p))
  else if which =? CSR_VXRM then guarded (vxrm (VU p))
  else if which =? CSR_VL then guarded (vl (VU p))
  else if which =? CSR_VTYPE then guarded (vtype (VU p))
  else if which =? CSR_VLENB then guarded (vlenb (VU p))
  else next.

Definition csr_read_counter (which : Z) (next : result) : result :=
  let denied := if ctr_virtual which then throw_virtual else throw_illegal in
  if (which =? CSR_INSTRET) || (which =? CSR_CYCLE) then
    if ctr_ok which then inr (minstret s) else denied
  else if (which =? CSR_MINSTRET) || (which =? CSR_MCYCLE) then inr (minstret s)
  else if (which =? CSR_INSTRETH) || (which =? CSR_CYCLEH) then
    if ctr_ok which && (xlen p =? 32) then inr (minstret s >>w 32) else denied
  else if (which =? CSR_MINSTRETH) || (which =? CSR_MCYCLEH) then
    if xlen p =? 32 then inr (minstret s >>w 32) else throw_illegal
  else if which =? CSR_SCOUNTEREN then inr (scounteren s)
  else if which =? CSR_MCOUNTEREN then
    if supports chr_U then inr (mcounteren s) else throw_illegal
  else if which =? CSR_MCOUNTINHIBIT then inr 0
  else next.

Definition sstatus_read_mask : Z :=
  SSTATUS_SIE |w SSTATUS_SPIE |w SSTATUS_SPP |w SSTATUS_FS |w iff_ (supports chr_V) SSTATUS_VS
  |w SSTATUS_XS |w SSTATUS_SUM |w SSTATUS_MXR |w SSTATUS_UXL.
Definition sstatus : Z :=
  let x := mstatus s &w sstatus_read_mask in
  if ((x &w SSTATUS_FS) =? SSTATUS_FS) || ((x &w SSTATUS_XS) =? SSTATUS_XS)
  then x |w (if xlen p =? 32 then SSTATUS32_SD else SSTATUS64_SD) else x.

(** The interrupt bit of a cause moves down when [xlen] is narrower. *)
Definition narrow_cause (c : Z) : Z :=
  if xlen p <? max_xlen p then c |w ((c >>w (max_xlen p - 1)) <<w (xlen p - 1)) else c.

Definition csr_read_supervisor (which : Z) (next : result) : result :=
  if which =? CSR_SSTATUS then inr sstatus
  else if which =? CSR_SIP then
    inr (if v_ s then (mip s &w hideleg s &w MIP_VS_MASK) >>w 1
         else mip s &w mideleg s &w not64 MIP_HS_MASK)
  else if which =? CSR_SIE then
    inr (if v_ s then (mie s &w hideleg s &w MIP_VS_MASK) >>w 1
         else mie s &w mideleg s &w not64 MIP_HS_MASK)
  else if which =? CSR_SEPC then inr ((if v_ s then vsepc s else sepc s) &w pc_alignment_mask s p)
  else if which =? CSR_STVAL then inr (if v_ s then vstval s else stval s)
  else if which =? CSR_STVEC then inr (if v_ s then vstvec s else stvec s)
  else if which =? CSR_SCAUSE then inr (narrow_cause (if v_ s then vscause s else scause s))
  else if which =? CSR_SATP then
    req (negb (z2b (get_field (mstatus s) MSTATUS_TVM)) || (PRV_M <=? prv s))
      (if v_ s then if z2b (get_field (hstatus s) HSTATUS_VTVM) then throw_virtual else inr (vsatp s)
       else inr (satp s))
  else if which =? CSR_SSCRATCH then inr (if v_ s then vsscratch s else sscratch s)
  else next.

Definition csr_read_machine (which : Z) (next : result) : result :=
  if which =? CSR_MSTATUS then inr (mstatus s)
  else if which =? CSR_MIP then inr (mip s)
  else if which =? CSR_MIE then inr (mie s)
  else if which =? CSR_MEPC then inr (mepc s &w pc_alignment_mask s p)
  else if which =? CSR_MSCRATCH then inr (mscratch s)
  else if which =? CSR_MCAUSE then inr (mcause s)
  else if which =? CSR_MTVAL then inr (mtval s)
  else if which =? CSR_MTVAL2 then if supports chr_H then inr (mtval2 s) else throw_illegal
  else if which =? CSR_MTINST then if supports chr_H then inr (mtinst s) else throw_illegal
  else if which =? CSR_MISA then inr (misa s)
  else if which =? CSR_MARCHID then inr 5
  else if which =? CSR_MIMPID then inr 0
  else if which =? CSR_MVENDORID then inr 0
  else if which =? CSR_MHARTID then inr (id p)
  else if which =? CSR_MTVEC then inr (mtvec s)
  else if which =? CSR_MEDELEG then if supports chr_S then inr (medeleg s) else throw_illegal
  else if which =? CSR_MIDELEG then if supports chr_S then inr (mideleg s) else throw_illegal
  else next.

Definition csr_read_hypervisor (which : Z) (next : result) : result :=
  if which =? CSR_HSTATUS then inr (hstatus s)
  else if which =? CSR_HEDELEG then inr (hedeleg s)
  else if which =? CSR_HIDELEG then inr (hideleg s)
  else if which =? CSR_HIE then inr (mie s &w MIP_HS_MASK)
  else if which =? CSR_HCOUNTEREN then inr (hcounteren s)
  else if which =? CSR_HGEIE then inr 0
  else if which =? CSR_HTVAL then inr (htval s)
  else if which =? CSR_HIP then inr (mip s &w MIP_HS_MASK)
  else if which =? CSR_HVIP then inr (mip s &w MIP_VS_MASK)
  else if which =? CSR_HTINST then inr (htinst s)
  else if which =? CSR_HGATP then inr (hgatp s)
  else if which =? CSR_HGEIP then inr 0
  else if which =? CSR_VSSTATUS then inr (vsstatus s &w vsstatus_mask s p)
  else if which =? CSR_VSIE then inr ((mie s &w hideleg s &w MIP_VS_MASK) >>w 1)
  else if which =? CSR_VSTVEC then inr (vstvec s)
  else if which =? CSR_VSSCRATCH then inr (vsscratch s)
  else if which =? CSR_VSEPC then inr (vsepc s &w pc_alignment_mask s p)
  else if which =? CSR_VSCAUSE then inr (vscause s)
  else if which =? CSR_VSTVAL then inr (vstval s)
  else if which =? CSR_VSIP then inr ((mip s &w hideleg s &w MIP_VS_MASK) >>w 1)
  else if which =? CSR_VSATP then inr (vsatp s)
  else next.

Definition csr_read_debug (which : Z) : result :=
  let in_debug v := if debug_mode s then inr v else throw_illegal in
  if which =? CSR_TSELECT then inr (tselect s)
  else if which =? CSR_TDATA1 then
    inr (if tselect s <? Z.of_nat num_triggers
         then mcontrol_bits (xlen p) (get_mcontrol s (tselect s)) else 0)
  else if which =? CSR_TDATA2 then
    inr (if tselect s <? Z.of_nat num_triggers then get_tdata2 s (tselect s) else 0)
  else if which =? CSR_TDATA3 then inr 0
  else if which =? CSR_DCSR then in_debug (dcsr_bits (dcsr s))
  else if which =? CSR_DPC then in_debug (dpc s &w pc_alignment_mask s p)
  else if which =? CSR_DSCRATCH0 then in_debug (dscratch0 s)
  else if which =? CSR_DSCRATCH1 then in_debug (dscratch1 s)
  else throw_illegal.

Definition between (lo which hi : Z) : bool := (lo <=? which) && (which <=? hi).

(** Performance counters and events that read as zero. *)
Definition reads_zero (which : Z) : bool :=
  (ctr_ok which &&
     (between CSR_HPMCOUNTER3 which CSR_HPMCOUNTER31
      || ((xlen p =? 32) && between CSR_HPMCOUNTER3H which CSR_HPMCOUNTER31H)))
  || between CSR_MHPMCOUNTER3 which CSR_MHPMCOUNTER31
  || ((xlen p =? 32) && between CSR_MHPMCOUNTER3H which CSR_MHPMCOUNTER31H)
  || between CSR_MHPMEVENT3 which CSR_MHPMEVENT31.

Definition get_csr (which : Z) : result :=
  if reads_zero which then inr 0
  else if is_pmpaddr which then get_pmpaddr_csr (which - CSR_PMPADDR0)
  else if is_pmpcfg which then get_pmpcfg_csr which
  else
    csr_read_float which (csr_read_vector which (csr_read_counter which (csr_read_supervisor which
      (csr_read_machine which (csr_read_hypervisor which (csr_read_debug which)))))).

End GetCsr.
