(* ===== verification/TrapEntry.v ===== *)
(** * TrapEntry: exceptions, interrupts and debug-mode entry

    [processor_t::take_trap], [take_interrupt], [enter_debug_mode] and
    [reset] of [riscv/processor.cc], and the PC-triggered interrupts that
    DifuzzRTL adds ([riscv/psint.cc]).  Logging and the attached extension
    object are not modelled; [proc_reset] notifies the debug module. *)
From Stdlib Require Import ZArith Lia Bool List.
From stdpp Require Import base list gmap.
From S2P Require Import Prelude Arith Encoding Decode State Processor Pmp Mmu Csr.
#[local] Open Scope Z_scope.
#[local] Open Scope word_scope.
#[local] Open Scope record_scope.
#[local] Open Scope monad_scope.

(** ** Pure parts *)

(** [-c] of a [reg_t] holding 0 or 1. *)
Definition all_or_none (c : bool) : Z := neg64 (b2z c).

(** The enabled interrupts of the highest privilege level that has any. *)
Definition enabled_interrupts (s : state_t) (pending : Z) : Z :=
  let mie := z2b (get_field (mstatus s) MSTATUS_MIE) in
  let m_enabled := (prv s <? PRV_M) || ((prv s =? PRV_M) && mie) in
  let e := pending &w not64 (mideleg s) &w all_or_none m_enabled in
  if negb (e =? 0) then e
  else
    let deleg := mideleg s &w not64 MIP_VS_MASK in
    let status := if v_ s then vsstatus s else mstatus s in
    let hsie := z2b (get_field status MSTATUS_SIE) in
    let hs_enabled := (prv s <? PRV_S) || ((prv s =? PRV_S) && hsie) in
    let e := pending &w deleg &w all_or_none hs_enabled in
    if v_ s && (e =? 0) then
      let deleg := mideleg s &w hideleg s in
      let vsie := z2b (get_field (mstatus s) MSTATUS_SIE) in
      let vs_enabled := (prv s <? PRV_S) || ((prv s =? PRV_S) && vsie) in
      pending &w deleg &w all_or_none vs_enabled
    else e.

(** The priority encoder; [None] is [abort()]. *)
Definition select_interrupt (e : Z) : option Z :=
  if z2b (e >>w IRQ_M_EXT) then Some (e >>w IRQ_M_EXT <<w IRQ_M_EXT)
  else if z2b (e &w MIP_MEIP) then Some MIP_MEIP
  else if z2b (e &w MIP_MSIP) then Some MIP_MSIP
  else if z2b (e &w MIP_MTIP) then Some MIP_MTIP
  else if z2b (e &w MIP_SEIP) then Some MIP_SEIP
  else if z2b (e &w MIP_SSIP) then Some MIP_SSIP
  else if z2b (e &w MIP_STIP) then Some MIP_STIP
  else if z2b (e &w MIP_VSEIP) then Some MIP_VSEIP
  else if z2b (e &w MIP_VSSIP) then Some MIP_VSSIP
  else if z2b (e &w MIP_VSTIP) then Some MIP_VSTIP
  else None.

Definition interrupt_bit (p : processor_t) : Z := 1 <<w (max_xlen p - 1).

(** What [take_interrupt] throws, if anything. *)
Definition interrupt_exn (s : state_t) (p : processor_t) (pending : Z) : option exn :=
  if pending =? 0 then None
  else
    let e := enabled_interrupts s pending in
    if negb (debug_mode s) && negb (e =? 0) then
      match select_interrupt e with
      | Some i => Some (E_trap (Trap (interrupt_bit p |w ctz i)))
      | None => Some E_abort
      end
    else None.

(** [mtval] as Rocket keeps it: 40 bits, of which bit 39 records whether the
    address was a canonical 39-bit one, sign-extended. *)
Definition rocket_tval (tval : Z) : Z :=
  let upper_tval := (tval >>w 39) &w 0x1ffffff in
  let bit38 := z2b ((tval >>w 38) &w 0x1) in
  let tval :=
    if bit38 && (upper_tval =? 0x1ffffff) then tval |w (1 <<w 39)
    else if negb bit38 && negb (upper_tval =? 0x0) then tval |w (1 <<w 39)
    else tval &w 0xffffff7fffffffff in
  let upper_mask := if z2b ((tval >>w 39) &w 0x1) then 0xffffff else 0x0 in
  (upper_mask <<w 40) |w (tval &w 0xffffffffff).

(** [mstatus] on entry to supervisor and to machine mode. *)
Definition mstatus_enter_s (s : state_t) : Z :=
  let x := mstatus s in
  let x := set_field x MSTATUS_SPIE (get_field x MSTATUS_SIE) in
  let x := set_field x MSTATUS_SPP (prv s) in
  set_field x MSTATUS_SIE 0.
Definition mstatus_enter_m (s : state_t) (curr_virt gva : bool) : Z :=
  let x := mstatus s in
  let x := set_field x MSTATUS_MPIE (get_field x MSTATUS_MIE) in
  let x := set_field x MSTATUS_MPP (prv s) in
  let x := set_field x MSTATUS_MIE 0 in
  let x := set_field x MSTATUS_MPV (b2z curr_virt) in
  set_field x MSTATUS_GVA (b2z gva).

(** The level that handles a trap. *)
Inductive trap_target := To_VS | To_HS | To_M.

Definition is_interrupt (p : processor_t) (c : Z) : bool := z2b (c &w interrupt_bit p).
Definition cause_bit (p : processor_t) (c : Z) : Z :=
  if is_interrupt p c then c &w not64 (interrupt_bit p) else c.

Definition trap_target_of (s : state_t) (p : processor_t) (c : Z) : trap_target :=
  let low := prv s <=? PRV_S in
  let interrupt := is_interrupt p c in
  let bit := cause_bit p c in
  let vsdeleg := if v_ s && low then
      if interrupt then mideleg s &w hideleg s else medeleg s &w hedeleg s else 0 in
  let hsdeleg := if low then if interrupt then mideleg s else medeleg s else 0 in
  if low && (bit <? max_xlen p) && z2b ((vsdeleg >>w bit) &w 1) then To_VS
  else if low && (bit <? max_xlen p) && z2b ((hsdeleg >>w bit) &w 1) then To_HS
  else To_M.

Definition trap_vector (tvec bit : Z) (interrupt : bool) : Z :=
  (tvec &w not64 1) +w (if z2b (tvec &w 1) && interrupt then 4 *w bit else 0).

(** Does [ebreak] enter debug mode? *)
Definition ebreak_debug (s : state_t) : bool :=
  ((prv s =? PRV_M) && dcsr_ebreakm (dcsr s)) || ((prv s =? PRV_S) && dcsr_ebreaks (dcsr s))
  || ((prv s =? PRV_U) && dcsr_ebreaku (dcsr s)).

(** ** Operations *)

Section Operations.
Context {S : Type} `{!SimIf S}.
#[local] Notation M := (State.M S).

Definition take_interrupt (pending : Z) : M unit := fun h =>
  match interrupt_exn (st h) (proc h) pending with
  | Some e => (inl e, h)
  | None => (inr tt, h)
  end.

Definition take_pending_interrupt : M unit := fun h => take_interrupt (mip (st h) &w mie (st h)) h.

Definition enter_debug_mode (cause' : Z) : M unit :=
  upd (fun s => s <| debug_mode := true |>
                  <| dcsr ::= fun d => d <| dcsr_cause := cause' |> <| dcsr_prv := u8 (prv s) |> |>) ;;
  set_privilege PRV_M ;;
  upd (fun s => s <| dpc := pc s |> <| pc := DEBUG_ROM_ENTRY |>).

Definition trap_to_vs (t : trap_t) (epc : Z) : M unit :=
  s <- gets st ;;
  p <- gets proc ;;
  let interrupt := is_interrupt p (cause t) in
  upd (fun s => s
    <| pc := trap_vector (vstvec s) (cause_bit p (cause t)) interrupt |>
    <| vscause := if interrupt then cause t -w 1 else cause t |>
    <| vsepc := epc |> <| vstval := get_tval t |>) ;;
  set_csr CSR_MSTATUS (mstatus_enter_s s) ;;
  set_privilege PRV_S.

Definition trap_to_hs (t : trap_t) (epc : Z) (curr_virt : bool) : M unit :=
  set_virt false ;;
  s <- gets st ;;
  p <- gets proc ;;
  upd (fun s => s
    <| pc := trap_vector (stvec s) (cause_bit p (cause t)) (is_interrupt p (cause t)) |>
    <| scause := cause t |> <| sepc := epc |> <| stval := get_tval t |>
    <| htval := get_tval2 t |> <| htinst := get_tinst t |>) ;;
  set_csr CSR_MSTATUS (mstatus_enter_s s) ;;
  s <- gets st ;;
  let x := hstatus s in
  let x := set_field x HSTATUS_SPVP (prv s) in
  let x := set_field x HSTATUS_SPV (b2z curr_virt) in
  let x := set_field x HSTATUS_GVA (b2z (has_gva t)) in
  set_csr CSR_HSTATUS x ;;
  set_privilege PRV_S.

Definition trap_to_m (t : trap_t) (epc : Z) (curr_virt : bool) : M unit :=
  set_virt false ;;
  s <- gets st ;;
  p <- gets proc ;;
  upd (fun s => s
    <| pc := trap_vector (mtvec s) (cause_bit p (cause t)) (is_interrupt p (cause t)) |>
    <| mepc := epc |> <| mcause := cause t |> <| mtval := rocket_tval (get_tval t) |>
    <| mtval2 := get_tval2 t |> <| mtinst := get_tinst t |>) ;;
  set_csr CSR_MSTATUS (mstatus_enter_m s curr_virt (has_gva t)) ;;
  set_privilege PRV_M.

Definition take_trap (t : trap_t) (epc : Z) : M unit :=
  s <- gets st ;;
  p <- gets proc ;;
  if debug_mode s then
    upd (fun s => s <| pc := if cause t =? CAUSE_BREAKPOINT then DEBUG_ROM_ENTRY else DEBUG_ROM_TVEC |>)
  else if (cause t =? CAUSE_BREAKPOINT) && ebreak_debug s then enter_debug_mode DCSR_CAUSE_SWBP
  else
    match trap_target_of s p (cause t) with
    | To_VS => trap_to_vs t epc
    | To_HS => trap_to_hs t epc (v_ s)
    | To_M => trap_to_m t epc (v_ s)
    end.

(** ** Reset *)

(** [set_vl(0, 0, 0, -1)]: the illegal configuration. *)
Definition vector_reset (xlen : Z) (vu : vectorUnit_t) : vectorUnit_t :=
  vu <| vtype := minus_1 <<w (xlen - 1) |> <| vill := true |> <| vl := 0 |> <| vstart := 0 |>.

Definition processor_reset : M unit :=
  p <- gets proc ;;
  upd (fun _ => state_reset (max_isa p)) ;;
  upd (fun s => s <| mideleg := if supports_extension s p chr_H then MIDELEG_FORCED_MASK else 0 |>) ;;
  upd (fun s => s <| dcsr ::= fun d => d <| dcsr_halt := halt_on_reset p |> |>) ;;
  upd_proc (fun p => p <| halt_on_reset := false |>) ;;
  s <- gets st ;;
  set_csr CSR_MSTATUS (mstatus s) ;;
  upd_proc (fun p => p <| VU ::= vector_reset (xlen p) |>) ;;
  p <- gets proc ;;
  when (0 <? n_pmp p)
    (set_csr CSR_PMPADDR0 minus_1 ;;
     set_csr CSR_PMPCFG0 (PMP_R |w PMP_W |w PMP_X |w PMP_NAPOT)).

(** [set_pmp_num] and [set_pmp_granularity]. *)
Definition set_pmp_num (n : Z) : M unit :=
  if Z.of_nat max_pmp <? n then throw E_abort else upd_proc (fun p => p <| n_pmp := n |>).
Definition set_pmp_granularity (gran : Z) : M unit :=
  if (gran <? Z.shiftl 1 PMP_SHIFT) || negb ((gran &w (gran -w 1)) =? 0) then throw E_abort
  else upd_proc (fun p => p <| lg_pmp_granularity := ctz gran |>).

(** ** Interrupts raised at given program counters ([psint_t]) *)

Definition psint_mip (val : Z) : Z :=
  Z.shiftl ((val >>w 2) &w 1) IRQ_M_EXT |w Z.shiftl ((val >>w 3) &w 1) IRQ_S_EXT
  |w Z.shiftl (val &w 1) IRQ_M_TIMER |w Z.shiftl ((val >>w 1) &w 1) IRQ_M_SOFT.

(** [assert_int] on a machine of one hart; [intrs] maps program counters to
    interrupt lines. *)
Definition assert_int (intrs : gmap Z Z) (pc : Z) : M unit :=
  match intrs !! pc with
  | None => ret tt
  | Some val =>
    upd (fun s => s <| mip := mip s |w psint_mip val |>) ;;
    take_pending_interrupt
  end.

End Operations.
