(* ===== verification/Macros.v ===== *)
(** * Macros: the vocabulary of instruction bodies ([riscv/decode.h])

    The macros in which the files [riscv/insns/*.h] are written: operand
    reads, register writes, [require*], [set_pc], [serialize], [wfi],
    [validate_csr], the floating-point register boxing.  A body runs inside a
    function [reg_t rvXX_name(p, insn, pc)] ([riscv/insn_template.cc]) that
    initialises [npc] and returns it: here a function of [xlen], [insn], [pc]
    and the initial [npc] to a computation of the returned [npc]. *)
From Stdlib Require Import ZArith Lia Bool List.
From stdpp Require Import base list gmap.
From S2P Require Import Prelude SoftFloat Arith Encoding Decode Decoder State Processor Pmp Mmu Csr TrapEntry.
#[local] Open Scope Z_scope.
#[local] Open Scope word_scope.
#[local] Open Scope record_scope.
#[local] Open Scope monad_scope.

Definition X_RA : Z := 1.
Definition X_SP : Z := 2.

Definition PC_SERIALIZE_BEFORE : Z := 3.
Definition PC_SERIALIZE_AFTER : Z := 5.
Definition PC_SERIALIZE_WFI : Z := 7.
Definition invalid_pc (pc : Z) : bool := z2b (pc &w 1).

(** ** Operands *)

Definition READ_REG (s : state_t) (reg : Z) : Z := regfile_read 0 (XPR s) reg.
Definition READ_FREG (s : state_t) (reg : Z) : freg_t := regfile_read (mk_freg 0 0) (FPR s) reg.

Section Operands.
Variable s : state_t.
Variable insn : insn_t.

Definition RS1 : Z := READ_REG s (Insn.rs1 insn).
Definition RS2 : Z := READ_REG s (Insn.rs2 insn).
Definition RVC_RS1 : Z := READ_REG s (Insn.rvc_rs1 insn).
Definition RVC_RS2 : Z := READ_REG s (Insn.rvc_rs2 insn).
Definition RVC_RS1S : Z := READ_REG s (Insn.rvc_rs1s insn).
Definition RVC_RS2S : Z := READ_REG s (Insn.rvc_rs2s insn).
Definition RVC_SP : Z := READ_REG s X_SP.
Definition FRS1 : freg_t := READ_FREG s (Insn.rs1 insn).
Definition FRS2 : freg_t := READ_FREG s (Insn.rs2 insn).
Definition FRS3 : freg_t := READ_FREG s (Insn.rs3 insn).
Definition RVC_FRS2 : freg_t := READ_FREG s (Insn.rvc_rs2 insn).
Definition RVC_FRS2S : freg_t := READ_FREG s (Insn.rvc_rs2s insn).

Definition SHAMT : Z := Insn.i_imm insn &w 0x3f.
Definition BRANCH_TARGET (pc : Z) : Z := pc +w Insn.sb_imm insn.
Definition JUMP_TARGET (pc : Z) : Z := pc +w Insn.uj_imm insn.

End Operands.

(** ** Floating-point registers *)

Definition isBoxedF64 (r : freg_t) : bool := v1 r +w 1 =? 0.
Definition isBoxedF32 (r : freg_t) : bool := isBoxedF64 r && (u32 ((v0 r >>w 32) +w 1) =? 0).
Definition isBoxedF16 (r : freg_t) : bool := isBoxedF32 r && (((v0 r >>w 16) +w 1) =? Z.shiftl 1 48).
Definition unboxF16 (r : freg_t) : Z := if isBoxedF16 r then uw 16 (v0 r) else defaultNaNF16UI.
Definition unboxF32 (r : freg_t) : Z := if isBoxedF32 r then u32 (v0 r) else defaultNaNF32UI.
Definition unboxF64 (r : freg_t) : Z := if isBoxedF64 r then v0 r else defaultNaNF64UI.

(** [f16], [f32], [f64] of a register, and the [freg] conversions back; a
    [floatN_t] is its bits. *)
Definition f16 (r : freg_t) : Z := unboxF16 r.
Definition f32 (r : freg_t) : Z := unboxF32 r.
Definition f64 (r : freg_t) : Z := unboxF64 r.
Definition freg16 (v : Z) : freg_t := mk_freg ((minus_1 <<w 16) |w v) minus_1.
Definition freg32 (v : Z) : freg_t := mk_freg ((minus_1 <<w 32) |w v) minus_1.
Definition freg64 (v : Z) : freg_t := mk_freg v minus_1.

Definition F16_SIGN : Z := Z.shiftl 1 15.
Definition F32_SIGN : Z := Z.shiftl 1 31.
Definition F64_SIGN : Z := 1 <<w 63.
(** The macros [fsgnj16], [fsgnj32] and [fsgnj64], by their sign bit, on bits. *)
Definition fsgnj_bits (sign a b : Z) (n x : bool) : Z :=
  (a &w Z.lnot sign) |w (((if x then a else if n then sign else 0) ^w b) &w sign).
Definition fsgnj16 (a b : freg_t) (n x : bool) : Z := fsgnj_bits F16_SIGN (f16 a) (f16 b) n x.
Definition fsgnj32 (a b : freg_t) (n x : bool) : Z := fsgnj_bits F32_SIGN (f32 a) (f32 b) n x.
Definition fsgnj64 (a b : freg_t) (n x : bool) : Z := fsgnj_bits F64_SIGN (f64 a) (f64 b) n x.
Definition fsgnj128 (a b : freg_t) (n x : bool) : freg_t :=
  mk_freg (v0 a)
    ((v1 a &w not64 F64_SIGN) |w (((if x then v1 a else if n then F64_SIGN else 0) ^w v1 b) &w F64_SIGN)).

Section Macros.
Context {S : Type} `{!SimIf S}.
#[local] Notation M := (State.M S).

(** ** Writes *)

Definition WRITE_REG (reg value : Z) : M unit :=
  upd (fun s => s <| XPR ::= regfile_write true reg (u64 value) |>).
Definition WRITE_RD (insn : insn_t) (value : Z) : M unit := WRITE_REG (Insn.rd insn) value.
Definition WRITE_RVC_RS1S (insn : insn_t) (value : Z) : M unit := WRITE_REG (Insn.rvc_rs1s insn) value.
Definition WRITE_RVC_RS2S (insn : insn_t) (value : Z) : M unit := WRITE_REG (Insn.rvc_rs2s insn) value.

(** [dirty_fp_state] reads the function's [xlen]. *)
Definition dirty_fp (xlen : Z) (s : state_t) : state_t :=
  s <| mstatus := mstatus s |w (MSTATUS_FS |w sd_bit xlen) |>.
Definition WRITE_FREG (xlen reg : Z) (value : freg_t) : M unit :=
  upd (fun s => dirty_fp xlen (s <| FPR ::= regfile_write false reg value |>)).
Definition WRITE_FRD (xlen : Z) (insn : insn_t) (value : freg_t) : M unit :=
  WRITE_FREG xlen (Insn.rd insn) value.
Definition WRITE_RVC_FRS2S (xlen : Z) (insn : insn_t) (value : freg_t) : M unit :=
  WRITE_FREG xlen (Insn.rvc_rs2s insn) value.

(** ** Checks *)

Definition throw_illegal (insn : insn_t) {A : Type} : M A :=
  throw_trap (trap_illegal_instruction (Insn.bits insn)).
Definition require (insn : insn_t) (c : bool) : M unit := if c then ret tt else throw_illegal insn.
Definition require_privilege (insn : insn_t) (lo : Z) : M unit :=
  s <- gets st ;; require insn (lo <=? prv s).
Definition require_novirt (insn : insn_t) : M unit :=
  s <- gets st ;;
  if v_ s then throw_trap (trap_virtual_instruction (Insn.bits insn)) else ret tt.
Definition require_rv64 (xlen : Z) (insn : insn_t) : M unit := require insn (xlen =? 64).
Definition require_rv32 (xlen : Z) (insn : insn_t) : M unit := require insn (xlen =? 32).
Definition require_extension (insn : insn_t) (ext : Z) : M unit :=
  s <- gets st ;; p <- gets proc ;; require insn (supports_extension s p ext).
Definition require_fp (insn : insn_t) : M unit :=
  s <- gets st ;; require insn (negb (mstatus s &w MSTATUS_FS =? 0)).

(** The rounding mode of the instruction. *)
Definition RM (insn : insn_t) : M Z :=
  s <- gets st ;;
  let rm := if Insn.rm insn =? 7 then frm s else Insn.rm insn in
  if 4 <? rm then throw_illegal insn else ret rm.

(** ** SoftFloat *)

(** A call of SoftFloat, on the global environment. *)
Definition softfloat {A : Type} (m : SF A) : M A := fun h =>
  let (a, e) := m (fenv h) in (inr a, h <| fenv := e |>).
(** [softfloat_roundingMode = rm;] *)
Definition set_roundingMode (rm : Z) : M unit :=
  modify (fun h => h <| fenv ::= fun e => mk_fenv rm (softfloat_exceptionFlags e) |>).
Definition set_fp_exceptions (xlen : Z) : M unit :=
  flags <- gets (fun h => softfloat_exceptionFlags (fenv h)) ;;
  when (z2b flags) (upd (fun s => dirty_fp xlen s <| fflags ::= fun old => old |w flags |>)) ;;
  modify (fun h => h <| fenv ::= fun e => mk_fenv (softfloat_roundingMode e) 0 |>).

(** ** Control flow *)

(** [set_pc(x)]: the new [npc]. *)
Definition set_pc (xlen x : Z) : M Z :=
  s <- gets st ;; p <- gets proc ;;
  match check_pc_alignment s p x with
  | Some t => throw_trap t
  | None => ret (u64 (sext_xlen xlen x))
  end.

Definition set_pc_and_serialize (x : Z) : M Z :=
  p <- gets proc ;;
  upd (fun s => s <| pc := x &w pc_alignment_mask s p |>) ;;
  ret PC_SERIALIZE_AFTER.

Definition serialize (npc : Z) : M Z := set_pc_and_serialize npc.

Definition wfi_ {A : Type} (npc : Z) : M A := set_pc_and_serialize npc ;; throw E_wfi.

(** [validate_csr(which, write)], which may return from the function; [k] is
    the rest of the body. *)
Definition validate_csr (insn : insn_t) (which : Z) (write : bool) (k : Z -> M Z) : M Z :=
  s <- gets st ;; p <- gets proc ;;
  if negb (serialized s) then ret PC_SERIALIZE_BEFORE
  else
    upd (fun s => s <| serialized := false |>) ;;
    let csr_priv := get_field which 0x300 in
    let mode_unsupported := ((csr_priv =? PRV_S) && negb (supports_extension s p chr_S))
                            || ((csr_priv =? PRV_HS) && negb (supports_extension s p chr_H)) in
    if mode_unsupported then throw_illegal insn
    else
      let state_prv := if (prv s =? PRV_S) && negb (v_ s) then PRV_HS else prv s in
      let csr_read_only := get_field which 0xC00 =? 3 in
      if (write && csr_read_only) || (state_prv <? csr_priv) then
        if csr_priv =? PRV_HS then throw_trap (trap_virtual_instruction (Insn.bits insn))
        else throw_illegal insn
      else k which.

(** [p->get_csr(csr, insn)] *)
Definition read_csr (insn : insn_t) (which : Z) : M Z := fun h =>
  match get_csr (st h) (proc h) insn which with
  | inl t => (inl (E_trap t), h)
  | inr v => (inr v, h)
  end.

End Macros.

(** An instruction body. *)
Definition body (S : Type) : Type := Z -> insn_t -> Z -> Z -> State.M S Z.
