(* ===== verification/Base.v ===== *)
(** * Base: the integer, multiply and atomic instructions

    The bodies [riscv/insns/NAME.h] of the extensions I, M and A, one
    definition per file.  [sext_xlen] and the loads of signed types return a
    signed number, which [WRITE_RD] converts to [reg_t]. *)
From Stdlib Require Import ZArith Lia Bool List.
From stdpp Require Import base list gmap.
From S2P Require Import Prelude Arith Encoding Decode Decoder State Processor Pmp Mmu Csr TrapEntry Macros.
#[local] Open Scope Z_scope.
#[local] Open Scope word_scope.
#[local] Open Scope record_scope.
#[local] Open Scope monad_scope.

Definition INT64_MIN : Z := - 2 ^ 63.

Module RVI.
Section Bodies.
Context {S : Type} `{!SimIf S}.
#[local] Notation body := (body S).
Import Insn.

Definition lui : body := fun xlen insn pc npc => WRITE_RD insn (u_imm insn) ;; ret npc.
Definition auipc : body := fun xlen insn pc npc =>
  WRITE_RD insn (sext_xlen xlen (u_imm insn +w pc)) ;; ret npc.

Definition addi : body := fun xlen insn pc npc =>
  s <- gets st ;; WRITE_RD insn (sext_xlen xlen (RS1 s insn +w i_imm insn)) ;; ret npc.
Definition slti : body := fun xlen insn pc npc =>
  s <- gets st ;; WRITE_RD insn (b2z (s64 (RS1 s insn) <? i_imm insn)) ;; ret npc.
Definition sltiu : body := fun xlen insn pc npc =>
  s <- gets st ;; WRITE_RD insn (b2z (RS1 s insn <? u64 (i_imm insn))) ;; ret npc.
Definition xori : body := fun xlen insn pc npc =>
  s <- gets st ;; WRITE_RD insn (u64 (i_imm insn) ^w RS1 s insn) ;; ret npc.
Definition ori : body := fun xlen insn pc npc =>
  s <- gets st ;; WRITE_RD insn (u64 (i_imm insn) |w RS1 s insn) ;; ret npc.
Definition andi : body := fun xlen insn pc npc =>
  s <- gets st ;; WRITE_RD insn (u64 (i_imm insn) &w RS1 s insn) ;; ret npc.
Definition slli : body := fun xlen insn pc npc =>
  require insn (SHAMT insn <? xlen) ;;
  s <- gets st ;; WRITE_RD insn (sext_xlen xlen (RS1 s insn <<w SHAMT insn)) ;; ret npc.
Definition srli : body := fun xlen insn pc npc =>
  require insn (SHAMT insn <? xlen) ;;
  s <- gets st ;; WRITE_RD insn (sext_xlen xlen (zext_xlen xlen (RS1 s insn) >>w SHAMT insn)) ;; ret npc.
Definition srai : body := fun xlen insn pc npc =>
  require insn (SHAMT insn <? xlen) ;;
  s <- gets st ;; WRITE_RD insn (sext_xlen xlen (sext_xlen xlen (RS1 s insn) >>w SHAMT insn)) ;; ret npc.

Definition add : body := fun xlen insn pc npc =>
  s <- gets st ;; WRITE_RD insn (sext_xlen xlen (RS1 s insn +w RS2 s insn)) ;; ret npc.
Definition sub : body := fun xlen insn pc npc =>
  s <- gets st ;; WRITE_RD insn (sext_xlen xlen (RS1 s insn -w RS2 s insn)) ;; ret npc.
Definition sll : body := fun xlen insn pc npc =>
  s <- gets st ;; WRITE_RD insn (sext_xlen xlen (RS1 s insn <<w (RS2 s insn &w (xlen - 1)))) ;; ret npc.
Definition slt : body := fun xlen insn pc npc =>
  s <- gets st ;; WRITE_RD insn (b2z (s64 (RS1 s insn) <? s64 (RS2 s insn))) ;; ret npc.
Definition sltu : body := fun xlen insn pc npc =>
  s <- gets st ;; WRITE_RD insn (b2z (RS1 s insn <? RS2 s insn)) ;; ret npc.
Definition xor : body := fun xlen insn pc npc =>
  s <- gets st ;; WRITE_RD insn (RS1 s insn ^w RS2 s insn) ;; ret npc.
Definition srl : body := fun xlen insn pc npc =>
  s <- gets st ;;
  WRITE_RD insn (sext_xlen xlen (zext_xlen xlen (RS1 s insn) >>w (RS2 s insn &w (xlen - 1)))) ;; ret npc.
Definition sra : body := fun xlen insn pc npc =>
  s <- gets st ;;
  WRITE_RD insn (sext_xlen xlen (sext_xlen xlen (RS1 s insn) >>w (RS2 s insn &w (xlen - 1)))) ;; ret npc.
Definition or : body := fun xlen insn pc npc =>
  s <- gets st ;; WRITE_RD insn (RS1 s insn |w RS2 s insn) ;; ret npc.
Definition and : body := fun xlen insn pc npc =>
  s <- gets st ;; WRITE_RD insn (RS1 s insn &w RS2 s insn) ;; ret npc.

(** *** Words, on RV64 *)

Definition addiw : body := fun xlen insn pc npc =>
  require_rv64 xlen insn ;;
  s <- gets st ;; WRITE_RD insn (sext32 (i_imm insn +w RS1 s insn)) ;; ret npc.
Definition slliw : body := fun xlen insn pc npc =>
  require_rv64 xlen insn ;;
  s <- gets st ;; WRITE_RD insn (sext32 (RS1 s insn <<w SHAMT insn)) ;; ret npc.
Definition srliw : body := fun xlen insn pc npc =>
  require_rv64 xlen insn ;;
  s <- gets st ;; WRITE_RD insn (sext32 (u32 (RS1 s insn) >>w SHAMT insn)) ;; ret npc.
Definition sraiw : body := fun xlen insn pc npc =>
  require_rv64 xlen insn ;;
  s <- gets st ;; WRITE_RD insn (sext32 (s32 (RS1 s insn) >>w SHAMT insn)) ;; ret npc.
Definition addw : body := fun xlen insn pc npc =>
  require_rv64 xlen insn ;;
  s <- gets st ;; WRITE_RD insn (sext32 (RS1 s insn +w RS2 s insn)) ;; ret npc.
Definition subw : body := fun xlen insn pc npc =>
  require_rv64 xlen insn ;;
  s <- gets st ;; WRITE_RD insn (sext32 (RS1 s insn -w RS2 s insn)) ;; ret npc.
Definition sllw : body := fun xlen insn pc npc =>
  require_rv64 xlen insn ;;
  s <- gets st ;; WRITE_RD insn (sext32 (RS1 s insn <<w (RS2 s insn &w 0x1f))) ;; ret npc.
Definition srlw : body := fun xlen insn pc npc =>
  require_rv64 xlen insn ;;
  s <- gets st ;; WRITE_RD insn (sext32 (u32 (RS1 s insn) >>w (RS2 s insn &w 0x1f))) ;; ret npc.
Definition sraw : body := fun xlen insn pc npc =>
  require_rv64 xlen insn ;;
  s <- gets st ;; WRITE_RD insn (sext32 (s32 (RS1 s insn) >>w (RS2 s insn &w 0x1f))) ;; ret npc.

(** *** Control transfer *)

(** "[if (c) set_pc(BRANCH_TARGET);]" *)
Definition branch (c : state_t -> bool) : body := fun xlen insn pc npc =>
  s <- gets st ;; if c s then set_pc xlen (BRANCH_TARGET insn pc) else ret npc.
Definition beq : body := fun xlen insn => branch (fun s => RS1 s insn =? RS2 s insn) xlen insn.
Definition bne : body := fun xlen insn => branch (fun s => negb (RS1 s insn =? RS2 s insn)) xlen insn.
Definition blt : body := fun xlen insn => branch (fun s => s64 (RS1 s insn) <? s64 (RS2 s insn)) xlen insn.
Definition bge : body := fun xlen insn => branch (fun s => s64 (RS2 s insn) <=? s64 (RS1 s insn)) xlen insn.
Definition bltu : body := fun xlen insn => branch (fun s => RS1 s insn <? RS2 s insn) xlen insn.
Definition bgeu : body := fun xlen insn => branch (fun s => RS2 s insn <=? RS1 s insn) xlen insn.

Definition jal : body := fun xlen insn pc npc =>
  let tmp := npc in
  npc <- set_pc xlen (JUMP_TARGET insn pc) ;; WRITE_RD insn tmp ;; ret npc.
Definition jalr : body := fun xlen insn pc npc =>
  let tmp := npc in
  s <- gets st ;;
  npc <- set_pc xlen ((RS1 s insn +w i_imm insn) &w not64 1) ;; WRITE_RD insn tmp ;; ret npc.

(** *** Memory *)

(** "[WRITE_RD(MMU.load_type(RS1 + insn.i_imm()));]" *)
Definition load (ld : Z -> State.M S Z) : body := fun xlen insn pc npc =>
  s <- gets st ;; x <- ld (RS1 s insn +w i_imm insn) ;; WRITE_RD insn x ;; ret npc.
Definition lb : body := load load_int8.
Definition lbu : body := load load_uint8.
Definition lh : body := load load_int16.
Definition lhu : body := load load_uint16.
Definition lw : body := load load_int32.
Definition lwu : body := fun xlen insn pc npc => require_rv64 xlen insn ;; load load_uint32 xlen insn pc npc.
Definition ld : body := fun xlen insn pc npc => require_rv64 xlen insn ;; load load_int64 xlen insn pc npc.

(** "[MMU.store_type(RS1 + insn.s_imm(), RS2);]" *)
Definition store (sto : Z -> Z -> State.M S unit) : body := fun xlen insn pc npc =>
  s <- gets st ;; sto (RS1 s insn +w s_imm insn) (RS2 s insn) ;; ret npc.
Definition sb : body := store store_uint8.
Definition sh : body := store store_uint16.
Definition sw : body := store store_uint32.
Definition sd : body := fun xlen insn pc npc => require_rv64 xlen insn ;; store store_uint64 xlen insn pc npc.

Definition fence : body := fun xlen insn pc npc => ret npc.
Definition fence_i : body := fun xlen insn pc npc => flush_icache ;; ret npc.

End Bodies.
End RVI.

Module RVM.
Section Bodies.
Context {S : Type} `{!SimIf S}.
#[local] Notation body := (body S).

Definition mul : body := fun xlen insn pc npc =>
  require_extension insn chr_M ;;
  s <- gets st ;; WRITE_RD insn (sext_xlen xlen (RS1 s insn *w RS2 s insn)) ;; ret npc.
Definition mulh : body := fun xlen insn pc npc =>
  require_extension insn chr_M ;;
  s <- gets st ;;
  WRITE_RD insn (if xlen =? 64 then Arith.mulh (s64 (RS1 s insn)) (s64 (RS2 s insn))
                 else sext32 ((sext32 (RS1 s insn) * sext32 (RS2 s insn)) >>w 32)) ;; ret npc.
Definition mulhsu : body := fun xlen insn pc npc =>
  require_extension insn chr_M ;;
  s <- gets st ;;
  WRITE_RD insn (if xlen =? 64 then Arith.mulhsu (s64 (RS1 s insn)) (RS2 s insn)
                 else sext32 ((sext32 (RS1 s insn) *w u32 (RS2 s insn)) >>w 32)) ;; ret npc.
Definition mulhu : body := fun xlen insn pc npc =>
  require_extension insn chr_M ;;
  s <- gets st ;;
  WRITE_RD insn (if xlen =? 64 then Arith.mulhu (RS1 s insn) (RS2 s insn)
                 else sext32 ((u32 (RS1 s insn) *w u32 (RS2 s insn)) >>w 32)) ;; ret npc.
Definition mulw : body := fun xlen insn pc npc =>
  require_extension insn chr_M ;; require_rv64 xlen insn ;;
  s <- gets st ;; WRITE_RD insn (sext32 (RS1 s insn *w RS2 s insn)) ;; ret npc.

Definition div : body := fun xlen insn pc npc =>
  require_extension insn chr_M ;;
  s <- gets st ;;
  let lhs := sext_xlen xlen (RS1 s insn) in
  let rhs := sext_xlen xlen (RS2 s insn) in
  WRITE_RD insn (if rhs =? 0 then minus_1
                 else if (lhs =? INT64_MIN) && (rhs =? -1) then lhs
                 else sext_xlen xlen (Z.quot lhs rhs)) ;; ret npc.
Definition divu : body := fun xlen insn pc npc =>
  require_extension insn chr_M ;;
  s <- gets st ;;
  let lhs := zext_xlen xlen (RS1 s insn) in
  let rhs := zext_xlen xlen (RS2 s insn) in
  WRITE_RD insn (if rhs =? 0 then minus_1 else sext_xlen xlen (lhs / rhs)) ;; ret npc.
Definition rem : body := fun xlen insn pc npc =>
  require_extension insn chr_M ;;
  s <- gets st ;;
  let lhs := sext_xlen xlen (RS1 s insn) in
  let rhs := sext_xlen xlen (RS2 s insn) in
  WRITE_RD insn (if rhs =? 0 then lhs
                 else if (lhs =? INT64_MIN) && (rhs =? -1) then 0
                 else sext_xlen xlen (Z.rem lhs rhs)) ;; ret npc.
Definition remu : body := fun xlen insn pc npc =>
  require_extension insn chr_M ;;
  s <- gets st ;;
  let lhs := zext_xlen xlen (RS1 s insn) in
  let rhs := zext_xlen xlen (RS2 s insn) in
  WRITE_RD insn (if rhs =? 0 then sext_xlen xlen (RS1 s insn) else sext_xlen xlen (lhs mod rhs)) ;; ret npc.

Definition divw : body := fun xlen insn pc npc =>
  require_extension insn chr_M ;; require_rv64 xlen insn ;;
  s <- gets st ;;
  let lhs := sext32 (RS1 s insn) in
  let rhs := sext32 (RS2 s insn) in
  WRITE_RD insn (if rhs =? 0 then minus_1 else sext32 (Z.quot lhs rhs)) ;; ret npc.
Definition divuw : body := fun xlen insn pc npc =>
  require_extension insn chr_M ;; require_rv64 xlen insn ;;
  s <- gets st ;;
  let lhs := zext32 (RS1 s insn) in
  let rhs := zext32 (RS2 s insn) in
  WRITE_RD insn (if rhs =? 0 then minus_1 else sext32 (lhs / rhs)) ;; ret npc.
Definition remw : body := fun xlen insn pc npc =>
  require_extension insn chr_M ;; require_rv64 xlen insn ;;
  s <- gets st ;;
  let lhs := sext32 (RS1 s insn) in
  let rhs := sext32 (RS2 s insn) in
  WRITE_RD insn (if rhs =? 0 then lhs else sext32 (Z.rem lhs rhs)) ;; ret npc.
Definition remuw : body := fun xlen insn pc npc =>
  require_extension insn chr_M ;; require_rv64 xlen insn ;;
  s <- gets st ;;
  let lhs := zext32 (RS1 s insn) in
  let rhs := zext32 (RS2 s insn) in
  WRITE_RD insn (if rhs =? 0 then sext32 lhs else sext32 (lhs mod rhs)) ;; ret npc.

End Bodies.
End RVM.

Module RVA.
Section Bodies.
Context {S : Type} `{!SimIf S}.
#[local] Notation body := (body S).

(** "[WRITE_RD(sext32(MMU.amo_uint32(RS1, f)));]" and the 64-bit form; [f]
    takes the old value and [RS2]. *)
Definition amo_w (f : Z -> Z -> Z) : body := fun xlen insn pc npc =>
  require_extension insn chr_A ;;
  s <- gets st ;;
  x <- amo_uint32 (RS1 s insn) (fun lhs => f lhs (RS2 s insn)) ;;
  WRITE_RD insn (sext32 x) ;; ret npc.
Definition amo_d (f : Z -> Z -> Z) : body := fun xlen insn pc npc =>
  require_extension insn chr_A ;; require_rv64 xlen insn ;;
  s <- gets st ;;
  x <- amo_uint64 (RS1 s insn) (fun lhs => f lhs (RS2 s insn)) ;;
  WRITE_RD insn x ;; ret npc.

Definition amoadd_w : body := amo_w (fun lhs rs2 => lhs +w rs2).
Definition amoxor_w : body := amo_w (fun lhs rs2 => lhs ^w rs2).
Definition amoor_w : body := amo_w (fun lhs rs2 => lhs |w rs2).
Definition amoand_w : body := amo_w (fun lhs rs2 => lhs &w rs2).
Definition amomin_w : body := amo_w (fun lhs rs2 => Z.min (s32 lhs) (s32 rs2)).
Definition amomax_w : body := amo_w (fun lhs rs2 => Z.max (s32 lhs) (s32 rs2)).
Definition amominu_w : body := amo_w (fun lhs rs2 => Z.min lhs (u32 rs2)).
Definition amomaxu_w : body := amo_w (fun lhs rs2 => Z.max lhs (u32 rs2)).
Definition amoswap_w : body := amo_w (fun lhs rs2 => rs2).
Definition amoadd_d : body := amo_d (fun lhs rs2 => lhs +w rs2).
Definition amoxor_d : body := amo_d (fun lhs rs2 => lhs ^w rs2).
Definition amoor_d : body := amo_d (fun lhs rs2 => lhs |w rs2).
Definition amoand_d : body := amo_d (fun lhs rs2 => lhs &w rs2).
Definition amomin_d : body := amo_d (fun lhs rs2 => Z.min (s64 lhs) (s64 rs2)).
Definition amomax_d : body := amo_d (fun lhs rs2 => Z.max (s64 lhs) (s64 rs2)).
Definition amominu_d : body := amo_d (fun lhs rs2 => Z.min lhs rs2).
Definition amomaxu_d : body := amo_d (fun lhs rs2 => Z.max lhs rs2).
Definition amoswap_d : body := amo_d (fun lhs rs2 => rs2).

Definition lr_w : body := fun xlen insn pc npc =>
  require_extension insn chr_A ;;
  s <- gets st ;;
  res <- load_int32 (RS1 s insn) ;;
  acquire_load_reservation (RS1 s insn) ;;
  WRITE_RD insn res ;; ret npc.
Definition lr_d : body := fun xlen insn pc npc =>
  require_extension insn chr_A ;; require_rv64 xlen insn ;;
  s <- gets st ;;
  res <- load_int64 (RS1 s insn) ;;
  acquire_load_reservation (RS1 s insn) ;;
  WRITE_RD insn res ;; ret npc.

Definition sc_w : body := fun xlen insn pc npc =>
  require_extension insn chr_A ;;
  s <- gets st ;;
  have_reservation <- check_load_reservation (RS1 s insn) 4 ;;
  when have_reservation (store_uint32 (RS1 s insn) (RS2 s insn)) ;;
  yield_load_reservation ;;
  WRITE_RD insn (b2z (negb have_reservation)) ;; ret npc.
Definition sc_d : body := fun xlen insn pc npc =>
  require_extension insn chr_A ;; require_rv64 xlen insn ;;
  s <- gets st ;;
  have_reservation <- check_load_reservation (RS1 s insn) 8 ;;
  when have_reservation (store_uint64 (RS1 s insn) (RS2 s insn)) ;;
  yield_load_reservation ;;
  WRITE_RD insn (b2z (negb have_reservation)) ;; ret npc.

End Bodies.
End RVA.
