(* ===== verification/Float.v ===== *)
(** * Float: the single- and double-precision instructions

    The bodies [riscv/insns/NAME.h] of the extensions F and D, one definition
    per file.  Operations whose files differ only in the SoftFloat function
    share a shape ([fp_op], [fp_compare], ...).  A [floatN_t] is its bits; the
    rounding mode is checked and stored before the operands are read. *)
From Stdlib Require Import ZArith Lia Bool List.
From stdpp Require Import base list gmap.
From S2P Require Import Prelude SoftFloat SoftF32 SoftF64 SoftConv Arith Encoding Decode Decoder State Processor Pmp Mmu Csr TrapEntry Macros.
#[local] Open Scope Z_scope.
#[local] Open Scope word_scope.
#[local] Open Scope record_scope.
#[local] Open Scope monad_scope.

(** [f32_lt_quiet(a, b) || (f32_eq(a, b) && (a.v & F32_SIGN))], and for doubles. *)
Definition less_f32 (a b : Z) : SF bool :=
  (lt <- f32_lt_quiet a b ;;
   if lt then sf_ret true else eq <- f32_eq a b ;; sf_ret (eq && z2b (a &w F32_SIGN)))%sf.
Definition less_f64 (a b : Z) : SF bool :=
  (lt <- f64_lt_quiet a b ;;
   if lt then sf_ret true else eq <- f64_eq a b ;; sf_ret (eq && z2b (a &w F64_SIGN)))%sf.

Section Shapes.
Context {S : Type} `{!SimIf S}.
#[local] Notation body := (body S).
#[local] Notation M := (State.M S).

(** "[softfloat_roundingMode = RM;]" *)
Definition round_mode (insn : insn_t) : M unit := rm <- RM insn ;; set_roundingMode rm.

(** "[WRITE_FRD(op); set_fp_exceptions;]", rounding as the instruction says. *)
Definition fp_op (ext : Z) (box : Z -> freg_t) (op : state_t -> SF Z) : body := fun xlen insn pc npc =>
  require_extension insn ext ;; require_fp insn ;; round_mode insn ;;
  s <- gets st ;; x <- softfloat (op s) ;; WRITE_FRD xlen insn (box x) ;;
  set_fp_exceptions xlen ;; ret npc.
Definition fp_op64 (ext : Z) (box : Z -> freg_t) (op : state_t -> SF Z) : body := fun xlen insn pc npc =>
  require_extension insn ext ;; require_rv64 xlen insn ;; require_fp insn ;; round_mode insn ;;
  s <- gets st ;; x <- softfloat (op s) ;; WRITE_FRD xlen insn (box x) ;;
  set_fp_exceptions xlen ;; ret npc.

(** "[WRITE_RD(sext32(op(FRS1, RM, true))); set_fp_exceptions;]"; on RV64 the
    64-bit form, without [sext32]. *)
Definition fp_to_int32 (ext : Z) (op : state_t -> Z -> SF Z) : body := fun xlen insn pc npc =>
  require_extension insn ext ;; require_fp insn ;; round_mode insn ;;
  s <- gets st ;; rm <- RM insn ;; x <- softfloat (op s rm) ;; WRITE_RD insn (sext32 x) ;;
  set_fp_exceptions xlen ;; ret npc.
Definition fp_to_int64 (ext : Z) (op : state_t -> Z -> SF Z) : body := fun xlen insn pc npc =>
  require_extension insn ext ;; require_rv64 xlen insn ;; require_fp insn ;; round_mode insn ;;
  s <- gets st ;; rm <- RM insn ;; x <- softfloat (op s rm) ;; WRITE_RD insn x ;;
  set_fp_exceptions xlen ;; ret npc.

(** "[WRITE_RD(op); set_fp_exceptions;]" for a comparison. *)
Definition fp_compare (ext : Z) (op : state_t -> SF bool) : body := fun xlen insn pc npc =>
  require_extension insn ext ;; require_fp insn ;;
  s <- gets st ;; x <- softfloat (op s) ;; WRITE_RD insn (b2z x) ;;
  set_fp_exceptions xlen ;; ret npc.

(** [fmin] and [fmax]: [pick] tells whether the first operand is taken. *)
Definition fp_minmax (ext : Z) (isNaN : freg_t -> bool) (nan : freg_t) (pick : state_t -> SF bool) : body := fun xlen insn pc npc =>
  require_extension insn ext ;; require_fp insn ;;
  s <- gets st ;; first <- softfloat (pick s) ;;
  (if isNaN (FRS1 s insn) && isNaN (FRS2 s insn) then WRITE_FRD xlen insn nan
   else WRITE_FRD xlen insn (if first || isNaN (FRS2 s insn) then FRS1 s insn else FRS2 s insn)) ;;
  set_fp_exceptions xlen ;; ret npc.

(** "[WRITE_FRD(value);]", without rounding or flags. *)
Definition fp_move (ext : Z) (value : state_t -> freg_t) : body := fun xlen insn pc npc =>
  require_extension insn ext ;; require_fp insn ;;
  s <- gets st ;; WRITE_FRD xlen insn (value s) ;; ret npc.
End Shapes.

Module RVF.
Section Bodies.
Context {S : Type} `{!SimIf S}.
#[local] Notation body := (body S).

Definition fadd_s : body := fun xlen insn =>
  fp_op chr_F freg32 (fun s => f32_add (f32 (FRS1 s insn)) (f32 (FRS2 s insn))) xlen insn.
Definition fsub_s : body := fun xlen insn =>
  fp_op chr_F freg32 (fun s => f32_sub (f32 (FRS1 s insn)) (f32 (FRS2 s insn))) xlen insn.
Definition fmul_s : body := fun xlen insn =>
  fp_op chr_F freg32 (fun s => f32_mul (f32 (FRS1 s insn)) (f32 (FRS2 s insn))) xlen insn.
Definition fdiv_s : body := fun xlen insn =>
  fp_op chr_F freg32 (fun s => f32_div (f32 (FRS1 s insn)) (f32 (FRS2 s insn))) xlen insn.
Definition fsqrt_s : body := fun xlen insn =>
  fp_op chr_F freg32 (fun s => f32_sqrt (f32 (FRS1 s insn))) xlen insn.

(** *** Fused multiply-add *)

Definition fmadd_s : body := fun xlen insn =>
  fp_op chr_F freg32 (fun s => f32_mulAdd (f32 (FRS1 s insn)) (f32 (FRS2 s insn)) (f32 (FRS3 s insn))) xlen insn.
Definition fmsub_s : body := fun xlen insn =>
  fp_op chr_F freg32 (fun s => f32_mulAdd (f32 (FRS1 s insn)) (f32 (FRS2 s insn)) (f32 (FRS3 s insn) ^w F32_SIGN)) xlen insn.
Definition fnmadd_s : body := fun xlen insn =>
  fp_op chr_F freg32 (fun s => f32_mulAdd (f32 (FRS1 s insn) ^w F32_SIGN) (f32 (FRS2 s insn)) (f32 (FRS3 s insn) ^w F32_SIGN)) xlen insn.
Definition fnmsub_s : body := fun xlen insn =>
  fp_op chr_F freg32 (fun s => f32_mulAdd (f32 (FRS1 s insn) ^w F32_SIGN) (f32 (FRS2 s insn)) (f32 (FRS3 s insn))) xlen insn.

(** *** Selection and sign injection *)

Definition fmin_s : body := fun xlen insn =>
  fp_minmax chr_F (fun r => isNaNF32UI (f32 r)) (freg32 defaultNaNF32UI) (fun s => less_f32 (f32 (FRS1 s insn)) (f32 (FRS2 s insn))) xlen insn.
Definition fmax_s : body := fun xlen insn =>
  fp_minmax chr_F (fun r => isNaNF32UI (f32 r)) (freg32 defaultNaNF32UI) (fun s => less_f32 (f32 (FRS2 s insn)) (f32 (FRS1 s insn))) xlen insn.
Definition fsgnj_s : body := fun xlen insn =>
  fp_move chr_F (fun s => freg32 (fsgnj32 (FRS1 s insn) (FRS2 s insn) false false)) xlen insn.
Definition fsgnjn_s : body := fun xlen insn =>
  fp_move chr_F (fun s => freg32 (fsgnj32 (FRS1 s insn) (FRS2 s insn) true false)) xlen insn.
Definition fsgnjx_s : body := fun xlen insn =>
  fp_move chr_F (fun s => freg32 (fsgnj32 (FRS1 s insn) (FRS2 s insn) false true)) xlen insn.

(** *** Comparisons and classification *)

Definition feq_s : body := fun xlen insn =>
  fp_compare chr_F (fun s => f32_eq (f32 (FRS1 s insn)) (f32 (FRS2 s insn))) xlen insn.
Definition flt_s : body := fun xlen insn =>
  fp_compare chr_F (fun s => f32_lt (f32 (FRS1 s insn)) (f32 (FRS2 s insn))) xlen insn.
Definition fle_s : body := fun xlen insn =>
  fp_compare chr_F (fun s => f32_le (f32 (FRS1 s insn)) (f32 (FRS2 s insn))) xlen insn.
Definition fclass_s : body := fun xlen insn pc npc =>
  require_extension insn chr_F ;; require_fp insn ;;
  s <- gets st ;; WRITE_RD insn (f32_classify (f32 (FRS1 s insn))) ;; ret npc.

(** *** Conversions *)

Definition fcvt_w_s : body := fun xlen insn =>
  fp_to_int32 chr_F (fun s rm => f32_to_i32 (f32 (FRS1 s insn)) rm true) xlen insn.
Definition fcvt_wu_s : body := fun xlen insn =>
  fp_to_int32 chr_F (fun s rm => f32_to_ui32 (f32 (FRS1 s insn)) rm true) xlen insn.
Definition fcvt_l_s : body := fun xlen insn =>
  fp_to_int64 chr_F (fun s rm => f32_to_i64 (f32 (FRS1 s insn)) rm true) xlen insn.
Definition fcvt_lu_s : body := fun xlen insn =>
  fp_to_int64 chr_F (fun s rm => f32_to_ui64 (f32 (FRS1 s insn)) rm true) xlen insn.
Definition fcvt_s_w : body := fun xlen insn =>
  fp_op chr_F freg32 (fun s => i32_to_f32 (s32 (RS1 s insn))) xlen insn.
Definition fcvt_s_wu : body := fun xlen insn =>
  fp_op chr_F freg32 (fun s => ui32_to_f32 (u32 (RS1 s insn))) xlen insn.
Definition fcvt_s_l : body := fun xlen insn =>
  fp_op64 chr_F freg32 (fun s => i64_to_f32 (s64 (RS1 s insn))) xlen insn.
Definition fcvt_s_lu : body := fun xlen insn =>
  fp_op64 chr_F freg32 (fun s => ui64_to_f32 (RS1 s insn)) xlen insn.

(** *** Moves and memory *)

Definition fmv_x_w : body := fun xlen insn pc npc =>
  require_extension insn chr_F ;; require_fp insn ;;
  s <- gets st ;; WRITE_RD insn (sext32 (v0 (FRS1 s insn))) ;; ret npc.
Definition fmv_w_x : body := fun xlen insn => fp_move chr_F (fun s => freg32 (u32 (RS1 s insn))) xlen insn.
Definition flw : body := fun xlen insn pc npc =>
  require_extension insn chr_F ;; require_fp insn ;;
  s <- gets st ;; x <- load_uint32 (RS1 s insn +w Insn.i_imm insn) ;; WRITE_FRD xlen insn (freg32 x) ;; ret npc.
Definition fsw : body := fun xlen insn pc npc =>
  require_extension insn chr_F ;; require_fp insn ;;
  s <- gets st ;; store_uint32 (RS1 s insn +w Insn.s_imm insn) (v0 (FRS2 s insn)) ;; ret npc.

End Bodies.
End RVF.

Module RVD.
Section Bodies.
Context {S : Type} `{!SimIf S}.
#[local] Notation body := (body S).

Definition fadd_d : body := fun xlen insn =>
  fp_op chr_D freg64 (fun s => f64_add (f64 (FRS1 s insn)) (f64 (FRS2 s insn))) xlen insn.
Definition fsub_d : body := fun xlen insn =>
  fp_op chr_D freg64 (fun s => f64_sub (f64 (FRS1 s insn)) (f64 (FRS2 s insn))) xlen insn.
Definition fmul_d : body := fun xlen insn =>
  fp_op chr_D freg64 (fun s => f64_mul (f64 (FRS1 s insn)) (f64 (FRS2 s insn))) xlen insn.
Definition fdiv_d : body := fun xlen insn =>
  fp_op chr_D freg64 (fun s => f64_div (f64 (FRS1 s insn)) (f64 (FRS2 s insn))) xlen insn.
Definition fsqrt_d : body := fun xlen insn =>
  fp_op chr_D freg64 (fun s => f64_sqrt (f64 (FRS1 s insn))) xlen insn.

(** *** Fused multiply-add *)

Definition fmadd_d : body := fun xlen insn =>
  fp_op chr_D freg64 (fun s => f64_mulAdd (f64 (FRS1 s insn)) (f64 (FRS2 s insn)) (f64 (FRS3 s insn))) xlen insn.
Definition fmsub_d : body := fun xlen insn =>
  fp_op chr_D freg64 (fun s => f64_mulAdd (f64 (FRS1 s insn)) (f64 (FRS2 s insn)) (f64 (FRS3 s insn) ^w F64_SIGN)) xlen insn.
Definition fnmadd_d : body := fun xlen insn =>
  fp_op chr_D freg64 (fun s => f64_mulAdd (f64 (FRS1 s insn) ^w F64_SIGN) (f64 (FRS2 s insn)) (f64 (FRS3 s insn) ^w F64_SIGN)) xlen insn.
Definition fnmsub_d : body := fun xlen insn =>
  fp_op chr_D freg64 (fun s => f64_mulAdd (f64 (FRS1 s insn) ^w F64_SIGN) (f64 (FRS2 s insn)) (f64 (FRS3 s insn))) xlen insn.

(** *** Selection and sign injection *)

Definition fmin_d : body := fun xlen insn =>
  fp_minmax chr_D (fun r => isNaNF64UI (f64 r)) (freg64 defaultNaNF64UI) (fun s => less_f64 (f64 (FRS1 s insn)) (f64 (FRS2 s insn))) xlen insn.
Definition fmax_d : body := fun xlen insn =>
  fp_minmax chr_D (fun r => isNaNF64UI (f64 r)) (freg64 defaultNaNF64UI) (fun s => less_f64 (f64 (FRS2 s insn)) (f64 (FRS1 s insn))) xlen insn.
Definition fsgnj_d : body := fun xlen insn =>
  fp_move chr_D (fun s => freg64 (fsgnj64 (FRS1 s insn) (FRS2 s insn) false false)) xlen insn.
Definition fsgnjn_d : body := fun xlen insn =>
  fp_move chr_D (fun s => freg64 (fsgnj64 (FRS1 s insn) (FRS2 s insn) true false)) xlen insn.
Definition fsgnjx_d : body := fun xlen insn =>
  fp_move chr_D (fun s => freg64 (fsgnj64 (FRS1 s insn) (FRS2 s insn) false true)) xlen insn.

(** *** Comparisons and classification *)

Definition feq_d : body := fun xlen insn =>
  fp_compare chr_D (fun s => f64_eq (f64 (FRS1 s insn)) (f64 (FRS2 s insn))) xlen insn.
Definition flt_d : body := fun xlen insn =>
  fp_compare chr_D (fun s => f64_lt (f64 (FRS1 s insn)) (f64 (FRS2 s insn))) xlen insn.
Definition fle_d : body := fun xlen insn =>
  fp_compare chr_D (fun s => f64_le (f64 (FRS1 s insn)) (f64 (FRS2 s insn))) xlen insn.
Definition fclass_d : body := fun xlen insn pc npc =>
  require_extension insn chr_D ;; require_fp insn ;;
  s <- gets st ;; WRITE_RD insn (f64_classify (f64 (FRS1 s insn))) ;; ret npc.

(** *** Conversions *)

Definition fcvt_w_d : body := fun xlen insn =>
  fp_to_int32 chr_D (fun s rm => f64_to_i32 (f64 (FRS1 s insn)) rm true) xlen insn.
Definition fcvt_wu_d : body := fun xlen insn =>
  fp_to_int32 chr_D (fun s rm => f64_to_ui32 (f64 (FRS1 s insn)) rm true) xlen insn.
Definition fcvt_l_d : body := fun xlen insn =>
  fp_to_int64 chr_D (fun s rm => f64_to_i64 (f64 (FRS1 s insn)) rm true) xlen insn.
Definition fcvt_lu_d : body := fun xlen insn =>
  fp_to_int64 chr_D (fun s rm => f64_to_ui64 (f64 (FRS1 s insn)) rm true) xlen insn.
Definition fcvt_d_w : body := fun xlen insn =>
  fp_op chr_D freg64 (fun s => i32_to_f64 (s32 (RS1 s insn))) xlen insn.
Definition fcvt_d_wu : body := fun xlen insn =>
  fp_op chr_D freg64 (fun s => ui32_to_f64 (u32 (RS1 s insn))) xlen insn.
Definition fcvt_d_l : body := fun xlen insn =>
  fp_op64 chr_D freg64 (fun s => i64_to_f64 (s64 (RS1 s insn))) xlen insn.
Definition fcvt_d_lu : body := fun xlen insn =>
  fp_op64 chr_D freg64 (fun s => ui64_to_f64 (RS1 s insn)) xlen insn.

Definition fcvt_s_d : body := fun xlen insn =>
  fp_op chr_D freg32 (fun s => f64_to_f32 (f64 (FRS1 s insn))) xlen insn.
Definition fcvt_d_s : body := fun xlen insn =>
  fp_op chr_D freg64 (fun s => f32_to_f64 (f32 (FRS1 s insn))) xlen insn.

(** *** Moves and memory *)

Definition fmv_x_d : body := fun xlen insn pc npc =>
  require_extension insn chr_D ;; require_rv64 xlen insn ;; require_fp insn ;;
  s <- gets st ;; WRITE_RD insn (v0 (FRS1 s insn)) ;; ret npc.
Definition fmv_d_x : body := fun xlen insn pc npc =>
  require_extension insn chr_D ;; require_rv64 xlen insn ;; require_fp insn ;;
  s <- gets st ;; WRITE_FRD xlen insn (freg64 (RS1 s insn)) ;; ret npc.
Definition fld : body := fun xlen insn pc npc =>
  require_extension insn chr_D ;; require_fp insn ;;
  s <- gets st ;; x <- load_uint64 (RS1 s insn +w Insn.i_imm insn) ;; WRITE_FRD xlen insn (freg64 x) ;; ret npc.
Definition fsd : body := fun xlen insn pc npc =>
  require_extension insn chr_D ;; require_fp insn ;;
  s <- gets st ;; store_uint64 (RS1 s insn +w Insn.s_imm insn) (v0 (FRS2 s insn)) ;; ret npc.

End Bodies.
End RVD.
