(* ===== verification/Compressed.v ===== *)
(** * Compressed: the instructions of extension C ([riscv/insns/c_*.h])

    Several files stand for two instructions, chosen by [xlen] or by a
    register number: [c_flw] is [c.ld] on RV64, [c_jal] is [c.addiw],
    [c_lui] is [c.addi16sp] for [x2]. *)
From Stdlib Require Import ZArith Lia Bool List.
From stdpp Require Import base list gmap.
From S2P Require Import Prelude Arith Encoding Decode Decoder State Processor Pmp Mmu Csr TrapEntry Macros.
#[local] Open Scope Z_scope.
#[local] Open Scope word_scope.
#[local] Open Scope record_scope.
#[local] Open Scope monad_scope.

Module RVC.
Section Bodies.
Context {S : Type} `{!SimIf S}.
#[local] Notation body := (body S).
Import Insn.

(** *** Arithmetic *)

Definition c_addi4spn : body := fun xlen insn pc npc =>
  require_extension insn chr_C ;;
  require insn (negb (rvc_addi4spn_imm insn =? 0)) ;;
  s <- gets st ;;
  WRITE_RVC_RS2S insn (sext_xlen xlen (RVC_SP s +w rvc_addi4spn_imm insn)) ;; ret npc.
Definition c_addi : body := fun xlen insn pc npc =>
  require_extension insn chr_C ;;
  s <- gets st ;; WRITE_RD insn (sext_xlen xlen (RVC_RS1 s insn +w rvc_imm insn)) ;; ret npc.
Definition c_li : body := fun xlen insn pc npc =>
  require_extension insn chr_C ;; WRITE_RD insn (rvc_imm insn) ;; ret npc.
Definition c_lui : body := fun xlen insn pc npc =>
  require_extension insn chr_C ;;
  if rvc_rd insn =? 2 then
    require insn (negb (rvc_addi16sp_imm insn =? 0)) ;;
    s <- gets st ;;
    WRITE_REG X_SP (sext_xlen xlen (RVC_SP s +w rvc_addi16sp_imm insn)) ;; ret npc
  else
    require insn (negb (rvc_imm insn =? 0)) ;;
    WRITE_RD insn (Z.shiftl (rvc_imm insn) 12) ;; ret npc.
Definition c_slli : body := fun xlen insn pc npc =>
  require_extension insn chr_C ;;
  require insn (rvc_zimm insn <? xlen) ;;
  s <- gets st ;; WRITE_RD insn (sext_xlen xlen (RVC_RS1 s insn <<w rvc_zimm insn)) ;; ret npc.
Definition c_srli : body := fun xlen insn pc npc =>
  require_extension insn chr_C ;;
  require insn (rvc_zimm insn <? xlen) ;;
  s <- gets st ;;
  WRITE_RVC_RS1S insn (sext_xlen xlen (zext_xlen xlen (RVC_RS1S s insn) >>w rvc_zimm insn)) ;; ret npc.
Definition c_srai : body := fun xlen insn pc npc =>
  require_extension insn chr_C ;;
  require insn (rvc_zimm insn <? xlen) ;;
  s <- gets st ;;
  WRITE_RVC_RS1S insn (sext_xlen xlen (sext_xlen xlen (RVC_RS1S s insn) >>w rvc_zimm insn)) ;; ret npc.
Definition c_andi : body := fun xlen insn pc npc =>
  require_extension insn chr_C ;;
  s <- gets st ;; WRITE_RVC_RS1S insn (RVC_RS1S s insn &w u64 (rvc_imm insn)) ;; ret npc.
Definition c_mv : body := fun xlen insn pc npc =>
  require_extension insn chr_C ;;
  require insn (negb (rvc_rs2 insn =? 0)) ;;
  s <- gets st ;; WRITE_RD insn (RVC_RS2 s insn) ;; ret npc.
Definition c_add : body := fun xlen insn pc npc =>
  require_extension insn chr_C ;;
  require insn (negb (rvc_rs2 insn =? 0)) ;;
  s <- gets st ;; WRITE_RD insn (sext_xlen xlen (RVC_RS1 s insn +w RVC_RS2 s insn)) ;; ret npc.
Definition c_sub : body := fun xlen insn pc npc =>
  require_extension insn chr_C ;;
  s <- gets st ;;
  WRITE_RVC_RS1S insn (sext_xlen xlen (RVC_RS1S s insn -w RVC_RS2S s insn)) ;; ret npc.
Definition c_xor : body := fun xlen insn pc npc =>
  require_extension insn chr_C ;;
  s <- gets st ;; WRITE_RVC_RS1S insn (RVC_RS1S s insn ^w RVC_RS2S s insn) ;; ret npc.
Definition c_or : body := fun xlen insn pc npc =>
  require_extension insn chr_C ;;
  s <- gets st ;; WRITE_RVC_RS1S insn (RVC_RS1S s insn |w RVC_RS2S s insn) ;; ret npc.
Definition c_and : body := fun xlen insn pc npc =>
  require_extension insn chr_C ;;
  s <- gets st ;; WRITE_RVC_RS1S insn (RVC_RS1S s insn &w RVC_RS2S s insn) ;; ret npc.
Definition c_subw : body := fun xlen insn pc npc =>
  require_extension insn chr_C ;; require_rv64 xlen insn ;;
  s <- gets st ;;
  WRITE_RVC_RS1S insn (sext32 (RVC_RS1S s insn -w RVC_RS2S s insn)) ;; ret npc.
Definition c_addw : body := fun xlen insn pc npc =>
  require_extension insn chr_C ;; require_rv64 xlen insn ;;
  s <- gets st ;;
  WRITE_RVC_RS1S insn (sext32 (RVC_RS1S s insn +w RVC_RS2S s insn)) ;; ret npc.

(** *** Control transfer *)

Definition c_j : body := fun xlen insn pc npc =>
  require_extension insn chr_C ;; set_pc xlen (pc +w rvc_j_imm insn).
Definition c_jal : body := fun xlen insn pc npc =>
  require_extension insn chr_C ;;
  if xlen =? 32 then
    let tmp := npc in
    npc <- set_pc xlen (pc +w rvc_j_imm insn) ;; WRITE_REG X_RA tmp ;; ret npc
  else
    require insn (negb (rvc_rd insn =? 0)) ;;
    s <- gets st ;; WRITE_RD insn (sext32 (RVC_RS1 s insn +w rvc_imm insn)) ;; ret npc.
Definition c_jr : body := fun xlen insn pc npc =>
  require_extension insn chr_C ;;
  require insn (negb (rvc_rs1 insn =? 0)) ;;
  s <- gets st ;; set_pc xlen (RVC_RS1 s insn &w not64 1).
Definition c_jalr : body := fun xlen insn pc npc =>
  require_extension insn chr_C ;;
  require insn (negb (rvc_rs1 insn =? 0)) ;;
  let tmp := npc in
  s <- gets st ;;
  npc <- set_pc xlen (RVC_RS1 s insn &w not64 1) ;; WRITE_REG X_RA tmp ;; ret npc.
Definition c_beqz : body := fun xlen insn pc npc =>
  require_extension insn chr_C ;;
  s <- gets st ;; if RVC_RS1S s insn =? 0 then set_pc xlen (pc +w rvc_b_imm insn) else ret npc.
Definition c_bnez : body := fun xlen insn pc npc =>
  require_extension insn chr_C ;;
  s <- gets st ;; if negb (RVC_RS1S s insn =? 0) then set_pc xlen (pc +w rvc_b_imm insn) else ret npc.
Definition c_ebreak : body := fun xlen insn pc npc =>
  require_extension insn chr_C ;; throw_trap (trap_breakpoint 0).

(** *** Memory *)

Definition c_lw : body := fun xlen insn pc npc =>
  require_extension insn chr_C ;;
  s <- gets st ;;
  x <- load_int32 (RVC_RS1S s insn +w rvc_lw_imm insn) ;; WRITE_RVC_RS2S insn x ;; ret npc.
Definition c_lwsp : body := fun xlen insn pc npc =>
  require_extension insn chr_C ;;
  require insn (negb (rvc_rd insn =? 0)) ;;
  s <- gets st ;;
  x <- load_int32 (RVC_SP s +w rvc_lwsp_imm insn) ;; WRITE_RD insn x ;; ret npc.
Definition c_sw : body := fun xlen insn pc npc =>
  require_extension insn chr_C ;;
  s <- gets st ;; store_uint32 (RVC_RS1S s insn +w rvc_lw_imm insn) (RVC_RS2S s insn) ;; ret npc.
Definition c_swsp : body := fun xlen insn pc npc =>
  require_extension insn chr_C ;;
  s <- gets st ;; store_uint32 (RVC_SP s +w rvc_swsp_imm insn) (RVC_RS2 s insn) ;; ret npc.

Definition c_flw : body := fun xlen insn pc npc =>
  require_extension insn chr_C ;;
  if xlen =? 32 then
    require_extension insn chr_F ;; require_fp insn ;;
    s <- gets st ;;
    x <- load_uint32 (RVC_RS1S s insn +w rvc_lw_imm insn) ;;
    WRITE_RVC_FRS2S xlen insn (freg32 x) ;; ret npc
  else
    s <- gets st ;;
    x <- load_int64 (RVC_RS1S s insn +w rvc_ld_imm insn) ;; WRITE_RVC_RS2S insn x ;; ret npc.
Definition c_flwsp : body := fun xlen insn pc npc =>
  require_extension insn chr_C ;;
  if xlen =? 32 then
    require_extension insn chr_F ;; require_fp insn ;;
    s <- gets st ;;
    x <- load_uint32 (RVC_SP s +w rvc_lwsp_imm insn) ;;
    WRITE_FRD xlen insn (freg32 x) ;; ret npc
  else
    require insn (negb (rvc_rd insn =? 0)) ;;
    s <- gets st ;;
    x <- load_int64 (RVC_SP s +w rvc_ldsp_imm insn) ;; WRITE_RD insn x ;; ret npc.
Definition c_fsw : body := fun xlen insn pc npc =>
  require_extension insn chr_C ;;
  if xlen =? 32 then
    require_extension insn chr_F ;; require_fp insn ;;
    s <- gets st ;;
    store_uint32 (RVC_RS1S s insn +w rvc_lw_imm insn) (v0 (RVC_FRS2S s insn)) ;; ret npc
  else
    s <- gets st ;;
    store_uint64 (RVC_RS1S s insn +w rvc_ld_imm insn) (RVC_RS2S s insn) ;; ret npc.
Definition c_fswsp : body := fun xlen insn pc npc =>
  require_extension insn chr_C ;;
  if xlen =? 32 then
    require_extension insn chr_F ;; require_fp insn ;;
    s <- gets st ;;
    store_uint32 (RVC_SP s +w rvc_swsp_imm insn) (v0 (RVC_FRS2 s insn)) ;; ret npc
  else
    s <- gets st ;;
    store_uint64 (RVC_SP s +w rvc_sdsp_imm insn) (RVC_RS2 s insn) ;; ret npc.

Definition c_fld : body := fun xlen insn pc npc =>
  require_extension insn chr_C ;; require_extension insn chr_D ;; require_fp insn ;;
  s <- gets st ;;
  x <- load_uint64 (RVC_RS1S s insn +w rvc_ld_imm insn) ;;
  WRITE_RVC_FRS2S xlen insn (freg64 x) ;; ret npc.
Definition c_fldsp : body := fun xlen insn pc npc =>
  require_extension insn chr_C ;; require_extension insn chr_D ;; require_fp insn ;;
  s <- gets st ;;
  x <- load_uint64 (RVC_SP s +w rvc_ldsp_imm insn) ;;
  WRITE_FRD xlen insn (freg64 x) ;; ret npc.
Definition c_fsd : body := fun xlen insn pc npc =>
  require_extension insn chr_C ;; require_extension insn chr_D ;; require_fp insn ;;
  s <- gets st ;;
  store_uint64 (RVC_RS1S s insn +w rvc_ld_imm insn) (v0 (RVC_FRS2S s insn)) ;; ret npc.
Definition c_fsdsp : body := fun xlen insn pc npc =>
  require_extension insn chr_C ;; require_extension insn chr_D ;; require_fp insn ;;
  s <- gets st ;;
  store_uint64 (RVC_SP s +w rvc_sdsp_imm insn) (v0 (RVC_FRS2 s insn)) ;; ret npc.

End Bodies.
End RVC.
