(* ===== verification/System.v ===== *)
(** * System: CSR accesses, privileged and hypervisor instructions

    The bodies of [csrr*.h], [ecall.h], [ebreak.h], [mret.h], [sret.h],
    [dret.h], [wfi.h], [sfence_vma.h], [hfence_*.h], [hlv*.h] and [hsv*.h]. *)
From Stdlib Require Import ZArith Lia Bool List.
From stdpp Require Import base list gmap.
From S2P Require Import Prelude Arith Encoding Decode Decoder State Processor Pmp Mmu Csr TrapEntry Macros.
#[local] Open Scope Z_scope.
#[local] Open Scope word_scope.
#[local] Open Scope record_scope.
#[local] Open Scope monad_scope.

Module Sys.
Section Bodies.
Context {S : Type} `{!SimIf S}.
#[local] Notation body := (body S).

(** *** CSR accesses

    [new] computes the value written from the old one and [RS1]; [write] says
    whether it is. *)
Definition csr_op (write : insn_t -> bool) (new : insn_t -> Z -> Z -> Z) : body := fun xlen insn pc npc =>
  validate_csr insn (Insn.csr insn) (write insn) (fun csr =>
    old <- read_csr insn csr ;;
    s <- gets st ;;
    when (write insn) (set_csr csr (new insn old (RS1 s insn))) ;;
    WRITE_RD insn (sext_xlen xlen old) ;;
    serialize npc).

Definition rs1_nonzero (insn : insn_t) : bool := negb (Insn.rs1 insn =? 0).
Definition csrrw : body := csr_op (fun _ => true) (fun insn old rs1 => rs1).
Definition csrrs : body := csr_op rs1_nonzero (fun insn old rs1 => old |w rs1).
Definition csrrc : body := csr_op rs1_nonzero (fun insn old rs1 => old &w not64 rs1).
Definition csrrwi : body := csr_op (fun _ => true) (fun insn old rs1 => Insn.rs1 insn).
Definition csrrsi : body := csr_op rs1_nonzero (fun insn old rs1 => old |w Insn.rs1 insn).
Definition csrrci : body := csr_op rs1_nonzero (fun insn old rs1 => old &w not64 (Insn.rs1 insn)).

(** *** Environment calls and returns *)

Definition ecall : body := fun xlen insn pc npc =>
  s <- gets st ;;
  if prv s =? PRV_U then throw_trap trap_user_ecall
  else if prv s =? PRV_S then
    if v_ s then throw_trap trap_virtual_supervisor_ecall else throw_trap trap_supervisor_ecall
  else if prv s =? PRV_M then throw_trap trap_machine_ecall
  else throw E_abort.

Definition ebreak : body := fun xlen insn pc npc => throw_trap (trap_breakpoint 0).

(** [mstatus] after [mret] and [sret]. *)
Definition mstatus_mret (x : Z) : Z :=
  let s := set_field x MSTATUS_MIE (get_field x MSTATUS_MPIE) in
  let s := set_field s MSTATUS_MPIE 1 in
  set_field s MSTATUS_MPP PRV_U.
Definition mstatus_sret (x : Z) : Z :=
  let s := set_field x MSTATUS_SIE (get_field x MSTATUS_SPIE) in
  let s := set_field s MSTATUS_SPIE 1 in
  set_field s MSTATUS_SPP PRV_U.

Definition mret : body := fun xlen insn pc npc =>
  require_privilege insn PRV_M ;;
  s0 <- gets st ;;
  npc <- set_pc_and_serialize (mepc s0) ;;
  s <- gets (fun h => mstatus (st h)) ;;
  let prev_prv := get_field s MSTATUS_MPP in
  let prev_virt := get_field s MSTATUS_MPV in
  set_csr CSR_MSTATUS (mstatus_mret s) ;;
  set_privilege prev_prv ;;
  set_virt (z2b prev_virt) ;;
  ret npc.

Definition sret : body := fun xlen insn pc npc =>
  require_extension insn chr_S ;;
  s0 <- gets st ;;
  require_privilege insn (if z2b (get_field (mstatus s0) MSTATUS_TSR) then PRV_M else PRV_S) ;;
  when (v_ s0 && z2b (get_field (hstatus s0) HSTATUS_VTSR)) (require_novirt insn) ;;
  npc <- set_pc_and_serialize (if v_ s0 then vsepc s0 else sepc s0) ;;
  s <- gets (fun h => mstatus (st h)) ;;
  let prev_prv := get_field s MSTATUS_SPP in
  set_csr CSR_MSTATUS (mstatus_sret s) ;;
  set_privilege prev_prv ;;
  s1 <- gets st ;;
  when (negb (v_ s1)) (set_virt (z2b (get_field (hstatus s1) HSTATUS_SPV))) ;;
  ret npc.

Definition dret : body := fun xlen insn pc npc =>
  s0 <- gets st ;;
  require insn (debug_mode s0) ;;
  npc <- set_pc_and_serialize (dpc s0) ;;
  set_privilege (dcsr_prv (dcsr s0)) ;;
  upd (fun s => s <| debug_mode := false |>) ;;
  upd (fun s => if dcsr_step (dcsr s) then s <| single_step := STEP_STEPPING |> else s) ;;
  ret npc.

Definition wfi : body := fun xlen insn pc npc =>
  s <- gets st ;;
  require_privilege insn (if z2b (get_field (mstatus s) MSTATUS_TW) then PRV_M else PRV_S) ;;
  when (v_ s && z2b (get_field (hstatus s) HSTATUS_VTW)) (require_novirt insn) ;;
  wfi_ npc.

Definition sfence_vma : body := fun xlen insn pc npc =>
  require_extension insn chr_S ;;
  s <- gets st ;;
  require_privilege insn (if z2b (get_field (mstatus s) MSTATUS_TVM) then PRV_M else PRV_S) ;;
  flush_tlb ;; ret npc.

(** *** Hypervisor *)

Definition hfence : body := fun xlen insn pc npc =>
  require_extension insn chr_H ;; require_privilege insn PRV_S ;; require_novirt insn ;;
  flush_tlb ;; ret npc.
Definition hfence_gvma : body := hfence.
Definition hfence_vvma : body := hfence.

(** The guards of the guest accesses. *)
Definition require_guest (insn : insn_t) : State.M S unit :=
  require_extension insn chr_H ;;
  s <- gets st ;;
  require_privilege insn (if z2b (get_field (hstatus s) HSTATUS_HU) then PRV_S else PRV_U) ;;
  require_novirt insn.
Definition require_guest64 (xlen : Z) (insn : insn_t) : State.M S unit :=
  require_extension insn chr_H ;;
  require_rv64 xlen insn ;;
  s <- gets st ;;
  require_privilege insn (if z2b (get_field (hstatus s) HSTATUS_HU) then PRV_S else PRV_U) ;;
  require_novirt insn.

Definition hlv (ld : Z -> State.M S Z) : body := fun xlen insn pc npc =>
  s <- gets st ;; x <- ld (RS1 s insn) ;; WRITE_RD insn x ;; ret npc.
Definition hsv (sto : Z -> Z -> State.M S unit) : body := fun xlen insn pc npc =>
  s <- gets st ;; sto (RS1 s insn) (RS2 s insn) ;; ret npc.

Definition hlv_b : body := fun xlen insn pc npc => require_guest insn ;; hlv guest_load_int8 xlen insn pc npc.
Definition hlv_bu : body := fun xlen insn pc npc => require_guest insn ;; hlv guest_load_uint8 xlen insn pc npc.
Definition hlv_h : body := fun xlen insn pc npc => require_guest insn ;; hlv guest_load_int16 xlen insn pc npc.
Definition hlv_hu : body := fun xlen insn pc npc => require_guest insn ;; hlv guest_load_uint16 xlen insn pc npc.
Definition hlvx_hu : body := fun xlen insn pc npc => require_guest insn ;; hlv guest_load_x_uint16 xlen insn pc npc.
Definition hlv_w : body := fun xlen insn pc npc => require_guest insn ;; hlv guest_load_int32 xlen insn pc npc.
Definition hlv_wu : body := fun xlen insn pc npc => require_guest64 xlen insn ;; hlv guest_load_uint32 xlen insn pc npc.
Definition hlvx_wu : body := fun xlen insn pc npc => require_guest insn ;; hlv guest_load_x_uint32 xlen insn pc npc.
Definition hlv_d : body := fun xlen insn pc npc => require_guest64 xlen insn ;; hlv guest_load_int64 xlen insn pc npc.
Definition hsv_b : body := fun xlen insn pc npc => require_guest insn ;; hsv guest_store_uint8 xlen insn pc npc.
Definition hsv_h : body := fun xlen insn pc npc => require_guest insn ;; hsv guest_store_uint16 xlen insn pc npc.
Definition hsv_w : body := fun xlen insn pc npc => require_guest insn ;; hsv guest_store_uint32 xlen insn pc npc.
Definition hsv_d : body := fun xlen insn pc npc => require_guest64 xlen insn ;; hsv guest_store_uint64 xlen insn pc npc.

End Bodies.
End Sys.
