(* ===== verification/Fetch.v ===== *)
(** * Fetch: instruction fetch and the instruction cache

    [fetch_slow_path] of [riscv/mmu.cc]; [translate_insn_addr],
    [refill_icache], [access_icache] and [load_insn] of [riscv/mmu.h].  Memory
    tracers are not registered in the modelled machine. *)
From Stdlib Require Import ZArith Lia Bool List.
From stdpp Require Import base list gmap.
From S2P Require Import Prelude Arith Encoding Decode Decoder State Processor Pmp Mmu.
#[local] Open Scope Z_scope.
#[local] Open Scope word_scope.
#[local] Open Scope record_scope.
#[local] Open Scope monad_scope.

Definition ICACHE_ENTRIES : Z := 1024.
Definition PC_ALIGN : Z := 2.
Definition icache_index (addr : Z) : Z := (addr / PC_ALIGN) mod ICACHE_ENTRIES.

(** Where the host pointer of a fetch leads: into memory through a TLB entry,
    or to the member [fetch_temp]. *)
Inductive fetch_source :=
| Fetch_host (entry : tlb_entry_t)
| Fetch_temp.

Section Fetch.
Context {S : Type} `{!SimIf S}.
#[local] Notation M := (State.M S).
#[local] Notation hart := (State.hart S).

Definition fetch_slow_path (vaddr : Z) : M fetch_source :=
  paddr <- lift (fun h => translate h vaddr 2 FETCH 0) ;;
  host_addr <- gets (fun h => addr_to_mem (sim h) paddr) ;;
  match host_addr with
  | Some ptr => e <- refill_tlb vaddr paddr ptr FETCH ;; ret (Fetch_host e)
  | None =>
    r <- mmu_mmio_load paddr 2 ;;
    match r with
    | None => throw_trap (trap_instruction_access_fault vaddr 0 0)
    | Some bytes =>
      modify (fun h => h <| mmu ::= fun m => m <| fetch_temp := le_value bytes |> |>) ;;
      ret Fetch_temp
    end
  end.

(** The 16 bits at [addr] through the pointer; [fetch_temp] is a [uint16_t]. *)
Definition fetch_half (h : hart) (src : fetch_source) (addr : Z) : Z :=
  match src with
  | Fetch_host e => host_load_int (sim h) (host_offset e +w addr) 2
  | Fetch_temp => u16 (fetch_temp (mmu h))
  end.

Definition translate_insn_addr (addr : Z) : M fetch_source :=
  let vpn := addr >>w PGSHIFT in
  let idx := vpn mod TLB_ENTRIES in
  m <- gets mmu ;;
  if tlb_tag (tlb_insn_tag m) idx =? vpn then ret (Fetch_host (tlb_entry (tlb_data m) idx))
  else
    result <-
      (if negb (tlb_tag (tlb_insn_tag m) idx =? (vpn |w TLB_CHECK_TRIGGERS)) then fetch_slow_path addr
       else ret (Fetch_host (tlb_entry (tlb_data m) idx))) ;;
    h <- gets (fun h => h) ;;
    if tlb_tag (tlb_insn_tag (mmu h)) idx =? (vpn |w TLB_CHECK_TRIGGERS) then
      let half := fetch_half h (Fetch_host (tlb_entry (tlb_data (mmu h)) idx)) addr in
      let match_ := trigger_match (st h) (proc h) OPERATION_EXECUTE addr half in
      if 0 <=? match_ then throw (E_trigger (mk_trigger_matched match_ OPERATION_EXECUTE addr half))
      else ret result
    else ret result.

(** A halfword of the instruction; "[*translate_insn_addr_to_host(addr)]". *)
Definition fetch_at (addr : Z) : M Z :=
  src <- translate_insn_addr addr ;; gets (fun h => fetch_half h src addr).

Definition to_int16 (x : Z) : Z := u64 (sw 16 x).

(** The instruction word: the halfword that gives the length first, then the
    most significant one, sign-extended, then downwards. *)
Definition fetch_bits (addr : Z) : M Z :=
  insn <- fetch_at addr ;;
  let length := insn_length insn in
  if length =? 4 then
    hi <- fetch_at (addr +w 2) ;; ret (insn |w (to_int16 hi <<w 16))
  else if length =? 2 then ret (to_int16 insn)
  else if length =? 6 then
    h4 <- fetch_at (addr +w 4) ;;
    h2 <- fetch_at (addr +w 2) ;;
    ret (insn |w (to_int16 h4 <<w 32) |w (h2 <<w 16))
  else
    h6 <- fetch_at (addr +w 6) ;;
    h4 <- fetch_at (addr +w 4) ;;
    h2 <- fetch_at (addr +w 2) ;;
    ret (insn |w (to_int16 h6 <<w 48) |w (h4 <<w 32) |w (h2 <<w 16)).

(** [proc->decode_insn(insn)]; running off the table is undefined behaviour. *)
Definition decode (insn : insn_t) : M insn_func_t := fun h =>
  match decode_insn (xlen (proc h)) (decoder (proc h)) (Insn.bits insn) with
  | Some (f, d) => (inr f, h <| proc ::= fun p => p <| decoder := d |> |>)
  | None => (inl E_abort, h)
  end.

(** [refill_icache] returns the entry it fills. *)
Definition refill_icache (addr : Z) : M icache_entry_t :=
  bits <- fetch_bits addr ;;
  let insn := mk_insn bits in
  func <- decode insn ;;
  ret (mk_icache_entry addr (icache_index (addr +w insn_length bits)) (mk_insn_fetch func insn)).

Definition icache_at (m : mmu_t) (idx : Z) : icache_entry_t :=
  default (mk_icache_entry minus_1 0 (mk_insn_fetch illegal_instruction (mk_insn 0))) (icache m !! idx).

Definition access_icache (addr : Z) : M icache_entry_t :=
  m <- gets mmu ;;
  let entry := icache_at m (icache_index addr) in
  if ic_tag entry =? addr then ret entry
  else
    entry <- refill_icache addr ;;
    modify (fun h => h <| mmu ::= fun m => m <| icache ::= <[icache_index addr := entry]> |> |>) ;;
    ret entry.

(** [load_insn] fills an entry of its own. *)
Definition load_insn (addr : Z) : M insn_fetch_t :=
  entry <- refill_icache addr ;; ret (ic_data entry).

End Fetch.
