(* ===== verification/Execute.v ===== *)
(** * Execute: dispatch and the fetch/decode/execute loop ([riscv/execute.cc])

    [insn_body] names the bodies of the modelled instructions; [other] stands
    for the instructions of the extensions Q, Zfh and V, whose bodies are not
    modelled.  [processor_t::step] runs in a monad of its own: on top of
    the hart it threads the local variables [n], [instret] and [pc], which its
    [catch] clauses read. *)
From Stdlib Require Import ZArith Lia Bool List String.
From stdpp Require Import base list gmap strings.
From S2P Require Import Prelude Arith Encoding Decode Decoder State Processor Pmp Mmu Csr TrapEntry Macros Base Float Compressed System Fetch.
#[local] Open Scope Z_scope.
#[local] Open Scope word_scope.
#[local] Open Scope record_scope.

Section Dispatch.
Context {S : Type} `{!SimIf S}.
#[local] Open Scope string_scope.

(** [insn_list.h] restricted to the modelled instructions. *)
Definition insns_i : list (string * body S) :=
  [("add", RVI.add); ("addi", RVI.addi); ("addiw", RVI.addiw); ("addw", RVI.addw); ("and", RVI.and);
   ("andi", RVI.andi); ("auipc", RVI.auipc); ("beq", RVI.beq); ("bge", RVI.bge); ("bgeu", RVI.bgeu);
   ("blt", RVI.blt); ("bltu", RVI.bltu); ("bne", RVI.bne); ("jal", RVI.jal); ("jalr", RVI.jalr);
   ("lb", RVI.lb); ("lbu", RVI.lbu); ("ld", RVI.ld); ("lh", RVI.lh); ("lhu", RVI.lhu); ("lui", RVI.lui);
   ("lw", RVI.lw); ("lwu", RVI.lwu); ("or", RVI.or); ("ori", RVI.ori); ("sb", RVI.sb); ("sd", RVI.sd);
   ("sh", RVI.sh); ("sll", RVI.sll); ("slli", RVI.slli); ("slliw", RVI.slliw); ("sllw", RVI.sllw);
   ("slt", RVI.slt); ("slti", RVI.slti); ("sltiu", RVI.sltiu); ("sltu", RVI.sltu); ("sra", RVI.sra);
   ("srai", RVI.srai); ("sraiw", RVI.sraiw); ("sraw", RVI.sraw); ("srl", RVI.srl); ("srli", RVI.srli);
   ("srliw", RVI.srliw); ("srlw", RVI.srlw); ("sub", RVI.sub); ("subw", RVI.subw); ("sw", RVI.sw);
   ("xor", RVI.xor); ("xori", RVI.xori); ("fence", RVI.fence); ("fence_i", RVI.fence_i)].

Definition insns_m : list (string * body S) :=
  [("div", RVM.div); ("divu", RVM.divu); ("divuw", RVM.divuw); ("divw", RVM.divw); ("mul", RVM.mul);
   ("mulh", RVM.mulh); ("mulhsu", RVM.mulhsu); ("mulhu", RVM.mulhu); ("mulw", RVM.mulw); ("rem", RVM.rem);
   ("remu", RVM.remu); ("remuw", RVM.remuw); ("remw", RVM.remw)].

Definition insns_a : list (string * body S) :=
  [("amoadd_d", RVA.amoadd_d); ("amoadd_w", RVA.amoadd_w); ("amoand_d", RVA.amoand_d);
   ("amoand_w", RVA.amoand_w); ("amomax_d", RVA.amomax_d); ("amomaxu_d", RVA.amomaxu_d);
   ("amomaxu_w", RVA.amomaxu_w); ("amomax_w", RVA.amomax_w); ("amomin_d", RVA.amomin_d);
   ("amominu_d", RVA.amominu_d); ("amominu_w", RVA.amominu_w); ("amomin_w", RVA.amomin_w);
   ("amoor_d", RVA.amoor_d); ("amoor_w", RVA.amoor_w); ("amoswap_d", RVA.amoswap_d);
   ("amoswap_w", RVA.amoswap_w); ("amoxor_d", RVA.amoxor_d); ("amoxor_w", RVA.amoxor_w);
   ("lr_d", RVA.lr_d); ("lr_w", RVA.lr_w); ("sc_d", RVA.sc_d); ("sc_w", RVA.sc_w)].

Definition insns_c : list (string * body S) :=
  [("c_add", RVC.c_add); ("c_addi4spn", RVC.c_addi4spn); ("c_addi", RVC.c_addi); ("c_addw", RVC.c_addw);
   ("c_and", RVC.c_and); ("c_andi", RVC.c_andi); ("c_beqz", RVC.c_beqz); ("c_bnez", RVC.c_bnez);
   ("c_ebreak", RVC.c_ebreak); ("c_fld", RVC.c_fld); ("c_fldsp", RVC.c_fldsp); ("c_flw", RVC.c_flw);
   ("c_flwsp", RVC.c_flwsp); ("c_fsd", RVC.c_fsd); ("c_fsdsp", RVC.c_fsdsp); ("c_fsw", RVC.c_fsw);
   ("c_fswsp", RVC.c_fswsp); ("c_jal", RVC.c_jal); ("c_jalr", RVC.c_jalr); ("c_j", RVC.c_j);
   ("c_jr", RVC.c_jr); ("c_li", RVC.c_li); ("c_lui", RVC.c_lui); ("c_lw", RVC.c_lw); ("c_lwsp", RVC.c_lwsp);
   ("c_mv", RVC.c_mv); ("c_or", RVC.c_or); ("c_slli", RVC.c_slli); ("c_srai", RVC.c_srai);
   ("c_srli", RVC.c_srli); ("c_sub", RVC.c_sub); ("c_subw", RVC.c_subw); ("c_sw", RVC.c_sw);
   ("c_swsp", RVC.c_swsp); ("c_xor", RVC.c_xor)].

Definition insns_f : list (string * body S) :=
  [("fadd_s", RVF.fadd_s); ("fclass_s", RVF.fclass_s); ("fcvt_l_s", RVF.fcvt_l_s);
   ("fcvt_lu_s", RVF.fcvt_lu_s); ("fcvt_s_l", RVF.fcvt_s_l); ("fcvt_s_lu", RVF.fcvt_s_lu);
   ("fcvt_s_w", RVF.fcvt_s_w); ("fcvt_s_wu", RVF.fcvt_s_wu); ("fcvt_w_s", RVF.fcvt_w_s);
   ("fcvt_wu_s", RVF.fcvt_wu_s); ("fdiv_s", RVF.fdiv_s); ("feq_s", RVF.feq_s); ("fle_s", RVF.fle_s);
   ("flt_s", RVF.flt_s); ("flw", RVF.flw); ("fmadd_s", RVF.fmadd_s); ("fmax_s", RVF.fmax_s);
   ("fmin_s", RVF.fmin_s); ("fmsub_s", RVF.fmsub_s); ("fmul_s", RVF.fmul_s); ("fmv_w_x", RVF.fmv_w_x);
   ("fmv_x_w", RVF.fmv_x_w); ("fnmadd_s", RVF.fnmadd_s); ("fnmsub_s", RVF.fnmsub_s);
   ("fsgnj_s", RVF.fsgnj_s); ("fsgnjn_s", RVF.fsgnjn_s); ("fsgnjx_s", RVF.fsgnjx_s);
   ("fsqrt_s", RVF.fsqrt_s); ("fsub_s", RVF.fsub_s); ("fsw", RVF.fsw)].

Definition insns_d : list (string * body S) :=
  [("fadd_d", RVD.fadd_d); ("fclass_d", RVD.fclass_d); ("fcvt_d_l", RVD.fcvt_d_l);
   ("fcvt_d_lu", RVD.fcvt_d_lu); ("fcvt_d_s", RVD.fcvt_d_s); ("fcvt_d_w", RVD.fcvt_d_w);
   ("fcvt_d_wu", RVD.fcvt_d_wu); ("fcvt_l_d", RVD.fcvt_l_d); ("fcvt_lu_d", RVD.fcvt_lu_d);
   ("fcvt_s_d", RVD.fcvt_s_d); ("fcvt_w_d", RVD.fcvt_w_d); ("fcvt_wu_d", RVD.fcvt_wu_d);
   ("fdiv_d", RVD.fdiv_d); ("feq_d", RVD.feq_d); ("fld", RVD.fld); ("fle_d", RVD.fle_d);
   ("flt_d", RVD.flt_d); ("fmadd_d", RVD.fmadd_d); ("fmax_d", RVD.fmax_d); ("fmin_d", RVD.fmin_d);
   ("fmsub_d", RVD.fmsub_d); ("fmul_d", RVD.fmul_d); ("fmv_d_x", RVD.fmv_d_x); ("fmv_x_d", RVD.fmv_x_d);
   ("fnmadd_d", RVD.fnmadd_d); ("fnmsub_d", RVD.fnmsub_d); ("fsd", RVD.fsd); ("fsgnj_d", RVD.fsgnj_d);
   ("fsgnjn_d", RVD.fsgnjn_d); ("fsgnjx_d", RVD.fsgnjx_d); ("fsqrt_d", RVD.fsqrt_d); ("fsub_d", RVD.fsub_d)].

Definition insns_priv : list (string * body S) :=
  [("csrrc", Sys.csrrc); ("csrrci", Sys.csrrci); ("csrrs", Sys.csrrs); ("csrrsi", Sys.csrrsi);
   ("csrrw", Sys.csrrw); ("csrrwi", Sys.csrrwi); ("dret", Sys.dret); ("ebreak", Sys.ebreak);
   ("ecall", Sys.ecall); ("mret", Sys.mret); ("sfence_vma", Sys.sfence_vma); ("sret", Sys.sret);
   ("wfi", Sys.wfi)].

Definition insns_h : list (string * body S) :=
  [("hfence_gvma", Sys.hfence_gvma); ("hfence_vvma", Sys.hfence_vvma); ("hlv_b", Sys.hlv_b);
   ("hlv_bu", Sys.hlv_bu); ("hlv_h", Sys.hlv_h); ("hlv_hu", Sys.hlv_hu); ("hlvx_hu", Sys.hlvx_hu);
   ("hlv_w", Sys.hlv_w); ("hlv_wu", Sys.hlv_wu); ("hlvx_wu", Sys.hlvx_wu); ("hlv_d", Sys.hlv_d);
   ("hsv_b", Sys.hsv_b); ("hsv_h", Sys.hsv_h); ("hsv_w", Sys.hsv_w); ("hsv_d", Sys.hsv_d)].

Definition modelled_insns : list (string * body S) :=
  (insns_i ++ insns_m ++ insns_a ++ insns_f ++ insns_d ++ insns_c ++ insns_priv ++ insns_h)%list.

Definition insn_body (other : string -> body S) (name : string) : body S :=
  match List.find (fun e => String.eqb (fst e) name) modelled_insns with
  | Some (_, b) => b
  | None => other name
  end.

End Dispatch.

(** [OPCODE] in [insn_template.cc]: the [MATCH] constant of the instruction. *)
Definition OPCODE (name : string) : Z := default 0 (fst <$> match_mask name).

Section Execute.
Context {S : Type} `{!SimIf S}.
#[local] Notation M := (State.M S).
#[local] Notation hart := (State.hart S).
Variable other : string -> body S.

(** [rv32_NAME] and [rv64_NAME]. *)
Definition run_insn (xlen : Z) (name : string) (insn : insn_t) (pc : Z) : M Z :=
  insn_body other name xlen insn pc (u64 (sext_xlen xlen (pc +w insn_length (OPCODE name)))).

Definition run_func (f : insn_func_t) (insn : insn_t) (pc : Z) : M Z :=
  match f with
  | illegal_instruction => throw_trap (trap_illegal_instruction (Insn.bits insn))
  | rv32 name => run_insn 32 name insn pc
  | rv64 name => run_insn 64 name insn pc
  end.

Definition execute_insn (pc : Z) (fetch : insn_fetch_t) : M Z :=
  run_func (fetch_func fetch) (fetch_insn fetch) pc.

(** ** The local variables of [step] *)

Record locals := mk_locals { l_n : Z; l_instret : Z; l_pc : Z }.

Definition L (A : Type) : Type := locals -> hart -> (exn + A) * locals * hart.

Definition lret {A} (a : A) : L A := fun l h => (inr a, l, h).
Definition lbind {A B} (m : L A) (k : A -> L B) : L B := fun l h =>
  match m l h with
  | (inr a, l', h') => k a l' h'
  | (inl e, l', h') => (inl e, l', h')
  end.
(** A member function. *)
Definition call {A} (m : M A) : L A := fun l h => let '(r, h') := m h in (r, l, h').
Definition get_l {A} (f : locals -> A) : L A := fun l h => (inr (f l), l, h).
Definition set_l (f : locals -> locals) : L unit := fun l h => (inr tt, f l, h).

#[local] Notation "x <- m ;; k" := (lbind m (fun x => k)) (at level 100, m at next level, right associativity).
#[local] Notation "m ;; k" := (lbind m (fun _ => k)) (at level 100, right associativity).

Definition set_n (x : Z) : L unit := set_l (fun l => mk_locals x (l_instret l) (l_pc l)).
Definition set_instret (x : Z) : L unit := set_l (fun l => mk_locals (l_n l) x (l_pc l)).
Definition set_lpc (x : Z) : L unit := set_l (fun l => mk_locals (l_n l) (l_instret l) x).

(** [advance_pc()]; [true] if it leaves the loop. *)
Definition advance_pc : L bool :=
  l <- get_l (fun l => l) ;;
  if invalid_pc (l_pc l) then
    (if l_pc l =? PC_SERIALIZE_BEFORE then call (upd (fun s => s <| serialized := true |>))
     else if l_pc l =? PC_SERIALIZE_AFTER then set_instret (l_instret l + 1)
     else if l_pc l =? PC_SERIALIZE_WFI then
       set_instret (l_instret l + 1) ;; set_n (l_instret l + 1)
     else call (throw E_abort)) ;;
    s <- call (gets st) ;;
    set_lpc (pc s) ;;
    lret true
  else
    call (upd (fun s => s <| pc := l_pc l |>)) ;;
    set_instret (l_instret l + 1) ;;
    lret false.

(** [mcontrol_action_t] *)
Definition ACTION_DEBUG_EXCEPTION : Z := MCONTROL_ACTION_DEBUG_EXCEPTION.
Definition ACTION_DEBUG_MODE : Z := MCONTROL_ACTION_DEBUG_MODE.

(** [slow_path]; logging ([debug]) is off. *)
Definition slow_path (s : state_t) : bool :=
  negb (bool_decide (single_step s = STEP_NONE)) || debug_mode s.

Variable intrs : gmap Z Z.

(** The loop of the slow path.  [fuel] bounds the iterations: each one leaves
    the loop or increments [instret]. *)
Fixpoint slow_loop (fuel : nat) : L unit :=
  match fuel with
  | O => lret tt
  | Datatypes.S fuel' =>
    l <- get_l (fun l => l) ;;
    if negb (l_instret l <? l_n l) then lret tt
    else
      s <- call (gets st) ;;
      let stepped := negb (serialized s) && bool_decide (single_step s = STEP_STEPPED) in
      (if stepped then call (upd (fun s => s <| single_step := STEP_NONE |>)) else lret tt) ;;
      if stepped && negb (debug_mode s) then call (enter_debug_mode DCSR_CAUSE_STEP)
      else
        call (upd (fun s => if bool_decide (single_step s = STEP_STEPPING)
                            then s <| single_step := STEP_STEPPED |> else s)) ;;
        call (assert_int intrs (l_pc l)) ;;
        fetch <- call (load_insn (l_pc l)) ;;
        npc <- call (execute_insn (l_pc l) fetch) ;;
        set_lpc npc ;;
        leave <- advance_pc ;;
        if (leave : bool) then lret tt else slow_loop fuel'
  end.

(** The [switch] over the cache entries: [cases] is the number of cases from
    the current one to the last. *)
Fixpoint icache_run (cases : nat) (entry : icache_entry_t) : L unit :=
  match cases with
  | O => lret tt
  | Datatypes.S cases' =>
    l <- get_l (fun l => l) ;;
    call (assert_int intrs (l_pc l)) ;;
    npc <- call (execute_insn (l_pc l) (ic_data entry)) ;;
    set_lpc npc ;;
    m <- call (gets mmu) ;;
    let next := icache_at m (ic_next entry) in
    match cases' with
    | O => lret tt
    | Datatypes.S _ =>
      if negb (ic_tag next =? npc) then lret tt
      else if l_instret l + 1 =? l_n l then lret tt
      else
        set_instret (l_instret l + 1) ;;
        call (upd (fun s => s <| pc := npc |>)) ;;
        icache_run cases' next
    end
  end.

Fixpoint fast_loop (fuel : nat) : L unit :=
  match fuel with
  | O => lret tt
  | Datatypes.S fuel' =>
    l <- get_l (fun l => l) ;;
    if negb (l_instret l <? l_n l) then lret tt
    else
      entry <- call (access_icache (l_pc l)) ;;
      icache_run (Z.to_nat (ICACHE_ENTRIES - icache_index (l_pc l))) entry ;;
      leave <- advance_pc ;;
      if (leave : bool) then lret tt else fast_loop fuel'
  end.

(** The [try] block. *)
Definition step_body : L unit :=
  call take_pending_interrupt ;;
  s <- call (gets st) ;;
  l <- get_l (fun l => l) ;;
  if slow_path s then slow_loop (Z.to_nat (l_n l)) else fast_loop (Z.to_nat (l_n l)).

(** The [catch] clauses; [true] for the [break] of [advance_pc] in the second
    one, which leaves the outer loop. *)
Definition catch_trap (t : trap_t) : L bool :=
  l <- get_l (fun l => l) ;;
  call (take_trap t (l_pc l)) ;;
  set_n (l_instret l) ;;
  s <- call (gets st) ;;
  (if bool_decide (single_step s = STEP_STEPPED) then
     call (upd (fun s => s <| single_step := STEP_NONE |>)) ;;
     call (enter_debug_mode DCSR_CAUSE_STEP)
   else lret tt) ;;
  lret false.

Definition trigger_action (t : trigger_matched_t) : L unit :=
  l <- get_l (fun l => l) ;;
  s <- call (gets st) ;;
  let action := mc_action (get_mcontrol s (tm_index t)) in
  if action =? ACTION_DEBUG_MODE then call (enter_debug_mode DCSR_CAUSE_HWBP)
  else if action =? ACTION_DEBUG_EXCEPTION then
    call (take_trap (trap_breakpoint (tm_address t)) (l_pc l))
  else call (throw E_abort).

Definition catch_trigger (t : trigger_matched_t) : L bool :=
  m <- call (gets mmu) ;;
  leave <-
    (if match matched_trigger m with Some _ => true | None => false end then
       l <- get_l (fun l => l) ;;
       fetch <- call (load_insn (l_pc l)) ;;
       npc <- call (execute_insn (l_pc l) fetch) ;;
       set_lpc npc ;;
       leave <- advance_pc ;;
       if (leave : bool) then lret true
       else
         call (modify (fun h => h <| mmu ::= fun m => m <| matched_trigger := None |> |>)) ;;
         lret false
     else lret false) ;;
  if (leave : bool) then lret true else trigger_action t ;; lret false.

Definition catch_wfi : L bool := l <- get_l (fun l => l) ;; set_n (l_instret l) ;; lret false.

Definition catch_exn (e : exn) : L bool :=
  match e with
  | E_trap t => catch_trap t
  | E_trigger t => catch_trigger t
  | E_wfi => catch_wfi
  | E_abort => call (throw E_abort)
  end.

(** One iteration of [while (n > 0)]: what is left of [n], unless the loop is
    left by an exception or by [break]. *)
Definition step_iteration (n : Z) : hart -> (exn + option Z) * hart := fun h =>
  let finish l h : (exn + option Z) * hart :=
    (inr (Some (l_n l - l_instret l)),
     h <| st ::= fun s => s <| minstret := minstret s +w l_instret l |> |>) in
  match step_body (mk_locals n 0 (pc (st h))) h with
  | (inr tt, l, h') => finish l h'
  | (inl e, l, h') =>
    match catch_exn e l h' with
    | (inr false, l', h'') => finish l' h''
    | (inr true, _, h'') => (inr None, h'')
    | (inl e', _, h'') => (inl e', h'')
    end
  end.

Fixpoint step_loop (fuel : nat) (n : Z) (h : hart) : option ((exn + unit) * hart) :=
  if negb (0 <? n) then Some (inr tt, h)
  else
    match fuel with
    | O => None
    | Datatypes.S fuel' =>
      match step_iteration n h with
      | (inr (Some n'), h') => step_loop fuel' n' h'
      | (inr None, h') => Some (inr tt, h')
      | (inl e, h') => Some (inl e, h')
      end
    end.

(** The halt requests at the head of [step]. *)
Definition halt_requests : M unit := fun h =>
  if debug_mode (st h) then (inr tt, h)
  else match halt_request (proc h) with
       | HR_REGULAR => enter_debug_mode DCSR_CAUSE_DEBUGINT h
       | HR_GROUP => enter_debug_mode DCSR_CAUSE_GROUP h
       | HR_NONE => if dcsr_halt (dcsr (st h)) then enter_debug_mode DCSR_CAUSE_HALT h else (inr tt, h)
       end.

Definition step (fuel : nat) (n : Z) (h : hart) : option ((exn + unit) * hart) :=
  match halt_requests h with
  | (inr tt, h') => step_loop fuel n h'
  | (inl e, h') => Some (inl e, h')
  end.

End Execute.
