(* ===== verification/Fields.v ===== *)
(** * Fields: bit fields of control registers

    [get_field] and [set_field] of [riscv/decode.h] on a contiguous mask are
    reading and writing the bits of the field; the masked merge of the CSR
    writers selects bit by bit.  Every mask of the CSR code is an instance. *)
From Stdlib Require Import ZArith Lia Bool List.
From stdpp Require Import base list gmap.
From S2P Require Import Prelude Arith Encoding Decode State Processor Pmp Mmu Csr.
#[local] Open Scope Z_scope.
#[local] Open Scope word_scope.

(** The mask of [w] bits from bit [k]. *)
Definition field (k w : Z) : Z := Z.shiftl (Z.ones w) k.

Lemma field_testbit k w i : 0 <= k -> 0 <= w -> 0 <= i ->
  Z.testbit (field k w) i = (k <=? i) && (i <? k + w).
Proof.
  intros. unfold field. destruct (Z.leb_spec k i).
  - rewrite Z.shiftl_spec, Z.testbit_ones by lia. bcases; try reflexivity; lia.
  - now rewrite Z.shiftl_spec_low by lia.
Qed.

Lemma field_lsb_pow k w : 0 <= k -> 0 < w -> field_lsb (field k w) = 2 ^ k.
Proof.
  intros. unfold field_lsb. bits i.
  rewrite Z.land_spec, Z.lnot_spec, Z.pow2_bits_eqb by lia.
  destruct (Z.eq_dec i 0) as [->|].
  - rewrite Z.shiftl_spec_low by lia. rewrite field_testbit by lia. cbn [negb]. bcases; try reflexivity; lia.
  - rewrite Z.shiftl_spec by lia. rewrite !field_testbit by lia. bcases; try reflexivity; lia.
Qed.

Lemma get_field_bits k w reg : 0 <= k -> 0 < w -> get_field reg (field k w) = (reg / 2 ^ k) mod 2 ^ w.
Proof.
  intros. unfold get_field. rewrite field_lsb_pow by lia.
  rewrite <- Z.shiftr_div_pow2 by lia. unfold field. rewrite Z.shiftr_land.
  rewrite Z.shiftr_shiftl_l by lia. rewrite Z.sub_diag, Z.shiftl_0_r, Z.land_ones by lia.
  now rewrite Z.shiftr_div_pow2 by lia.
Qed.

Lemma get_field_testbit k w reg i : 0 <= k -> 0 < w -> 0 <= i ->
  Z.testbit (get_field reg (field k w)) i = (i <? w) && Z.testbit reg (i + k).
Proof.
  intros. rewrite get_field_bits by lia. fold (uw w (reg / 2 ^ k)).
  rewrite uw_testbit by lia. now rewrite Z.div_pow2_bits by lia.
Qed.

Lemma set_field_testbit k w reg v i : 0 <= k -> 0 < w -> k + w <= 64 -> 0 <= i < 64 ->
  Z.testbit (set_field reg (field k w) v) i =
  if (k <=? i) && (i <? k + w) then Z.testbit v (i - k) else Z.testbit reg i.
Proof.
  intros. unfold set_field. rewrite field_lsb_pow by lia.
  rewrite Z.lor_spec, !Z.land_spec, not64_bits, field_testbit by lia.
  unfold mul64. rewrite uw_testbit by lia.
  rewrite <- Z.shiftl_mul_pow2, Z.shiftl_spec by lia.
  replace (i <? 64) with true by lia.
  destruct ((k <=? i) && (i <? k + w)); cbn; now rewrite ?andb_false_r, ?andb_true_r, ?orb_false_r.
Qed.

(** Reading back a field just written, and another field. *)
Lemma get_set_field_same k w reg v : 0 <= k -> 0 < w -> k + w <= 64 ->
  get_field (set_field reg (field k w) v) (field k w) = v mod 2 ^ w.
Proof.
  intros. bits i. rewrite get_field_testbit by lia. fold (uw w v). rewrite uw_testbit by lia.
  destruct (Z.ltb_spec i w); [|reflexivity].
  rewrite set_field_testbit by lia. replace ((k <=? i + k) && (i + k <? k + w)) with true by (bcases; lia || reflexivity).
  cbn. f_equal. lia.
Qed.

Lemma get_set_field_other k w k' w' reg v : 0 <= k -> 0 < w -> k + w <= 64 ->
  0 <= k' -> 0 < w' -> k' + w' <= 64 -> k + w <= k' \/ k' + w' <= k ->
  get_field (set_field reg (field k w) v) (field k' w') = get_field reg (field k' w').
Proof.
  intros. bits i. rewrite !get_field_testbit by lia. destruct (Z.ltb_spec i w'); [|reflexivity].
  cbn. rewrite set_field_testbit by lia.
  replace ((k <=? i + k') && (i + k' <? k + w)) with false by (bcases; lia || reflexivity). reflexivity.
Qed.

(** A one-bit field is the bit. *)
Lemma get_field_bit k reg : 0 <= k -> get_field reg (field k 1) = b2z (Z.testbit reg k).
Proof.
  intros. rewrite get_field_bits by lia. change (2 ^ 1) with 2.
  rewrite <- Z.bit0_mod, Z.div_pow2_bits by lia. now rewrite Z.add_0_l.
Qed.

Lemma merge_testbit reg mask v i : 0 <= i < 64 ->
  Z.testbit (merge reg mask v) i = if Z.testbit mask i then Z.testbit v i else Z.testbit reg i.
Proof.
  intros. unfold merge. rewrite Z.lor_spec, !Z.land_spec, not64_bits by lia.
  replace (i <? 64) with true by lia.
  destruct (Z.testbit mask i); cbn; now rewrite ?andb_false_r, ?andb_true_r, ?orb_false_r.
Qed.

Lemma set_field_fits k w reg v : 0 <= k -> 0 < w -> k + w <= 64 -> fits 64 reg ->
  fits 64 (set_field reg (field k w) v).
Proof.
  intros. unfold set_field. apply lor_fits; [lia|now apply land_fits_l|].
  apply land_fits_l; [lia|]. apply uw_fits. lia.
Qed.

Lemma merge_fits reg mask v : fits 64 reg -> fits 64 v -> fits 64 (merge reg mask v).
Proof. intros. unfold merge. apply lor_fits; try apply land_fits_l; auto; lia. Qed.
