(* ===== verification/CsrFacts.v ===== *)
(** * CsrFacts: what the control registers guarantee

    The legal values of [mstatus] and of the other WARL registers, the
    invariant [csr_inv] of the privileged state that [set_csr] preserves for
    every register and every value written, the lock bits of the PMP, and the
    views of the registers that share storage. *)
From Stdlib Require Import ZArith Lia Bool List.
From stdpp Require Import base list gmap.
From S2P Require Import Prelude Arith Encoding Decode State Processor Pmp Mmu Csr TrapEntry Fields.
#[local] Open Scope Z_scope.
#[local] Open Scope word_scope.
#[local] Open Scope record_scope.
#[local] Open Scope monad_scope.

(** ** [mstatus] *)

(** Case analysis on every [supports_extension] and [has_ext] of the goal. *)
Ltac extensions :=
  repeat match goal with
  | |- context [supports_extension ?s ?p ?c] => generalize (supports_extension s p c); intros []
  | |- context [has_ext ?p] => generalize (has_ext p); intros []
  end.

Lemma supports_bit s p c : chr_A <= c <= chr_Z -> supports_extension s p c = Z.testbit (misa s) (c - chr_A).
Proof.
  intros [H1 H2]. unfold supports_extension. unfold chr_A in *.
  replace (65 <=? c) with true by lia. replace (c <=? chr_Z) with true by lia. cbn [andb].
  change 1 with (2 ^ 0). rewrite z2b_land_pow2, Z.shiftr_spec by lia. reflexivity.
Qed.

Section Mstatus.
Variables (s : state_t) (p : processor_t).

Lemma legalize_range x : 0 <= x <= 3 -> 0 <= legalize_privilege s p x <= 3.
Proof.
  unfold legalize_privilege, PRV_M, PRV_U. intros. destruct (negb _); [lia|]. destruct (_ || _); lia.
Qed.

Lemma legalize_idem x : legalize_privilege s p (legalize_privilege s p x) = legalize_privilege s p x.
Proof.
  unfold legalize_privilege.
  destruct (supports_extension s p chr_U); cbn [negb]; [|reflexivity].
  destruct ((x =? PRV_HS) && _ || _) eqn:E; [reflexivity|]. now rewrite E.
Qed.

Lemma get_mpp_range x : 0 <= get_field x MSTATUS_MPP <= 3.
Proof. change MSTATUS_MPP with (field 11 2). rewrite get_field_bits by lia. pose proof (Z.mod_pos_bound (x / 2 ^ 11) (2 ^ 2)). lia. Qed.

Lemma with_sd_bit m i : 0 <= i < 64 ->
  Z.testbit (mstatus_with_sd p m) i =
  if i =? (if max_xlen p =? 32 then 31 else 63) then mstatus_dirty m else Z.testbit m i.
Proof.
  intros Hi. unfold mstatus_with_sd. generalize (mstatus_dirty m). intros d.
  change MSTATUS32_SD with (field 31 1). change MSTATUS64_SD with (field 63 1).
  destruct (max_xlen p =? 32); rewrite set_field_testbit by lia.
  - destruct (Z.eqb_spec i 31) as [->|]; [now destruct d|].
    now replace ((31 <=? i) && (i <? 31 + 1)) with false by (bcases; lia || reflexivity).
  - destruct (Z.eqb_spec i 63) as [->|]; [now destruct d|].
    now replace ((63 <=? i) && (i <? 63 + 1)) with false by (bcases; lia || reflexivity).
Qed.

Lemma with_xl_bit uxl m i : 0 <= i < 32 \/ 36 <= i < 64 ->
  Z.testbit (mstatus_with_xl s p uxl m) i = Z.testbit m i.
Proof.
  intros Hi. unfold mstatus_with_xl.
  change MSTATUS_UXL with (field 32 2). change MSTATUS_SXL with (field 34 2).
  assert (U : forall m', Z.testbit (set_field m' (field 34 2) uxl) i = Z.testbit m' i).
  { intros m'. rewrite set_field_testbit by lia.
    now replace ((34 <=? i) && (i <? 34 + 2)) with false by (bcases; lia || reflexivity). }
  assert (V : Z.testbit (set_field m (field 32 2) uxl) i = Z.testbit m i).
  { rewrite set_field_testbit by lia.
    now replace ((32 <=? i) && (i <? 32 + 2)) with false by (bcases; lia || reflexivity). }
  destruct (supports_extension s p chr_S), (supports_extension s p chr_U); rewrite ?U, ?V; reflexivity.
Qed.

Lemma merge_mstatus_bit val i : 0 <= i < 64 ->
  Z.testbit (merge_mstatus s p val) i =
    (if Z.testbit (mstatus_mask s p) i then Z.testbit val i
     else if (11 <=? i) && (i <? 13)
          then Z.testbit (legalize_privilege s p (get_field val MSTATUS_MPP)) (i - 11)
          else Z.testbit (mstatus s) i)
    || (Z.testbit MSTATUS_FS i && z2b (val &w MSTATUS_FS)).
Proof.
  intros Hi. unfold merge_mstatus. change MSTATUS_MPP with (field 11 2).
  rewrite !Z.lor_spec, !Z.land_spec, not64_bits, set_field_testbit by lia.
  change (11 + 2) with 13. replace (i <? 64) with true by lia.
  generalize (z2b (val &w MSTATUS_FS)). intros [];
    rewrite ?Z.bits_0, ?andb_true_r, ?andb_false_r, ?orb_false_r;
    destruct (Z.testbit (mstatus_mask s p) i), (Z.testbit MSTATUS_FS i); cbn;
    rewrite ?andb_true_r, ?andb_false_r, ?orb_false_r, ?orb_true_r; reflexivity.
Qed.

(** The bits of a written [mstatus], UXL and SXL apart. *)
Lemma write_mstatus_bit val m i : write_mstatus s p val = Some m -> 0 <= i < 32 \/ 36 <= i < 64 ->
  Z.testbit m i =
    if i =? (if max_xlen p =? 32 then 31 else 63) then mstatus_dirty (merge_mstatus s p val)
    else Z.testbit (merge_mstatus s p val) i.
Proof.
  intros E Hi. unfold write_mstatus in E.
  destruct (xlen_to_uxl _) as [u|].
  - apply (inj Some) in E. rewrite <- E, with_xl_bit by auto. apply with_sd_bit. lia.
  - destruct (_ || _); [discriminate|]. apply (inj Some) in E. rewrite <- E. apply with_sd_bit. lia.
Qed.

Lemma full_field2 m k : 0 <= k ->
  ((m &w field k 2) =? field k 2) = Z.testbit m k && Z.testbit m (k + 1).
Proof.
  intros Hk. destruct (Z.eqb_spec (m &w field k 2) (field k 2)) as [E|N].
  - assert (B : forall i, Z.testbit (field k 2) i = true -> Z.testbit m i = true).
    { intros i Hi. rewrite <- E, Z.land_spec in Hi. now apply andb_true_iff in Hi. }
    rewrite !B; [reflexivity|rewrite field_testbit by lia; bcases; lia || reflexivity..].
  - destruct (Z.testbit m k) eqn:B0, (Z.testbit m (k + 1)) eqn:B1; try reflexivity.
    exfalso. apply N. bits i. rewrite Z.land_spec, field_testbit by lia.
    destruct ((k <=? i) && (i <? k + 2)) eqn:R; [|apply andb_false_r].
    assert (i = k \/ i = k + 1) as [-> | ->] by (bcases; cbn in R; lia); now rewrite ?B0, ?B1.
Qed.

Lemma mstatus_dirty_bits m : mstatus_dirty m =
  Z.testbit m 13 && Z.testbit m 14 || Z.testbit m 15 && Z.testbit m 16
  || Z.testbit m 9 && Z.testbit m 10.
Proof.
  unfold mstatus_dirty. change MSTATUS_FS with (field 13 2). change MSTATUS_XS with (field 15 2).
  change MSTATUS_VS with (field 9 2). now rewrite !full_field2 by lia.
Qed.

(** What a write of [mstatus] establishes. *)
Section Written.
Variables (val m : Z).
Hypothesis E : write_mstatus s p val = Some m.

Lemma written_mpp : get_field m MSTATUS_MPP = legalize_privilege s p (get_field val MSTATUS_MPP).
Proof.
  pose proof (legalize_range _ (get_mpp_range val)) as R.
  change MSTATUS_MPP with (field 11 2) at 1. bits i. rewrite get_field_testbit by lia.
  destruct (Z.ltb_spec i 2) as [Hi|Hi].
  - cbn [andb]. rewrite (write_mstatus_bit val m) by (auto; lia).
    replace (i + 11 =? _) with false by (destruct (max_xlen p =? 32); lia).
    rewrite merge_mstatus_bit by lia.
    replace (Z.testbit (mstatus_mask s p) (i + 11)) with false
      by (assert (i = 0 \/ i = 1) as [-> | ->] by lia; unfold mstatus_mask; extensions; reflexivity).
    replace (Z.testbit MSTATUS_FS (i + 11)) with false
      by (assert (i = 0 \/ i = 1) as [-> | ->] by lia; reflexivity).
    replace ((11 <=? i + 11) && (i + 11 <? 13)) with true by (bcases; lia || reflexivity).
    cbn. rewrite orb_false_r. f_equal. lia.
  - symmetry. apply (fits_testbit 2); unfold fits; lia.
Qed.

Lemma written_bit i : (i = 3 \/ i = 7 \/ i = 17 \/ i = 19 \/ i = 20 \/ i = 21 \/ i = 22) ->
  Z.testbit m i = Z.testbit val i.
Proof.
  intros Hi. rewrite (write_mstatus_bit val m) by (auto; lia).
  replace (i =? _) with false by (destruct (max_xlen p =? 32); lia).
  rewrite merge_mstatus_bit by lia.
  replace (Z.testbit (mstatus_mask s p) i) with true
    by (intuition (subst; unfold mstatus_mask; extensions; reflexivity)).
  replace (Z.testbit MSTATUS_FS i) with false by (intuition (subst; reflexivity)).
  apply orb_false_r.
Qed.

Lemma written_fs : Z.testbit (mstatus s) 13 = Z.testbit (mstatus s) 14 ->
  Z.testbit m 13 = Z.testbit m 14.
Proof.
  intros H. rewrite !(write_mstatus_bit val m) by (auto; lia).
  replace (13 =? _) with false by (destruct (max_xlen p =? 32); lia).
  replace (14 =? _) with false by (destruct (max_xlen p =? 32); lia).
  rewrite !merge_mstatus_bit by lia.
  replace (Z.testbit (mstatus_mask s p) 14) with (Z.testbit (mstatus_mask s p) 13)
    by (unfold mstatus_mask; extensions; reflexivity).
  change (Z.testbit MSTATUS_FS 13) with true. change (Z.testbit MSTATUS_FS 14) with true.
  cbn [andb]. destruct (Z.testbit (mstatus_mask s p) 13); cbn [Z.leb Z.ltb Z.compare Pos.compare Pos.compare_cont andb];
    [|now rewrite H].
  destruct (z2b (val &w MSTATUS_FS)) eqn:Z; [now rewrite !orb_true_r|].
  apply z2b_false in Z. rewrite !orb_false_r.
  assert (B : forall i, Z.testbit MSTATUS_FS i = true -> Z.testbit val i = false).
  { intros i Hi. pose proof (f_equal (fun x => Z.testbit x i) Z) as T. cbv beta in T.
    rewrite Z.land_spec, Hi, Z.bits_0, andb_true_r in T. exact T. }
  now rewrite !B.
Qed.

Lemma written_dirty : mstatus_dirty (merge_mstatus s p val) = mstatus_dirty m.
Proof.
  rewrite !mstatus_dirty_bits, !(write_mstatus_bit val m) by (auto; lia).
  now destruct (max_xlen p =? 32).
Qed.

Lemma written_sd : Z.testbit m (if max_xlen p =? 32 then 31 else 63) = mstatus_dirty m.
Proof.
  rewrite (write_mstatus_bit val m) by (auto; destruct (max_xlen p =? 32); lia).
  rewrite Z.eqb_refl. apply written_dirty.
Qed.

End Written.

Lemma write_mstatus_total val : max_xlen p = 32 \/ max_xlen p = 64 -> exists m, write_mstatus s p val = Some m.
Proof. intros [H|H]; unfold write_mstatus, xlen_to_uxl; rewrite H; cbn [Z.eqb Pos.eqb]; eauto. Qed.

End Mstatus.

(** ** The invariant of the privileged state

    For processors without the hypervisor extension (with it, [mstatus.MPP]
    can hold the reserved mode 2, on which translation aborts). *)

Definition sd_position (p : processor_t) : Z := if max_xlen p =? 32 then 31 else 63.

(** The interrupts [mie] can enable. *)
Definition known_ints : Z := MIP_SSIP |w MIP_STIP |w MIP_SEIP |w MIP_MSIP |w MIP_MTIP |w MIP_MEIP
  |w MIP_HS_MASK |w Z.shiftl 1 IRQ_COP.

(** Those [mideleg] can delegate. *)
Definition deleg_ints : Z := MIP_SSIP |w MIP_STIP |w MIP_SEIP |w Z.shiftl 1 IRQ_COP.

Record csr_inv (s : state_t) (p : processor_t) : Prop := mk_csr_inv {
  inv_xlen : xlen p = max_xlen p /\ (max_xlen p = 32 \/ max_xlen p = 64);
  inv_virt : v_ s = false;
  inv_noH : Z.testbit (misa s) 7 = false /\ Z.testbit (max_isa p) 7 = false;
  inv_prv : 0 <= prv s <= 3 /\ legalize_privilege s p (prv s) = prv s;
  inv_mpp : legalize_privilege s p (get_field (mstatus s) MSTATUS_MPP) = get_field (mstatus s) MSTATUS_MPP;
  inv_fs : Z.testbit (mstatus s) 13 = Z.testbit (mstatus s) 14;
  inv_sd : Z.testbit (mstatus s) (sd_position p) = mstatus_dirty (mstatus s);
  inv_mpv : Z.testbit (mstatus s) 39 = false;
  inv_satp : max_xlen p = 64 -> satp_mode_ok (satp s) = true;
  inv_mie : forall i, 0 <= i -> Z.testbit (mie s) i = true -> Z.testbit known_ints i = true;
  inv_mideleg : forall i, 0 <= i -> Z.testbit (mideleg s) i = true -> Z.testbit deleg_ints i = true;
  inv_lengths : length (pmpcfg s) = max_pmp /\ length (pmpaddr s) = max_pmp /\
                length (mcontrol s) = num_triggers /\ length (tdata2 s) = num_triggers;
  inv_tselect : 0 <= tselect s < Z.of_nat num_triggers
}.

(** Rebuild the invariant after an update of fields it does not mention. *)
Ltac inv_same :=
  match goal with H : csr_inv _ _ |- _ => destruct H; constructor; assumption end.

Section Preservation.
Implicit Types (s : state_t) (p : processor_t).

Lemma noH s p : csr_inv s p -> supports_extension s p chr_H = false.
Proof. intros I. rewrite supports_bit by (unfold chr_H, chr_A, chr_Z; lia). apply I. Qed.

(** Setting FS (or VS) together with SD. *)
Lemma inv_set_dirty s p k : csr_inv s p -> k = 9 \/ k = 13 ->
  csr_inv (s <| mstatus := mstatus s |w (field k 2 |w sd_bit (xlen p)) |>) p.
Proof.
  intros [] Hk. destruct inv_xlen0 as [Ex Hx].
  set (m := mstatus s |w (field k 2 |w sd_bit (xlen p))).
  assert (B : forall i, 0 <= i -> Z.testbit m i =
    Z.testbit (mstatus s) i || ((k <=? i) && (i <? k + 2)) || (i =? sd_position p)).
  { intros i Hi. unfold m. rewrite !Z.lor_spec, field_testbit by lia.
    replace (Z.testbit (sd_bit (xlen p)) i) with (i =? sd_position p); [now rewrite orb_assoc|].
    unfold sd_bit, sd_position. rewrite Ex. destruct Hx as [-> | ->]; cbn [Z.eqb Pos.eqb];
      [change MSTATUS32_SD with (2 ^ 31)|change MSTATUS64_SD with (2 ^ 63)];
      rewrite Z.pow2_bits_eqb by lia; apply Z.eqb_sym. }
  constructor; try assumption; try exact (conj Ex Hx); fold m.
  - change (legalize_privilege s p (get_field m MSTATUS_MPP) = get_field m MSTATUS_MPP).
    replace (get_field m MSTATUS_MPP) with (get_field (mstatus s) MSTATUS_MPP); [exact inv_mpp0|].
    change MSTATUS_MPP with (field 11 2). bits i. rewrite !get_field_testbit, B by lia.
    destruct (Z.ltb_spec i 2); [|reflexivity].
    replace ((k <=? i + 11) && (i + 11 <? k + 2)) with false by (bcases; lia || reflexivity).
    replace (i + 11 =? sd_position p) with false by (unfold sd_position; destruct (max_xlen p =? 32); lia).
    now rewrite !orb_false_r.
  - change (Z.testbit m 13 = Z.testbit m 14). rewrite !B by lia. unfold sd_position.
    destruct Hk as [-> | ->]; destruct (max_xlen p =? 32); cbn; now rewrite ?orb_true_r, ?orb_false_r, ?inv_fs0.
  - change (Z.testbit m (sd_position p) = mstatus_dirty m). rewrite mstatus_dirty_bits, !B by (unfold sd_position; try destruct (max_xlen p =? 32); lia).
    rewrite Z.eqb_refl, orb_true_r.
    destruct Hk as [-> | ->]; cbn; now rewrite ?orb_true_r.
  - change (Z.testbit m 39 = false). rewrite B, inv_mpv0 by lia. unfold sd_position.
    destruct Hk as [-> | ->]; now destruct (max_xlen p =? 32).
Qed.

Lemma inv_dirty_fp s p : csr_inv s p -> csr_inv (dirty_fp_state p s) p.
Proof. intros I. apply (inv_set_dirty s p 13 I). now right. Qed.
Lemma inv_dirty_vs s p : csr_inv s p -> csr_inv (dirty_vs_state p s) p.
Proof. intros I. apply (inv_set_dirty s p 9 I). now left. Qed.

Lemma written_mpv s p val m : write_mstatus s p val = Some m -> supports_extension s p chr_H = false ->
  Z.testbit (mstatus s) 39 = false -> Z.testbit m 39 = false.
Proof.
  intros E H M. rewrite (write_mstatus_bit s p val m) by (auto; lia).
  replace (39 =? _) with false by (destruct (max_xlen p =? 32); lia).
  rewrite merge_mstatus_bit by lia. unfold mstatus_mask. rewrite H, andb_false_r. cbn [iff_].
  extensions; cbn [iff_ orb]; rewrite ?M; reflexivity.
Qed.

(** A write of [mstatus] needs, and re-establishes, less than the invariant. *)
Lemma inv_written s p val m : write_mstatus s p val = Some m ->
  (max_xlen p = 32 \/ max_xlen p = 64) -> v_ s = false ->
  Z.testbit (misa s) 7 = false /\ Z.testbit (max_isa p) 7 = false ->
  0 <= prv s <= 3 /\ legalize_privilege s p (prv s) = prv s ->
  Z.testbit (mstatus s) 13 = Z.testbit (mstatus s) 14 -> Z.testbit (mstatus s) 39 = false ->
  (max_xlen p = 64 -> satp_mode_ok (satp s) = true) ->
  (forall i, 0 <= i -> Z.testbit (mie s) i = true -> Z.testbit known_ints i = true) ->
  (forall i, 0 <= i -> Z.testbit (mideleg s) i = true -> Z.testbit deleg_ints i = true) ->
  length (pmpcfg s) = max_pmp /\ length (pmpaddr s) = max_pmp /\
    length (mcontrol s) = num_triggers /\ length (tdata2 s) = num_triggers ->
  0 <= tselect s < Z.of_nat num_triggers ->
  csr_inv (s <| mstatus := m |>) (p <| xlen := max_xlen p |>).
Proof.
  intros E Hx HV HH HP HF HM HS HI HD HL HT. constructor; try assumption.
  - split; [reflexivity|exact Hx].
  - change (legalize_privilege s p (get_field m MSTATUS_MPP) = get_field m MSTATUS_MPP).
    rewrite (written_mpp s p val m E). apply legalize_idem.
  - now apply (written_fs s p val m E).
  - apply (written_sd s p val m E).
  - apply (written_mpv s p val m E); [|exact HM].
    rewrite supports_bit by (unfold chr_H, chr_A, chr_Z; lia). apply HH.
Qed.

Lemma inv_write_mstatus s p val m : csr_inv s p -> write_mstatus s p val = Some m ->
  csr_inv (s <| mstatus := m |>) (p <| xlen := max_xlen p |>).
Proof. intros [[] ?] E. now apply (inv_written s p val m). Qed.

Lemma inv_mip s p v : csr_inv s p -> csr_inv (s <| mip := v |>) p.
Proof. intros []. constructor; assumption. Qed.

(** Legal translation registers. *)
Lemma legal_satp_ok p val : max_xlen p = 64 -> satp_mode_ok (legal_satp p val) = true.
Proof.
  intros Hx. unfold legal_satp. rewrite Hx. cbn [Z.eqb Pos.eqb andb].
  destruct (satp_mode_ok val) eqn:E; [|reflexivity]. rewrite <- E. unfold satp_mode_ok.
  replace (get_field (val &w ((SATP64_PPN &w rv64_ppn_mask) |w SATP64_MODE)) SATP64_MODE)
    with (get_field val SATP64_MODE); [reflexivity|].
  unfold get_field. f_equal. rewrite <- Z.land_assoc. f_equal.
Qed.

Lemma inv_mie_merge s p mask v : csr_inv s p ->
  (forall i, 0 <= i -> Z.testbit mask i = true -> Z.testbit known_ints i = true) ->
  csr_inv (s <| mie ::= fun x => merge x mask v |>) p.
Proof.
  intros [] Hm. constructor; try assumption. intros i Hi.
  change (mie (s <| mie ::= fun x => merge x mask v |>)) with (merge (mie s) mask v). unfold merge. rewrite Z.lor_spec, !Z.land_spec. intros T.
  apply orb_true_iff in T as [T|T]; apply andb_true_iff in T as [T1 T2]; auto.
Qed.

Lemma inv_mideleg_merge s p mask v : csr_inv s p ->
  (forall i, 0 <= i -> Z.testbit mask i = true -> Z.testbit deleg_ints i = true) ->
  csr_inv (s <| mideleg ::= fun x => merge x mask v |>) p.
Proof.
  intros [] Hm. constructor; try assumption. intros i Hi.
  change (mideleg (s <| mideleg ::= fun x => merge x mask v |>)) with (merge (mideleg s) mask v). unfold merge.
  rewrite Z.lor_spec, !Z.land_spec. intros T.
  apply orb_true_iff in T as [T|T]; apply andb_true_iff in T as [T1 T2]; auto.
Qed.

Lemma bits_sub mask K : (mask &w not64 K) = 0 -> fits 64 mask ->
  forall i, 0 <= i -> Z.testbit mask i = true -> Z.testbit K i = true.
Proof.
  intros H F i Hi T. destruct (Z.testbit K i) eqn:N; [reflexivity|].
  pose proof (f_equal (fun x => Z.testbit x i) H) as B. cbv beta in B.
  rewrite Z.land_spec, not64_bits, T, N, Z.bits_0 in B by lia. cbn in B.
  destruct (Z.ltb_spec i 64); [discriminate|]. rewrite (fits_testbit 64) in T by (auto; lia). discriminate.
Qed.

(** [misa] writes keep U, S and (absent) H. *)
Lemma inv_misa s p val : csr_inv s p ->
  csr_inv (s <| misa := (val &w misa_mask p) |w (misa s &w not64 (misa_mask p)) |>) p.
Proof.
  intros I. set (s' := s <| misa := _ |>).
  assert (B : forall i, i = 7 \/ i = 18 \/ i = 20 -> Z.testbit (misa s') i = Z.testbit (misa s) i).
  { intros i Hi. change (misa s') with ((val &w misa_mask p) |w (misa s &w not64 (misa_mask p))).
    rewrite Z.lor_spec, !Z.land_spec, not64_bits by lia.
    replace (Z.testbit (misa_mask p) i) with false.
    - replace (i <? 64) with true by lia. now rewrite andb_false_r, andb_true_r.
    - unfold misa_mask. rewrite Z.land_spec. destruct Hi as [-> |[-> | ->]]; try reflexivity.
      now rewrite (proj2 (inv_noH _ _ I)). }
  assert (L : forall x, legalize_privilege s' p x = legalize_privilege s p x).
  { intros x. unfold legalize_privilege.
    rewrite !supports_bit by (unfold chr_U, chr_S, chr_H, chr_A, chr_Z; lia).
    unfold chr_U, chr_S, chr_H, chr_A. rewrite !B by lia. reflexivity. }
  destruct I. constructor; try assumption.
  - split; [now rewrite B by lia|apply inv_noH0].
  - change (0 <= prv s <= 3 /\ legalize_privilege s' p (prv s) = prv s). now rewrite L.
  - change (legalize_privilege s' p (get_field (mstatus s) MSTATUS_MPP) = get_field (mstatus s) MSTATUS_MPP).
    now rewrite L.
Qed.

End Preservation.

(** ** Preservation by the operations *)

Section Hoare_rules.
Context {S : Type} `{!SimIf S}.
#[local] Notation M := (State.M S).
#[local] Notation hart := (State.hart S).

(** A property of registers and processor after an operation, exceptions
    included. *)
Definition after {A : Type} (I : state_t -> processor_t -> Prop) (m : M A) (h : hart) : Prop :=
  I (st (m h).2) (proc (m h).2).

Section Rules.
Variable I : state_t -> processor_t -> Prop.

Lemma after_gets {A B} (f : hart -> A) (k : A -> M B) h : after I (k (f h)) h -> after I (bind (gets f) k) h.
Proof. exact (fun x => x). Qed.
Lemma after_if {A} (c : bool) (m1 m2 : M A) h :
  (c = true -> after I m1 h) -> (c = false -> after I m2 h) -> after I (if c then m1 else m2) h.
Proof. destruct c; auto. Qed.
Lemma after_ret {A} (a : A) h : I (st h) (proc h) -> after I (ret a) h.
Proof. exact (fun x => x). Qed.
Lemma after_throw {A} (e : exn) h : I (st h) (proc h) -> after I (throw (A := A) e) h.
Proof. exact (fun x => x). Qed.
Lemma after_upd f h : I (f (st h)) (proc h) -> after I (upd f) h.
Proof. exact (fun x => x). Qed.
Lemma after_upd_proc f h : I (st h) (f (proc h)) -> after I (upd_proc f) h.
Proof. exact (fun x => x). Qed.
Lemma after_upd_seq {B} f (k : M B) h :
  after I k (h <| st ::= f |>) -> after I (bind (upd f) (fun _ => k)) h.
Proof. exact (fun x => x). Qed.
Lemma after_upd_proc_seq {B} f (k : M B) h :
  after I k (h <| proc ::= f |>) -> after I (bind (upd_proc f) (fun _ => k)) h.
Proof. exact (fun x => x). Qed.
Lemma after_flush h : I (st h) (proc h) -> after I flush_tlb h.
Proof. exact (fun x => x). Qed.
Lemma after_flush_seq {B} (k : M B) h : after I k (flush_tlb h).2 -> after I (bind flush_tlb (fun _ => k)) h.
Proof. exact (fun x => x). Qed.
Lemma after_when_flush_seq {B} (c : bool) (k : M B) h :
  after I k h -> after I k (flush_tlb h).2 -> after I (bind (when c flush_tlb) (fun _ => k)) h.
Proof. destruct c; auto. Qed.
(** A computation followed by another, through the state the first leaves. *)
Lemma after_seq {A B} (m : M A) (k : A -> M B) h :
  after I m h -> (forall a, (m h).1 = inr a -> after I (k a) (m h).2) -> after I (bind m k) h.
Proof.
  unfold after, bind. destruct (m h) as [[e|a] h'] eqn:E; cbn; [auto|]. intros _ H. now apply H.
Qed.

End Rules.

End Hoare_rules.

(** Walk through the cases of a group of registers. *)
Ltac csr_step :=
  lazymatch goal with
  | |- after _ (bind (gets _) _) _ => apply after_gets
  | |- after _ (bind (upd _) (fun _ => _)) _ => apply after_upd_seq
  | |- after _ (bind (upd_proc _) (fun _ => _)) _ => apply after_upd_proc_seq
  | |- after _ (bind flush_tlb (fun _ => _)) _ => apply after_flush_seq
  | |- after _ (if _ then _ else _) _ => apply after_if; intros ?
  | |- after _ (let _ := _ in _) _ => cbv zeta
  | |- after _ (ret _) _ => apply after_ret
  | |- after _ (throw_trap _) _ => apply after_throw
  | |- after _ (throw _) _ => apply after_throw
  | |- after _ (upd _) _ => apply after_upd
  | |- after _ (upd_proc _) _ => apply after_upd_proc
  | |- after _ flush_tlb _ => apply after_flush
  end.

Section Hoare.
Context {S : Type} `{!SimIf S}.
#[local] Notation M := (State.M S).
#[local] Notation hart := (State.hart S).
Implicit Types h : hart.
#[local] Notation keeps m h := (csr_inv (st h) (proc h) -> after csr_inv m h).

Lemma keeps_set_mstatus val h : keeps (set_mstatus_csr val) h.
Proof.
  intros I. unfold set_mstatus_csr. apply after_gets, after_gets.
  assert (K : forall h', st h' = st h -> proc h' = proc h -> after csr_inv (match write_mstatus (st h) (proc h) val with
    | None => throw E_abort
    | Some m => upd (fun s => s <| mstatus := m |>) ;; upd_proc (fun p => p <| xlen := max_xlen p |>)
    end) h').
  { intros h' E1 E2. destruct (write_mstatus _ _ _) as [m|] eqn:E.
    - apply after_upd_seq, after_upd_proc.
      change (csr_inv ((st h') <| mstatus := m |>) ((proc h') <| xlen := max_xlen (proc h') |>)).
      rewrite E1, E2. now apply (inv_write_mstatus _ _ val).
    - apply after_throw. now rewrite E1, E2. }
  apply after_when_flush_seq; now apply K.
Qed.

Lemma keeps_float which val next h : keeps next h -> keeps (csr_write_float which val next) h.
Proof.
  intros N I. unfold csr_write_float. repeat csr_step; auto; cbv beta.
  1-3: pose proof (inv_dirty_fp _ _ I); inv_same.
  pose proof (inv_dirty_vs _ _ I). inv_same.
Qed.

Lemma known_and_not_forced x i : Z.testbit (x &w not64 MIP_HS_MASK) i = true -> Z.testbit x i = true.
Proof. rewrite Z.land_spec. intros H. now apply andb_true_iff in H. Qed.

Lemma all_ints_known s p i : 0 <= i -> Z.testbit (all_ints s p) i = true -> Z.testbit known_ints i = true.
Proof.
  apply bits_sub.
  - unfold all_ints, delegable_ints, supervisor_ints, coprocessor_ints, hypervisor_ints.
    extensions; reflexivity.
  - unfold all_ints, delegable_ints, supervisor_ints, coprocessor_ints, hypervisor_ints.
    extensions; (split; [discriminate|reflexivity]).
Qed.

Lemma delegable_ints_known s p i : 0 <= i -> Z.testbit (delegable_ints s p) i = true -> Z.testbit deleg_ints i = true.
Proof.
  apply bits_sub; unfold delegable_ints, supervisor_ints, coprocessor_ints; extensions;
    first [reflexivity | split; [discriminate|reflexivity]].
Qed.

Lemma deleg_known i : 0 <= i -> Z.testbit deleg_ints i = true -> Z.testbit known_ints i = true.
Proof. apply bits_sub; [reflexivity|split; [discriminate|reflexivity]]. Qed.

Lemma keeps_machine which val next h : keeps next h -> keeps (csr_write_machine which val next) h.
Proof.
  intros N I. unfold csr_write_machine. repeat csr_step; auto; cbv beta; try inv_same.
  - now apply keeps_set_mstatus.
  - apply (inv_mie_merge (st h) (proc h)); [exact I|]. intros i Hi. now apply all_ints_known.
  - apply (inv_mideleg_merge (st h) (proc h)); [exact I|]. intros i Hi T.
    now apply (delegable_ints_known (st h) (proc h)).
  - set (v := if negb (z2b (val &w misa_bit chr_F)) then _ else _).
    pose proof (inv_misa _ _ v I) as J. pose proof (noH _ _ J) as NH.
    set (s' := _ <| misa := _ |>) in J, NH.
    change (csr_inv (s' <| mideleg ::= fun x => if supports_extension s' (proc h) chr_H
      then x |w MIDELEG_FORCED_MASK else x &w not64 MIDELEG_FORCED_MASK |>) (proc h)).
    rewrite NH. clearbody s'. destruct J. constructor; try assumption. intros i Hi T. apply inv_mideleg0; [exact Hi|].
    change (Z.testbit (mideleg s' &w not64 MIDELEG_FORCED_MASK) i = true) in T.
    rewrite Z.land_spec in T. now apply andb_true_iff in T.
Qed.

Lemma keeps_hypervisor which val next h : keeps next h -> keeps (csr_write_hypervisor which val next) h.
Proof.
  intros N I. unfold csr_write_hypervisor. repeat csr_step; auto; cbv beta; try inv_same.
  - apply (inv_mie_merge (st h) (proc h)); [exact I|].
    apply bits_sub; [reflexivity|split; [discriminate|reflexivity]].
  - apply (inv_mie_merge (st h) (proc h)); [exact I|]. intros i Hi. rewrite Z.land_spec.
    intros T. apply andb_true_iff in T as [_ T]. revert T.
    apply bits_sub; [reflexivity|split; [discriminate|reflexivity]|exact Hi].
Qed.

Lemma keeps_supervisor which val next h : keeps next h -> keeps (csr_write_supervisor which val next) h.
Proof.
  intros N I. unfold csr_write_supervisor. pose proof (inv_virt _ _ I) as V.
  repeat csr_step; auto; cbv beta; rewrite ?V; try inv_same; try congruence.
  - now apply keeps_set_mstatus.
  - apply (inv_mie_merge (st h) (proc h)); [exact I|]. intros i Hi T.
    apply deleg_known; [exact Hi|]. apply (inv_mideleg _ _ I i Hi). now apply known_and_not_forced.
  - change (v_ (st (flush_tlb h).2)) with (v_ (st h)). rewrite V.
    destruct I. constructor; try assumption. intros Hx. now apply legal_satp_ok.
Qed.

Lemma keeps_trigger_updated h : keeps trigger_updated h.
Proof. exact (fun I => I). Qed.

Lemma keeps_debug which val next h : 0 <= val -> keeps next h -> keeps (csr_write_debug which val next) h.
Proof.
  intros Hv N I. unfold csr_write_debug. repeat csr_step; auto; cbv beta; try inv_same.
  - destruct I. constructor; try assumption.
    change (0 <= val < Z.of_nat num_triggers). lia.
  - change (csr_inv ((st h) <| mcontrol ::= <[Z.to_nat (tselect (st h)) :=
      mcontrol_of (xlen (proc h)) val (get_mcontrol (st h) (tselect (st h)))]> |>) (proc h)).
    destruct I. constructor; try assumption.
    destruct inv_lengths0 as (L1 & L2 & L3 & L4). repeat split; auto.
    rewrite <- L3. apply length_insert.
  - destruct I. constructor; try assumption.
    destruct inv_lengths0 as (L1 & L2 & L3 & L4). repeat split; auto. rewrite <- L4. apply length_insert.
Qed.

Lemma keeps_vector which val h : keeps (csr_write_vector which val) h.
Proof.
  intros I. unfold csr_write_vector. pose proof (inv_dirty_vs _ _ I).
  repeat csr_step; auto; cbv beta; inv_same.
Qed.

Lemma pmpcfg_loop_length p n : forall i0 i val s, length (pmpcfg (pmpcfg_loop p n i0 i val s)) = length (pmpcfg s).
Proof.
  induction n as [|n IH]; intros i0 i val s; cbn [pmpcfg_loop]; [reflexivity|]. rewrite IH.
  destruct (_ && _); [apply length_insert|reflexivity].
Qed.

(** The loop changes [pmpcfg] only. *)
Lemma pmpcfg_loop_frame p n : forall i0 i val s,
  pmpcfg_loop p n i0 i val s = s <| pmpcfg := pmpcfg (pmpcfg_loop p n i0 i val s) |>.
Proof.
  induction n as [|n IH]; intros i0 i val s; cbn [pmpcfg_loop]; [now destruct s|].
  rewrite IH at 1. now destruct (_ && _).
Qed.

Lemma keeps_pmp which val h :
  keeps (set_pmpaddr which val) h /\ keeps (set_pmpcfg which val) h.
Proof.
  split; intros I; [unfold set_pmpaddr|unfold set_pmpcfg]; repeat csr_step; auto; cbv beta.
  - change (csr_inv (if pmpaddr_writable (st h) (proc h) which
      then (st h) <| pmpaddr ::= <[Z.to_nat which := val &w pmpaddr_mask]> |> else st h) (proc h)).
    destruct (pmpaddr_writable _ _ _); [|exact I].
    destruct I. constructor; try assumption.
    destruct inv_lengths0 as (L1 & L2 & L3 & L4). repeat split; auto. rewrite <- L2. apply length_insert.
  - change (csr_inv (pmpcfg_loop (proc h) (Z.to_nat (xlen (proc h) / 8)) which which val (st h)) (proc h)).
    rewrite pmpcfg_loop_frame. destruct I. constructor; try assumption.
    destruct inv_lengths0 as (L1 & L2 & L3 & L4). repeat split; auto.
    change (length (pmpcfg (pmpcfg_loop (proc h) (Z.to_nat (xlen (proc h) / 8)) which which val (st h))) = max_pmp).
    now rewrite pmpcfg_loop_length.
Qed.

Lemma zext_xlen_nonneg xl v : 0 <= zext_xlen xl v.
Proof. unfold zext_xlen. apply Z.shiftr_nonneg. apply uw_fits. lia. Qed.

Lemma keeps_set_csr which val h : keeps (set_csr which val) h.
Proof.
  intros I. unfold set_csr. apply after_gets. cbv zeta. apply after_if; intros _; [exact (proj1 (keeps_pmp _ _ _) I)|].
  apply after_if; intros _; [exact (proj2 (keeps_pmp _ _ _) I)|].
  apply keeps_float; [|exact I]. apply keeps_machine, keeps_supervisor, keeps_hypervisor, keeps_debug,
    keeps_vector. apply zext_xlen_nonneg.
Qed.

Lemma keeps_set_privilege x h : 0 <= x <= 3 -> keeps (set_privilege x) h.
Proof.
  intros Hx I. unfold set_privilege, after. cbn.
  change (csr_inv ((st h) <| prv := legalize_privilege (st h) (proc h) x |>) (proc h)).
  destruct I. constructor; try assumption.
  change (0 <= legalize_privilege (st h) (proc h) x <= 3 /\
    legalize_privilege (st h) (proc h) (legalize_privilege (st h) (proc h) x) = legalize_privilege (st h) (proc h) x).
  split; [now apply legalize_range|apply legalize_idem].
Qed.

Lemma keeps_set_virt h : keeps (set_virt false) h.
Proof.
  intros I. unfold set_virt, after. cbn.
  change (csr_inv (set_virt_state (proc h) false (st h)) (proc h)).
  unfold set_virt_state. rewrite (inv_virt _ _ I). now destruct (_ =? _).
Qed.

(** Traps. *)
Lemma keeps_seq {A} (m : M unit) (k : M A) h : keeps m h -> (forall h', csr_inv (st h') (proc h') -> after csr_inv k h') ->
  keeps (bind m (fun _ => k)) h.
Proof. intros Hm Hk I. apply after_seq; [now apply Hm|]. intros a _. apply Hk. now apply Hm. Qed.

Lemma keeps_take_trap t epc h : keeps (take_trap t epc) h.
Proof.
  intros I. unfold take_trap. apply after_gets, after_gets.
  apply after_if; intros _; [apply after_upd; inv_same|].
  apply after_if; intros _.
  - unfold enter_debug_mode. apply after_upd_seq. apply keeps_seq; [|intros h' I'; apply after_upd; inv_same|].
    + apply keeps_set_privilege. unfold PRV_M. lia.
    + match goal with |- csr_inv ?s ?p => change (csr_inv
        ((st h) <| debug_mode := true |>
           <| dcsr ::= fun d => d <| dcsr_cause := DCSR_CAUSE_SWBP |> <| dcsr_prv := u8 (prv (st h)) |> |>) (proc h)) end.
      inv_same.
  - destruct (trap_target_of _ _ _).
    + unfold trap_to_vs. apply after_gets, after_gets, after_upd_seq.
      apply keeps_seq; [apply keeps_set_csr|intros h' I'; apply keeps_set_privilege; [unfold PRV_S; lia|exact I']|].
      match goal with |- csr_inv ?s ?p => change (proc h) with p in I end. destruct I. constructor; assumption.
    + unfold trap_to_hs. apply keeps_seq; [apply keeps_set_virt| |exact I]. intros h1 I1.
      apply after_gets, after_gets, after_upd_seq.
      apply keeps_seq; [apply keeps_set_csr| |destruct I1; constructor; assumption]. intros h2 I2.
      apply after_gets. cbv zeta.
      apply keeps_seq; [apply keeps_set_csr|intros h' I'; apply keeps_set_privilege; [unfold PRV_S; lia|exact I']|exact I2].
    + unfold trap_to_m. apply keeps_seq; [apply keeps_set_virt| |exact I]. intros h1 I1.
      apply after_gets, after_gets, after_upd_seq.
      apply keeps_seq; [apply keeps_set_csr|intros h' I'; apply keeps_set_privilege; [unfold PRV_M; lia|exact I']|].
      destruct I1; constructor; assumption.
Qed.

End Hoare.

(** ** Reset, and sequences of privileged operations *)

Section Reachable.
Context {S : Type} `{!SimIf S}.
#[local] Notation M := (State.M S).
#[local] Notation hart := (State.hart S).

(** A processor as [parse_isa_string] and the constructor configure it for an ISA
    string without H: the invariant is for such processors. *)
Definition configured (p : processor_t) : Prop :=
  (max_xlen p = 32 \/ max_xlen p = 64) /\ Z.testbit (max_isa p) 7 = false.

Lemma supports_H_off s p : Z.testbit (misa s) 7 = false -> supports_extension s p chr_H = false.
Proof. intros H. now rewrite supports_bit by (unfold chr_H, chr_A, chr_Z; lia). Qed.

Lemma after_reset_mstatus (h : hart) : configured (proc h) ->
  v_ (st h) = false -> misa (st h) = max_isa (proc h) -> prv (st h) = PRV_M -> mstatus (st h) = 0 ->
  satp (st h) = 0 -> mie (st h) = 0 -> mideleg (st h) = 0 -> tselect (st h) = 0 ->
  length (pmpcfg (st h)) = max_pmp /\ length (pmpaddr (st h)) = max_pmp /\
    length (mcontrol (st h)) = num_triggers /\ length (tdata2 (st h)) = num_triggers ->
  forall val, after csr_inv (set_mstatus_csr val) h.
Proof.
  intros [Hx HH] HV HM HP Hms HS HI HD HT HL val. unfold set_mstatus_csr. apply after_gets, after_gets.
  destruct (write_mstatus_total (st h) (proc h) val Hx) as [m E]. rewrite E.
  assert (J : csr_inv ((st h) <| mstatus := m |>) ((proc h) <| xlen := max_xlen (proc h) |>)).
  { apply (inv_written _ _ val); auto; rewrite ?HM, ?HP, ?Hms, ?HS, ?HI, ?HD, ?HT;
      try (intros i ? T; now rewrite Z.bits_0 in T); try easy.
    split; [easy|]. unfold legalize_privilege. destruct (negb _); [reflexivity|]. reflexivity. }
  apply after_when_flush_seq; exact J.
Qed.

Lemma reset_establishes (h : hart) : configured (proc h) -> after csr_inv processor_reset h.
Proof.
  intros Hc. pose proof Hc as [Hx HH]. unfold processor_reset.
  apply after_gets, after_upd_seq, after_upd_seq, after_upd_seq, after_upd_proc_seq, after_gets.
  set (h1 := _ <| proc ::= fun p => p <| halt_on_reset := false |> |>).
  assert (MS : after csr_inv (set_csr CSR_MSTATUS (mstatus (st h1))) h1).
  { apply (after_reset_mstatus h1); try reflexivity; [exact Hc| |repeat split].
    change (mideleg (st h1)) with (if supports_extension (state_reset (max_isa (proc h))) (proc h) chr_H
      then MIDELEG_FORCED_MASK else 0). now rewrite supports_H_off. }
  apply after_seq; [exact MS|]. intros _ _.
  apply after_upd_proc_seq, after_gets.
  set (h2 := ((set_csr CSR_MSTATUS (mstatus (st h1)) h1).2) <| proc ::= _ |>).
  assert (I2 : csr_inv (st h2) (proc h2)) by (revert MS; unfold after; intros []; constructor; assumption).
  destruct (0 <? _); cbn [when]; [|exact I2].
  apply keeps_seq; [apply keeps_set_csr|intros h' I'; now apply keeps_set_csr|exact I2].
Qed.

(** The operations through which instructions and the execution loop change
    the privileged state. *)
Inductive priv_op :=
| Op_set_csr (which val : Z)
| Op_take_trap (t : trap_t) (epc : Z)
| Op_enter_debug_mode (cause : Z)
| Op_return (x : Z).

(** [Op_return] is [set_privilege] and [set_virt] as the return instructions
    call them: to a mode read from a two-bit field, and without virtualisation. *)
Definition run_priv_op (o : priv_op) : M unit :=
  match o with
  | Op_set_csr which val => set_csr which val
  | Op_take_trap t epc => take_trap t epc
  | Op_enter_debug_mode c => enter_debug_mode c
  | Op_return x => set_privilege x ;; set_virt false
  end.
Definition priv_op_ok (o : priv_op) : Prop := match o with Op_return x => 0 <= x <= 3 | _ => True end.

(** A sequence from a state; an exception leaves the state it was thrown in. *)
Fixpoint run_priv_ops (os : list priv_op) (h : hart) : hart :=
  match os with
  | [] => h
  | o :: os' => run_priv_ops os' (run_priv_op o h).2
  end.

Lemma run_priv_op_inv o (h : hart) : priv_op_ok o -> csr_inv (st h) (proc h) -> after csr_inv (run_priv_op o) h.
Proof.
  intros Ho I. destruct o; cbn [run_priv_op].
  - now apply keeps_set_csr.
  - now apply keeps_take_trap.
  - unfold enter_debug_mode. apply after_upd_seq. apply keeps_seq.
    + apply keeps_set_privilege. unfold PRV_M. lia.
    + intros h' I'. apply after_upd. inv_same.
    + destruct I; constructor; assumption.
  - apply keeps_seq; [now apply keeps_set_privilege|intros h' I'; now apply keeps_set_virt|exact I].
Qed.

Lemma run_priv_ops_inv os : forall h : hart, Forall priv_op_ok os -> csr_inv (st h) (proc h) ->
  csr_inv (st (run_priv_ops os h)) (proc (run_priv_ops os h)).
Proof.
  induction os as [|o os IH]; intros h Ho I; [exact I|]. inversion Ho; subst.
  apply IH; [assumption|]. now apply run_priv_op_inv.
Qed.

End Reachable.
