(* ===== verification/CsrProps.v ===== *)
(** * CsrProps: properties of the control registers

    Reachable privileged states are legal, the PMP's lock bits hold until
    reset, interrupts are taken only when pending, enabled and not masked, and
    the registers of which only some bits are implemented hold what they
    should. *)
From Stdlib Require Import ZArith Lia Bool List.
From stdpp Require Import base list gmap.
From S2P Require Import Prelude Arith Encoding Decode State Processor Pmp Mmu Csr TrapEntry Fields CsrFacts.
#[local] Open Scope Z_scope.
#[local] Open Scope word_scope.
#[local] Open Scope record_scope.
#[local] Open Scope monad_scope.

(** ** PMP locks *)

Section Locks.
Context {S : Type} `{!SimIf S}.
#[local] Notation M := (State.M S).
#[local] Notation hart := (State.hart S).

Lemma nth_insert_ne {A} (l : list A) i j x d : i <> j -> nth i (<[j:=x]> l) d = nth i l d.
Proof.
  revert i j. induction l as [|y l IH]; intros [|i] [|j] Hij; cbn; try reflexivity; try congruence.
  apply IH. congruence.
Qed.

Definition pmp_same (s s' : state_t) : Prop := pmpcfg s' = pmpcfg s /\ pmpaddr s' = pmpaddr s.

(** The two sets of registers, and nothing else, change the PMP. *)
Lemma csr_write_pmp_same which val (s0 : state_t) (h : hart) :
  pmp_same s0 (st h) ->
  after (fun s _ => pmp_same s0 s)
    (csr_write_float which val (csr_write_machine which val (csr_write_supervisor which val
      (csr_write_hypervisor which val (csr_write_debug which val (csr_write_vector which val)))))) h.
Proof.
  intros E.
  assert (MS : forall v, after (fun s _ => pmp_same s0 s) (set_mstatus_csr v) h).
  { intros v. unfold set_mstatus_csr. apply after_gets, after_gets.
    destruct (write_mstatus _ _ _); apply after_when_flush_seq; exact E. }
  unfold csr_write_float, csr_write_machine, csr_write_supervisor, csr_write_hypervisor,
    csr_write_debug, csr_write_vector, trigger_updated.
  repeat first [apply MS | csr_step]; try exact E.
  all: cbv beta; repeat match goal with |- context [if ?c then _ else _] => destruct c end; exact E.
Qed.


(** The entries a lock protects. *)
Definition cfg_protected (s : state_t) (i : Z) : Prop := pmp_locked s i = true.
Definition addr_protected (s : state_t) (i : Z) : Prop :=
  pmp_locked s i = true \/
  (i + 1 < Z.of_nat max_pmp /\ pmp_locked s (i + 1) = true /\ (get_pmpcfg s (i + 1) &w PMP_A) = PMP_TOR).

Lemma pmpcfg_loop_locked p i n : 0 <= i -> forall i0 j val s, 0 <= j -> pmp_locked s i = true ->
  get_pmpcfg (pmpcfg_loop p n i0 j val s) i = get_pmpcfg s i.
Proof.
  intros Hi. induction n as [|n IH]; intros i0 j val s Hj L; cbn [pmpcfg_loop]; [reflexivity|].
  destruct ((j <? n_pmp p) && negb (pmp_locked s j)) eqn:C; [|apply IH; [lia|exact L]].
  assert (N : j <> i) by (intros ->; rewrite L, andb_false_r in C; discriminate).
  assert (E : get_pmpcfg (s <| pmpcfg ::= <[Z.to_nat j := legal_pmpcfg p (u8 (val >>w (8 * (j - i0))))]> |>) i
              = get_pmpcfg s i).
  { unfold get_pmpcfg. apply nth_insert_ne. lia. }
  rewrite IH; [exact E|lia|]. unfold pmp_locked. now rewrite E.
Qed.

Lemma is_pmpcfg_range which : is_pmpcfg which = true -> 0 <= (which - CSR_PMPCFG0) * 4.
Proof. unfold is_pmpcfg. intros H. apply andb_true_iff in H as [H _]. lia. Qed.
Lemma is_pmpaddr_range which : is_pmpaddr which = true -> 0 <= which - CSR_PMPADDR0 < Z.of_nat max_pmp.
Proof. unfold is_pmpaddr. intros H. apply andb_true_iff in H as [H1 H2]. lia. Qed.

Definition locks_kept (s s' : state_t) : Prop :=
  (forall i, 0 <= i -> cfg_protected s i -> get_pmpcfg s' i = get_pmpcfg s i) /\
  (forall i, 0 <= i -> addr_protected s i -> get_pmpaddr s' i = get_pmpaddr s i).

Lemma locks_kept_same s s' : pmp_same s s' -> locks_kept s s'.
Proof. intros [E1 E2]. unfold locks_kept, get_pmpcfg, get_pmpaddr. now rewrite E1, E2. Qed.

Lemma locks_kept_pmpaddr (h : hart) i val : 0 <= i ->
  after (fun s _ => locks_kept (st h) s) (set_pmpaddr i val) h.
Proof.
  intros Hi. unfold set_pmpaddr. repeat csr_step; try (now apply locks_kept_same).
  change (locks_kept (st h) (if pmpaddr_writable (st h) (proc h) i
    then (st h) <| pmpaddr ::= <[Z.to_nat i := val &w pmpaddr_mask]> |> else st h)).
  destruct (pmpaddr_writable (st h) (proc h) i) eqn:W; [|now apply locks_kept_same].
  split; [reflexivity|]. intros j Hj P. unfold get_pmpaddr. apply nth_insert_ne.
  intros E. assert (i = j) by lia. subst j. unfold pmpaddr_writable in W.
  destruct P as [L|(B & L & T)].
  - rewrite L in W. cbn in W. rewrite andb_false_r in W. discriminate.
  - replace (i + 1 <? Z.of_nat max_pmp) with true in W by lia. rewrite L, T, Z.eqb_refl in W.
    cbn in W. rewrite andb_false_r in W. discriminate.
Qed.

Lemma locks_kept_pmpcfg (h : hart) i0 val : 0 <= i0 ->
  after (fun s _ => locks_kept (st h) s) (set_pmpcfg i0 val) h.
Proof.
  intros Hi. unfold set_pmpcfg. repeat csr_step; try (now apply locks_kept_same).
  change (locks_kept (st h) (pmpcfg_loop (proc h) (Z.to_nat (xlen (proc h) / 8)) i0 i0 val (st h))).
  split; intros j Hj P.
  - now apply pmpcfg_loop_locked.
  - rewrite pmpcfg_loop_frame. reflexivity.
Qed.

Lemma locks_kept_set_csr which val (h : hart) : after (fun s _ => locks_kept (st h) s) (set_csr which val) h.
Proof.
  unfold set_csr. apply after_gets. cbv zeta.
  apply after_if; intros C; [apply locks_kept_pmpaddr, is_pmpaddr_range, C|].
  apply after_if; intros C'; [apply locks_kept_pmpcfg, is_pmpcfg_range, C'|].
  apply locks_kept_same, csr_write_pmp_same. now split.
Qed.

(** A sequence of writes, whatever each throws. *)
Fixpoint set_csrs (ws : list (Z * Z)) (h : hart) : hart :=
  match ws with
  | [] => h
  | (which, val) :: ws' => set_csrs ws' (set_csr which val h).2
  end.

Lemma protected_kept s s' i : 0 <= i -> locks_kept s s' ->
  (cfg_protected s i -> cfg_protected s' i) /\ (addr_protected s i -> addr_protected s' i).
Proof.
  intros Hi [K1 K2]. unfold cfg_protected, addr_protected, pmp_locked.
  split; [intros P; now rewrite K1|].
  intros [P|(B & P & T)]; [left; now rewrite K1|right]. rewrite K1 by (try exact P; lia). auto.
Qed.

Lemma locks_kept_trans s1 s2 s3 : locks_kept s1 s2 -> locks_kept s2 s3 -> locks_kept s1 s3.
Proof.
  intros A B. split; intros i Hi P.
  - destruct (protected_kept _ _ i Hi A) as [P' _]. now rewrite (proj1 B), (proj1 A) by auto.
  - destruct (protected_kept _ _ i Hi A) as [_ P']. now rewrite (proj2 B), (proj2 A) by auto.
Qed.

Lemma locks_kept_set_csrs ws : forall h, locks_kept (st h) (st (set_csrs ws h)).
Proof.
  induction ws as [|[which val] ws IH]; intros h; cbn [set_csrs]; [now apply locks_kept_same|].
  eapply locks_kept_trans; [apply (locks_kept_set_csr which val)|apply IH].
Qed.

End Locks.

(** ** Partly implemented registers *)


Lemma mask_testbit k i : 0 <= k < 64 -> 0 <= i -> Z.testbit ((1 <<w k) -w 1) i = (i <? k).
Proof.
  intros Hk Hi. unfold shl64, sub64. rewrite uw_sub_l, Z.shiftl_1_l.
  replace (uw 64 (2 ^ k - 1)) with (Z.ones k).
  - rewrite Z.testbit_ones by lia. now replace (0 <=? i) with true by lia.
  - rewrite Z.ones_equiv. symmetry. replace (Z.pred (2 ^ k)) with (2 ^ k - 1) by lia. apply uw_small.
    pose proof (pow2_pos k). pose proof (Z.pow_lt_mono_r 2 k 64). unfold fits. lia.
Qed.

(** [mepc] and [sepc]: 40 bits, bit 0 clear, sign-extended. *)
Lemma legal_epc_value v : fits 64 v -> legal_epc v = uw 64 (sw 40 (2 * (v / 2))).
Proof.
  intros F. unfold legal_epc. bits i. rewrite uw_testbit, sw_testbit by lia.
  rewrite Z.lor_spec, !Z.land_spec, mask_testbit, not64_bits by lia.
  assert (B : forall j, 0 <= j -> Z.testbit (2 * (v / 2)) j = negb (j =? 0) && Z.testbit v j).
  { intros j Hj. replace (2 * (v / 2)) with (Z.shiftl (v >>w 1) 1)
      by (rewrite Z.shiftl_mul_pow2, Z.shiftr_div_pow2 by lia; change (2 ^ 1) with 2; lia).
    destruct (Z.eqb_spec j 0) as [->|]; [now rewrite Z.shiftl_spec_low by lia|].
    rewrite Z.shiftl_spec, Z.shiftr_spec by lia. cbn [negb andb]. f_equal. lia. }
  assert (N : forall j, 0 <= j < 64 -> Z.testbit (neg64 ((v >>w 39) &w 1)) j = Z.testbit v 39).
  { intros j Hj. rewrite land_1_testbit, Z.shiftr_spec by lia. rewrite Z.add_0_l.
    destruct (Z.testbit v 39); cbn [b2z].
    - change (neg64 1) with (Z.ones 64). rewrite Z.testbit_ones by lia. bcases; lia || reflexivity.
    - change (neg64 0) with 0. apply Z.bits_0. }
  rewrite shl64_bits by lia. replace (Z.testbit 1 i) with (i =? 0).
  2: { change 1 with (2 ^ 0). rewrite Z.pow2_bits_eqb by lia. apply Z.eqb_sym. }
  destruct (Z.ltb_spec i 64) as [Hi|Hi]; cbn [andb].
  2: { replace (i <? 40) with false by lia. now rewrite !andb_false_r. }
  destruct (Z.ltb_spec i 40).
  - rewrite B by lia. replace (40 - 1 <? i) with false by lia.
    destruct (Z.leb_spec 39 i).
    + assert (i = 39) as -> by lia. rewrite N by lia.
      generalize (Z.testbit v 39). now intros [].
    + cbn [andb orb]. rewrite andb_true_r. apply andb_comm.
  - rewrite B by lia. replace (39 <=? i) with true by lia. rewrite N by lia. cbn [andb].
    rewrite andb_false_r, orb_false_r. reflexivity.
Qed.

(** The test of a canonical 39-bit address. *)
Lemma canonical39 t : fits 64 t -> (uw 64 (sw 39 t) =? t) =
  if Z.testbit t 38 then ((t >>w 39) &w 0x1ffffff) =? 0x1ffffff else ((t >>w 39) &w 0x1ffffff) =? 0.
Proof.
  intros F. change 0x1ffffff with (Z.ones 25). rewrite Z.land_ones, Z.shiftr_div_pow2 by lia.
  assert (T : t / 2 ^ 39 < 2 ^ 25) by (apply Z.div_lt_upper_bound; unfold fits in F; lia).
  rewrite (Z.mod_small (t / 2 ^ 39)) by (split; [apply Z.div_pos; unfold fits in F; lia|lia]).
  change (Z.ones 25) with (2 ^ 25 - 1).
  change 38 with (39 - 1). rewrite uw_top_bit by lia.
  pose proof (Z.mod_pos_bound t (2 ^ 39) ltac:(lia)). unfold uw in *. unfold sw, uw. unfold fits in F.
  destruct (Z.ltb_spec (t mod 2 ^ 39) (2 ^ (39 - 1))); cbn [negb];
    [rewrite Z.mod_small by lia | rewrite <- (Z.mod_add _ 1), Z.mod_small by lia];
    bcases; try reflexivity; exfalso; Z.div_mod_to_equations; lia.
Qed.

(** [mtval]: the low 39 bits, and a bit 39 that differs from bit 38 exactly
    when the address was not canonical. *)
Lemma rocket_tval_bits t i : fits 64 t -> 0 <= i < 64 ->
  Z.testbit (rocket_tval t) i =
  if i <? 39 then Z.testbit t i
  else Bool.eqb (Z.testbit t 38) (uw 64 (sw 39 t) =? t).
Proof.
  intros F Hi. unfold rocket_tval.
  rewrite (canonical39 t F). set (U := (t >>w 39) &w 0x1ffffff).
  replace (z2b ((t >>w 38) &w 1)) with (Z.testbit t 38).
  2: { change 1 with (2 ^ 0). now rewrite z2b_land_pow2, Z.shiftr_spec by lia. }
  set (t' := if _ && _ then _ else _).
  assert (B : forall j, 0 <= j < 40 -> Z.testbit t' j =
    if j <? 39 then Z.testbit t j
    else Bool.eqb (Z.testbit t 38) (if Z.testbit t 38 then U =? 0x1ffffff else U =? 0)).
  { intros j Hj. change (1 <<w 39) with (2 ^ 39) in t'. change 0xffffff7fffffffff with (not64 (2 ^ 39)) in t'.
    unfold t'. destruct (Z.testbit t 38), (U =? 0x1ffffff), (U =? 0x0); cbn [andb negb Bool.eqb];
      rewrite ?Z.lor_spec, ?Z.land_spec, ?not64_bits, Z.pow2_bits_eqb by lia;
      destruct (Z.ltb_spec j 39);
      (replace (39 =? j) with (negb (j <? 39)) by (bcases; lia || reflexivity));
      (replace (j <? 64) with true by lia);
      (replace (j <? 39) with (j <? 39) by reflexivity);
      bcases; cbn; rewrite ?orb_false_r, ?orb_true_r, ?andb_true_r, ?andb_false_r; try reflexivity; lia. }
  clearbody t'.
  replace (z2b ((t' >>w 39) &w 1)) with (Z.testbit t' 39).
  2: { change 1 with (2 ^ 0). now rewrite z2b_land_pow2, Z.shiftr_spec by lia. }
  rewrite Z.lor_spec, Z.land_spec, shl64_bits by lia.
  change 0xffffffffff with (Z.ones 40). rewrite Z.testbit_ones by lia.
  replace (i <? 64) with true by lia. replace (0 <=? i) with true by lia.
  replace (Z.testbit (if Z.testbit t' 39 then 0xffffff else 0x0) (i - 40))
    with (Z.testbit t' 39 && ((0 <=? i - 40) && (i - 40 <? 24))).
  2: { destruct (Z.testbit t' 39); [|now rewrite Z.bits_0]. change 0xffffff with (Z.ones 24).
       destruct (Z.leb_spec 0 (i - 40)); [rewrite Z.testbit_ones by lia|rewrite Z.testbit_neg_r by lia];
       bcases; lia || reflexivity. }
  destruct (Z.ltb_spec i 40).
  - replace (40 <=? i) with false by lia. cbn [andb orb].
    rewrite andb_true_r, B by lia. reflexivity.
  - replace (40 <=? i) with true by lia. replace (0 <=? i - 40) with true by lia.
    replace (i - 40 <? 24) with true by lia. replace (i <? 39) with false by lia.
    cbn [andb orb]. rewrite andb_false_r, orb_false_r, andb_true_r, B by lia. reflexivity.
Qed.

(** ** Interrupts *)

(** The known interrupts in the order of their priority. *)
Definition priority_order : list Z := [11; 12; 3; 7; 9; 1; 5; 10; 2; 6].

Lemma known_small e : (forall i, 0 <= i -> Z.testbit e i = true -> Z.testbit known_ints i = true) -> 0 <= e ->
  e < 8192.
Proof.
  intros K H. change 8192 with (2 ^ 13). apply (fits_bits 13 e ltac:(lia) H). intros i Hi.
  destruct (Z.testbit e i) eqn:T; [|reflexivity]. apply K in T; [|lia].
  assert (F : fits 13 known_ints) by (split; [discriminate|reflexivity]).
  rewrite (fits_testbit 13 known_ints i F Hi) in T by lia. discriminate.
Qed.

(** No bit of [priority_order] set means no bit set. *)
Lemma known_zero e : (forall i, 0 <= i -> Z.testbit e i = true -> Z.testbit known_ints i = true) -> 0 <= e ->
  List.find (Z.testbit e) priority_order = None -> e = 0.
Proof.
  intros K H F. pose proof (known_small e K H) as L. apply Z.bits_inj'. intros i Hi. rewrite Z.bits_0.
  destruct (Z.testbit e i) eqn:T; [|reflexivity]. exfalso. pose proof (K i Hi T) as Ki.
  assert (Hin : In i priority_order).
  { assert (i < 13) by (destruct (Z_lt_le_dec i 13); [auto|];
      rewrite (fits_testbit 13) in T by (unfold fits; lia); discriminate).
    assert (i = 0 \/ i = 1 \/ i = 2 \/ i = 3 \/ i = 4 \/ i = 5 \/ i = 6 \/ i = 7 \/ i = 8 \/ i = 9 \/ i = 10 \/ i = 11 \/ i = 12)
      as Ci by lia.
    unfold priority_order. repeat (destruct Ci as [->|Ci]; [cbn; tauto || discriminate Ki|]). subst. cbn. tauto. }
  now rewrite (List.find_none _ _ F i Hin) in T.
Qed.

Lemma select_interrupt_first e : (forall i, 0 <= i -> Z.testbit e i = true -> Z.testbit known_ints i = true) ->
  0 < e -> exists x i, select_interrupt e = Some x /\
    List.find (Z.testbit e) priority_order = Some i /\ ctz x = i.
Proof.
  intros K H. pose proof (known_small e K ltac:(lia)) as L.
  destruct (List.find (Z.testbit e) priority_order) as [i|] eqn:F; [|now apply known_zero in F; auto; lia].
  unfold select_interrupt. change IRQ_M_EXT with 11.
  assert (Hh : 0 <= e >>w 11 < 4) by (rewrite Z.shiftr_div_pow2 by lia; change (2 ^ 11) with 2048;
    split; [apply Z.div_pos; lia|apply Z.div_lt_upper_bound; lia]).
  assert (B11 : Z.testbit e 11 = Z.testbit (e >>w 11) 0) by now rewrite Z.shiftr_spec.
  assert (B12 : Z.testbit e 12 = Z.testbit (e >>w 11) 1) by now rewrite Z.shiftr_spec.
  set (h := e >>w 11) in *. clearbody h. unfold priority_order in F. cbn [List.find] in F. rewrite B11, B12 in F.
  assert (h = 1 \/ h = 2 \/ h = 3 \/ h = 0) as [Eh|[Eh|[Eh|Eh]]] by lia; subst h.
  1-3: cbn in F; injection F as <-; do 2 eexists; split; [reflexivity|split; reflexivity].
  change (Z.testbit 0 0) with false in *. change (Z.testbit 0 1) with false in F. change (z2b 0) with false.
  cbv iota in *.
  change MIP_MEIP with (2 ^ 11). change MIP_MSIP with (2 ^ 3). change MIP_MTIP with (2 ^ 7).
  change MIP_SEIP with (2 ^ 9). change MIP_SSIP with (2 ^ 1). change MIP_STIP with (2 ^ 5).
  change MIP_VSEIP with (2 ^ 10). change MIP_VSSIP with (2 ^ 2). change MIP_VSTIP with (2 ^ 6).
  rewrite (z2b_land_pow2 e 11), (z2b_land_pow2 e 3), (z2b_land_pow2 e 7), (z2b_land_pow2 e 9), (z2b_land_pow2 e 1),
    (z2b_land_pow2 e 5), (z2b_land_pow2 e 10), (z2b_land_pow2 e 2), (z2b_land_pow2 e 6), B11 by lia.
  cbv iota.
  repeat (match type of F with context [if Z.testbit e ?k then _ else _] => destruct (Z.testbit e k) eqn:? end;
    [injection F as <-; do 2 eexists; split; [reflexivity|split; reflexivity]|]).
  discriminate F.
Qed.

(** The interrupts that may be taken: not delegated and above the current
    privilege or enabled globally, or delegated to supervisor mode likewise. *)
Definition takeable (s : state_t) (i : Z) : bool :=
  Z.testbit (mip s) i && Z.testbit (mie s) i &&
  (if Z.testbit (mideleg s) i
   then (prv s <? PRV_S) || ((prv s =? PRV_S) && z2b (get_field (mstatus s) MSTATUS_SIE))
   else (prv s <? PRV_M) || ((prv s =? PRV_M) && z2b (get_field (mstatus s) MSTATUS_MIE))).

Lemma all_or_none_testbit c i : 0 <= i < 64 -> Z.testbit (all_or_none c) i = c.
Proof.
  intros. unfold all_or_none. destruct c; cbn [b2z].
  - change (neg64 1) with (Z.ones 64). rewrite Z.testbit_ones by lia. bcases; lia || reflexivity.
  - apply Z.bits_0.
Qed.

Section Interrupts.
Variables (s : state_t) (p : processor_t).
Hypothesis I : csr_inv s p.
Hypothesis Fip : fits 64 (mip s).

#[local] Notation pending := (mip s &w mie s).

Lemma pending_known i : 0 <= i -> Z.testbit pending i = true -> Z.testbit known_ints i = true /\ i < 64.
Proof.
  intros Hi T. rewrite Z.land_spec in T. apply andb_true_iff in T as [T1 T2].
  split; [now apply (inv_mie _ _ I)|]. destruct (Z_lt_le_dec i 64); [auto|].
  rewrite (fits_testbit 64) in T1 by (auto; lia). discriminate.
Qed.

Lemma not_vs i : 0 <= i -> Z.testbit (mideleg s) i = true -> Z.testbit (not64 MIP_VS_MASK) i = true.
Proof.
  intros Hi T. apply (inv_mideleg _ _ I i Hi) in T. revert T.
  apply bits_sub; [reflexivity|split; [discriminate|reflexivity]|exact Hi].
Qed.

(** The candidates of [take_interrupt]: the machine-level interrupts that can
    be taken if there are any ([d = false]), else the delegated ones. *)
Lemma enabled_bits : exists d : bool,
  (forall i, 0 <= i < 64 -> Z.testbit (enabled_interrupts s pending) i =
     takeable s i && Bool.eqb (Z.testbit (mideleg s) i) d) /\
  (d = true -> forall i, 0 <= i < 64 -> takeable s i = true -> Z.testbit (mideleg s) i = true).
Proof.
  unfold enabled_interrupts. rewrite (inv_virt _ _ I). set (em := pending &w not64 (mideleg s) &w _).
  assert (M : forall i, 0 <= i < 64 -> Z.testbit em i = takeable s i && Bool.eqb (Z.testbit (mideleg s) i) false).
  { intros i Hi. unfold em, takeable. rewrite !Z.land_spec, not64_bits, all_or_none_testbit by lia.
    replace (i <? 64) with true by lia.
    destruct (Z.testbit (mip s) i), (Z.testbit (mie s) i), (Z.testbit (mideleg s) i); cbn [andb negb Bool.eqb];
      rewrite ?andb_false_r, ?andb_true_r; reflexivity. }
  destruct (Z.eqb_spec em 0) as [E0|E0]; cbn [negb andb].
  - exists true. split.
    + intros i Hi. rewrite !Z.land_spec, all_or_none_testbit by lia. unfold takeable.
      destruct (Z.testbit (mideleg s) i) eqn:D; cbn [andb Bool.eqb]; rewrite ?andb_false_r; [|reflexivity].
      now rewrite (not_vs i) by (auto; lia); rewrite !andb_true_r.
    + intros _ i Hi T. specialize (M i Hi). rewrite E0, Z.bits_0, T in M. now destruct (Z.testbit (mideleg s) i).
  - exists false. split; [exact M|discriminate].
Qed.

Lemma enabled_sub_pending i : 0 <= i -> Z.testbit (enabled_interrupts s pending) i = true ->
  Z.testbit pending i = true.
Proof.
  intros Hi. unfold enabled_interrupts. rewrite (inv_virt _ _ I). cbn [andb].
  destruct (negb _); rewrite !(Z.land_spec _ (all_or_none _)), Z.land_spec;
    intros T; apply andb_true_iff in T as [T _]; now apply andb_true_iff in T.
Qed.

Lemma enabled_nonneg : 0 <= enabled_interrupts s pending.
Proof.
  unfold enabled_interrupts. rewrite (inv_virt _ _ I). cbn [andb].
  destruct (negb _); apply Z.land_nonneg; right; apply uw_fits; lia.
Qed.

Lemma enabled_bounded i : 0 <= i -> Z.testbit (enabled_interrupts s pending) i = true ->
  Z.testbit known_ints i = true /\ i < 64.
Proof. intros Hi T. apply pending_known; [exact Hi|]. now apply enabled_sub_pending. Qed.

(** Every takeable interrupt is a candidate, or is beaten by one. *)
Lemma takeable_pending i : takeable s i = true -> 0 <= i -> i < 64.
Proof.
  intros T Hi. unfold takeable in T. apply andb_true_iff in T as [T _].
  apply (pending_known i Hi). now rewrite Z.land_spec.
Qed.

Lemma find_split (f : Z -> bool) l i : List.find f l = Some i ->
  exists l1 l2, l = l1 ++ i :: l2 /\ f i = true /\ forall j, In j l1 -> f j = false.
Proof.
  induction l as [|x l IH]; cbn; [discriminate|]. destruct (f x) eqn:E.
  - intros [= <-]. exists [], l. split; [reflexivity|]. split; [exact E|]. intros j [].
  - intros F. destruct (IH F) as (l1 & l2 & -> & Fi & Hl). exists (x :: l1), l2.
    split; [reflexivity|]. split; [exact Fi|]. intros j [<-|Hj]; auto.
Qed.

Lemma no_candidate : enabled_interrupts s pending = 0 -> forall i, 0 <= i -> takeable s i = false.
Proof.
  intros Z0 i Hi. destruct (takeable s i) eqn:T; [|reflexivity].
  pose proof (takeable_pending i T Hi) as Hi'. destruct enabled_bits as (d & B & D). rewrite Z0 in B.
  pose proof (B i ltac:(lia)) as Bi. rewrite Z.bits_0, T in Bi. destruct d.
  - rewrite (D eq_refl i ltac:(lia) T) in Bi. discriminate.
  - destruct (Z.testbit (mideleg s) i) eqn:E; [|discriminate]. exfalso.
    (* a machine candidate exists, or [d] would be [true] *)
    revert Z0. unfold enabled_interrupts. rewrite (inv_virt _ _ I). cbn [andb].
    destruct (Z.eqb_spec (pending &w not64 (mideleg s) &w all_or_none
      ((prv s <? PRV_M) || (prv s =? PRV_M) && z2b (get_field (mstatus s) MSTATUS_MIE))) 0) as [E0|E0];
      cbn [negb]; [|contradiction].
    intros Z0. apply (f_equal (fun x => Z.testbit x i)) in Z0. cbv beta in Z0.
    unfold takeable in T. rewrite E in T. apply andb_true_iff in T as [T1 T2].
    rewrite !Z.land_spec, T1, E, (not_vs i Hi E), all_or_none_testbit, T2, Z.bits_0 in Z0 by lia. discriminate.
Qed.

End Interrupts.

Lemma interrupt_exn_no_abort (s : state_t) (p : processor_t) e : csr_inv s p -> fits 64 (mip s) ->
  interrupt_exn s p (mip s &w mie s) = Some e -> match e with E_abort => False | _ => True end.
Proof.
  intros I F. pose proof (enabled_nonneg s p I) as N.
  pose proof (select_interrupt_first (enabled_interrupts s (mip s &w mie s))
    (fun i Hi T => proj1 (enabled_bounded s p I F i Hi T))) as Sel.
  unfold interrupt_exn. destruct (_ =? 0); [discriminate|].
  destruct (negb (debug_mode s)); cbn [andb]; [|discriminate].
  destruct (Z.eqb_spec (enabled_interrupts s (mip s &w mie s)) 0) as [E0|E0]; cbn [negb]; [discriminate|].
  destruct (Sel ltac:(lia)) as (x & i & -> & _). now intros [= <-].
Qed.

(** ** Properties *)

(** C32.  The privileged state stays legal: from reset of a processor without
    the hypervisor extension, any sequence of CSR writes (any register, any
    value), traps, debug-mode entries and returns leaves [mstatus.MPP] and the
    privilege mode legal and never the reserved mode, [mstatus.FS] off or
    dirty and SD its summary, the translation mode one the walker knows,
    virtualisation off, [mie] and [mideleg] within the implemented interrupts
    and the register files at their sizes. *)
Theorem privileged_state_legal {S : Type} `{!SimIf S} (h : State.hart S) (ops : list priv_op) :
  configured (proc h) -> Forall priv_op_ok ops ->
  csr_inv (st (run_priv_ops ops (processor_reset h).2)) (proc (run_priv_ops ops (processor_reset h).2)).
Proof. intros Hc Ho. apply run_priv_ops_inv; [exact Ho|]. now apply reset_establishes. Qed.

(** C34.  PMP locks hold until reset: no sequence of CSR writes changes the
    configuration of a locked entry, its address register, or the address
    register below a locked top-of-range entry. *)
Theorem pmp_lock_sticky {S : Type} `{!SimIf S} (h : State.hart S) (ws : list (Z * Z)) (i : Z) :
  0 <= i ->
  (cfg_protected (st h) i -> get_pmpcfg (st (set_csrs ws h)) i = get_pmpcfg (st h) i) /\
  (addr_protected (st h) i -> get_pmpaddr (st (set_csrs ws h)) i = get_pmpaddr (st h) i).
Proof. intros Hi. destruct (locks_kept_set_csrs ws h). auto. Qed.

(** C33.  Interrupts are exact: in a legal state [take_interrupt] never
    aborts; outside debug mode it throws an interrupt trap exactly when some
    pending, enabled interrupt may be taken at the current privilege level; a
    machine-level interrupt wins over every delegated one, and among those of
    one level the one that comes first in the order MEI, COP, MSI, MTI, SEI,
    SSI, STI, VSEI, VSSI, VSTI. *)
Theorem interrupt_exact (s : state_t) (p : processor_t) :
  csr_inv s p -> fits 64 (mip s) ->
  match interrupt_exn s p (mip s &w mie s) with
  | None => debug_mode s = true \/ forall i, 0 <= i -> takeable s i = false
  | Some e =>
    debug_mode s = false /\
    exists i, e = E_trap (Trap (interrupt_bit p |w i)) /\ takeable s i = true /\
      (forall j, 0 <= j -> takeable s j = true -> Z.testbit (mideleg s) j = false ->
         Z.testbit (mideleg s) i = false) /\
      exists l1 l2, priority_order = l1 ++ i :: l2 /\
        forall j, In j l1 -> takeable s j = true -> Z.testbit (mideleg s) j <> Z.testbit (mideleg s) i
  end.
Proof.
  intros I F. pose proof (enabled_nonneg s p I) as N.
  pose proof (select_interrupt_first (enabled_interrupts s (mip s &w mie s))
    (fun i Hi T => proj1 (enabled_bounded s p I F i Hi T))) as Sel.
  unfold interrupt_exn. destruct (Z.eqb_spec (mip s &w mie s) 0) as [P0|P0].
  { right. intros i Hi. destruct (takeable s i) eqn:T; [|reflexivity]. unfold takeable in T.
    apply andb_true_iff in T as [T _]. rewrite <- Z.land_spec, P0, Z.bits_0 in T. discriminate. }
  destruct (debug_mode s); cbn [negb andb]; [now left|].
  destruct (Z.eqb_spec (enabled_interrupts s (mip s &w mie s)) 0) as [E0|E0]; cbn [negb].
  { right. now apply (no_candidate s p I F). }
  destruct (Sel ltac:(lia)) as (x & i & -> & Hf & Hc). split; [reflexivity|].
  destruct (find_split _ _ _ Hf) as (l1 & l2 & Hl & Ti & Hl1).
  assert (R : forall j, In j priority_order -> 0 <= j < 64)
    by (apply List.Forall_forall; repeat apply List.Forall_cons; try apply List.Forall_nil; lia).
  assert (Hi : 0 <= i < 64) by (apply R; rewrite Hl; apply in_elt).
  destruct (enabled_bits s p I) as (d & B & D). pose proof (B i Hi) as Bi. rewrite Ti in Bi.
  symmetry in Bi. apply andb_true_iff in Bi as [Tk Di]. apply Bool.eqb_prop in Di.
  exists i. split; [now rewrite Hc|]. split; [exact Tk|]. split.
  - intros j Hj Tj Dj. rewrite Di. destruct d; [|reflexivity].
    pose proof (takeable_pending s p I F j Tj Hj). rewrite (D eq_refl j ltac:(lia) Tj) in Dj. discriminate.
  - exists l1, l2. split; [exact Hl|]. intros j Hj Tj Dj.
    assert (Hj' : 0 <= j < 64) by (apply R; rewrite Hl; apply in_or_app; now left).
    pose proof (B j Hj') as Bj. rewrite (Hl1 j Hj), Tj, Dj, Di, Bool.eqb_reflx in Bj. discriminate.
Qed.

(** C35.  Two partly implemented registers: [mepc] (as [sepc]) keeps 40 bits
    of an address with bit 0 clear and reads as their sign extension, so that
    writing a value read back changes nothing; [mtval] keeps the low 39 bits
    of a faulting address and records above them whether it was a canonical
    39-bit address, which it returns unchanged. *)
Theorem address_registers_warl (v t : Z) :
  fits 64 v -> fits 64 t ->
  legal_epc v = uw 64 (sw 40 (2 * (v / 2))) /\ legal_epc (legal_epc v) = legal_epc v /\
  uw 39 (rocket_tval t) = uw 39 t /\
  (uw 64 (sw 39 t) = t -> rocket_tval t = t) /\
  (uw 64 (sw 39 t) <> t -> Z.testbit (rocket_tval t) 39 <> Z.testbit t 38).
Proof.
  intros Fv Ft. pose proof (legal_epc_value v Fv) as Ev. split; [exact Ev|].
  assert (Fr : fits 64 (rocket_tval t)).
  { unfold rocket_tval. apply lor_fits; [lia|apply uw_fits; lia|].
    apply land_fits_r; [lia|]. split; [discriminate|reflexivity]. }
  split; [|split; [|split]].
  - assert (F' : fits 64 (legal_epc v)) by (rewrite Ev; apply uw_fits; lia).
    rewrite (legal_epc_value _ F'), Ev. bits i. rewrite !uw_testbit, !sw_testbit by lia.
    assert (Q : forall x j, 0 <= j -> Z.testbit (2 * (x / 2)) j = negb (j =? 0) && Z.testbit x j).
    { intros x j Hj. replace (2 * (x / 2)) with (Z.shiftl (x >>w 1) 1)
        by (rewrite Z.shiftl_mul_pow2, Z.shiftr_div_pow2 by lia; change (2 ^ 1) with 2; lia).
      destruct (Z.eqb_spec j 0) as [->|]; [now rewrite Z.shiftl_spec_low by lia|].
      rewrite Z.shiftl_spec, Z.shiftr_spec by lia. cbn [negb andb]. f_equal. lia. }
    set (k := if i <? 40 then i else 40 - 1). assert (0 <= k < 40) by (unfold k; bcases; lia).
    rewrite !Q, uw_testbit, sw_testbit by lia.
    replace (k <? 64) with true by lia. replace (k <? 40) with true by lia.
    rewrite Q by lia. now destruct (i <? 64), (k =? 0).
  - bits i. rewrite !uw_testbit by lia. destruct (Z.ltb_spec i 39); [|reflexivity]. cbn [andb].
    rewrite rocket_tval_bits by (auto; lia). now replace (i <? 39) with true by lia.
  - intros E. bits i. destruct (Z_lt_le_dec i 64); [|now rewrite !(fits_testbit 64) by (auto; lia)].
    rewrite rocket_tval_bits by (auto; lia). rewrite (proj2 (Z.eqb_eq _ _) E).
    destruct (Z.ltb_spec i 39); [reflexivity|]. rewrite <- E at 2. rewrite uw_testbit, sw_testbit by lia.
    replace (i <? 64) with true by lia. replace (i <? 39) with false by lia. change (39 - 1) with 38.
    now destruct (Z.testbit t 38).
  - intros E. rewrite rocket_tval_bits by (auto; lia). apply Z.eqb_neq in E as ->.
    change (39 <? 39) with false. now destruct (Z.testbit t 38).
Qed.
