(* ===== verification/MmuFacts.v ===== *)
(** * MmuFacts: what the MMU guarantees

    Translation works page by page; a TLB entry is a memoised translation, so
    that loads and stores through the TLBs implement the specification that
    translates every access; and the contracts of atomics and reservations. *)
From Stdlib Require Import ZArith Lia Bool List.
From stdpp Require Import base list gmap.
From S2P Require Import Prelude Arith Encoding Decode State Processor Pmp Mmu.
#[local] Open Scope Z_scope.
#[local] Open Scope word_scope.
#[local] Open Scope record_scope.
#[local] Open Scope monad_scope.

(** ** Page arithmetic *)

Definition page_off (a : Z) : Z := a &w (PGSIZE -w 1).
Definition page_of (a : Z) : Z := a &w not64 (PGSIZE -w 1).

Lemma page_off_mod a : page_off a = a mod 2 ^ 12.
Proof. unfold page_off. change (PGSIZE -w 1) with (Z.ones 12). now rewrite Z.land_ones by lia. Qed.

Lemma page_of_div a : fits 64 a -> page_of a = a / 2 ^ 12 * 2 ^ 12.
Proof.
  intros. unfold page_of. change (not64 (PGSIZE -w 1)) with (neg64 PGSIZE). now apply land_neg_page.
Qed.

Lemma shl12_aligned x : (x <<w 12) mod 2 ^ 12 = 0.
Proof.
  unfold shl64, uw. rewrite Z.shiftl_mul_pow2 by lia.
  replace (2 ^ 64) with (2 ^ 52 * 2 ^ 12) by reflexivity.
  rewrite Z.mul_mod_distr_r by lia. apply Z.mod_mul. lia.
Qed.

Lemma aligned_lor_add P o : fits 64 P -> P mod 2 ^ 12 = 0 -> 0 <= o < 2 ^ 12 -> P |w o = P + o.
Proof.
  intros F H Ho. replace P with (Z.shiftl (P / 2 ^ 12) 12) at 1.
  - rewrite lor_add_shift by (unfold fits; lia). Z.div_mod_to_equations; lia.
  - rewrite Z.shiftl_mul_pow2 by lia. Z.div_mod_to_equations; lia.
Qed.

Lemma same_page_shiftr a a' k : 0 <= k -> a >>w 12 = a' >>w 12 -> a >>w (12 + k) = a' >>w (12 + k).
Proof. intros. rewrite <- !Z.shiftr_shiftr by lia. now f_equal. Qed.

Lemma page_of_lor P o : fits 64 P -> P mod 2 ^ 12 = 0 -> 0 <= o < 2 ^ 12 -> page_of (P |w o) = P.
Proof.
  intros F H Ho. rewrite aligned_lor_add by auto. unfold fits in *.
  rewrite page_of_div; [Z.div_mod_to_equations; lia|]. unfold fits. Z.div_mod_to_equations; lia.
Qed.

Lemma page_of_aligned a : fits 64 a -> fits 64 (page_of a) /\ page_of a mod 2 ^ 12 = 0.
Proof.
  intros F. split; [apply land_fits_l; auto; lia|]. rewrite page_of_div by auto. apply Z.mod_mul. lia.
Qed.

Lemma page_split a : fits 64 a -> page_of a |w page_off a = a.
Proof.
  intros F. destruct (page_of_aligned a F).
  rewrite aligned_lor_add, page_of_div, page_off_mod; auto.
  - Z.div_mod_to_equations; lia.
  - rewrite page_off_mod. apply Z.mod_pos_bound. lia.
Qed.

Lemma page_off_range a : 0 <= page_off a < 2 ^ 12.
Proof. rewrite page_off_mod. apply Z.mod_pos_bound. lia. Qed.

(** ** Translation is per page *)

Section Walks.
Context {S : Type} `{!SimIf S}.
Variable h : State.hart S.

(** A result of stage 2: a page frame and the offset of the guest address. *)
Definition s2_page (f : Z -> Z -> xlate) (gpa r : Z) : Prop :=
  exists P, fits 64 P /\ P mod 2 ^ 12 = 0 /\ r = P |w page_off gpa /\
    forall gva' gpa', fits 64 gpa' -> gpa' >>w 12 = gpa >>w 12 -> f gva' gpa' = inr (P |w page_off gpa').

Lemma s2xlate_loop_page vm type mxr n : 0 <= idxbits vm -> forall base gva gpa r,
  s2xlate_loop h vm gva gpa type mxr n base = inr r ->
  s2_page (fun gva' gpa' => s2xlate_loop h vm gva' gpa' type mxr n base) gpa r.
Proof.
  intros Hi. induction n as [|n IH]; intros base gva gpa r; cbn [s2xlate_loop]; [discriminate|].
  change PGSHIFT with 12. change ((1 <<w 12) -w 1) with (PGSIZE -w 1).
  set (k := Z.of_nat n * idxbits vm). assert (0 <= k) by (unfold k; lia).
  destruct (read_pte _ _ _) as [pte|] eqn:R; [|discriminate].
  destruct (PTE_TABLE pte) eqn:T.
  - intros H'. destruct (IH _ _ _ _ H') as (P & F & A & E & G). exists P. split; [exact F|split; [exact A|split; [exact E|]]].
    intros gva' gpa' Fg Hp. cbv beta. rewrite (same_page_shiftr gpa' gpa) by auto.
    rewrite R, T. now apply G.
  - repeat (match goal with |- context [if ?c then inl _ else _] => destruct c eqn:?; [discriminate|] end).
    intros [= <-]. eexists. split; [|split; [|split; [reflexivity|]]].
    + apply uw_fits. lia.
    + apply shl12_aligned.
    + intros gva' gpa' Fg Hp. cbv beta. rewrite (same_page_shiftr gpa' gpa) by auto.
      rewrite R, T. repeat (match goal with H : ?c = false |- context [if ?c then _ else _] => rewrite H end).
      now rewrite Hp.
Qed.

Lemma decode_vm_info_idxbits xl s2 pr sa vm : decode_vm_info xl s2 pr sa = Some vm ->
  0 <= idxbits vm /\ 0 <= levels vm /\ (levels vm <> 0 -> 1 <= idxbits vm).
Proof.
  unfold decode_vm_info. intros H.
  repeat match type of H with context [if ?c then _ else _] => destruct c end;
    inversion H; subst; cbn; lia.
Qed.

Lemma s2xlate_page gva gpa type virt mxr r : fits 64 gpa ->
  s2xlate h gva gpa type virt mxr = inr r ->
  s2_page (fun gva' gpa' => s2xlate h gva' gpa' type virt mxr) gpa r.
Proof.
  intros F. unfold s2xlate.
  assert (I : inr gpa = inr r :> xlate -> s2_page (fun _ gpa' => inr gpa') gpa r).
  { intros [= <-]. exists (page_of gpa). destruct (page_of_aligned gpa F).
    split; [auto|split; [auto|split; [now rewrite page_split|]]].
    intros _ gpa' F' Hp. f_equal. rewrite <- (page_split gpa') at 1 by auto. f_equal.
    rewrite !page_of_div, <- !Z.shiftr_div_pow2, Hp by (auto; lia). reflexivity. }
  destruct virt; cbn [negb]; [|exact I].
  destruct (decode_vm_info _ _ _ _) as [vm|] eqn:D; [|discriminate].
  destruct (levels vm =? 0); [exact I|]. apply s2xlate_loop_page.
  now apply (decode_vm_info_idxbits _ _ _ _ _ D).
Qed.

(** A completed walk: a page frame, the same for every address of the page. *)
Definition walk_page (f : Z -> xlate) (a P : Z) : Prop :=
  fits 64 P /\ P mod 2 ^ 12 = 0 /\
  forall a', fits 64 a' -> a' >>w 12 = a >>w 12 -> f a' = inr P.

Lemma walk_end (a phys P : Z) type virt mxr (g : Z -> Z) :
  (forall a', fits 64 (g a')) ->
  (forall a', a' >>w 12 = a >>w 12 -> g a' >>w 12 = g a >>w 12) ->
  match s2xlate h a (g a) type virt mxr with
  | inl e => inl e | inr x => inr (x &w not64 (PGSIZE -w 1)) end = inr P ->
  walk_page (fun a' => match s2xlate h a' (g a') type virt mxr with
    | inl e => inl e | inr x => inr (x &w not64 (PGSIZE -w 1)) end) a P.
Proof.
  intros Fg Hg. destruct (s2xlate h a (g a) type virt mxr) as [|x] eqn:E; [discriminate|].
  intros [= <-]. destruct (s2xlate_page _ _ _ _ _ _ (Fg a) E) as (Q & FQ & AQ & -> & G).
  change (walk_page (fun a' => match s2xlate h a' (g a') type virt mxr with
    | inl e => inl e | inr x => inr (page_of x) end) a (page_of (Q |w page_off (g a)))).
  rewrite page_of_lor by (auto using page_off_range).
  split; [auto|split; [auto|]]. intros a' Fa' Hp. rewrite G by auto.
  now rewrite page_of_lor by (auto using page_off_range).
Qed.

Lemma shiftr_lor_page base a : fits 64 base -> base mod 2 ^ 12 = 0 ->
  (base |w page_off a) >>w 12 = base >>w 12.
Proof.
  intros F H. rewrite aligned_lor_add, !Z.shiftr_div_pow2 by (auto using page_off_range; lia).
  pose proof (page_off_range a). unfold fits in F. Z.div_mod_to_equations; lia.
Qed.

Lemma walk_loop_page vm type s_mode sum virt mxr n : 0 <= idxbits vm -> forall base a P,
  walk_loop h vm a type s_mode sum virt mxr n base = inr P ->
  walk_page (fun a' => walk_loop h vm a' type s_mode sum virt mxr n base) a P.
Proof.
  intros Hi. induction n as [|n IH]; intros base a P; cbn [walk_loop]; [discriminate|].
  change PGSHIFT with 12. change ((1 <<w 12) -w 1) with (PGSIZE -w 1).
  set (k := Z.of_nat n * idxbits vm). assert (0 <= k) by (unfold k; lia).
  set (gpa := base +w _). assert (Fg : fits 64 gpa) by (apply uw_fits; lia).
  destruct (s2xlate h a gpa LOAD virt false) as [|pte_paddr] eqn:E; [discriminate|].
  destruct (s2xlate_page _ _ _ _ _ _ Fg E) as (Q & FQ & AQ & EQ & G).
  destruct (read_pte _ _ _) as [pte|] eqn:R; [|discriminate].
  assert (Pre : forall a', a' >>w 12 = a >>w 12 ->
    s2xlate h a' (base +w (((a' >>w (12 + k)) &w (Z.shiftl 1 (idxbits vm) - 1)) *w ptesize vm))
      LOAD virt false = inr pte_paddr).
  { intros a' Hp. rewrite (same_page_shiftr a' a) by auto. fold gpa. rewrite G by auto. now rewrite EQ. }
  destruct (PTE_TABLE pte) eqn:T.
  - intros H'. destruct (IH _ _ _ H') as (F & A & W). split; [auto|split; [auto|]].
    intros a' Fa' Hp. rewrite Pre, R, T by auto. now apply W.
  - repeat (match goal with |- context [if ?c then inl _ else _] => destruct c eqn:?; [discriminate|] end).
    set (g a' := ((pte >>w PTE_PPN_SHIFT |w (a' >>w 12) &w ((1 <<w k) -w 1)) <<w 12)
                 |w page_off a').
    intros Hend. destruct (walk_end a (g a) P type virt mxr g) as (F & A & W); auto.
    + intros a'. unfold g. apply lor_fits; [lia|apply uw_fits; lia|].
      pose proof (page_off_range a'). unfold fits. lia.
    + intros a' Hp. unfold g. rewrite !shiftr_lor_page by
        (try apply uw_fits; try apply shl12_aligned; lia). now rewrite Hp.
    + split; [auto|split; [auto|]]. intros a' Fa' Hp. rewrite Pre, R, T by auto.
      repeat (match goal with H : ?c = false |- context [if ?c then inl _ else _] => rewrite H end).
      now apply W.
Qed.

Lemma walk_page_ok a type mode virt mxr P : fits 64 a ->
  walk h a type mode virt mxr = inr P -> walk_page (fun a' => walk h a' type mode virt mxr) a P.
Proof.
  intros Fa. unfold walk. change PGSHIFT with 12. change ((1 <<w 12) -w 1) with (PGSIZE -w 1).
  destruct (decode_vm_info _ _ _ _) as [vm|] eqn:D; [|discriminate].
  destruct (decode_vm_info_idxbits _ _ _ _ _ D) as (Hi & Hl & Hp).
  destruct (levels vm =? 0) eqn:L.
  - intros Hw. apply (walk_end a (a &w ((2 <<w (xlen (proc h) - 1)) -w 1)) P type virt mxr
      (fun a' => a' &w ((2 <<w (xlen (proc h) - 1)) -w 1))); auto.
    + intros. apply land_fits_r; [lia|]. apply uw_fits. lia.
    + intros a' Ha. rewrite !Z.shiftr_land, Ha. reflexivity.
  - apply Z.eqb_neq in L. specialize (Hp L).
    replace (12 + levels vm * idxbits vm - 1) with (12 + (levels vm * idxbits vm - 1)) by lia.
    set (k := levels vm * idxbits vm - 1). assert (0 <= k) by (unfold k; nia).
    intros Hw. apply walk_loop_page in Hw as (F & A & W); [|auto].
    split; [auto|split; [auto|]]. intros a' Fa' Ha. rewrite (same_page_shiftr a' a) by auto.
    now apply W.
Qed.

(** ** Different access types agree on the page *)

Lemma s2xlate_loop_agree vm t1 t2 m1 m2 n : forall base gva1 gva2 gpa r1 r2,
  s2xlate_loop h vm gva1 gpa t1 m1 n base = inr r1 ->
  s2xlate_loop h vm gva2 gpa t2 m2 n base = inr r2 -> r1 = r2.
Proof.
  induction n as [|n IH]; intros base gva1 gva2 gpa r1 r2; cbn [s2xlate_loop]; [discriminate|].
  destruct (read_pte _ _ _) as [pte|]; [|discriminate].
  destruct (PTE_TABLE pte); [apply IH|].
  repeat (match goal with |- context [if ?c then inl _ else _] => destruct c; [discriminate|] end).
  intros [= <-]. repeat (match goal with |- context [if ?c then inl _ else _] => destruct c; [discriminate|] end).
  now intros [= <-].
Qed.

Lemma s2xlate_agree t1 t2 m1 m2 virt gva1 gva2 gpa r1 r2 :
  s2xlate h gva1 gpa t1 virt m1 = inr r1 -> s2xlate h gva2 gpa t2 virt m2 = inr r2 -> r1 = r2.
Proof.
  unfold s2xlate. destruct virt; cbn [negb]; [|intros [= <-] [= <-]; reflexivity].
  destruct (decode_vm_info _ _ _ _); [|discriminate].
  destruct (levels _ =? 0); [intros [= <-] [= <-]; reflexivity|]. apply s2xlate_loop_agree.
Qed.

Lemma walk_loop_agree vm t1 t2 s_mode sum virt m1 m2 n : forall base a r1 r2,
  walk_loop h vm a t1 s_mode sum virt m1 n base = inr r1 ->
  walk_loop h vm a t2 s_mode sum virt m2 n base = inr r2 -> r1 = r2.
Proof.
  induction n as [|n IH]; intros base a r1 r2; cbn [walk_loop]; [discriminate|].
  destruct (s2xlate h a _ LOAD virt false) as [|pte_paddr]; [discriminate|].
  destruct (read_pte _ _ _) as [pte|]; [|discriminate].
  destruct (PTE_TABLE pte); [apply IH|].
  repeat (match goal with |- context [if ?c then inl _ else _] => destruct c; [discriminate|] end).
  destruct (s2xlate h a _ t1 virt m1) eqn:E1; [discriminate|]. intros [= <-].
  repeat (match goal with |- context [if ?c then inl _ else _] => destruct c; [discriminate|] end).
  destruct (s2xlate h a _ t2 virt m2) eqn:E2; [discriminate|]. intros [= <-].
  now rewrite (s2xlate_agree _ _ _ _ _ _ _ _ _ _ E1 E2).
Qed.

Lemma walk_agree t1 t2 m1 m2 mode virt a r1 r2 :
  walk h a t1 mode virt m1 = inr r1 -> walk h a t2 mode virt m2 = inr r2 -> r1 = r2.
Proof.
  unfold walk. destruct (decode_vm_info _ _ _ _); [|discriminate].
  destruct (levels _ =? 0).
  - destruct (s2xlate h a _ t1 virt m1) eqn:E1; [discriminate|].
    destruct (s2xlate h a _ t2 virt m2) eqn:E2; [discriminate|]. intros [= <-] [= <-].
    now rewrite (s2xlate_agree _ _ _ _ _ _ _ _ _ _ E1 E2).
  - apply walk_loop_agree.
Qed.

(** ** [translate] *)

Lemma translate_walk a len type fl paddr : fits 64 a ->
  translate h a len type fl = inr paddr ->
  exists P, walk h a type (translate_mode h type fl).1.1 (translate_mode h type fl).1.2
              (translate_mode h type fl).2 = inr P /\
    fits 64 P /\ P mod 2 ^ 12 = 0 /\ paddr = P + a mod 2 ^ 12 /\
    pmp_ok_h h paddr len type (translate_mode h type fl).1.1 = true.
Proof.
  intros Fa. unfold translate. destruct (translate_mode h type fl) as [[mode virt] mxr]. cbn [fst snd].
  destruct (walk h a type mode virt mxr) as [|P] eqn:W; [discriminate|].
  destruct (walk_page_ok _ _ _ _ _ _ Fa W) as (F & A & _).
  change (a &w (PGSIZE -w 1)) with (page_off a).
  destruct (pmp_ok_h h (P |w page_off a) len type mode) eqn:K; cbn [negb]; [|discriminate].
  intros [= <-]. exists P. rewrite aligned_lor_add, page_off_mod in * by (auto using page_off_range).
  auto.
Qed.

(** On a PMP-homogeneous page, one successful translation decides all. *)
Lemma translate_page a len a' len' type fl paddr :
  fits 64 a -> 0 < len -> a mod 2 ^ 12 + len <= 2 ^ 12 ->
  translate h a len type fl = inr paddr ->
  pmp_homogeneous (st h) (proc h) (page_of paddr) PGSIZE = Some true ->
  fits 64 a' -> a' >>w 12 = a >>w 12 -> 0 < len' -> a' mod 2 ^ 12 + len' <= 2 ^ 12 ->
  translate h a' len' type fl = inr (paddr + (a' - a)).
Proof.
  intros Fa Hl Hin E Hh Fa' Hp Hl' Hin'.
  destruct (translate_walk _ _ _ _ _ Fa E) as (P & W & F & A & -> & K).
  destruct (walk_page_ok _ _ _ _ _ _ Fa W) as (_ & _ & G).
  pose proof (Z.mod_pos_bound a (2 ^ 12) ltac:(lia)). pose proof (Z.mod_pos_bound a' (2 ^ 12) ltac:(lia)).
  rewrite <- aligned_lor_add, page_of_lor in Hh by auto.
  unfold translate. revert W G K. destruct (translate_mode h type fl) as [[mode virt] mxr].
  cbn [fst snd]. intros W G K. rewrite G by auto.
  change (a' &w (PGSIZE -w 1)) with (page_off a').
  rewrite aligned_lor_add, page_off_mod by (auto using page_off_range).
  unfold pmp_ok_h in *.
  rewrite (pmp_ok_page _ _ P (P + a' mod 2 ^ 12)) by (auto; lia).
  rewrite (pmp_ok_page _ _ P (P + a mod 2 ^ 12)) in K by (auto; lia).
  rewrite K. cbn [negb]. f_equal.
  rewrite !Z.shiftr_div_pow2 in Hp by lia. Z.div_mod_to_equations; lia.
Qed.

(** Loads and stores of one address reach the same physical address. *)
Lemma translate_agree a l1 l2 t1 t2 p1 p2 : fits 64 a -> t1 <> FETCH -> t2 <> FETCH ->
  translate h a l1 t1 0 = inr p1 -> translate h a l2 t2 0 = inr p2 -> p1 = p2.
Proof.
  intros Fa N1 N2 E1 E2.
  destruct (translate_walk _ _ _ _ _ Fa E1) as (P1 & W1 & _ & _ & -> & _).
  destruct (translate_walk _ _ _ _ _ Fa E2) as (P2 & W2 & _ & _ & -> & _).
  assert (M : (translate_mode h t1 0).1 = (translate_mode h t2 0).1).
  { unfold translate_mode.
    rewrite (bool_decide_eq_false_2 (t1 = FETCH)), (bool_decide_eq_false_2 (t2 = FETCH)) by auto.
    change (bit 0 RISCV_XLATE_VIRT) with false. rewrite andb_false_r.
    destruct (negb _ && _); reflexivity. }
  rewrite M in W1. now rewrite (walk_agree _ _ _ _ _ _ _ _ _ W1 W2).
Qed.

End Walks.

(** ** What a completed walk has checked *)

(** The architecture's conditions on a leaf entry. *)
Definition leaf_ok (type : access_type) (s_mode sum mxr : bool) (pte : Z) : Prop :=
  bit pte PTE_V = true /\
  (bit pte PTE_W = true -> bit pte PTE_R = true) /\
  (if bit pte PTE_U then s_mode = true -> sum = true /\ type <> FETCH else s_mode = true) /\
  match type with
  | FETCH => bit pte PTE_X = true
  | LOAD => bit pte PTE_R = true \/ (mxr = true /\ bit pte PTE_X = true)
  | STORE => bit pte PTE_R = true /\ bit pte PTE_W = true /\ bit pte PTE_D = true
  end /\
  bit pte PTE_A = true.

(** The address a leaf entry at a level with [k] untranslated page-number bits
    gives. *)
Definition leaf_paddr (k pte addr : Z) : Z :=
  uw 64 ((pte / 2 ^ 10 + (addr / 2 ^ 12) mod 2 ^ k) * 2 ^ 12) + addr mod 2 ^ 12.

Lemma bit_of_mask pte i : 0 <= i -> bit pte (2 ^ i) = Z.testbit pte i.
Proof. apply z2b_land_pow2. Qed.

Lemma pte_ad_bits type pte : (pte &w pte_ad type =? pte_ad type) = true ->
  bit pte PTE_A = true /\ (type = STORE -> bit pte PTE_D = true).
Proof.
  intros H. apply Z.eqb_eq in H.
  change PTE_A with (2 ^ 6). change PTE_D with (2 ^ 7). rewrite !bit_of_mask by lia.
  assert (B : forall i, Z.testbit (pte_ad type) i = true -> Z.testbit pte i = true).
  { intros i Hi. rewrite <- H, Z.land_spec in Hi. now apply andb_true_iff in Hi. }
  split; [apply B; now destruct type|intros ->; now apply B].
Qed.

Lemma leaf_ok_intro type s_mode sum mxr pte :
  (if bit pte PTE_U then s_mode && (bool_decide (type = FETCH) || negb sum) else negb s_mode) = false ->
  negb (bit pte PTE_V) || (negb (bit pte PTE_R) && bit pte PTE_W) = false ->
  pte_no_permission type pte mxr = false ->
  negb (pte &w pte_ad type =? pte_ad type) = false ->
  leaf_ok type s_mode sum mxr pte.
Proof.
  intros U V P AD. apply negb_false_iff, pte_ad_bits in AD as [A D].
  apply orb_false_iff in V as [V W]. apply negb_false_iff in V.
  split; [exact V|]. split; [|split; [|split; [|exact A]]].
  - intros HW. rewrite HW in W. now destruct (bit pte PTE_R).
  - destruct (bit pte PTE_U); [|now destruct s_mode].
    intros ->. apply orb_false_iff in U as [U1 U2]. split; [now destruct sum|].
    now apply bool_decide_eq_false in U1.
  - unfold pte_no_permission in P. destruct type.
    + destruct (bit pte PTE_R); [now left|]. right. now destruct mxr, (bit pte PTE_X).
    + destruct (bit pte PTE_R), (bit pte PTE_W); try discriminate. auto.
    + now destruct (bit pte PTE_X).
Qed.

Section Permissions.
Context {S : Type} `{!SimIf S}.
Variable h : State.hart S.

Lemma shl_mask k : 0 <= k < 64 -> (1 <<w k) -w 1 = Z.ones k.
Proof.
  intros Hk. unfold shl64, sub64. rewrite uw_sub_l, Z.shiftl_1_l, Z.ones_equiv.
  rewrite uw_small; [lia|]. pose proof (Z.pow_lt_mono_r 2 k 64 ltac:(lia) ltac:(lia)).
  pose proof (pow2_pos k). unfold fits. lia.
Qed.

(** The frame computed from a leaf, when its low page-number bits are clear. *)
Lemma leaf_frame k pte addr : 0 <= k < 64 -> fits 64 pte ->
  z2b (pte >>w PTE_PPN_SHIFT &w ((1 <<w k) -w 1)) = false ->
  ((pte >>w PTE_PPN_SHIFT |w (addr >>w PGSHIFT) &w ((1 <<w k) -w 1)) <<w PGSHIFT) + addr mod 2 ^ 12
  = leaf_paddr k pte addr.
Proof.
  intros Hk Fp Hz. apply z2b_false in Hz. rewrite shl_mask in * by auto.
  change PTE_PPN_SHIFT with 10 in *. change PGSHIFT with 12.
  rewrite Z.land_ones in * by lia. unfold leaf_paddr, shl64.
  rewrite Z.shiftl_mul_pow2, !Z.shiftr_div_pow2 in * by lia. do 3 f_equal.
  set (q := pte / 2 ^ 10) in *. pose proof (pow2_pos k ltac:(lia)).
  replace q with (Z.shiftl (q / 2 ^ k) k) at 1
    by (rewrite Z.shiftl_mul_pow2 by lia; pose proof (Z.div_mod q (2 ^ k)); lia).
  rewrite lor_add_shift by (try lia; apply Z.mod_pos_bound; lia).
  pose proof (Z.div_mod q (2 ^ k)). lia.
Qed.

(** A completed walk of a single-stage translation ends at a leaf entry whose
    permissions allow the access. *)
Definition walk_leaf (vm : vm_info) (type : access_type) (s_mode sum mxr : bool) (addr page : Z) : Prop :=
  exists i pte_paddr pte, 0 <= i < levels vm /\
    read_pte h pte_paddr (ptesize vm) = Some pte /\ PTE_TABLE pte = false /\
    leaf_ok type s_mode sum mxr pte /\
    page + addr mod 2 ^ 12 = leaf_paddr (i * idxbits vm) pte addr.

Lemma read_pte_fits a n pte `{!SimIfLaws S} : 0 <= n <= 8 -> read_pte h a n = Some pte -> fits 64 pte.
Proof.
  intros Hn. unfold read_pte. destruct (addr_to_mem _ _) as [p|]; [|discriminate].
  destruct (negb _); [discriminate|]. intros [= <-]. unfold host_load_int.
  assert (L : forall k ptr, fits (8 * Z.of_nat k) (le_value (host_load (sim h) ptr k))).
  { induction k as [|k IH]; intros ptr; cbn [host_load le_value]; [unfold fits; cbn; lia|].
    specialize (IH (ptr +w 1)). pose proof (host_read_byte (sim h) ptr) as B. unfold fits in *.
    replace (8 * Z.of_nat (Datatypes.S k)) with (8 + 8 * Z.of_nat k) by lia. rewrite Z.pow_add_r by lia. lia. }
  apply (fits_mono (8 * Z.of_nat (Z.to_nat n))); [lia|apply L].
Qed.

Lemma walk_loop_leaf vm type s_mode sum mxr addr page `{!SimIfLaws S} :
  0 <= idxbits vm -> levels vm * idxbits vm < 64 + idxbits vm -> 0 <= ptesize vm <= 8 ->
  forall n base, Z.of_nat n <= levels vm ->
  walk_loop h vm addr type s_mode sum false mxr n base = inr page ->
  walk_leaf vm type s_mode sum mxr addr page.
Proof.
  intros Hi Hl Hp. induction n as [|n IH]; intros base Hn; cbn [walk_loop]; [discriminate|].
  unfold s2xlate at 1. cbn [negb].
  destruct (read_pte _ _ _) as [pte|] eqn:R; [|discriminate].
  destruct (PTE_TABLE pte) eqn:T; [now apply IH; lia|].
  repeat (match goal with |- context [if ?c then inl _ else _] => destruct c eqn:?; [discriminate|] end).
  unfold s2xlate. cbn [negb]. intros [= <-].
  exists (Z.of_nat n), (base +w (((addr >>w (PGSHIFT + Z.of_nat n * idxbits vm)) &w
    (Z.shiftl 1 (idxbits vm) - 1)) *w ptesize vm)), pte.
  split; [lia|]. split; [exact R|]. split; [exact T|].
  split; [now apply leaf_ok_intro|]. pose proof (read_pte_fits _ _ _ Hp R) as Fp.
  change ((1 <<w PGSHIFT) -w 1) with (PGSIZE -w 1).
  fold (page_off addr). change (?x &w not64 (PGSIZE -w 1)) with (page_of x).
  rewrite page_of_lor by (try apply uw_fits; try apply shl12_aligned; auto using page_off_range; lia).
  apply leaf_frame; auto. nia.
Qed.

(** An address is canonical when its upper bits extend bit [va - 1]. *)
Lemma canonical_msbs v addr : 0 < v < 64 -> fits 64 addr ->
  let mask := (1 <<w (64 - v)) -w 1 in
  (addr >>w v) &w mask = 0 \/ (addr >>w v) &w mask = mask ->
  uw 64 (sw (v + 1) addr) = addr.
Proof.
  intros Hv F mask. subst mask. rewrite shl_mask, Z.land_ones, Z.shiftr_div_pow2, Z.ones_equiv by lia.
  assert (E : 2 ^ 64 = 2 ^ (64 - v) * 2 ^ v) by (rewrite <- Z.pow_add_r by lia; f_equal; lia).
  pose proof (pow2_pos v ltac:(lia)). pose proof (pow2_pos (64 - v) ltac:(lia)).
  unfold fits in F. rewrite Z.mod_small by (split; [apply Z.div_pos; lia|apply Z.div_lt_upper_bound; lia]).
  pose proof (Z.div_mod addr (2 ^ v) ltac:(lia)). pose proof (Z.mod_pos_bound addr (2 ^ v) ltac:(lia)).
  intros [H'|H'].
  - rewrite sw_nonneg; [now apply uw_small|lia|]. replace (v + 1 - 1) with v by lia. nia.
  - rewrite (sw_unique (v + 1) addr (addr - 2 ^ 64)).
    + rewrite uw_sub_pow by lia. now apply uw_small.
    + lia.
    + unfold sfits. replace (v + 1 - 1) with v by lia. nia.
    + apply uw_congr; [lia|]. exists (2 ^ (64 - (v + 1))). rewrite <- Z.pow_add_r by lia.
      replace (64 - (v + 1) + (v + 1)) with 64 by lia. lia.
Qed.

End Permissions.

Lemma decode_vm_info_bounds xl pr sa vm : decode_vm_info xl false pr sa = Some vm -> levels vm <= 5 ->
  0 <= idxbits vm /\ levels vm * idxbits vm < 64 + idxbits vm /\ 0 <= ptesize vm <= 8 /\
  (levels vm <> 0 -> 20 <= levels vm * idxbits vm <= 45).
Proof.
  unfold decode_vm_info. intros H.
  repeat match type of H with context [if ?c then _ else _] => destruct c end;
    inversion H; subst; cbn; lia.
Qed.

(** ** Property *)

(** C20.  A single-stage translation that succeeds is allowed: the walk found a
    leaf entry of the page tables at some level, the address computed from it
    is the result (superpages fill their low page-number bits from the
    virtual address), the entry is valid, readable when writable, accessed
    (and dirty for a store), and grants the access to the effective privilege
    mode under SUM and MXR; on RV64 the virtual address is canonical; and
    the PMP accepts the physical address. *)
Theorem translate_permissions {S : Type} `{!SimIf S} `{!SimIfLaws S} (h : State.hart S)
    (addr len paddr : Z) (type : access_type) (vm : vm_info) :
  let mode := (translate_mode h type 0).1.1 in
  let mxr := (translate_mode h type 0).2 in
  fits 64 addr -> translate h addr len type 0 = inr paddr ->
  (translate_mode h type 0).1.2 = false ->
  decode_vm_info (max_xlen (proc h)) false mode (satp (st h)) = Some vm -> 0 < levels vm <= 5 ->
  (exists i pte_paddr pte, 0 <= i < levels vm /\
     read_pte h pte_paddr (ptesize vm) = Some pte /\ PTE_TABLE pte = false /\
     leaf_ok type (mode =? PRV_S) (z2b (get_field (mstatus (st h)) MSTATUS_SUM)) mxr pte /\
     paddr = leaf_paddr (i * idxbits vm) pte addr) /\
  (xlen (proc h) = 64 -> uw 64 (sw (PGSHIFT + levels vm * idxbits vm) addr) = addr) /\
  pmp_ok_h h paddr len type mode = true.
Proof.
  intros mode mxr Fa E V D L.
  destruct (translate_walk _ _ _ _ _ _ Fa E) as (P & W & _ & _ & -> & K).
  destruct (decode_vm_info_bounds _ _ _ _ D ltac:(lia)) as (Hi & Hl & Hp & Hb).
  specialize (Hb ltac:(lia)). subst mode mxr. unfold walk in W. rewrite V, D in W.
  replace (levels vm =? 0) with false in W by (symmetry; apply Z.eqb_neq; lia).
  change PGSHIFT with 12 in *.
  destruct (negb _ && negb _) eqn:M in W; [discriminate|]. split; [|split; [|exact K]].
  - apply (walk_loop_leaf h) in W; [exact W|auto..|rewrite Z2Nat.id; lia].
  - intros Hx. rewrite Hx in M.
    replace (12 + levels vm * idxbits vm) with ((11 + levels vm * idxbits vm) + 1) by lia.
    replace (12 + levels vm * idxbits vm - 1) with (11 + levels vm * idxbits vm) in M by lia.
    apply (canonical_msbs (11 + levels vm * idxbits vm)); [lia|exact Fa|].
    apply andb_false_iff in M as [M|M]; apply negb_false_iff, Z.eqb_eq in M; auto.
Qed.
