(* ===== verification/Registers.v ===== *)
(** * Registers: XLEN-bit values in 64-bit registers

    The host register is 64 bits wide whatever XLEN: on RV32 it holds the sign
    extension of the 32-bit value.  [wf xlen] is that representation, [good
    xlen] says that writing a value keeps it, and [regs_ok] is the register
    file's invariant. *)
From Stdlib Require Import ZArith Lia Bool List.
From stdpp Require Import base list gmap.
From S2P Require Import Prelude Arith Encoding Decode Decoder State Processor Pmp Mmu Csr TrapEntry Macros.
#[local] Open Scope Z_scope.
#[local] Open Scope word_scope.

Definition wf (xlen x : Z) : Prop := u64 (sw xlen x) = x.
Definition good (xlen v : Z) : Prop := wf xlen (u64 v).
Definition xlen_ok (xlen : Z) : Prop := xlen = 32 \/ xlen = 64.

Section Values.
Variable xlen : Z.
Hypothesis Hx : xlen_ok xlen.

Lemma xlen_range : 0 < xlen <= 64.
Proof. destruct Hx; lia. Qed.

Lemma sext_sw v : sext_xlen xlen v = sw xlen v.
Proof. apply sext_xlen_sw, xlen_range. Qed.

Lemma wf_fits x : wf xlen x -> fits 64 x.
Proof. intros <-. apply uw_fits. lia. Qed.

Lemma wf_u64 x : wf xlen x -> u64 x = x.
Proof. intros H. apply uw_small. now apply wf_fits. Qed.

Lemma wf_good x : wf xlen x -> good xlen x.
Proof. intros H. unfold good. now rewrite wf_u64. Qed.

(** Every signed [xlen]-bit value may be written. *)
Lemma good_sfits v : sfits xlen v -> good xlen v.
Proof.
  intros H. pose proof xlen_range. unfold good, wf. rewrite sw_of_uw by lia.
  now rewrite sw_small by (auto; lia).
Qed.

Lemma good_sw v : good xlen (sw xlen v).
Proof. apply good_sfits, sw_fits. pose proof xlen_range. lia. Qed.

Lemma good_sext v : good xlen (sext_xlen xlen v).
Proof. rewrite sext_sw. apply good_sw. Qed.

Lemma sfits_mono v w x : 0 < v <= w -> sfits v x -> sfits w x.
Proof.
  unfold sfits. intros H [? ?]. pose proof (Z.pow_le_mono_r 2 (v - 1) (w - 1) ltac:(lia) ltac:(lia)). lia.
Qed.

Lemma good_sfits_le w v : 0 < w <= 32 -> sfits w v -> good xlen v.
Proof. intros Hw H. apply good_sfits, (sfits_mono w); [destruct Hx; lia|exact H]. Qed.

Lemma good_sext32 v : good xlen (sext32 v).
Proof. apply (good_sfits_le 32); [lia|]. apply sw_fits. lia. Qed.

Lemma good_signed w v : 0 < w <= 32 -> good xlen (sw w v).
Proof. intros. apply (good_sfits_le w); [lia|]. apply sw_fits. lia. Qed.

Lemma good_unsigned w v : 0 < w < 32 -> good xlen (uw w v).
Proof.
  intros. apply (good_sfits_le 32); [lia|]. pose proof (uw_fits w v ltac:(lia)) as [? ?].
  pose proof (Z.pow_le_mono_r 2 w 31 ltac:(lia) ltac:(lia)).
  unfold sfits. change (32 - 1) with 31. lia.
Qed.

Lemma good_b2z b : good xlen (b2z b).
Proof. apply (good_sfits_le 32); [lia|]. unfold sfits. destruct b; cbn; lia. Qed.

Lemma good_fits v : good xlen v -> fits 64 v -> wf xlen v.
Proof. unfold good. intros H F. now rewrite uw_small in H. Qed.

Lemma good_minus_1 : good xlen minus_1.
Proof. destruct Hx as [-> | ->]; reflexivity. Qed.

Lemma wf_0 : wf xlen 0.
Proof. destruct Hx as [-> | ->]; reflexivity. Qed.

(** Bits from [xlen - 1] up are all equal. *)
Lemma wf_bits x : wf xlen x <->
  fits 64 x /\ forall i, xlen - 1 <= i < 64 -> Z.testbit x i = Z.testbit x (xlen - 1).
Proof.
  pose proof xlen_range. unfold wf. split.
  - intros E. split; [rewrite <- E; apply uw_fits; lia|]. intros i Hi.
    rewrite <- E at 1. rewrite uw_testbit, sw_testbit by lia. replace (i <? 64) with true by lia.
    cbn [andb]. f_equal. destruct (Z.ltb_spec i xlen); lia.
  - intros [F B]. bits i. rewrite uw_testbit, sw_testbit by lia.
    destruct (Z.ltb_spec i 64); cbn [andb]; [|symmetry; apply (fits_testbit 64); auto; lia].
    destruct (Z.ltb_spec i xlen); [reflexivity|]. symmetry. apply B. lia.
Qed.

Lemma wf_lor x y : wf xlen x -> wf xlen y -> wf xlen (x |w y).
Proof.
  rewrite !wf_bits. intros [Fx Bx] [Fy By]. split; [apply lor_fits; auto; lia|].
  intros i Hi. rewrite !Z.lor_spec, Bx, By by lia. reflexivity.
Qed.
Lemma wf_land x y : wf xlen x -> wf xlen y -> wf xlen (x &w y).
Proof.
  rewrite !wf_bits. intros [Fx Bx] [Fy By]. split; [apply land_fits_l; auto; lia|].
  intros i Hi. rewrite !Z.land_spec, Bx, By by lia. reflexivity.
Qed.
Lemma wf_lxor x y : wf xlen x -> wf xlen y -> wf xlen (x ^w y).
Proof.
  rewrite !wf_bits. intros [Fx Bx] [Fy By]. split; [apply lxor_fits; auto; lia|].
  intros i Hi. rewrite !Z.lxor_spec, Bx, By by lia. reflexivity.
Qed.

(** ** The register file *)

Definition regs_ok (regs : list Z) : Prop :=
  length regs = NXPR /\ nth 0 regs 0 = 0 /\ Forall (wf xlen) regs.

Lemma regs_read regs i : regs_ok regs -> wf xlen (nth i regs 0).
Proof.
  intros (_ & _ & F). rewrite List.Forall_forall in F.
  destruct (Nat.lt_ge_cases i (length regs)).
  - apply F. now apply nth_In.
  - rewrite nth_overflow by lia. apply wf_0.
Qed.

Lemma regs_write regs i v : 0 <= i -> regs_ok regs -> good xlen v -> regs_ok (regfile_write true i (u64 v) regs).
Proof.
  intros Hi (L & Z0 & F) G. unfold regfile_write. cbn [negb orb]. destruct (Z.eqb_spec i 0) as [->|N]; cbn [negb]; [now repeat split|].
  split; [now rewrite length_insert|]. split.
  - destruct (Z.to_nat i) eqn:E; [lia|]. now destruct regs.
  - apply Forall_insert; [exact F|exact G].
Qed.

Lemma regs_reset : regs_ok (replicate NXPR 0).
Proof. split; [apply length_replicate|]. split; [reflexivity|]. apply Forall_replicate, wf_0. Qed.

End Values.

(** On RV64 every value may be written. *)
Lemma good_64 v : good 64 v.
Proof. unfold good, wf. now rewrite uw_sw, uw_idem by lia. Qed.
