(* ===== verification/Hoare.v ===== *)
(** * Hoare: a program logic for member functions and instruction bodies

    [runs I m R]: from a state that satisfies [I], [m] ends in a state that
    satisfies [I], whether it returns or throws; what it returns satisfies [R];
    and it does not call [abort()].  Rules for the monad, a tactic that walks
    through a body, and the effect [mem_step] of the memory operations: they
    change neither registers nor processor (the pending interrupts apart, which
    devices drive) and never add to the instruction cache. *)
From Stdlib Require Import ZArith Lia Bool List.
From stdpp Require Import base list gmap.
From S2P Require Import Prelude Arith Encoding Decode Decoder State Processor Pmp Mmu Csr TrapEntry Macros Fields CsrFacts MmuFacts.
#[local] Open Scope Z_scope.
#[local] Open Scope word_scope.
#[local] Open Scope record_scope.
#[local] Open Scope monad_scope.

Section Runs.
Context {S : Type} `{!SimIf S}.
#[local] Notation M := (State.M S).
#[local] Notation hart := (State.hart S).
Implicit Types (I : hart -> Prop) (h : hart).

Definition not_abort (e : exn) : Prop := match e with E_abort => False | _ => True end.

(** What an outcome satisfies. *)
Definition post {A : Type} I (R : A -> Prop) (o : (exn + A) * hart) : Prop :=
  I o.2 /\ match o.1 with inr a => R a | inl e => not_abort e end.

Definition runs {A : Type} I (m : M A) (R : A -> Prop) : Prop := forall h, I h -> post I R (m h).

Section Rules.
Context {A B : Type}.
Variable I : hart -> Prop.

Lemma runs_conseq (m : M A) (R R' : A -> Prop) : runs I m R -> (forall a, R a -> R' a) -> runs I m R'.
Proof. intros H HR h Hh. destruct (H h Hh) as [H1 H2]. split; [exact H1|]. destruct (m h).1; auto. Qed.

Lemma runs_bind (m : M A) (k : A -> M B) (R : A -> Prop) (R' : B -> Prop) :
  runs I m R -> (forall a, R a -> runs I (k a) R') -> runs I (bind m k) R'.
Proof.
  intros Hm Hk h Hh. destruct (Hm h Hh) as [H1 H2]. unfold bind, post in *.
  destruct (m h) as [[e|a] h'] eqn:E; cbn in *; [auto|]. now apply Hk.
Qed.

Lemma runs_bind_any (m : M A) (k : A -> M B) (R' : B -> Prop) :
  runs I m (fun _ => True) -> (forall a, runs I (k a) R') -> runs I (bind m k) R'.
Proof. intros Hm Hk. eapply runs_bind; [exact Hm|auto]. Qed.

Lemma runs_ret_bind (a : A) (k : A -> M B) (R : B -> Prop) : runs I (k a) R -> runs I (bind (ret a) k) R.
Proof. exact (fun x => x). Qed.

Lemma runs_ret (a : A) (R : A -> Prop) : R a -> runs I (ret a) R.
Proof. intros Ha h Hh. now split. Qed.

Lemma runs_throw (e : exn) (R : A -> Prop) : not_abort e -> runs I (throw e) R.
Proof. intros Ha h Hh. now split. Qed.

Lemma runs_throw_trap (t : trap_t) (R : A -> Prop) : runs I (throw_trap t) R.
Proof. intros h Hh. now split. Qed.

Lemma runs_gets (f : hart -> A) : runs I (gets f) (fun a => exists h, I h /\ a = f h).
Proof. intros h Hh. split; [exact Hh|]. now exists h. Qed.

Lemma runs_gets_post (f : hart -> A) (R : A -> Prop) : (forall h, I h -> R (f h)) -> runs I (gets f) R.
Proof. intros H h Hh. split; [exact Hh|now apply H]. Qed.

Lemma runs_if (c : bool) (m1 m2 : M A) (R : A -> Prop) :
  (c = true -> runs I m1 R) -> (c = false -> runs I m2 R) -> runs I (if c then m1 else m2) R.
Proof. destruct c; auto. Qed.

Lemma runs_modify (f : hart -> hart) : (forall h, I h -> I (f h)) -> runs I (modify f) (fun _ => True).
Proof. intros Hf h Hh. split; [now apply Hf|exact Logic.I]. Qed.

Lemma runs_upd f : (forall h, I h -> I (h <| st ::= f |>)) -> runs I (upd f) (fun _ => True).
Proof. apply runs_modify. Qed.

Lemma runs_when (c : bool) (m : M unit) :
  (c = true -> runs I m (fun _ => True)) -> runs I (when c m) (fun _ => True).
Proof. destruct c; intros H; [now apply H|]. cbn [when]. intros h Hh. now split. Qed.

Lemma runs_try (m : M A) (handler : exn -> M A) (R : A -> Prop) :
  runs I m R -> (forall e, not_abort e -> runs I (handler e) R) -> runs I (try_catch m handler) R.
Proof.
  intros Hm Hk h Hh. destruct (Hm h Hh) as [H1 H2]. unfold try_catch, post in *.
  destruct (m h) as [[e|a] h'] eqn:E; cbn in *; [now apply Hk|auto].
Qed.

End Rules.

(** ** Memory steps *)

Definition icache_sub (m m' : mmu_t) : Prop :=
  forall idx e, icache m' !! idx = Some e -> exists e0, icache m !! idx = Some e0 /\
    ic_data e = ic_data e0 /\ (ic_tag e = ic_tag e0 \/ ic_tag e = minus_1).

(** Changing the pending interrupts. *)
Definition mip_step (s s' : state_t) : Prop :=
  exists v, s' = s <| mip := v |> /\ (fits 64 (mip s) -> fits 64 v).

Record mem_step (h h' : hart) : Prop := mk_mem_step {
  ms_proc : proc h' = proc h;
  ms_st : mip_step (st h) (st h');
  ms_icache : icache_sub (mmu h) (mmu h')
}.

Lemma icache_sub_refl m : icache_sub m m.
Proof. intros idx e H. exists e. auto. Qed.

Lemma icache_sub_trans m1 m2 m3 : icache_sub m1 m2 -> icache_sub m2 m3 -> icache_sub m1 m3.
Proof.
  intros H12 H23 idx e H. destruct (H23 _ _ H) as (e2 & L2 & D2 & T2).
  destruct (H12 _ _ L2) as (e1 & L1 & D1 & T1). exists e1. split; [exact L1|]. split; [congruence|].
  destruct T2 as [-> | ->]; auto.
Qed.

Lemma icache_sub_same m m' : icache m' = icache m -> icache_sub m m'.
Proof. intros E idx e. rewrite E. intros H. exists e. auto. Qed.

Lemma icache_sub_retag m m' : icache m' = set_field_of ic_tag (fun _ => minus_1) <$> icache m -> icache_sub m m'.
Proof.
  intros E idx e. rewrite E, lookup_fmap. intros H. apply fmap_Some in H as (e0 & L & ->).
  exists e0. split; [exact L|]. split; [reflexivity|now right].
Qed.

Lemma mip_step_refl s : mip_step s s.
Proof. exists (mip s). split; [now destruct s|auto]. Qed.

Lemma mip_step_trans s1 s2 s3 : mip_step s1 s2 -> mip_step s2 s3 -> mip_step s1 s3.
Proof. intros (v & -> & F) (w & -> & G). exists w. split; [reflexivity|]. intros H. now apply G, F. Qed.

Lemma mem_step_refl h : mem_step h h.
Proof. split; [reflexivity|apply mip_step_refl|apply icache_sub_refl]. Qed.

Lemma mem_step_trans h1 h2 h3 : mem_step h1 h2 -> mem_step h2 h3 -> mem_step h1 h3.
Proof.
  intros [P1 S1 C1] [P2 S2 C2]. split; [congruence|eapply mip_step_trans; eauto|eapply icache_sub_trans; eauto].
Qed.

(** A step of the MMU's own data. *)
Lemma mem_step_mmu h f : icache_sub (mmu h) (f (mmu h)) -> mem_step h (h <| mmu ::= f |>).
Proof. intros H. split; [reflexivity|apply mip_step_refl|exact H]. Qed.

Lemma mem_step_sim h f : mem_step h (h <| sim ::= f |>).
Proof. split; [reflexivity|apply mip_step_refl|apply icache_sub_refl]. Qed.

(** A legal state from which only memory steps are made. *)
Definition mem_inv (h0 h : hart) : Prop := mem_step h0 h /\ csr_inv (st h) (proc h).

(** Every property of legal states that memory steps keep is an invariant of
    the operations that only make memory steps. *)
Lemma runs_mem {A} I (m : M A) (R : A -> Prop) :
  (forall h0, runs (mem_inv h0) m R) -> (forall h, I h -> csr_inv (st h) (proc h)) ->
  (forall h h', I h -> mem_step h h' -> csr_inv (st h') (proc h') -> I h') -> runs I m R.
Proof.
  intros H Hc Hi h Hh. destruct (H h h) as [[H1 H2] H3]; [split; [apply mem_step_refl|now apply Hc]|].
  split; [now apply (Hi h)|exact H3].
Qed.

End Runs.

(** Walk through a body: sequencing, reads, tests; the leaves are left, or
    solved by the lemmas of the database [runs]. *)
Create HintDb runs.
#[export] Hint Resolve runs_throw_trap runs_gets : runs.

Ltac runs_step :=
  lazymatch goal with
  | |- runs _ (bind (if _ then _ else _) _) _ => apply runs_bind_any; [|intros ?]
  | |- runs _ (bind (when _ _) _) _ => apply runs_bind_any; [|intros ?]
  | |- runs _ (bind (ret _) _) _ => apply runs_ret_bind
  | |- runs _ (bind (match _ with _ => _ end) _) _ => apply runs_bind_any; [|intros ?]
  | |- runs _ (bind _ _) _ => eapply runs_bind; [|intros ? ?]
  | |- runs _ (let _ := _ in _) _ => cbv zeta
  | |- runs _ (if _ then _ else _) _ => apply runs_if; intros ?
  | |- runs _ (gets _) _ => first [apply runs_gets | apply runs_gets_post; intros ? ?]
  | |- runs _ (throw_trap _) _ => apply runs_throw_trap
  | |- runs _ (throw _) _ => apply runs_throw
  | |- runs _ (ret _) _ => apply runs_ret
  | |- runs _ (when _ _) _ => apply runs_when; intros ?
  | |- runs _ (match ?x with _ => _ end) _ => destruct x eqn:?
  end.

(** ** Translation does not abort *)

Section NoAbort.
Context {S : Type} `{!SimIf S}.
#[local] Notation hart := (State.hart S).
Implicit Types h : hart.

Definition xlate_ok (x : xlate) : Prop := match x with inl e => not_abort e | inr _ => True end.

Lemma s2xlate_off h gva gpa type mxr : s2xlate h gva gpa type false mxr = inr gpa.
Proof. reflexivity. Qed.

Lemma walk_loop_no_abort h vm addr type s_mode sum mxr n : forall base,
  xlate_ok (walk_loop h vm addr type s_mode sum false mxr n base).
Proof.
  induction n as [|n IH]; intros base; cbn [walk_loop]; [exact I|]. rewrite s2xlate_off.
  destruct (read_pte _ _ _); [|exact I].
  destruct (PTE_TABLE _); [apply IH|].
  repeat match goal with |- context [if ?c then _ else _] => destruct c; try exact I end.
Qed.

(** The modes translation runs in. *)
Definition mode_ok (mode : Z) : Prop := mode = PRV_U \/ mode = PRV_S \/ mode = PRV_M.

Lemma legal_mode s p x : supports_extension s p chr_H = false -> 0 <= x <= 3 ->
  legalize_privilege s p x = x -> mode_ok x.
Proof.
  unfold legalize_privilege, mode_ok, PRV_U, PRV_S, PRV_M, PRV_HS. intros -> Hx.
  destruct (negb (supports_extension s p chr_U)); [lia|].
  destruct (Z.eqb_spec x 2) as [->|]; cbn [andb negb orb]; [discriminate|].
  destruct ((x =? 1) && _); lia.
Qed.

Lemma decode_vm_info_total xl mode satp : xl = 32 \/ xl = 64 -> mode_ok mode ->
  (xl = 64 -> satp_mode_ok satp = true) -> exists vm, decode_vm_info xl false mode satp = Some vm.
Proof.
  intros Hx Hm Hs. unfold decode_vm_info. destruct Hm as [-> |[-> | ->]]; [| |now eexists].
  all: cbn [Z.eqb Z.leb Z.compare Pos.compare Pos.compare_cont PRV_M PRV_U PRV_S negb andb].
  all: destruct Hx as [-> | ->]; cbn [Z.eqb Pos.eqb andb].
  1,3: change SATP32_MODE with (field 31 1); rewrite get_field_bit by lia; destruct (Z.testbit satp 31); now eexists.
  all: specialize (Hs eq_refl); unfold satp_mode_ok in Hs.
  all: destruct (_ =? SATP_MODE_OFF); [now eexists|]; destruct (_ =? SATP_MODE_SV39); [now eexists|];
    destruct (_ =? SATP_MODE_SV48); [now eexists|discriminate].
Qed.

Lemma walk_no_abort h addr type mode mxr : csr_inv (st h) (proc h) -> mode_ok mode ->
  xlate_ok (walk h addr type mode false mxr).
Proof.
  intros I Hm. unfold walk. cbv zeta.
  destruct (decode_vm_info_total (max_xlen (proc h)) mode (satp (st h))) as [vm ->].
  - apply I.
  - exact Hm.
  - apply I.
  - destruct (levels vm =? 0); [rewrite s2xlate_off; exact Logic.I|apply walk_loop_no_abort].
Qed.

Lemma translate_mode_ok h type : csr_inv (st h) (proc h) ->
  mode_ok (translate_mode h type 0).1.1 /\ (translate_mode h type 0).1.2 = false.
Proof.
  intros I. pose proof (noH _ _ I) as NH. unfold translate_mode. change (bit 0 RISCV_XLATE_VIRT) with false.
  rewrite andb_false_r, (inv_virt _ _ I).
  assert (MP : mode_ok (prv (st h))) by (apply (legal_mode (st h) (proc h)); [exact NH|apply I..]).
  destruct (bool_decide (type = FETCH)); [now split|].
  destruct (negb (debug_mode (st h)) && _); cbn [fst snd]; [|now split]. split.
  - apply (legal_mode (st h) (proc h)); [exact NH|apply get_mpp_range|apply I].
  - change MSTATUS_MPV with (field 39 1). rewrite get_field_bit by lia. now rewrite (inv_mpv _ _ I).
Qed.

Lemma translate_no_abort h addr len type : csr_inv (st h) (proc h) -> xlate_ok (translate h addr len type 0).
Proof.
  intros I. destruct (translate_mode_ok h type I) as [Hm Hv]. unfold translate.
  destruct (translate_mode h type 0) as [[mode virt] mxr]. cbn [fst snd] in *. subst virt.
  pose proof (walk_no_abort h addr type mode mxr I Hm) as W.
  destruct (walk _ _ _ _ _ _); [exact W|]. destruct (negb _); exact Logic.I.
Qed.

End NoAbort.

Lemma land_page_aligned a : (a &w not64 (PGSIZE -w 1)) mod 2 ^ 12 = 0.
Proof.
  rewrite <- Z.land_ones, <- Z.land_assoc by lia.
  change (not64 (PGSIZE -w 1) &w Z.ones 12) with 0. apply Z.land_0_r.
Qed.

(** ** The memory operations *)

Section Memory.
Context {S : Type} `{!SimIf S} `{!SimIfLaws S}.
#[local] Notation M := (State.M S).
#[local] Notation hart := (State.hart S).
Variable h0 : hart.
#[local] Notation runs m R := (runs (mem_inv h0) m R).

Lemma mem_inv_mmu (h : hart) f : mem_inv h0 h -> icache_sub (mmu h) (f (mmu h)) -> mem_inv h0 (h <| mmu ::= f |>).
Proof. intros [H1 H2] H. split; [|exact H2]. eapply mem_step_trans; [exact H1|now apply mem_step_mmu]. Qed.

Lemma runs_mmu f : (forall m : mmu_t, icache (f m) = icache m) -> runs (modify (fun h => h <| mmu ::= f |>)) (fun _ => True).
Proof. intros H. apply runs_modify. intros h Hh. apply mem_inv_mmu; [exact Hh|]. apply icache_sub_same, H. Qed.

Lemma runs_sim (f : hart -> S -> S) : runs (modify (fun h => h <| sim ::= f h |>)) (fun _ => True).
Proof.
  apply runs_modify. intros h [H1 H2]. split; [|exact H2].
  eapply mem_step_trans; [exact H1|apply mem_step_sim].
Qed.

Lemma runs_flush_icache : runs flush_icache (fun _ => True).
Proof. apply runs_modify. intros h Hh. apply mem_inv_mmu; [exact Hh|]. now apply icache_sub_retag. Qed.

Lemma runs_flush_tlb : runs flush_tlb (fun _ => True).
Proof. unfold flush_tlb. eapply runs_bind; [apply runs_mmu; reflexivity|intros _ _; apply runs_flush_icache]. Qed.

Lemma runs_translate addr len type : runs (lift (fun h => translate h addr len type 0)) (fun _ => True).
Proof.
  intros h Hh. split; [exact Hh|]. cbn [lift fst].
  pose proof (translate_no_abort h addr len type (proj2 Hh)). now destruct (translate _ _ _ _ _).
Qed.

Lemma mem_inv_mip h v sm : mem_inv h0 h -> (fits 64 (mip (st h)) -> fits 64 v) ->
  mem_inv h0 (h <| sim := sm |> <| st ::= fun s => s <| mip := v |> |>).
Proof.
  intros [H1 H2] Hv. split; [|now apply (inv_mip (st h) (proc h) v)].
  eapply mem_step_trans; [exact H1|]. split; [reflexivity|now exists v|apply icache_sub_refl].
Qed.

Lemma runs_mmio_load addr n : runs (mmu_mmio_load addr n) (fun _ => True).
Proof.
  intros h Hh. unfold mmu_mmio_load. destruct (negb _); [now split|].
  pose proof (mmio_load_mip (sim h) (mip (st h)) addr n) as F.
  destruct (mmio_load _ _ _ _) as [[r sm] v]. split; [|exact I]. now apply mem_inv_mip.
Qed.

Lemma runs_mmio_store addr bytes : runs (mmu_mmio_store addr bytes) (fun _ => True).
Proof.
  intros h Hh. unfold mmu_mmio_store. destruct (negb _); [now split|].
  pose proof (mmio_store_mip (sim h) (mip (st h)) addr bytes) as F.
  destruct (mmio_store _ _ _ _) as [[r sm] v]. split; [|exact I]. now apply mem_inv_mip.
Qed.

Lemma refill_tlb_mmu_icache m vaddr paddr host type b :
  icache (refill_tlb_mmu m vaddr paddr host type b).1 = icache m.
Proof. unfold refill_tlb_mmu. now destruct b, type. Qed.

Lemma runs_refill_tlb vaddr paddr host type : runs (refill_tlb vaddr paddr host type) (fun _ => True).
Proof.
  intros h Hh. unfold refill_tlb.
  destruct (pmp_homogeneous_total (st h) (proc h) (paddr &w not64 (PGSIZE -w 1))) as [r ->].
  - apply land_fits_r; [lia|]. apply uw_fits. lia.
  - apply land_page_aligned.
  - pose proof (refill_tlb_mmu_icache (mmu h) vaddr paddr host type r) as E.
    destruct (refill_tlb_mmu _ _ _ _ _ _) as [m e]. split; [|exact I].
    apply (mem_inv_mmu h (fun _ => m)); [exact Hh|]. now apply icache_sub_same.
Qed.

Lemma runs_check_trigger op addr data : runs (check_trigger op addr data) (fun _ => True).
Proof.
  unfold check_trigger. runs_step; [apply runs_gets|]. destruct a; [now apply runs_ret|].
  eapply (runs_bind _ _ _ (fun _ => True)).
  - intros h Hh. unfold trigger_exception. destruct (_ =? -1); [now split|]. destruct (negb _); now split.
  - intros t _. eapply runs_bind; [apply runs_mmu; reflexivity|]. intros _ _.
    destruct t; [now apply runs_throw|now apply runs_ret].
Qed.

#[local] Hint Resolve runs_flush_icache runs_flush_tlb runs_translate runs_mmio_load runs_mmio_store
  runs_refill_tlb runs_check_trigger : runs.
#[local] Hint Extern 1 (Hoare.runs _ (modify (fun h => h <| sim ::= _ |>)) _) => apply (runs_sim (fun _ => _)) : runs.
#[local] Hint Extern 1 (Hoare.runs _ (modify (fun h => h <| mmu ::= _ |>)) _) => apply runs_mmu; reflexivity : runs.
#[local] Ltac go := repeat first [runs_step | solve [eauto with runs] | exact I].

Lemma runs_load_slow_path addr len : runs (load_slow_path addr len 0) (fun _ => True).
Proof. unfold load_slow_path. go. Qed.

Lemma runs_store_slow_path addr bytes : runs (store_slow_path addr bytes 0) (fun _ => True).
Proof. unfold store_slow_path. go. Qed.

#[local] Hint Resolve runs_load_slow_path runs_store_slow_path : runs.

(** What a load returns has passed the conversion of its type. *)
Lemma runs_load_func size cast addr :
  runs (load_func size cast 0 addr) (fun v => exists raw, v = cast raw).
Proof.
  unfold load_func. change (z2b 0) with false. cbn [when].
  go; try (eexists; reflexivity).
  match goal with H : _ a0 |- _ => destruct H as (h & _ & ->); eexists; reflexivity end.
Qed.

Lemma runs_store_func size addr val : runs (store_func size 0 addr val) (fun _ => True).
Proof.
  unfold store_func. change (z2b 0) with false. cbn [when]. go.
Qed.

Lemma runs_amo_func size addr f : runs (amo_func size addr f) (fun v => fits (8 * Z.of_nat size) v).
Proof.
  unfold amo_func. apply runs_if; intros _; [apply runs_throw_trap|]. apply runs_try.
  - eapply runs_bind; [apply runs_load_func|]. intros lhs (raw & ->).
    eapply runs_bind; [apply runs_store_func|]. intros _ _. apply runs_ret, uw_fits. lia.
  - intros e He. destruct e; cbn [amo_catch]; go; auto.
Qed.

Lemma runs_yield : runs yield_load_reservation (fun _ => True).
Proof. now apply runs_mmu. Qed.

Lemma runs_acquire vaddr : runs (acquire_load_reservation vaddr) (fun _ => True).
Proof. unfold acquire_load_reservation. go. Qed.

Lemma runs_check_reservation vaddr size : runs (check_load_reservation vaddr size) (fun _ => True).
Proof. unfold check_load_reservation. go. Qed.

End Memory.
