(* ===== verification/InsnFacts.v ===== *)
(** * InsnFacts: the machine invariant and the instructions' primitives

    [machine_ok xlen h] is what every instruction may rely on: legal privileged
    state, well-formed registers, even program counters, a sound decoder and
    instruction cache.  The primitives of instruction bodies keep it and do not
    abort; the lemmas feed the database [runs]. *)
From Stdlib Require Import ZArith Lia Bool List.
From stdpp Require Import base list gmap.
From S2P Require Import Prelude Arith Encoding Decode Decoder State Processor Pmp Mmu Csr TrapEntry Macros Fields CsrFacts MmuFacts Registers Hoare.
#[local] Open Scope Z_scope.
#[local] Open Scope word_scope.
#[local] Open Scope record_scope.
#[local] Open Scope monad_scope.

(** What execution resumes with: the program counters are even, the mode that
    leaves debug mode is one, and no guest is resumed ([hstatus.SPV]). *)
Definition resume_ok (s : state_t) : Prop :=
  Z.odd (pc s) = false /\ Z.odd (mepc s) = false /\ Z.odd (sepc s) = false /\
  Z.odd (vsepc s) = false /\ Z.odd (dpc s) = false /\ 0 <= dcsr_prv (dcsr s) <= 3 /\
  Z.testbit (hstatus s) 7 = false.

(** An instruction of at most 32 bits, sign-extended; a fetched one is such, or
    illegal. *)
Definition insn_ok (insn : insn_t) : Prop := wf 32 (b insn).
Definition fetch_ok (xl : Z) (f : insn_fetch_t) : Prop :=
  func_xlen xl (fetch_func f) /\ (fetch_func f = illegal_instruction \/ insn_ok (fetch_insn f)).

(** Cached instructions are for registers of [xlen] bits, under tags that no
    serialisation code equals. *)
Definition icache_ok (xl : Z) (m : mmu_t) : Prop :=
  forall idx e, icache m !! idx = Some e ->
    fetch_ok xl (ic_data e) /\ (ic_tag e = minus_1 \/ Z.odd (ic_tag e) = false).

(** What a completed body returns: an address, or the code of [serialize]. *)
Definition npc_ok (npc : Z) : Prop := Z.odd npc = false \/ npc = PC_SERIALIZE_AFTER.

Section Machine.
Context {S : Type} `{!SimIf S}.
#[local] Notation M := (State.M S).
#[local] Notation hart := (State.hart S).
Implicit Types h : hart.

Record machine_ok (xl : Z) (h : hart) : Prop := mk_machine_ok {
  ok_xlen : xlen_ok xl /\ max_xlen (proc h) = xl;
  ok_csr : csr_inv (st h) (proc h);
  ok_regs : regs_ok xl (XPR (st h));
  ok_resume : resume_ok (st h);
  ok_mip : fits 64 (mip (st h));
  ok_decoder : decoder_inv (decoder (proc h));
  ok_icache : icache_ok xl (mmu h)
}.

Lemma icache_ok_sub xl m m' : icache_sub m m' -> icache_ok xl m -> icache_ok xl m'.
Proof.
  intros H K idx e L. destruct (H _ _ L) as (e0 & L0 & D & T). destruct (K _ _ L0) as [F P].
  rewrite D. split; [exact F|]. destruct T as [-> | ->]; auto.
Qed.

Lemma machine_ok_mem xl h h' : machine_ok xl h -> mem_step h h' -> csr_inv (st h') (proc h') -> machine_ok xl h'.
Proof.
  intros [] [P (v & Es & Fv) C] I. rewrite P in I. constructor; rewrite ?P; try assumption.
  - rewrite Es. exact ok_regs0.
  - rewrite Es. exact ok_resume0.
  - rewrite Es. exact (Fv ok_mip0).
  - now apply (icache_ok_sub xl (mmu h)).
Qed.

Lemma runs_machine {A} xl (m : M A) R : (forall h0, runs (mem_inv h0) m R) -> runs (machine_ok xl) m R.
Proof.
  intros H. apply runs_mem; [exact H|intros h Hh; apply Hh|]. intros h h'. apply machine_ok_mem.
Qed.

(** A change of registers that keeps each part. *)
Lemma machine_ok_st xl h f : machine_ok xl h -> csr_inv (f (st h)) (proc h) -> regs_ok xl (XPR (f (st h))) ->
  resume_ok (f (st h)) -> mip (f (st h)) = mip (st h) -> machine_ok xl (h <| st ::= f |>).
Proof. intros [] I R P E. constructor; try assumption. cbn. change (fits 64 (mip (f (st h)))). now rewrite E. Qed.

End Machine.

(** ** Writing a control register *)

Lemma odd_land x m : Z.odd m = false -> Z.odd (x &w m) = false.
Proof. rewrite <- !Z.bit0_odd, Z.land_spec. intros ->. apply andb_false_r. Qed.
Lemma odd_land_l x m : Z.odd x = false -> Z.odd (x &w m) = false.
Proof. rewrite <- !Z.bit0_odd, Z.land_spec. now intros ->. Qed.
Lemma odd_uw w x : 0 < w -> Z.odd (uw w x) = Z.odd x.
Proof. intros. rewrite <- !Z.bit0_odd, uw_testbit by lia. now replace (0 <? w) with true by lia. Qed.
Lemma odd_sw w x : 0 < w -> Z.odd (sw w x) = Z.odd x.
Proof. intros. rewrite <- (odd_uw w (sw w x)), uw_sw, odd_uw by lia. reflexivity. Qed.
Lemma odd_add64 a b : Z.odd (a +w b) = xorb (Z.odd a) (Z.odd b).
Proof. unfold add64. rewrite odd_uw by lia. apply Z.odd_add. Qed.
Lemma odd_sext xl x : xlen_ok xl -> Z.odd (u64 (sext_xlen xl x)) = Z.odd x.
Proof. intros Hx. rewrite (sext_sw xl Hx), odd_uw, odd_sw by (destruct Hx; lia). reflexivity. Qed.

Lemma odd_lor x y : Z.odd x = false -> Z.odd y = false -> Z.odd (x |w y) = false.
Proof. rewrite <- !Z.bit0_odd, Z.lor_spec. now intros -> ->. Qed.
Lemma odd_shl x n : 0 < n -> Z.odd (x <<w n) = false.
Proof. intros. unfold shl64. rewrite odd_uw, <- Z.bit0_odd by lia. apply Z.shiftl_spec_low. lia. Qed.

Lemma odd_legal_epc v : Z.odd (legal_epc v) = false.
Proof. unfold legal_epc. apply odd_lor; [now apply odd_shl|]. apply odd_land_l, odd_land. reflexivity. Qed.

Lemma get_dcsr_prv v : 0 <= get_field v DCSR_PRV <= 3.
Proof.
  change DCSR_PRV with (field 0 2). rewrite get_field_bits by lia.
  pose proof (Z.mod_pos_bound (v / 2 ^ 0) (2 ^ 2)). lia.
Qed.

Lemma merge_hstatus x v : Z.testbit x 7 = false -> Z.testbit v 7 = false ->
  Z.testbit (merge x hstatus_mask v) 7 = false.
Proof. intros Hx Hv. rewrite merge_testbit by lia. now destruct (Z.testbit hstatus_mask 7). Qed.

Section CsrFrame.
Context {S : Type} `{!SimIf S}.
#[local] Notation hart := (State.hart S).
Variable h0 : hart.
Hypothesis Hx : xlen_ok (max_xlen (proc h0)).

Definition csr_frame (h : hart) : Prop :=
  XPR (st h) = XPR (st h0) /\ pc (st h) = pc (st h0) /\ max_xlen (proc h) = max_xlen (proc h0) /\
  xlen (proc h) = max_xlen (proc h0) /\ decoder (proc h) = decoder (proc h0) /\ icache_sub (mmu h0) (mmu h) /\
  (resume_ok (st h0) -> resume_ok (st h)) /\ (fits 64 (mip (st h0)) -> fits 64 (mip (st h))).

Lemma frame_flush_tlb : runs csr_frame flush_tlb (fun _ => True).
Proof.
  intros h (H1 & H2 & H3 & H3' & H4 & H5 & H6). split; [|exact I].
  refine (conj H1 (conj H2 (conj H3 (conj H3' (conj H4 (conj _ H6)))))).
  eapply icache_sub_trans; [exact H5|]. now apply icache_sub_retag.
Qed.

Lemma frame_mstatus val : runs csr_frame (set_mstatus_csr val) (fun _ => True).
Proof.
  unfold set_mstatus_csr. runs_step; [apply runs_gets|]. runs_step; [apply runs_gets|]. runs_step.
  - apply runs_when. intros _. apply frame_flush_tlb.
  - destruct H0 as (h & Hh & ->). destruct (write_mstatus_total a (proc h) val) as [m ->].
    + destruct Hh as (_ & _ & E & _). rewrite E. exact Hx.
    + eapply runs_bind; [apply runs_upd; intros h' H'; exact H'|]. intros _ _.
      apply runs_modify. intros h' (H1 & H2 & H3 & H3' & H4). exact (conj H1 (conj H2 (conj H3 (conj H3 H4)))).
Qed.

(** A write of fields that no program counter is read from. *)
Lemma frame_upd f :
  (forall s, XPR (f s) = XPR s /\ pc (f s) = pc s /\ (resume_ok s -> resume_ok (f s)) /\
     (fits 64 (mip s) -> fits 64 (mip (f s)))) -> runs csr_frame (upd f) (fun _ => True).
Proof.
  intros H. apply runs_upd. intros h (H1 & H2 & H3 & H3' & H4 & H5 & H6 & H7).
  destruct (H (st h)) as (E1 & E2 & E3 & E4).
  refine (conj (eq_trans E1 H1) (conj (eq_trans E2 H2) (conj H3 (conj H3' (conj H4 (conj H5 (conj _ _))))))).
  - intros P. apply E3, H6, P.
  - intros P. apply E4, H7, P.
Qed.

#[local] Ltac frame_leaf :=
  lazymatch goal with
  | |- runs _ (upd_proc _) _ => apply runs_modify; intros h Hh; exact Hh
  | |- runs _ (upd _) _ =>
    apply frame_upd; intros s; cbv beta; try (case (v_ s)); (refine (conj eq_refl (conj eq_refl (conj _ _)));
    [intros P; exact P || (destruct P as (P1 & P2 & P3 & P4 & P5 & P6 & P7); split; [|split; [|split; [|split; [|split; [|split]]]]];
       first [assumption | apply get_dcsr_prv | apply merge_hstatus; [assumption|now auto] | apply odd_legal_epc | apply odd_land; reflexivity])
    |intros P; exact P || (apply merge_fits; [exact P|first [assumption | apply uw_fits; lia]])])
  end.

Lemma zext_low xl v : xlen_ok xl -> Z.testbit (zext_xlen xl v) 7 = Z.testbit v 7.
Proof.
  intros H. rewrite zext_xlen_uw, uw_testbit by (destruct H; lia). now replace (7 <? xl) with true by (destruct H; lia).
Qed.

(** [hstatus] is not written, or with SPV clear. *)
Definition no_guest (which val : Z) : Prop := which = CSR_HSTATUS -> Z.testbit val 7 = false.

Lemma frame_set_csr which val : no_guest which val -> runs csr_frame (set_csr which val) (fun _ => True).
Proof.
  intros NG. unfold set_csr. runs_step; [apply runs_gets|]. cbv zeta.
  assert (NV : (which =? CSR_HSTATUS) = true -> Z.testbit (zext_xlen (xlen a) val) 7 = false).
  { intros E. apply Z.eqb_eq in E. destruct H as (h & (_ & _ & _ & X & _) & ->). rewrite zext_low by now rewrite X. now apply NG. }
  assert (V : fits 64 (zext_xlen (xlen a) val)).
  { destruct H as (h & (_ & _ & _ & E & _) & ->). rewrite E. unfold zext_xlen, shl64.
    apply shiftr_fits; [destruct Hx; lia|lia|]. apply uw_fits. lia. }
  set (v := zext_xlen (xlen a) val) in *. clearbody v. clear H.
  unfold set_pmpaddr, set_pmpcfg, csr_write_float, csr_write_machine, csr_write_supervisor,
    csr_write_hypervisor, csr_write_debug, csr_write_vector, trigger_updated.
  repeat first [apply frame_mstatus | apply frame_flush_tlb | runs_step | exact I | frame_leaf].
  - apply frame_upd. intros s. destruct (pmpaddr_writable _ _ _); exact (conj eq_refl (conj eq_refl (conj (fun P => P) (fun P => P)))).
  - apply frame_upd. intros s. rewrite pmpcfg_loop_frame. exact (conj eq_refl (conj eq_refl (conj (fun P => P) (fun P => P)))).
Qed.

End CsrFrame.

(** ** Primitives of instruction bodies *)

Section Primitives.
Context {S : Type} `{!SimIf S} `{!SimIfLaws S}.
#[local] Notation M := (State.M S).
#[local] Notation hart := (State.hart S).
Variable xl : Z.
#[local] Notation runs m R := (runs (S:=S) (machine_ok xl) m R).
#[local] Notation any := (fun _ => True).

(** *** Control registers and modes *)

Lemma runs_set_csr which val : no_guest which val -> runs (set_csr which val) any.
Proof.
  intros NG h Hh. pose proof (keeps_set_csr which val h (ok_csr _ _ Hh)) as C.
  destruct Hh as [[Hx Ex] Hc R P F D K]. destruct (inv_xlen _ _ Hc) as [Xx _].
  destruct (frame_set_csr h ltac:(now rewrite Ex) which val NG h) as [(H1 & H2 & H3 & _ & H4 & H5 & H6 & H7) N].
  { refine (conj eq_refl (conj eq_refl (conj eq_refl (conj Xx (conj eq_refl (conj (icache_sub_refl _) (conj _ _))))))); auto. }
  split; [|exact N]. constructor; rewrite ?H1, ?H3, ?H4; auto. now apply (icache_ok_sub xl (mmu h)).
Qed.

(** An operation on registers only. *)
Lemma runs_upd_st f : (forall h : hart, machine_ok xl h -> csr_inv (f (st h)) (proc h) /\ XPR (f (st h)) = XPR (st h) /\
    resume_ok (f (st h)) /\ mip (f (st h)) = mip (st h)) -> runs (upd f) any.
Proof.
  intros H. apply runs_upd. intros h Hh. destruct (H h Hh) as (C & E & P & Q).
  apply machine_ok_st; auto. rewrite E. apply Hh.
Qed.

Lemma runs_flush : runs flush_tlb any.
Proof. apply runs_machine. apply runs_flush_tlb. Qed.

Lemma runs_flush_ic : runs flush_icache any.
Proof. apply runs_machine. apply runs_flush_icache. Qed.

Lemma runs_set_privilege x : 0 <= x <= 3 -> runs (set_privilege x) any.
Proof.
  intros Hr. unfold set_privilege. eapply runs_bind; [apply runs_flush|]. intros _ _.
  apply runs_modify. intros h Hh.
  pose proof (keeps_set_privilege x h Hr (ok_csr _ _ Hh)) as C.
  apply (machine_ok_st xl h (fun s => s <| prv := legalize_privilege s (proc h) x |>)); [exact Hh|exact C|apply Hh..|reflexivity].
Qed.

Lemma runs_set_virt : runs (set_virt false) any.
Proof.
  apply runs_modify. intros h Hh.
  assert (E : set_virt_state (proc h) false (st h) = st h).
  { unfold set_virt_state. rewrite (inv_virt _ _ (ok_csr _ _ Hh)). now destruct (_ =? _). }
  apply (machine_ok_st xl h (set_virt_state (proc h) false)); rewrite ?E; [exact Hh|apply Hh..|reflexivity].
Qed.

(** *** Registers *)

Lemma runs_WRITE_REG i v : 0 <= i -> good xl v -> runs (WRITE_REG i v) any.
Proof.
  intros Hi G. apply runs_upd. intros h Hh.
  apply (machine_ok_st xl h (fun s => s <| XPR ::= regfile_write true i (u64 v) |>)); [exact Hh| | |apply Hh|reflexivity].
  - destruct (ok_csr _ _ Hh). constructor; assumption.
  - apply (regs_write xl (XPR (st h))); [exact Hi|apply Hh|exact G].
Qed.

Lemma runs_WRITE_FREG i v : runs (WRITE_FREG xl i v) any.
Proof.
  apply runs_upd_st. intros h Hh. destruct Hh as [[Hx Ex] Hc R P F D K].
  split; [|split; [reflexivity|split; [exact P|reflexivity]]].
  assert (E : xl = xlen (proc h)) by (destruct (inv_xlen _ _ Hc); congruence).
  assert (C : csr_inv ((st h) <| FPR ::= regfile_write false i v |>) (proc h)) by (destruct Hc; constructor; assumption).
  pose proof (inv_set_dirty _ _ 13 C (or_intror eq_refl)) as G. unfold dirty_fp. rewrite E. exact G.
Qed.

(** What a body knows about the registers it has read. *)
Definition seen (s : state_t) : Prop := exists h : hart, machine_ok xl h /\ s = st h.

Lemma seen_reg s i : seen s -> wf xl (READ_REG s i).
Proof. intros (h & Hh & ->). apply regs_read; apply Hh. Qed.

Lemma seen_resume s : seen s -> resume_ok s.
Proof. intros (h & Hh & ->). apply Hh. Qed.

(** *** Checks *)

Lemma runs_require insn c : runs (require insn c) (fun _ => c = true).
Proof. unfold require. destruct c; [now apply runs_ret|apply runs_throw_trap]. Qed.

Lemma runs_require_rv64 insn : runs (require_rv64 xl insn) (fun _ => xl = 64).
Proof. eapply runs_conseq; [apply runs_require|]. intros a. apply Z.eqb_eq. Qed.

Lemma runs_require_extension insn c : c <> chr_H -> runs (require_extension insn c) any.
Proof.
  intros _. unfold require_extension. runs_step; [apply runs_gets|]. runs_step; [apply runs_gets|].
  eapply runs_conseq; [apply runs_require|easy].
Qed.

(** The hypervisor extension is absent. *)
Lemma runs_require_H {A : Type} insn (k : unit -> M A) R : runs (bind (require_extension insn chr_H) k) R.
Proof.
  intros h Hh. unfold require_extension, bind, gets. rewrite (noH _ _ (ok_csr _ _ Hh)). now split.
Qed.

Lemma runs_require_privilege insn lo : runs (require_privilege insn lo) any.
Proof. unfold require_privilege. runs_step; [apply runs_gets|]. eapply runs_conseq; [apply runs_require|easy]. Qed.

Lemma runs_require_novirt insn : runs (require_novirt insn) any.
Proof. unfold require_novirt. repeat runs_step; exact I. Qed.

Lemma runs_require_fp insn : runs (require_fp insn) any.
Proof. unfold require_fp. runs_step; [apply runs_gets|]. eapply runs_conseq; [apply runs_require|easy]. Qed.

Lemma runs_RM insn : runs (RM insn) any.
Proof. unfold RM, throw_illegal. repeat runs_step; exact I. Qed.

(** *** SoftFloat *)

Lemma machine_ok_fenv (h : hart) e : machine_ok xl h -> machine_ok xl (h <| fenv := e |>).
Proof. intros []. constructor; assumption. Qed.

Lemma runs_softfloat {A : Type} (m : SoftFloat.SF A) : runs (softfloat m) any.
Proof. intros h Hh. unfold softfloat. destruct (m (fenv h)). split; [now apply machine_ok_fenv|exact I]. Qed.

Lemma runs_set_roundingMode rm : runs (set_roundingMode rm) any.
Proof. apply runs_modify. intros h Hh. exact (machine_ok_fenv h _ Hh). Qed.

Lemma runs_set_fp_exceptions : runs (set_fp_exceptions xl) any.
Proof.
  unfold set_fp_exceptions. runs_step; [apply runs_gets|]. apply runs_bind_any.
  - destruct (z2b _); [|now apply runs_ret]. apply runs_upd_st. intros h Hh. destruct Hh as [[Hx Ex] Hc R P F D K].
    split; [|split; [reflexivity|split; [exact P|reflexivity]]].
    assert (E : xl = xlen (proc h)) by (destruct (inv_xlen _ _ Hc); congruence).
    pose proof (inv_set_dirty _ _ 13 Hc (or_intror eq_refl)) as G. rewrite <- E in G. destruct G. constructor; assumption.
  - intros _. apply runs_modify. intros h Hh. exact (machine_ok_fenv h _ Hh).
Qed.

(** *** Control flow *)

Lemma runs_set_pc x : Z.odd x = false -> runs (set_pc xl x) npc_ok.
Proof.
  intros Hx h Hh. unfold set_pc, bind, gets. destruct (check_pc_alignment _ _ _); split; try exact Hh; [exact I|].
  left. rewrite odd_sext by apply (ok_xlen _ _ Hh). exact Hx.
Qed.

Lemma runs_set_pc_and_serialize x : Z.odd x = false -> runs (set_pc_and_serialize x) npc_ok.
Proof.
  intros Hx. unfold set_pc_and_serialize. runs_step; [apply runs_gets|].
  eapply runs_bind; [|intros _ _; apply runs_ret; now right].
  apply runs_upd_st. intros h Hh. split; [destruct (ok_csr _ _ Hh); constructor; assumption|].
  split; [reflexivity|]. split; [|reflexivity]. destruct (ok_resume _ _ Hh) as (_ & Q).
  split; [now apply odd_land_l|exact Q].
Qed.

Lemma runs_serialize x : Z.odd x = false -> runs (serialize x) npc_ok.
Proof. apply runs_set_pc_and_serialize. Qed.

Lemma runs_wfi {A : Type} x (R : A -> Prop) : Z.odd x = false -> runs (wfi_ x) R.
Proof.
  intros Hx. unfold wfi_. eapply runs_bind; [now apply runs_set_pc_and_serialize|]. intros _ _. now apply runs_throw.
Qed.

Lemma runs_serialized b : runs (upd (fun s => s <| serialized := b |>)) any.
Proof.
  apply runs_upd_st. intros h Hh. split; [destruct (ok_csr _ _ Hh); constructor; assumption|].
  split; [reflexivity|]. split; [apply Hh|reflexivity].
Qed.

(** [validate_csr] sends the instruction back if the pipeline is not
    serialised; else it goes on with a register outside the hypervisor's. *)
Lemma validate_csr_unserialized insn which write k (h : hart) : serialized (st h) = false ->
  validate_csr insn which write k h = (inr PC_SERIALIZE_BEFORE, h).
Proof. intros E. unfold validate_csr, bind, gets, ret. now rewrite E. Qed.

Lemma validate_csr_serialized insn which write k (h : hart) R : serialized (st h) = true -> machine_ok xl h ->
  (get_field which 0x300 <> PRV_HS -> runs (k which) R) ->
  post (machine_ok xl) R (validate_csr insn which write k h).
Proof.
  intros E Hh Hk. unfold validate_csr. unfold bind at 1, gets at 1. unfold bind at 1, gets at 1. rewrite E. cbn [negb].
  match goal with |- post _ _ (?m h) => enough (Q : runs m R) by exact (Q h Hh) end.
  eapply runs_bind; [apply runs_serialized|]. intros _ _. cbv zeta.
  destruct (get_field which 0x300 =? PRV_HS) eqn:F.
  - rewrite (noH _ _ (ok_csr _ _ Hh)), orb_true_r. apply runs_throw_trap.
  - unfold Macros.throw_illegal. repeat runs_step. apply Hk. now apply Z.eqb_neq.
Qed.

Lemma runs_read_csr insn which : runs (read_csr insn which) any.
Proof. intros h Hh. unfold read_csr. now destruct (get_csr _ _ _ _). Qed.

(** *** Memory *)

Lemma runs_load size cast addr : runs (load_func size cast 0 addr) (fun v => exists raw, v = cast raw).
Proof. apply runs_machine. intros h0. apply runs_load_func. Qed.

Lemma runs_store size addr v : runs (store_func size 0 addr v) any.
Proof. apply runs_machine. intros h0. apply runs_store_func. Qed.

Lemma runs_amo size addr f : runs (amo_func size addr f) (fun v => fits (8 * Z.of_nat size) v).
Proof. apply runs_machine. intros h0. apply runs_amo_func. Qed.

Lemma runs_yield_reservation : runs yield_load_reservation any.
Proof. apply runs_machine. intros h0. apply runs_yield. Qed.

Lemma runs_acquire_reservation addr : runs (acquire_load_reservation addr) any.
Proof. apply runs_machine. intros h0. apply runs_acquire. Qed.

Lemma runs_check_load_reservation addr size : runs (check_load_reservation addr size) any.
Proof. apply runs_machine. intros h0. apply runs_check_reservation. Qed.

(** *** Returning from a trap *)

Lemma runs_gets_mstatus : runs (gets (fun h => mstatus (st h))) (fun m => Z.testbit m 39 = false).
Proof. apply runs_gets_post. intros h Hh. apply (inv_mpv _ _ (ok_csr _ _ Hh)). Qed.

Lemma get_mpv m : Z.testbit m 39 = false -> z2b (get_field m MSTATUS_MPV) = false.
Proof. intros H. change MSTATUS_MPV with (field 39 1). rewrite get_field_bit by lia. now rewrite H. Qed.

Lemma get_spp m : 0 <= get_field m MSTATUS_SPP <= 3.
Proof. change MSTATUS_SPP with (field 8 1). rewrite get_field_bit by lia. destruct (Z.testbit m 8); cbn; lia. Qed.

Lemma seen_spv s : seen s -> z2b (get_field (hstatus s) HSTATUS_SPV) = false.
Proof.
  intros H. destruct (seen_resume s H) as (_ & _ & _ & _ & _ & _ & V).
  change HSTATUS_SPV with (field 7 1). rewrite get_field_bit by lia. now rewrite V.
Qed.

Lemma seen_dcsr_prv s : seen s -> 0 <= dcsr_prv (dcsr s) <= 3.
Proof. intros H. now destruct (seen_resume s H) as (_ & _ & _ & _ & _ & P & _). Qed.

Lemma seen_mode s : seen s -> prv s = PRV_U \/ prv s = PRV_S \/ prv s = PRV_M.
Proof.
  intros (h & Hh & ->). pose proof (ok_csr _ _ Hh) as C.
  apply (legal_mode (st h) (proc h)); [now apply noH|apply C..].
Qed.

Lemma csr_not_hstatus csr val : get_field csr 0x300 <> PRV_HS -> no_guest csr val.
Proof. intros N ->. now contradiction N. Qed.

(** Fields that only debug mode and single-stepping use. *)
Lemma runs_upd_debug f : (forall s, exists d ss, f s = s <| debug_mode := d |> <| single_step := ss |>) -> runs (upd f) any.
Proof.
  intros Hf. apply runs_upd_st. intros h Hh. destruct (Hf (st h)) as (d & ss & ->).
  split; [destruct (ok_csr _ _ Hh); constructor; assumption|].
  split; [reflexivity|]. split; [apply Hh|reflexivity].
Qed.

End Primitives.
