(* ===== verification/InsnProps.v ===== *)
(** * InsnProps: every instruction keeps the machine invariant

    For each modelled instruction, on both register widths: from a legal state
    it ends in a legal state, whether it returns or traps; it does not abort;
    and what it returns is an even address or a serialisation code. *)
From Stdlib Require Import ZArith Lia Bool List String.
From stdpp Require Import base list gmap strings.
From S2P Require Import Prelude SoftF32 SoftF64 Arith Encoding Decode Decoder State Processor Pmp Mmu Csr TrapEntry Macros Base Float Compressed System Fetch Execute Fields CsrFacts MmuFacts Registers Hoare InsnFacts.
#[local] Open Scope Z_scope.
#[local] Open Scope word_scope.
#[local] Open Scope record_scope.
#[local] Open Scope monad_scope.

Section Immediates.
Variable insn : insn_t.
Hypothesis Hi : insn_ok insn.

Lemma insn_signed : s64 (b insn) = s32 (b insn).
Proof.
  unfold insn_ok, wf in Hi. rewrite <- Hi at 1. rewrite sw_uw.
  apply sw_small; [lia|]. pose proof (sw_fits 32 (b insn) ltac:(lia)). unfold sfits in *. lia.
Qed.

Lemma i_imm_sfits : sfits 12 (Insn.i_imm insn).
Proof.
  unfold Insn.i_imm. rewrite insn_signed, Z.shiftr_div_pow2 by lia.
  pose proof (sw_fits 32 (b insn) ltac:(lia)) as [L H]. unfold sfits.
  change (2 ^ (32 - 1)) with (2 ^ 11 * 2 ^ 20) in *. change (12 - 1) with 11.
  split; [apply Z.div_le_lower_bound; lia|apply Z.div_lt_upper_bound; lia].
Qed.

Lemma u_imm_sfits : sfits 32 (Insn.u_imm insn).
Proof.
  unfold Insn.u_imm. rewrite insn_signed, Z.shiftr_div_pow2, Z.shiftl_mul_pow2 by lia.
  pose proof (sw_fits 32 (b insn) ltac:(lia)) as [L H]. unfold sfits in *.
  change (2 ^ (32 - 1)) with (2 ^ 31) in *.
  assert (- 2 ^ 31 <= s32 (b insn) / 2 ^ 12 * 2 ^ 12 < 2 ^ 31) by (Z.div_mod_to_equations; lia).
  rewrite sw_small by (unfold sfits; lia). lia.
Qed.

End Immediates.

(** [rvc_imm] is a six-bit signed field. *)
Lemma rvc_imm_value insn : Insn.rvc_imm insn = Insn.x insn 2 5 + sw 1 (b insn / 2 ^ 12) * 2 ^ 5.
Proof.
  unfold Insn.rvc_imm. rewrite xs_signed by lia. unfold add64, shl64.
  rewrite sw_uw, sw_add_r, Z.shiftl_mul_pow2, Z.add_comm, <- sw_add_l, uw_mul_l, sw_add_l, Z.add_comm by lia.
  pose proof (x_range insn 2 5 ltac:(lia) ltac:(lia)). pose proof (sw_fits 1 (b insn / 2 ^ 12) ltac:(lia)) as [? ?].
  change (1 - 1) with 0 in *. apply sw_small; [lia|]. unfold sfits. lia.
Qed.

Lemma rvc_imm_sfits insn : sfits 6 (Insn.rvc_imm insn).
Proof.
  rewrite rvc_imm_value. pose proof (x_range insn 2 5 ltac:(lia) ltac:(lia)).
  pose proof (sw_fits 1 (b insn / 2 ^ 12) ltac:(lia)) as [? ?]. change (1 - 1) with 0 in *.
  unfold sfits. lia.
Qed.

(** Branch and jump offsets are even. *)
Lemma odd_imm insn : Z.odd (Insn.sb_imm insn) = false /\ Z.odd (Insn.uj_imm insn) = false /\
  Z.odd (Insn.rvc_j_imm insn) = false /\ Z.odd (Insn.rvc_b_imm insn) = false.
Proof.
  unfold Insn.sb_imm, Insn.uj_imm, Insn.rvc_j_imm, Insn.rvc_b_imm.
  rewrite !odd_sw, !odd_add64, !odd_shl by lia. now repeat split.
Qed.

Section Targets.
Variables (insn : insn_t) (pc : Z).
Hypothesis Hpc : Z.odd pc = false.
Lemma odd_branch : Z.odd (BRANCH_TARGET insn pc) = false.
Proof. unfold BRANCH_TARGET. rewrite odd_add64, Hpc. exact (proj1 (odd_imm insn)). Qed.
Lemma odd_jump : Z.odd (JUMP_TARGET insn pc) = false.
Proof. unfold JUMP_TARGET. rewrite odd_add64, Hpc. exact (proj1 (proj2 (odd_imm insn))). Qed.
Lemma odd_rvc_j : Z.odd (pc +w Insn.rvc_j_imm insn) = false.
Proof. rewrite odd_add64, Hpc. exact (proj1 (proj2 (proj2 (odd_imm insn)))). Qed.
Lemma odd_rvc_b : Z.odd (pc +w Insn.rvc_b_imm insn) = false.
Proof. rewrite odd_add64, Hpc. exact (proj2 (proj2 (proj2 (odd_imm insn)))). Qed.
End Targets.

(** The class of a floating-point value is one of ten bits. *)
Lemma class_bit c n : 0 <= n <= 9 -> fits 10 (Z.shiftl (b2z c) n).
Proof.
  intros Hn. rewrite Z.shiftl_mul_pow2 by lia. assert (2 ^ n <= 2 ^ 9) by (apply Z.pow_le_mono_r; lia).
  pose proof (pow2_pos n ltac:(lia)). unfold fits. destruct c; cbn [b2z]; lia.
Qed.
Lemma fits_sfits x : fits 10 x -> sfits 11 x.
Proof. unfold fits, sfits. lia. Qed.
Lemma classify_f32_sfits a : sfits 11 (f32_classify a).
Proof. apply fits_sfits. unfold f32_classify. repeat apply lor_fits; try lia; apply class_bit; lia. Qed.
Lemma classify_f64_sfits a : sfits 11 (f64_classify a).
Proof. apply fits_sfits. unfold f64_classify. repeat apply lor_fits; try lia; apply class_bit; lia. Qed.

Section Bodies.
Context {S : Type} `{!SimIf S} `{!SimIfLaws S}.
#[local] Notation hart := (State.hart S).
Variable xl : Z.
Hypothesis Hx : xlen_ok xl.

(** An instruction that keeps the invariant, and one that may also have to be
    started again after serialisation, in which case it has done nothing. *)
Definition body_runs (bd : body S) : Prop := forall insn pc npc,
  insn_ok insn -> Z.odd pc = false -> wf xl npc -> Z.odd npc = false ->
  runs (machine_ok xl) (bd xl insn pc npc) npc_ok.

Definition outcome_ok (h : hart) (o : (exn + Z) * hart) : Prop :=
  machine_ok xl o.2 /\
  match o.1 with
  | inl e => not_abort e
  | inr npc => npc_ok npc \/ (npc = PC_SERIALIZE_BEFORE /\ serialized (st h) = false /\ o.2 = h)
  end.

Definition body_ok (bd : body S) : Prop := forall insn pc npc h,
  insn_ok insn -> Z.odd pc = false -> wf xl npc -> Z.odd npc = false ->
  machine_ok xl h -> outcome_ok h (bd xl insn pc npc h).

Lemma post_outcome h o : post (machine_ok xl) npc_ok o -> outcome_ok h o.
Proof. intros [K R]. split; [exact K|]. destruct o.1; auto. Qed.

Lemma body_runs_ok bd : body_runs bd -> body_ok bd.
Proof. intros H insn pc npc h H1 H2 H3 H4 Hh. apply post_outcome. now apply H. Qed.

Lemma runs_gets_st : runs (machine_ok (S:=S) xl) (gets st) (seen xl (S:=S)).
Proof. exact (runs_gets _ st). Qed.

Lemma runs_require_guest insn : runs (machine_ok xl) (Sys.require_guest (S:=S) insn) (fun _ => False).
Proof. exact (runs_require_H xl insn _ _). Qed.
Lemma runs_require_guest64 insn : runs (machine_ok xl) (Sys.require_guest64 (S:=S) xl insn) (fun _ => False).
Proof. exact (runs_require_H xl insn _ _). Qed.

Lemma field_nonneg insn lo len : 0 <= lo -> 0 <= len < 64 -> 0 <= Insn.x insn lo len.
Proof. intros. now apply x_range. Qed.
Lemma rvc_reg_nonneg insn lo : 0 <= 8 +w Insn.x insn lo 3.
Proof. apply uw_fits. lia. Qed.

Lemma good_i_imm insn : insn_ok insn -> good xl (Insn.i_imm insn).
Proof. intros H. apply (good_sfits_le xl Hx 12); [lia|now apply i_imm_sfits]. Qed.
Lemma good_u_imm insn : insn_ok insn -> good xl (Insn.u_imm insn).
Proof. intros H. apply (good_sfits_le xl Hx 32); [lia|now apply u_imm_sfits]. Qed.
Lemma good_rv64 v : xl = 64 -> good xl v.
Proof. intros ->. apply good_64. Qed.
Lemma good_rvc_imm insn : good xl (Insn.rvc_imm insn).
Proof. apply (good_sfits_le xl Hx 6); [lia|apply rvc_imm_sfits]. Qed.
Lemma good_rvc_lui insn : good xl (Z.shiftl (Insn.rvc_imm insn) 12).
Proof.
  apply (good_sfits_le xl Hx 18); [lia|]. rewrite Z.shiftl_mul_pow2 by lia.
  pose proof (rvc_imm_sfits insn). unfold sfits in *. lia.
Qed.
Lemma good_rs1_imm insn : good xl (Insn.rs1 insn).
Proof.
  apply (good_sfits_le xl Hx 6); [lia|]. pose proof (x_range insn 15 5 ltac:(lia) ltac:(lia)).
  unfold sfits, Insn.rs1. lia.
Qed.


(** Values that may be written, and values of well-formed registers. *)
#[local] Ltac rv64_tac :=
  first [assumption | let E := fresh in destruct Hx as [E|E]; [exfalso; rewrite E in *; discriminate|exact E]].
#[local] Ltac wf_tac :=
  match goal with
  | |- wf _ (u64 ?v) => change (good xl v); good_tac
  | |- wf _ (_ |w _) => apply (wf_lor xl Hx); wf_tac
  | |- wf _ (_ &w _) => apply (wf_land xl Hx); wf_tac
  | |- wf _ (_ ^w _) => apply (wf_lxor xl Hx); wf_tac
  | |- _ => assumption
  | |- _ => eapply (seen_reg xl); eassumption
  end
with good_tac :=
  match goal with
  | |- good _ (if xl =? 64 then _ else _) => destruct (Z.eqb_spec xl 64); [now apply good_rv64|good_tac]
  | |- good _ (if _ then _ else _) => match goal with |- context [if ?c then _ else _] => destruct c end; good_tac
  | |- good _ (sext_xlen _ _) => apply (good_sext xl Hx)
  | |- good _ (sext32 _) => apply (good_sext32 xl Hx)
  | |- good _ (b2z _) => apply (good_b2z xl Hx)
  | |- good _ (f32_classify _) => apply (good_sfits_le xl Hx 11); [lia|apply classify_f32_sfits]
  | |- good _ (f64_classify _) => apply (good_sfits_le xl Hx 11); [lia|apply classify_f64_sfits]
  | |- good _ minus_1 => apply (good_minus_1 xl Hx)
  | |- good _ 0 => exact (good_b2z xl Hx false)
  | |- good _ (Insn.i_imm _) => apply good_i_imm; assumption
  | |- good _ (Insn.u_imm _) => apply good_u_imm; assumption
  | |- good _ (Insn.rvc_imm _) => apply good_rvc_imm; assumption
  | |- good _ (Z.shiftl (Insn.rvc_imm _) 12) => apply good_rvc_lui; assumption
  | |- good _ (sw 64 _) => apply good_rv64; rv64_tac
  | |- good _ (sw _ _) => apply (good_signed xl Hx); lia
  | |- good _ (uw 32 _) => apply good_rv64; rv64_tac
  | |- good _ (uw _ _) => apply (good_unsigned xl Hx); lia
  | |- good _ _ => now apply good_rv64
  | |- good _ _ => apply (wf_good xl); wf_tac
  end.

#[local] Ltac odd_tac :=
  lazymatch goal with
  | |- Z.odd (_ &w not64 1) = false => apply odd_land; reflexivity
  | |- Z.odd (BRANCH_TARGET _ _) = false => apply odd_branch; assumption
  | |- Z.odd (JUMP_TARGET _ _) = false => apply odd_jump; assumption
  | |- Z.odd (_ +w Insn.rvc_j_imm _) = false => apply odd_rvc_j; assumption
  | |- Z.odd (_ +w Insn.rvc_b_imm _) = false => apply odd_rvc_b; assumption
  | H : seen _ ?s |- Z.odd (_ ?s) = false => destruct (seen_resume _ _ H) as (? & ? & ? & ? & ? & ? & ?); assumption
  | |- _ => assumption
  end.

#[local] Ltac body_step :=
  lazymatch goal with
  | |- runs _ (bind (gets st) _) _ => eapply runs_bind; [apply runs_gets_st|intros ? ?]
  | |- runs _ (bind (WRITE_REG _ _) _) _ => apply runs_bind_any; [apply runs_WRITE_REG|intros ?]
  | |- runs _ (bind (WRITE_FREG _ _ _) _) _ => apply runs_bind_any; [apply runs_WRITE_FREG|intros ?]
  | |- runs _ (bind (require_rv64 _ _) _) _ => eapply runs_bind; [apply runs_require_rv64|intros ? ?]
  | |- runs _ (bind (require_extension _ chr_H) _) _ => apply runs_require_H
  | |- runs _ (bind (require_extension _ _) _) _ => apply runs_bind_any; [apply runs_require_extension; discriminate|intros ?]
  | |- runs _ (bind (require _ _) _) _ => eapply runs_bind; [apply runs_require|intros ? ?]
  | |- runs _ (bind (load_func _ _ _ _) _) _ => eapply runs_bind; [apply runs_load|intros ? [? ->]]
  | |- runs _ (bind (store_func _ _ _ _) _) _ => apply runs_bind_any; [apply runs_store|intros ?]
  | |- runs _ (bind (set_pc _ _) _) _ => eapply runs_bind; [apply runs_set_pc|intros ? ?]
  | |- runs _ (set_pc _ _) _ => apply runs_set_pc
  | |- runs _ (ret _) npc_ok => apply runs_ret; first [assumption | left; assumption]
  | |- runs _ (bind (Sys.require_guest _) _) _ => eapply runs_bind; [apply runs_require_guest|intros ? []]
  | |- runs _ (bind (Sys.require_guest64 _ _) _) _ => eapply runs_bind; [apply runs_require_guest64|intros ? []]
  | |- runs _ (amo_func _ _ _) _ => apply runs_amo
  | |- runs _ (store_func _ _ _ _) _ => apply runs_store
  | |- runs _ (acquire_load_reservation _) _ => apply runs_acquire_reservation
  | |- runs _ (check_load_reservation _ _) _ => apply runs_check_load_reservation
  | |- runs _ yield_load_reservation _ => apply runs_yield_reservation
  | |- runs _ (require_fp _) _ => apply runs_require_fp
  | |- runs _ (RM _) _ => apply runs_RM
  | |- runs _ (softfloat _) _ => apply runs_softfloat
  | |- runs _ (bind (set_roundingMode _) _) _ => apply runs_bind_any; [apply runs_set_roundingMode|intros ?]
  | |- runs _ (set_roundingMode _) _ => apply runs_set_roundingMode
  | |- runs _ (bind (set_fp_exceptions _) _) _ => apply runs_bind_any; [apply runs_set_fp_exceptions|intros ?]
  | |- runs _ (WRITE_FREG _ _ _) _ => apply runs_WRITE_FREG
  | |- runs _ (require_novirt _) _ => apply runs_require_novirt
  | |- runs _ (require_privilege _ _) _ => apply runs_require_privilege
  | |- runs _ (read_csr _ _) _ => apply runs_read_csr
  | |- runs _ (set_csr CSR_MSTATUS _) _ => apply runs_set_csr; intros ?; discriminate
  | |- runs _ (set_csr _ _) _ => apply runs_set_csr, csr_not_hstatus; assumption
  | |- runs _ (serialize _) _ => apply runs_serialize
  | |- runs _ (wfi_ _) _ => apply runs_wfi
  | |- runs _ (set_pc_and_serialize _) _ => apply runs_set_pc_and_serialize
  | |- runs _ (gets (fun h => mstatus (st h))) _ => apply runs_gets_mstatus
  | |- runs _ (set_privilege (get_field _ MSTATUS_MPP)) _ => apply runs_set_privilege, get_mpp_range
  | |- runs _ (set_privilege (get_field _ MSTATUS_SPP)) _ => apply runs_set_privilege, get_spp
  | |- runs _ (set_privilege (dcsr_prv _)) _ => apply runs_set_privilege; eapply seen_dcsr_prv; eassumption
  | |- runs _ (set_virt _) _ => first [rewrite get_mpv by assumption | erewrite seen_spv by eassumption]; apply runs_set_virt
  | |- runs _ (upd (fun s => s <| debug_mode := _ |>)) _ => apply runs_upd_debug; intros s; exists false, (single_step s); now destruct s
  | |- runs _ (upd (fun s => if dcsr_step _ then _ else _)) _ =>
    apply runs_upd_debug; intros s; destruct (dcsr_step _); [exists (debug_mode s), STEP_STEPPING|exists (debug_mode s), (single_step s)]; now destruct s
  | |- runs _ (bind flush_icache _) _ => apply runs_bind_any; [apply runs_flush_ic|intros ?]
  | |- runs _ (bind flush_tlb _) _ => apply runs_bind_any; [apply runs_flush|intros ?]
  | |- 0 <= Insn.rd _ => apply field_nonneg; lia
  | |- 0 <= Insn.rvc_rs1s _ => apply rvc_reg_nonneg
  | |- 0 <= Insn.rvc_rs2s _ => apply rvc_reg_nonneg
  | |- 0 <= _ => discriminate
  | |- good _ _ => good_tac
  | |- Z.odd _ = false => odd_tac
  | |- _ => runs_step
  end.

#[local] Ltac body :=
  apply body_runs_ok;
  lazymatch goal with |- body_runs ?bd => let t := eval hnf in bd in change (body_runs t) end;
  intros insn pc npc Hinsn Hpc Hnpc Heven;
  cbv beta delta [WRITE_RD WRITE_RVC_RS1S WRITE_RVC_RS2S WRITE_FRD WRITE_RVC_FRS2S
    RVI.branch RVI.load RVI.store load_int8 load_int16 load_int32 load_int64 load_uint8 load_uint16
    load_uint32 load_uint64 store_uint8 store_uint16 store_uint32 store_uint64 RVA.amo_w RVA.amo_d
    amo_uint32 amo_uint64 Sys.hfence round_mode fp_op fp_op64 fp_to_int32 fp_to_int64 fp_compare fp_minmax fp_move];
  repeat body_step.

Definition insns_ok (l : list (string * body S)) : Prop := Forall (fun e => body_ok (snd e)) l.

#[local] Ltac each := repeat apply List.Forall_cons; [cbn [snd]..|apply List.Forall_nil].

Lemma insns_i_ok : insns_ok insns_i.
Proof. each. all: body. Qed.

Lemma insns_m_ok : insns_ok insns_m.
Proof. each. all: body. Qed.

Lemma insns_a_ok : insns_ok insns_a.
Proof. each. all: body. Qed.

Lemma insns_f_ok : insns_ok insns_f.
Proof. each. all: body. Qed.

Lemma insns_d_ok : insns_ok insns_d.
Proof. each. all: body. Qed.

Lemma insns_c_ok : insns_ok insns_c.
Proof. each. all: body. Qed.

Lemma csr_op_ok write new : body_ok (Sys.csr_op write new).
Proof.
  intros insn pc npc h Hinsn Hpc Hnpc Heven Hh. unfold Sys.csr_op.
  destruct (serialized (st h)) eqn:E.
  - apply post_outcome, (validate_csr_serialized xl insn); [exact E|exact Hh|].
    intros N. cbv beta delta [WRITE_RD]. repeat body_step.
  - rewrite validate_csr_unserialized by exact E. split; [exact Hh|]. right. auto.
Qed.

Lemma insns_priv_ok : insns_ok insns_priv.
Proof.
  each. all: first [apply csr_op_ok | body].
  - match goal with H : seen _ ?s |- _ => destruct (seen_mode _ _ H) as [E|[E|E]]; rewrite E in * end; discriminate.
  - match goal with |- context [if v_ ?s then _ else _] => destruct (v_ s) end; odd_tac.
Qed.

Lemma insns_h_ok : insns_ok insns_h.
Proof. each. all: body. Qed.

Lemma modelled_insns_ok : insns_ok modelled_insns.
Proof.
  unfold modelled_insns, insns_ok. rewrite !List.Forall_app.
  exact (conj insns_i_ok (conj insns_m_ok (conj insns_a_ok (conj insns_f_ok (conj insns_d_ok (conj insns_c_ok (conj insns_priv_ok insns_h_ok))))))).
Qed.

Lemma insn_body_ok other name : (forall n, body_ok (other n)) -> body_ok (insn_body other name).
Proof.
  intros Ho. unfold insn_body. destruct (List.find _ _) as [[n bd]|] eqn:F; [|apply Ho].
  apply List.find_some in F as [F _]. pose proof modelled_insns_ok as K. unfold insns_ok in K.
  rewrite List.Forall_forall in K. exact (K (n, bd) F).
Qed.

End Bodies.
