(* ===== verification/FetchFacts.v ===== *)
(** * FetchFacts: what a fetch returns

    Fetching an instruction keeps the machine invariant; the function it
    yields is for the register width of the processor, and unless it is the
    illegal-instruction function the word is that of a 16- or 32-bit
    instruction, sign-extended. *)
From Stdlib Require Import ZArith Lia Bool List.
From stdpp Require Import base list gmap.
From S2P Require Import Prelude Arith Encoding Decode Decoder State Processor Pmp Mmu Csr TrapEntry Macros Fetch Fields CsrFacts MmuFacts Registers Hoare InsnFacts.
#[local] Open Scope Z_scope.
#[local] Open Scope word_scope.
#[local] Open Scope record_scope.
#[local] Open Scope monad_scope.

(** ** Instruction lengths *)

Definition low_bits_eq (n x y : Z) : Prop := forall i, 0 <= i < n -> Z.testbit x i = Z.testbit y i.

Lemma land_low n k x y : low_bits_eq n x y -> fits n k -> 0 <= n -> (x &w k) = (y &w k).
Proof.
  intros H F Hn. bits i. rewrite !Z.land_spec. destruct (Z_lt_le_dec i n); [now rewrite H by lia|].
  now rewrite (fits_testbit n k i F), !andb_false_r by lia.
Qed.

Lemma insn_length_low x y : low_bits_eq 16 x y -> insn_length x = insn_length y.
Proof. intros H. unfold insn_length. rewrite !(land_low 16 _ x y H) by (unfold fits; lia). reflexivity. Qed.

Lemma insn_length_cases x : insn_length x = 2 \/ insn_length x = 4 \/ insn_length x = 6 \/ insn_length x = 8.
Proof. unfold insn_length. repeat match goal with |- context [if ?c then _ else _] => destruct c end; auto. Qed.

Lemma bits_low insn : low_bits_eq 16 (Insn.bits insn) (b insn).
Proof.
  intros i Hi. unfold Insn.bits, Insn.length.
  assert (L : 16 <= insn_length (b insn) * 8) by (destruct (insn_length_cases (b insn)) as [E|[E|[E|E]]]; rewrite E; lia).
  rewrite Z.land_spec, not64_bits, shl64_bits by lia.
  replace (i <? 64) with true by lia. replace (insn_length (b insn) * 8 <=? i) with false by lia.
  apply andb_true_r.
Qed.

Lemma insn_length_bits insn : insn_length (Insn.bits insn) = insn_length (b insn).
Proof. apply insn_length_low, bits_low. Qed.

(** ** The word assembled from halfwords *)

Lemma to_int16_bit x i : 0 <= i < 64 -> Z.testbit (to_int16 x) i = Z.testbit x (if i <? 16 then i else 15).
Proof.
  intros. unfold to_int16. rewrite uw_testbit, sw_testbit by lia. now replace (i <? 64) with true by lia.
Qed.

Lemma wf_to_int16 x : wf 32 (to_int16 x).
Proof.
  apply (wf_bits 32 (or_introl eq_refl)). split; [apply uw_fits; lia|].
  intros i Hi. rewrite !to_int16_bit by lia. now replace (i <? 16) with false by lia.
Qed.

(** Two halfwords. *)
Lemma wf_word lo hi : fits 16 lo -> wf 32 (lo |w (to_int16 hi <<w 16)).
Proof.
  intros F. apply (wf_bits 32 (or_introl eq_refl)). split.
  - apply lor_fits; [lia|apply (fits_mono 16); [lia|exact F]|apply uw_fits; lia].
  - intros i Hi. rewrite !Z.lor_spec, !shl64_bits by lia. rewrite !(fits_testbit 16 lo) by (auto; lia).
    replace (i <? 64) with true by lia. replace (16 <=? i) with true by lia. cbn [andb orb].
    rewrite !to_int16_bit by lia.
    change (32 - 1 <? 64) with true. change (16 <=? 32 - 1) with true.
    change (if 32 - 1 - 16 <? 16 then 32 - 1 - 16 else 15) with 15. cbn [andb]. f_equal.
    destruct (Z.ltb_spec (i - 16) 16); lia.
Qed.

Lemma low_bits_shl lo x n : 16 <= n -> low_bits_eq 16 (lo |w (x <<w n)) lo.
Proof.
  intros Hn i Hi. rewrite Z.lor_spec, shl64_bits by lia. replace (n <=? i) with false by lia.
  rewrite andb_false_r. apply orb_false_r.
Qed.

Lemma low_bits_trans n x y z : low_bits_eq n x y -> low_bits_eq n y z -> low_bits_eq n x z.
Proof. intros H K i Hi. now rewrite H, K. Qed.

(** ** The memory accesses of a fetch *)

Section Memory.
Context {S : Type} `{!SimIf S} `{!SimIfLaws S}.
#[local] Notation M := (State.M S).
#[local] Notation hart := (State.hart S).

Lemma host_load_fits (sm : S) n ptr : Forall (fits 8) (host_load sm ptr n).
Proof. revert ptr. induction n as [|n IH]; intros ptr; cbn [host_load]; constructor; [apply host_read_byte|apply IH]. Qed.

Lemma le_value_fits bs : Forall (fits 8) bs -> fits (8 * Z.of_nat (length bs)) (le_value bs).
Proof.
  intros H. rewrite <- (le_bytes_value bs H) at 2. rewrite le_value_bytes. apply uw_fits. lia.
Qed.

Lemma host_load_length (sm : S) n ptr : length (host_load sm ptr n) = n.
Proof. revert ptr. induction n as [|n IH]; intros ptr; cbn [host_load]; [reflexivity|]. cbn. now rewrite IH. Qed.

Lemma fetch_half_fits (h : hart) src addr : fits 16 (fetch_half h src addr).
Proof.
  destruct src; cbn [fetch_half]; [|apply uw_fits; lia]. unfold host_load_int.
  pose proof (le_value_fits _ (host_load_fits (sim h) 2 (host_offset entry +w addr))) as F.
  rewrite host_load_length in F. exact F.
Qed.

Section Fetch.
Variable h0 : hart.
#[local] Notation runs m R := (runs (mem_inv h0) m R).
#[local] Hint Resolve runs_translate runs_mmio_load runs_refill_tlb : runs.
#[local] Hint Extern 1 (Hoare.runs _ (modify (fun h => h <| mmu ::= _ |>)) _) => apply runs_mmu; reflexivity : runs.
#[local] Ltac go := repeat first [runs_step | solve [eauto with runs] | exact I].

Lemma runs_fetch_slow_path addr : runs (fetch_slow_path addr) (fun _ => True).
Proof. unfold fetch_slow_path. go. Qed.
#[local] Hint Resolve runs_fetch_slow_path : runs.

Lemma runs_translate_insn_addr addr : runs (translate_insn_addr addr) (fun _ => True).
Proof. unfold translate_insn_addr. go. Qed.

Lemma runs_fetch_at addr : runs (fetch_at addr) (fits 16).
Proof.
  unfold fetch_at. eapply runs_bind; [apply runs_translate_insn_addr|]. intros src _.
  apply runs_gets_post. intros h _. apply fetch_half_fits.
Qed.

(** A word of 16 or 32 bits is sign-extended. *)
Lemma runs_fetch_bits addr : runs (fetch_bits addr) (fun bits => insn_length bits <= 4 -> wf 32 bits).
Proof.
  unfold fetch_bits. eapply runs_bind; [apply runs_fetch_at|]. intros lo Flo. cbv zeta.
  apply runs_if; intros E4; [|apply runs_if; intros E2; [|apply runs_if; intros E6]].
  - eapply runs_bind; [apply runs_fetch_at|]. intros hi Fhi. apply runs_ret. intros _. now apply wf_word.
  - apply runs_ret. intros _. apply wf_to_int16.
  - eapply runs_bind; [apply runs_fetch_at|]. intros h4 F4. eapply runs_bind; [apply runs_fetch_at|]. intros h2 F2.
    apply runs_ret. intros L. exfalso. revert L.
    rewrite (insn_length_low _ lo); [lia|].
    eapply low_bits_trans; apply low_bits_shl; lia.
  - do 3 (eapply runs_bind; [apply runs_fetch_at|]; intros ? ?).
    apply runs_ret. intros L. exfalso. revert L.
    rewrite (insn_length_low _ lo); [destruct (insn_length_cases lo); lia|].
    eapply low_bits_trans; [apply low_bits_shl; lia|]. eapply low_bits_trans; apply low_bits_shl; lia.
Qed.

End Fetch.
(** ** Decoding and the instruction cache *)

Section Machine.
Variable xl : Z.
Hypothesis Hx : xlen_ok xl.

(** Fetching changes of the registers only the pending interrupts: it keeps
    any other property [K] of them. *)
Variable K : state_t -> Prop.
Hypothesis HK : forall s v, K s -> K (s <| mip := v |>).
Definition kept (h : hart) : Prop := machine_ok xl h /\ K (st h).
#[local] Notation runs m R := (runs (S:=S) kept m R).

Lemma runs_kept {A} (m : M A) R : (forall h0, Hoare.runs (mem_inv h0) m R) -> runs m R.
Proof.
  intros H. apply runs_mem; [exact H|intros h Hh; apply Hh|]. intros h h' [Hm Hk] Hs Hc.
  split; [now apply (machine_ok_mem xl h)|]. destruct (ms_st _ _ Hs) as (v & -> & _). now apply HK.
Qed.

Lemma runs_decode insn : runs (decode insn) (fun f => func_xlen xl f /\
  (f = illegal_instruction \/ insn_length (b insn) <= 4)).
Proof.
  intros h [Hh Hk]. unfold decode. destruct Hh as [[Hx' Ex] Hc R P F D C]. destruct (inv_xlen _ _ Hc) as [Xx _].
  rewrite Xx, Ex. destruct (decoder_inv_step xl (decoder (proc h)) (Insn.bits insn) D Hx) as (f & d & -> & D' & Fx & Fl).
  rewrite insn_length_bits in Fl. split; [|now split]. split; [|exact Hk].
  constructor; try assumption; [now split|]. destruct Hc; constructor; assumption.
Qed.

Lemma runs_refill_icache addr : runs (refill_icache addr) (fun e => fetch_ok xl (ic_data e) /\ ic_tag e = addr).
Proof.
  unfold refill_icache. eapply runs_bind; [apply runs_kept; intros h0; apply runs_fetch_bits|]. intros bits Hb. cbv zeta.
  eapply runs_bind; [apply runs_decode|]. intros f [Fx Fl]. apply runs_ret. split; [|reflexivity].
  split; [exact Fx|]. destruct Fl as [Fl|Fl]; [now left|right; exact (Hb Fl)].
Qed.

Lemma icache_at_ok m idx : icache_ok xl m ->
  fetch_ok xl (ic_data (icache_at m idx)) /\
  (ic_tag (icache_at m idx) = minus_1 \/ Z.odd (ic_tag (icache_at m idx)) = false).
Proof.
  intros C. unfold icache_at. destruct (icache m !! idx) as [e|] eqn:L; [exact (C idx e L)|].
  split; [|now left]. split; [exact I|now left].
Qed.

Lemma runs_access_icache addr : Z.odd addr = false -> runs (access_icache addr) (fun e => fetch_ok xl (ic_data e)).
Proof.
  intros He. unfold access_icache. eapply runs_bind; [apply runs_gets|]. intros m (h & [Hh _] & ->). cbv zeta.
  apply runs_if; intros _; [apply runs_ret; now apply icache_at_ok, Hh|].
  eapply runs_bind; [apply runs_refill_icache|]. intros e [Fe Te].
  apply runs_bind_any; [|intros _; now apply runs_ret].
  apply runs_modify. intros h' [[H1 H2 H3 H4 H5 H6 C] Hk]. split; [|exact Hk]. constructor; try assumption.
  intros idx e' L. change (<[icache_index addr := e]> (icache (mmu h')) !! idx = Some e') in L.
  destruct (Z.eq_dec idx (icache_index addr)) as [->|N].
  - rewrite lookup_insert_eq in L. injection L as <-. split; [exact Fe|right; now rewrite Te].
  - rewrite lookup_insert_ne in L by congruence. exact (C idx e' L).
Qed.

Lemma runs_load_insn addr : runs (load_insn addr) (fetch_ok xl).
Proof.
  unfold load_insn. eapply runs_bind; [apply runs_refill_icache|]. intros e [Fe _]. now apply runs_ret.
Qed.

End Machine.
End Memory.
