(* ===== verification/TrapFacts.v ===== *)
(** * TrapFacts: traps, debug entry and interrupts keep the machine invariant *)
From Stdlib Require Import ZArith Lia Bool List.
From stdpp Require Import base list gmap.
From S2P Require Import Prelude Arith Encoding Decode Decoder State Processor Pmp Mmu Csr TrapEntry Macros Fields CsrFacts CsrProps MmuFacts Registers Hoare InsnFacts.
#[local] Open Scope Z_scope.
#[local] Open Scope word_scope.
#[local] Open Scope record_scope.
#[local] Open Scope monad_scope.

Lemma odd_trap_vector tvec bit i : Z.odd (trap_vector tvec bit i) = false.
Proof.
  unfold trap_vector. rewrite odd_add64, odd_land by reflexivity. destruct (_ && _); [|reflexivity].
  unfold mul64. rewrite odd_uw by lia. now rewrite Z.odd_mul.
Qed.

Section Traps.
Context {S : Type} `{!SimIf S} `{!SimIfLaws S}.
#[local] Notation M := (State.M S).
#[local] Notation hart := (State.hart S).
Variable xl : Z.
#[local] Notation runs m R := (runs (S:=S) (machine_ok xl) m R).
#[local] Notation any := (fun _ => True).

(** A change of the fields no part of the invariant mentions, and of program
    counters to even values. *)
Ltac keep_st :=
  let h := fresh "h" in let Hh := fresh "Hh" in
  apply runs_upd_st; intros h Hh;
  let P := fresh in pose proof (ok_resume _ _ Hh) as P;
  destruct P as (? & ? & ? & ? & ? & ? & ?);
  split; [destruct (ok_csr _ _ Hh); constructor; assumption|];
  split; [reflexivity|]; split; [|reflexivity];
  refine (conj _ (conj _ (conj _ (conj _ (conj _ (conj _ _))))));
  first [assumption | apply odd_trap_vector | reflexivity | idtac].

Lemma runs_enter_debug_mode c : runs (enter_debug_mode c) any.
Proof.
  unfold enter_debug_mode. apply runs_bind_any; [|intros _].
  - keep_st. destruct (inv_prv _ _ (ok_csr _ _ Hh)) as [Hp _].
    change (0 <= u8 (prv (st h)) <= 3). rewrite uw_small by (unfold fits; lia). exact Hp.
  - apply runs_bind_any; [apply runs_set_privilege; unfold PRV_M; lia|intros _]. keep_st.
Qed.

Lemma runs_set_mstatus val : runs (set_csr CSR_MSTATUS val) any.
Proof. apply runs_set_csr. intros E. discriminate E. Qed.

Lemma runs_trap_to_vs t epc : Z.odd epc = false -> runs (trap_to_vs t epc) any.
Proof.
  intros He. unfold trap_to_vs. do 2 (eapply runs_bind; [apply runs_gets|]; intros ? ?). cbv zeta.
  apply runs_bind_any; [keep_st; exact He|intros _].
  apply runs_bind_any; [apply runs_set_mstatus|intros _]. apply runs_set_privilege. unfold PRV_S. lia.
Qed.

Lemma runs_trap_to_m t epc v : Z.odd epc = false -> runs (trap_to_m t epc v) any.
Proof.
  intros He. unfold trap_to_m. apply runs_bind_any; [apply runs_set_virt|intros _].
  do 2 (eapply runs_bind; [apply runs_gets|]; intros ? ?). cbv zeta.
  apply runs_bind_any; [keep_st; exact He|intros _].
  apply runs_bind_any; [apply runs_set_mstatus|intros _]. apply runs_set_privilege. unfold PRV_M. lia.
Qed.

Lemma runs_trap_to_hs t epc : Z.odd epc = false -> runs (trap_to_hs t epc false) any.
Proof.
  intros He. unfold trap_to_hs. apply runs_bind_any; [apply runs_set_virt|intros _].
  do 2 (eapply runs_bind; [apply runs_gets|]; intros ? ?). cbv zeta.
  apply runs_bind_any; [keep_st; exact He|intros _].
  apply runs_bind_any; [apply runs_set_mstatus|intros _].
  eapply runs_bind; [apply runs_gets|]; intros ? ?.
  apply runs_bind_any; [|intros _; apply runs_set_privilege; unfold PRV_S; lia].
  apply runs_set_csr. intros _.
  change HSTATUS_SPV with (field 7 1). change HSTATUS_GVA with (field 6 1).
  rewrite !set_field_testbit by lia. reflexivity.
Qed.

Lemma runs_take_trap t epc : Z.odd epc = false -> runs (take_trap t epc) any.
Proof.
  intros He. unfold take_trap. eapply runs_bind; [apply runs_gets|]. intros s (h & Hh & ->).
  eapply runs_bind; [apply runs_gets|]. intros p _.
  apply runs_if; intros _; [keep_st; now destruct (_ =? _)|].
  apply runs_if; intros _; [apply runs_enter_debug_mode|].
  rewrite (inv_virt _ _ (ok_csr _ _ Hh)).
  destruct (trap_target_of _ _ _); [now apply runs_trap_to_vs|now apply runs_trap_to_hs|now apply runs_trap_to_m].
Qed.

Lemma runs_take_pending_interrupt : runs take_pending_interrupt any.
Proof.
  intros h Hh. unfold take_pending_interrupt, take_interrupt.
  destruct (interrupt_exn _ _ _) as [e|] eqn:E; [|now split]. split; [exact Hh|].
  apply (interrupt_exn_no_abort (st h) (proc h)); [apply Hh|apply Hh|exact E].
Qed.

Lemma psint_mip_fits val : fits 64 (psint_mip val).
Proof.
  unfold psint_mip. rewrite !Z.shiftl_mul_pow2 by (cbv; discriminate).
  assert (B : forall x, x &w 1 = 0 \/ x &w 1 = 1).
  { intros x. change 1 with (Z.ones 1) at 1 2. rewrite Z.land_ones by lia.
    pose proof (Z.mod_pos_bound x (2 ^ 1)). lia. }
  repeat apply lor_fits; try lia; match goal with |- context [?x &w 1] => destruct (B x) as [-> | ->] end;
    (split; [discriminate|reflexivity]).
Qed.

Lemma runs_assert_int intrs a : runs (assert_int intrs a) any.
Proof.
  unfold assert_int. destruct (intrs !! a) as [v|]; [|now apply runs_ret].
  apply runs_bind_any; [|intros _; apply runs_take_pending_interrupt].
  apply runs_upd. intros h [H1 H2 H3 H4 H5 H6 H7]. constructor; try assumption.
  - destruct H2; constructor; assumption.
  - apply lor_fits; [lia|exact H5|apply psint_mip_fits].
Qed.

End Traps.
