(* ===== verification/StepFacts.v ===== *)
(** * StepFacts: the execution loop keeps the machine invariant and advances

    A weakest-precondition calculus for the monad of [processor_t::step], the
    specification of its two loops, and what one iteration of [while (n > 0)]
    achieves. *)
From Stdlib Require Import ZArith Lia Bool List String.
From stdpp Require Import base list gmap strings.
From S2P Require Import Prelude Arith Encoding Decode Decoder State Processor Pmp Mmu Csr TrapEntry Macros Base Compressed System Fetch Execute Fields CsrFacts MmuFacts Registers Hoare InsnFacts InsnProps FetchFacts TrapFacts.
#[local] Open Scope Z_scope.
#[local] Open Scope word_scope.
#[local] Open Scope record_scope.

(** How far single-stepping is from its end, and the weight of the flags that
    an iteration may change without retiring an instruction. *)
Definition step_rank (s : single_step_t) : Z :=
  match s with STEP_NONE => 0 | STEP_STEPPED => 1 | STEP_STEPPING => 2 end.
Definition flags_weight (s : state_t) : Z := b2z (negb (serialized s)) + step_rank (single_step s).

Lemma flags_weight_range s : 0 <= flags_weight s <= 3.
Proof. unfold flags_weight. destruct (serialized s), (single_step s); cbn; lia. Qed.

Section Step.
Context {S : Type} `{!SimIf S} `{!SimIfLaws S}.
#[local] Notation hart := (State.hart S).
#[local] Notation L := (Execute.L (S:=S)).
Variable other : string -> body S.
Variable intrs : gmap Z Z.
Variable xl : Z.
Hypothesis Hx : xlen_ok xl.
Hypothesis Hother : forall name, body_ok xl (other name).

(** ** One instruction *)

Lemma odd_insn_length x : Z.odd (insn_length x) = false.
Proof. destruct (insn_length_cases x) as [-> |[-> |[-> | ->]]]; reflexivity. Qed.

Lemma execute_ok pc f (h : hart) : fetch_ok xl f -> Z.odd pc = false -> machine_ok xl h ->
  outcome_ok xl h (execute_insn other pc f h).
Proof.
  intros [Fx Fl] Hpc Hh.
  assert (R : forall name, insn_ok (fetch_insn f) -> outcome_ok xl h (run_insn other xl name (fetch_insn f) pc h)).
  { intros name Hi. unfold run_insn.
    apply (insn_body_ok xl Hx other name Hother); [exact Hi|exact Hpc|apply (good_sext xl Hx)| |exact Hh].
    rewrite odd_sext, odd_add64, Hpc by exact Hx. rewrite odd_insn_length. reflexivity. }
  unfold execute_insn, run_func. destruct (fetch_func f) as [|name|name]; cbn [func_xlen] in Fx.
  - now split.
  - rewrite <- Fx. apply R. destruct Fl as [Fl|Fl]; [discriminate|exact Fl].
  - rewrite <- Fx. apply R. destruct Fl as [Fl|Fl]; [discriminate|exact Fl].
Qed.

(** ** Changes of single registers *)

Lemma ok_set_pc v (h : hart) : machine_ok xl h -> Z.odd v = false -> machine_ok xl (h <| st ::= fun s => s <| pc := v |> |>).
Proof.
  intros Hh Hv. destruct Hh as [H1 H2 H3 H4 H5 H6 H7]. constructor; try assumption.
  - destruct H2; constructor; assumption.
  - destruct H4 as (_ & Q). exact (conj Hv Q).
Qed.

Lemma ok_set_serialized v (h : hart) : machine_ok xl h -> machine_ok xl (h <| st ::= fun s => s <| serialized := v |> |>).
Proof. intros [H1 H2 H3 H4 H5 H6 H7]. constructor; try assumption. destruct H2; constructor; assumption. Qed.

Lemma ok_set_single_step v (h : hart) : machine_ok xl h -> machine_ok xl (h <| st ::= fun s => s <| single_step := v |> |>).
Proof. intros [H1 H2 H3 H4 H5 H6 H7]. constructor; try assumption. destruct H2; constructor; assumption. Qed.

Lemma ok_set_minstret f (h : hart) : machine_ok xl h -> machine_ok xl (h <| st ::= fun s => s <| minstret := f s |> |>).
Proof. intros [H1 H2 H3 H4 H5 H6 H7]. constructor; try assumption. destruct H2; constructor; assumption. Qed.

Lemma ok_set_trigger v (h : hart) : machine_ok xl h -> machine_ok xl (h <| mmu ::= fun m => m <| matched_trigger := v |> |>).
Proof. intros [H1 H2 H3 H4 H5 H6 H7]. now constructor. Qed.

(** ** The calculus *)

Section Wp.
Variable Ex : exn -> locals -> hart -> Prop.

Definition lwp {A : Type} (m : L A) (Q : A -> locals -> hart -> Prop) (l : locals) (h : hart) : Prop :=
  match m l h with
  | (inr a, l', h') => Q a l' h'
  | (inl e, l', h') => Ex e l' h'
  end.

Lemma lwp_bind {A B} (m : L A) (k : A -> L B) Q l h :
  lwp m (fun a l' h' => lwp (k a) Q l' h') l h -> lwp (lbind m k) Q l h.
Proof. unfold lwp, lbind. destruct (m l h) as [[[e|a] l'] h']; auto. Qed.

Lemma lwp_conseq {A} (m : L A) (Q Q' : A -> locals -> hart -> Prop) l h :
  lwp m Q l h -> (forall a l' h', Q a l' h' -> Q' a l' h') -> lwp m Q' l h.
Proof. unfold lwp. intros H HQ. destruct (m l h) as [[[e|a] l'] h']; auto. Qed.

Lemma lwp_call {A} (m : State.M S A) I R Q l h : post I R (m h) ->
  (forall e h', I h' -> not_abort e -> Ex e l h') ->
  (forall a h', I h' -> R a -> Q a l h') -> lwp (call m) Q l h.
Proof.
  intros [Hi Hr] He Ha. unfold lwp, call. destruct (m h) as [[e|a] h'] eqn:E; cbn [fst snd] in *; auto.
Qed.

Lemma lwp_upd f Q l (h : hart) : Q tt l (h <| st ::= f |>) -> lwp (call (upd f)) Q l h.
Proof. exact (fun x => x). Qed.
Lemma lwp_gets {A} (f : hart -> A) Q l h : Q (f h) l h -> lwp (call (gets f)) Q l h.
Proof. exact (fun x => x). Qed.
Lemma lwp_get {A} (f : locals -> A) Q l h : Q (f l) l h -> lwp (get_l f) Q l h.
Proof. exact (fun x => x). Qed.
Lemma lwp_set f Q l (h : hart) : Q tt (f l) h -> lwp (set_l f) Q l h.
Proof. exact (fun x => x). Qed.
Lemma lwp_ret {A} (a : A) Q l (h : hart) : Q a l h -> lwp (lret a) Q l h.
Proof. exact (fun x => x). Qed.
Lemma lwp_if {A} (c : bool) (m1 m2 : L A) Q l h :
  (c = true -> lwp m1 Q l h) -> (c = false -> lwp m2 Q l h) -> lwp (if c then m1 else m2) Q l h.
Proof. destruct c; auto. Qed.

End Wp.

(** ** The loops *)

Section Loops.
Variable n : Z.
Variable w : Z.

(** Nothing has been retired and the flags are as at the start, or not; [w] is
    their weight then. *)
Definition advanced (l : locals) (h : hart) : Prop := 0 < l_instret l \/ flags_weight (st h) <= w.
Definition done_more (l : locals) (h : hart) : Prop := 0 < l_instret l \/ flags_weight (st h) < w.

Definition in_loop (l : locals) (h : hart) : Prop :=
  machine_ok xl h /\ Z.odd (l_pc l) = false /\ l_n l = n /\ 0 <= l_instret l <= n /\ advanced l h.

(** Where an exception leaves the loops. *)
Definition thrown (e : exn) (l : locals) (h : hart) : Prop :=
  machine_ok xl h /\ Z.odd (l_pc l) = false /\ l_n l = n /\ 0 <= l_instret l < n /\ not_abort e.

Definition left_loop (l : locals) (h : hart) : Prop :=
  machine_ok xl h /\ l_n l = n /\ 0 <= l_instret l <= n /\ done_more l h.

(** After an instruction, before [advance_pc]. *)
Definition executed (i : Z) (l : locals) (h : hart) : Prop :=
  machine_ok xl h /\ l_n l = n /\ i <= l_instret l < n /\
  (npc_ok (l_pc l) \/
   (l_pc l = PC_SERIALIZE_BEFORE /\ serialized (st h) = false /\ advanced l h)).

#[local] Notation wp := (lwp thrown).

Lemma resume_pc (h : hart) : machine_ok xl h -> Z.odd (pc (st h)) = false.
Proof. intros Hh. apply (ok_resume _ _ Hh). Qed.

Lemma invalid_pc_odd x : invalid_pc x = Z.odd x.
Proof.
  unfold invalid_pc. change 1 with (2 ^ 0). rewrite z2b_land_pow2 by lia. apply Z.bit0_odd.
Qed.

Lemma lwp_advance_pc i l h : 0 <= i -> executed i l h ->
  wp advance_pc (fun leave l' h' => if (leave : bool) then left_loop l' h' else in_loop l' h' /\ i < l_instret l') l h.
Proof.
  intros Hi (Hh & Hn & Hl & Hpc). unfold advance_pc. apply lwp_bind, lwp_get. rewrite invalid_pc_odd.
  destruct Hpc as [[Hpc|Hpc]|(Hpc & Hs & Ha)]; rewrite Hpc.
  - apply lwp_bind, lwp_upd, lwp_bind, lwp_set, lwp_ret. unfold in_loop, advanced. cbn [l_n l_instret l_pc].
    split_and!; try lia; [now apply ok_set_pc|exact Hpc].
  - apply lwp_bind, lwp_set, lwp_bind, lwp_gets, lwp_bind, lwp_set, lwp_ret.
    unfold left_loop, done_more. cbn [l_n l_instret l_pc]. split_and!; try lia. exact Hh.
  - apply lwp_bind, lwp_upd, lwp_bind, lwp_gets, lwp_bind, lwp_set, lwp_ret.
    unfold left_loop, done_more. cbn [l_n l_instret l_pc]. split_and!; try lia; [now apply ok_set_serialized|].
    destruct Ha as [Ha|Ha]; [now left|right]. change (0 + step_rank (single_step (st h)) < w).
    unfold flags_weight in Ha. rewrite Hs in Ha. cbn [negb b2z] in Ha. lia.
Qed.

(** Fetching, and interrupts at given program counters. *)
Definition quiet (s0 s : state_t) : Prop := serialized s = serialized s0 /\ single_step s = single_step s0.

Lemma quiet_mip s0 s v : quiet s0 s -> quiet s0 (s <| mip := v |>).
Proof. exact (fun x => x). Qed.

Lemma quiet_weight s0 s : quiet s0 s -> flags_weight s = flags_weight s0.
Proof. unfold flags_weight. now intros [-> ->]. Qed.

Lemma kept_assert_int a (h : hart) : machine_ok xl h ->
  post (kept xl (quiet (st h))) (fun _ => True) (assert_int intrs a h).
Proof.
  intros Hh. destruct (runs_assert_int xl intrs a h Hh) as [K R]. split; [|exact R]. split; [exact K|].
  unfold assert_int. destruct (intrs !! a) as [v|]; [|now split]. unfold bind, upd, modify, take_pending_interrupt, take_interrupt.
  destruct (interrupt_exn _ _ _); now split.
Qed.

Lemma kept_pending (h : hart) : machine_ok xl h ->
  post (kept xl (quiet (st h))) (fun _ => True) (take_pending_interrupt h).
Proof.
  intros Hh. destruct (runs_take_pending_interrupt xl h Hh) as [K R]. split; [|exact R]. split; [exact K|].
  unfold take_pending_interrupt, take_interrupt. destruct (interrupt_exn _ _ _); now split.
Qed.

Lemma thrown_kept K l e (h : hart) : Z.odd (l_pc l) = false -> l_n l = n -> 0 <= l_instret l < n ->
  kept xl K h -> not_abort e -> thrown e l h.
Proof. intros H1 H2 H3 [H4 _] H5. split_and!; auto; apply H3. Qed.

Lemma lwp_execute f l h : fetch_ok xl f -> in_loop l h -> l_instret l < n ->
  wp (lbind (call (execute_insn other (l_pc l) f)) set_lpc) (fun _ l' h' => executed (l_instret l) l' h' /\ l_instret l' = l_instret l) l h.
Proof.
  intros Hf (Hh & Hpc & Hn & Hi & Ha) Hlt. apply lwp_bind.
  destruct (execute_ok (l_pc l) f h Hf Hpc Hh) as [Hh' R]. unfold lwp, call.
  destruct (execute_insn other (l_pc l) f h) as [[e|npc] h']; cbn [fst snd] in *.
  - split_and!; auto; apply Hi.
  - apply lwp_set. cbn [l_instret]. split; [|reflexivity]. split; [exact Hh'|]. split; [exact Hn|]. split; [cbn; lia|].
    cbn [l_pc]. destruct R as [R|(R & Rs & ->)]; [now left|right]. auto.
Qed.

Lemma in_loop_quiet l (h h' : hart) : in_loop l h -> kept xl (quiet (st h)) h' -> in_loop l h'.
Proof.
  intros (Hh & Hpc & Hn & Hi & Ha) [Hh' Q]. split_and!; auto; try apply Hi.
  destruct Ha as [Ha|Ha]; [now left|right]. now rewrite (quiet_weight _ _ Q).
Qed.

(** A member function that changes no flag. *)
Lemma lwp_quiet {A} (m : State.M S A) (R : A -> Prop) Q l h : in_loop l h -> l_instret l < n ->
  post (kept xl (quiet (st h))) R (m h) ->
  (forall a h', in_loop l h' -> R a -> Q a l h') -> wp (call m) Q l h.
Proof.
  intros Hl Hlt Hp HQ. pose proof Hl as (_ & Hpc & Hn & Hi & _). eapply lwp_call; [exact Hp| |].
  - intros e h' Hk He. now apply (thrown_kept (quiet (st h))).
  - intros a h' Hk Ha. apply HQ; [|exact Ha]. now apply (in_loop_quiet l h).
Qed.

Lemma kept_quiet (h : hart) : machine_ok xl h -> kept xl (quiet (st h)) h.
Proof. now split. Qed.

Lemma lwp_load_insn Q l h : in_loop l h -> l_instret l < n ->
  (forall f h', in_loop l h' -> fetch_ok xl f -> Q f l h') -> wp (call (load_insn (l_pc l))) Q l h.
Proof.
  intros Hl Hlt HQ. apply (lwp_quiet _ (fetch_ok xl)); auto.
  apply runs_load_insn; [exact Hx|apply quiet_mip|now apply kept_quiet, Hl].
Qed.

Lemma lwp_assert_int Q l h : in_loop l h -> l_instret l < n ->
  (forall h', in_loop l h' -> Q tt l h') -> wp (call (assert_int intrs (l_pc l))) Q l h.
Proof.
  intros Hl Hlt HQ. apply (lwp_quiet _ (fun _ => True)); auto; [now apply kept_assert_int, Hl|].
  intros [] h' Hl' _. now apply HQ.
Qed.

(** Execute, then advance; what leaves the loop is [left_loop]. *)
Lemma lwp_instruction f (k : L unit) l h : fetch_ok xl f -> in_loop l h -> l_instret l < n ->
  (forall l' h', in_loop l' h' -> l_instret l < l_instret l' -> wp k (fun _ => left_loop) l' h') ->
  wp (lbind (call (execute_insn other (l_pc l) f)) (fun npc => lbind (set_lpc npc) (fun _ =>
        lbind advance_pc (fun leave => if (leave : bool) then lret tt else k)))) (fun _ => left_loop) l h.
Proof.
  intros Hf Hl Hlt Hk. pose proof (lwp_execute f l h Hf Hl Hlt) as W. unfold lwp, lbind in W. apply lwp_bind.
  unfold lwp at 1. destruct (call _ l h) as [[[e|npc] l1] h1]; [exact W|]. apply lwp_bind. unfold lwp at 1.
  destruct (set_lpc npc l1 h1) as [[[e|u] l2] h2]; [exact W|]. destruct W as [W E].
  apply lwp_bind. eapply lwp_conseq; [apply lwp_advance_pc; [|exact W]; apply Hl|].
  intros leave l3 h3 H3. destruct leave; [now apply lwp_ret|]. destruct H3 as [H3 H4]. now apply Hk.
Qed.

Lemma kept_enter_debug c (h : hart) : machine_ok xl h ->
  post (kept xl (quiet (st h))) (fun _ => True) (enter_debug_mode c h).
Proof. intros Hh. destruct (runs_enter_debug_mode xl c h Hh) as [K R]. split; [|exact R]. split; [exact K|now split]. Qed.

(** An iteration of the slow loop after the single-step test. *)
Lemma lwp_slow_tail (k : L unit) l h : in_loop l h -> l_instret l < n ->
  (forall l' h', in_loop l' h' -> l_instret l < l_instret l' -> wp k (fun _ => left_loop) l' h') ->
  wp (lbind (call (upd (fun s => if bool_decide (single_step s = STEP_STEPPING)
                                 then s <| single_step := STEP_STEPPED |> else s)))
       (fun _ => lbind (call (assert_int intrs (l_pc l))) (fun _ => lbind (call (load_insn (l_pc l))) (fun f =>
          lbind (call (execute_insn other (l_pc l) f)) (fun npc => lbind (set_lpc npc) (fun _ =>
            lbind advance_pc (fun leave => if (leave : bool) then lret tt else k)))))))
    (fun _ => left_loop) l h.
Proof.
  intros Hl Hlt Hk. apply lwp_bind, lwp_upd.
  set (f := fun s : state_t => if bool_decide _ then _ else s).
  assert (H1 : in_loop l (h <| st ::= f |>)).
  { pose proof Hl as (Hh & Hpc & Hn & Hi & Ha).
    destruct (bool_decide (single_step (st h) = STEP_STEPPING)) eqn:E.
    - assert (F : f (st h) = (st h) <| single_step := STEP_STEPPED |>) by (unfold f; now rewrite E).
      change (h <| st ::= f |>) with (mk_hart (f (st h)) (proc h) (mmu h) (sim h) (fenv h)). rewrite F.
      apply bool_decide_eq_true_1 in E. split_and!; auto; try lia; [now apply (ok_set_single_step STEP_STEPPED h)|].
      destruct Ha as [Ha|Ha]; [now left|right]. unfold flags_weight in *. rewrite E in Ha. cbn [step_rank] in Ha.
      change (b2z (negb (serialized (st h))) + 1 <= w). lia.
    - assert (F : f (st h) = st h) by (unfold f; now rewrite E).
      change (h <| st ::= f |>) with (mk_hart (f (st h)) (proc h) (mmu h) (sim h) (fenv h)). rewrite F. now destruct h. }
  apply lwp_bind, lwp_assert_int; [exact H1|exact Hlt|]. intros h2 H2.
  apply lwp_bind, lwp_load_insn; [exact H2|exact Hlt|]. intros fe h3 H3 Hf.
  now apply lwp_instruction.
Qed.

(** Ending a single step. *)
Lemma stop_step l (h : hart) : in_loop l h -> negb (serialized (st h)) = true -> single_step (st h) = STEP_STEPPED ->
  in_loop l (h <| st ::= fun s => s <| single_step := STEP_NONE |> |>) /\
  done_more l (h <| st ::= fun s => s <| single_step := STEP_NONE |> |>).
Proof.
  intros (Hh & Hpc & Hn & Hi & Ha) E1 E2.
  assert (W : flags_weight (st (h <| st ::= fun s => s <| single_step := STEP_NONE |> |>)) < flags_weight (st h)).
  { change (b2z (negb (serialized (st h))) + 0 < flags_weight (st h)). unfold flags_weight. rewrite E2. cbn [step_rank]. lia. }
  split; [split_and!; auto; try lia; [now apply ok_set_single_step|]|];
    (destruct Ha as [Ha|Ha]; [now left|right; lia]).
Qed.

Lemma slow_loop_ok fuel : 0 < n -> forall l h, n - l_instret l <= Z.of_nat fuel -> in_loop l h ->
  wp (slow_loop other intrs fuel) (fun _ => left_loop) l h.
Proof.
  intros Hpos. induction fuel as [|fuel IH]; intros l h Hf Hl; pose proof Hl as (Hh & Hpc & Hn & Hi & Ha); cbn [slow_loop].
  { apply lwp_ret. split_and!; auto; try lia. left. lia. }
  apply lwp_bind, lwp_get. apply lwp_if; intros Hlt; rewrite Hn in Hlt.
  { apply lwp_ret. split_and!; auto; try lia. left. lia. }
  assert (Hlt' : l_instret l < n) by lia. apply lwp_bind, lwp_gets. cbv zeta.
  assert (K : forall h', in_loop l h' -> forall l' h'', in_loop l' h'' -> l_instret l < l_instret l' ->
    wp (slow_loop other intrs fuel) (fun _ => left_loop) l' h'') by (intros; apply IH; [lia|assumption]).
  apply lwp_bind. destruct (negb (serialized (st h)) && _) eqn:E.
  - apply andb_true_iff in E as [E1 E2]. apply bool_decide_eq_true_1 in E2.
    destruct (stop_step l h Hl E1 E2) as [H1 D1]. apply lwp_upd. cbn [andb].
    apply lwp_if; intros _; [|apply lwp_slow_tail; eauto].
    eapply lwp_call; [apply kept_enter_debug, H1|intros e h' Hk He; apply (thrown_kept _ l e h' Hpc Hn (conj (proj1 Hi) Hlt') Hk He)|].
    intros u h' [Hh' Q] _. split_and!; auto; try lia.
    destruct D1 as [D1|D1]; [now left|right]. now rewrite (quiet_weight _ _ Q).
  - apply lwp_ret. cbn [andb]. apply lwp_slow_tail; eauto.
Qed.

(** The chain of cache entries. *)
Lemma icache_run_ok cases : forall entry l h, fetch_ok xl (ic_data entry) -> in_loop l h -> l_instret l < n ->
  wp (icache_run other intrs cases entry) (fun _ l' h' => executed (l_instret l) l' h') l h.
Proof.
  induction cases as [|cases IH]; intros entry l h Hf Hl Hlt; cbn [icache_run].
  { pose proof Hl as (Hh & Hpc & Hn & Hi & Ha). apply lwp_ret. split_and!; auto; try lia. now left; left. }
  apply lwp_bind, lwp_get, lwp_bind, lwp_assert_int; [exact Hl|exact Hlt|]. intros h1 H1.
  pose proof (lwp_execute (ic_data entry) l h1 Hf H1 Hlt) as W. unfold lwp, lbind in W. apply lwp_bind.
  unfold lwp at 1. destruct (call _ l h1) as [[[e|npc] l1] h2]; [exact W|]. apply lwp_bind. unfold lwp at 1.
  unfold set_lpc, set_l in *. cbn [l_n l_instret l_pc] in W. destruct W as [W Ei]. cbn [l_instret] in Ei.
  pose proof W as (Hh & Hn & Hi & Hp). cbn [l_n l_instret l_pc] in *.
  apply lwp_bind, lwp_gets. cbv zeta. destruct cases as [|cases]; [now apply lwp_ret|].
  destruct (ic_tag (icache_at (mmu h2) (ic_next entry)) =? npc) eqn:Et; cbn [negb]; [|now apply lwp_ret].
  destruct (l_instret l + 1 =? l_n l) eqn:En; [now apply lwp_ret|].
  apply Z.eqb_eq in Et. apply Z.eqb_neq in En.
  destruct (icache_at_ok xl (mmu h2) (ic_next entry) (ok_icache _ _ Hh)) as [Fn Tn].
  assert (Hodd : Z.odd npc = false).
  { rewrite Et in Tn. destruct Tn as [-> |Tn]; [|exact Tn]. destruct Hp as [[Hp|Hp]|(Hp & _)]; discriminate Hp. }
  pose proof Hl as (_ & _ & Hn0 & Hi0 & _).
  apply lwp_bind, lwp_set, lwp_bind, lwp_upd. cbn [l_n l_instret l_pc].
  eapply lwp_conseq; [apply IH; [exact Fn| |cbn; lia]|].
  - unfold in_loop, advanced. cbn [l_n l_instret l_pc]. split_and!; auto; try lia. now apply ok_set_pc.
  - intros u l' h' (K1 & K2 & K3 & K4). cbn [l_instret] in K3. split_and!; auto; lia.
Qed.

Lemma fast_loop_ok fuel : 0 < n -> forall l h, n - l_instret l <= Z.of_nat fuel -> in_loop l h ->
  wp (fast_loop other intrs fuel) (fun _ => left_loop) l h.
Proof.
  intros Hpos. induction fuel as [|fuel IH]; intros l h Hf Hl; pose proof Hl as (Hh & Hpc & Hn & Hi & Ha); cbn [fast_loop].
  { apply lwp_ret. split_and!; auto; try lia. left. lia. }
  apply lwp_bind, lwp_get. apply lwp_if; intros Hlt; rewrite Hn in Hlt.
  { apply lwp_ret. split_and!; auto; try lia. left. lia. }
  assert (Hlt' : l_instret l < n) by lia.
  apply lwp_bind. eapply lwp_quiet; [exact Hl|exact Hlt'| |].
  { apply (runs_access_icache xl Hx (quiet (st h)) (quiet_mip (st h)) _ Hpc). now apply kept_quiet. }
  intros entry h1 H1 Hf1. cbv beta in Hf1.
  apply lwp_bind. eapply lwp_conseq; [now apply icache_run_ok|]. intros u l2 h2 H2.
  apply lwp_bind. eapply lwp_conseq; [apply (lwp_advance_pc (l_instret l)); [lia|exact H2]|].
  intros leave l3 h3 H3. destruct leave; [now apply lwp_ret|]. destruct H3 as [H3 H4]. apply IH; [lia|exact H3].
Qed.

Lemma step_body_ok l h : 0 < n -> in_loop l h -> l_instret l = 0 ->
  wp (step_body other intrs) (fun _ => left_loop) l h.
Proof.
  intros Hpos Hl H0. pose proof Hl as (Hh & _). unfold step_body. apply lwp_bind.
  eapply lwp_quiet; [exact Hl|lia|now apply kept_pending|]. intros u h1 H1 _.
  pose proof H1 as (_ & _ & Hn & _).
  apply lwp_bind, lwp_gets, lwp_bind, lwp_get. apply lwp_if; intros _;
    [apply slow_loop_ok|apply fast_loop_ok]; auto; rewrite Hn; lia.
Qed.

(** ** The handlers *)

Hypothesis Hpos : 0 < n.

(** A trigger whose action the simulator does not know. *)
Definition reserved_action (s : state_t) : Prop :=
  exists i, mc_action (get_mcontrol s i) <> ACTION_DEBUG_MODE /\ mc_action (get_mcontrol s i) <> ACTION_DEBUG_EXCEPTION.

Definition escaped (e : exn) (l : locals) (h : hart) : Prop :=
  machine_ok xl h /\ (e = E_abort -> reserved_action (st h)).

Definition is_trigger (e : exn) : Prop := match e with E_trigger _ => True | _ => False end.

Definition caught (e : exn) (leave : bool) (l : locals) (h : hart) : Prop :=
  machine_ok xl h /\
  (leave = false -> 0 <= l_n l - l_instret l <= n /\ (is_trigger e \/ l_n l - l_instret l = 0)).

#[local] Notation hwp := (lwp escaped).

Lemma escaped_runs e l (h : hart) : machine_ok xl h -> not_abort e -> escaped e l h.
Proof. intros Hh He. split; [exact Hh|]. now intros ->. Qed.

Lemma hwp_call {A} (m : State.M S A) R Q l (h : hart) : runs (machine_ok xl) m R -> machine_ok xl h ->
  (forall a h', machine_ok xl h' -> R a -> Q a l h') -> hwp (call m) Q l h.
Proof.
  intros Hm Hh HQ. apply (lwp_call _ m (machine_ok xl) R); [now apply Hm| |exact HQ].
  intros e h' Hh' He. now apply escaped_runs.
Qed.

Lemma catch_trap_ok t l (h : hart) : Z.odd (l_pc l) = false -> machine_ok xl h ->
  hwp (catch_trap t) (caught (E_trap t)) l h.
Proof.
  intros Hpc Hh. unfold catch_trap. apply lwp_bind, lwp_get, lwp_bind.
  eapply hwp_call; [now apply runs_take_trap|exact Hh|]. intros _ h1 H1 _.
  apply lwp_bind, lwp_set, lwp_bind, lwp_gets, lwp_bind.
  assert (C : forall h', machine_ok xl h' -> caught (E_trap t) false (mk_locals (l_instret l) (l_instret l) (l_pc l)) h').
  { intros h' Hh'. split; [exact Hh'|]. intros _. cbn [l_n l_instret]. lia. }
  apply lwp_if; intros _; [|apply lwp_ret, lwp_ret; now apply C].
  apply lwp_bind, lwp_upd. eapply hwp_call; [apply runs_enter_debug_mode|now apply ok_set_single_step|].
  intros _ h2 H2 _. apply lwp_ret. now apply C.
Qed.

Lemma trigger_action_ok t l (h : hart) : Z.odd (l_pc l) = false -> machine_ok xl h ->
  hwp (trigger_action t) (fun _ l' h' => machine_ok xl h' /\ l' = l) l h.
Proof.
  intros Hpc Hh. unfold trigger_action. apply lwp_bind, lwp_get, lwp_bind, lwp_gets. cbv zeta.
  apply lwp_if; intros E1; [eapply hwp_call; [apply runs_enter_debug_mode|exact Hh|now split]|].
  apply lwp_if; intros E2; [eapply hwp_call; [now apply runs_take_trap|exact Hh|now split]|].
  split; [exact Hh|]. intros _. exists (tm_index t). apply Z.eqb_neq in E1, E2. now split.
Qed.

Lemma hwp_advance_pc Q l (h : hart) : machine_ok xl h -> npc_ok (l_pc l) \/ l_pc l = PC_SERIALIZE_BEFORE ->
  (forall leave l' h', machine_ok xl h' -> Z.odd (l_pc l') = false -> l_n l' = l_n l ->
     l_instret l <= l_instret l' <= l_instret l + 1 -> Q leave l' h') ->
  hwp advance_pc Q l h.
Proof.
  intros Hh Hpc HQ. unfold advance_pc. apply lwp_bind, lwp_get. rewrite invalid_pc_odd.
  destruct Hpc as [[Hpc|Hpc]|Hpc]; rewrite Hpc.
  - apply lwp_bind, lwp_upd, lwp_bind, lwp_set, lwp_ret, HQ; auto; cbn [l_instret]; [now apply ok_set_pc|lia].
  - apply lwp_bind, lwp_set, lwp_bind, lwp_gets, lwp_bind, lwp_set, lwp_ret, HQ; auto; cbn [l_instret]; [now apply resume_pc|lia].
  - apply lwp_bind, lwp_upd, lwp_bind, lwp_gets, lwp_bind, lwp_set, lwp_ret, HQ; auto; cbn [l_instret];
      [now apply ok_set_serialized|now apply (resume_pc h)|lia].
Qed.

Lemma runs_load_insn_ok a : runs (machine_ok xl) (load_insn (S:=S) a) (fetch_ok xl).
Proof.
  intros h Hh. destruct (runs_load_insn xl Hx (fun _ => True) (fun _ _ x => x) a h (conj Hh I)) as [[K _] R].
  now split.
Qed.

(** The instruction that a trigger interrupted is run again. *)
Lemma restart_ok (k : L bool) Q l (h : hart) : machine_ok xl h -> Z.odd (l_pc l) = false -> l_n l = n ->
  0 <= l_instret l < n ->
  (forall l' h', machine_ok xl h' -> Z.odd (l_pc l') = false -> l_n l' = n -> 0 <= l_instret l' <= n -> hwp k Q l' h') ->
  (forall l' h', machine_ok xl h' -> Q true l' h') ->
  hwp (lbind (call (load_insn (l_pc l))) (fun f => lbind (call (execute_insn other (l_pc l) f)) (fun npc =>
        lbind (set_lpc npc) (fun _ => lbind advance_pc (fun leave => if (leave : bool) then lret true else k))))) Q l h.
Proof.
  intros Hh Hpc Hn Hi Hk Hq. apply lwp_bind.
  eapply hwp_call; [apply runs_load_insn_ok|exact Hh|]. intros f h1 H1 Hf.
  apply lwp_bind. destruct (execute_ok (l_pc l) f h1 Hf Hpc H1) as [H2 R]. unfold lwp at 1, call.
  destruct (execute_insn other (l_pc l) f h1) as [[e|npc] h2]; cbn [fst snd] in *; [now apply escaped_runs|].
  apply lwp_bind, lwp_set, lwp_bind, hwp_advance_pc; cbn [l_n l_instret l_pc]; [exact H2|tauto|].
  intros leave l' h' K1 K2 K3 K4. destruct leave; [apply lwp_ret; now apply Hq|]. apply Hk; auto; lia.
Qed.

Lemma catch_trigger_ok t l (h : hart) : thrown (E_trigger t) l h ->
  hwp (catch_trigger other t) (caught (E_trigger t)) l h.
Proof.
  intros (Hh & Hpc & Hn & Hi & _). unfold catch_trigger. apply lwp_bind, lwp_gets, lwp_bind.
  assert (C : forall l' h', machine_ok xl h' -> Z.odd (l_pc l') = false -> l_n l' = n -> 0 <= l_instret l' <= n ->
    hwp (lbind (trigger_action t) (fun _ => lret false)) (caught (E_trigger t)) l' h').
  { intros l' h' K1 K2 K3 K4. apply lwp_bind. eapply lwp_conseq; [now apply trigger_action_ok|].
    intros u l2 h2 [K5 ->]. apply lwp_ret. split; [exact K5|]. intros _. split; [lia|left; exact I]. }
  destruct (match matched_trigger (mmu h) with Some _ => true | None => false end).
  - apply lwp_bind, lwp_get, restart_ok; auto.
    + intros l' h' K1 K2 K3 K4. apply lwp_bind.
      eapply hwp_call; [apply runs_modify; intros h1 H1; now apply (ok_set_trigger None)|exact K1|].
      intros u h2 K5 _. apply lwp_ret. now apply C.
    + intros l' h' K1. apply lwp_ret. split; [exact K1|discriminate].
  - apply lwp_ret. apply C; auto. lia.
Qed.

Lemma catch_exn_ok e l (h : hart) : thrown e l h -> hwp (catch_exn other e) (caught e) l h.
Proof.
  intros T. pose proof T as (Hh & Hpc & Hn & Hi & He). destruct e as [t|t| |]; cbn [catch_exn]; [now apply catch_trap_ok|now apply catch_trigger_ok| |easy].
  apply lwp_bind, lwp_get, lwp_bind, lwp_set, lwp_ret. split; [exact Hh|]. intros _. cbn [l_n l_instret]. lia.
Qed.

End Loops.

(** ** One iteration, and [step] *)

(** The loop of this iteration is left by a debug trigger. *)
Definition throws_trigger (n : Z) (h : hart) : Prop :=
  exists t, (step_body other intrs (mk_locals n 0 (pc (st h))) h).1.1 = inl (E_trigger t).

Definition step_measure (n : Z) (h : hart) : Z := 4 * n + flags_weight (st h).

Definition iteration_ok (n : Z) (h : hart) (o : (exn + option Z) * hart) : Prop :=
  machine_ok xl o.2 /\
  match o.1 with
  | inl e => e = E_abort -> reserved_action (st o.2)
  | inr None => True
  | inr (Some n') => 0 <= n' <= n /\ (throws_trigger n h \/ step_measure n' o.2 < step_measure n h)
  end.

Lemma step_iteration_ok n (h : hart) : 0 < n -> machine_ok xl h -> iteration_ok n h (step_iteration other intrs n h).
Proof.
  intros Hpos Hh. unfold step_iteration.
  assert (L0 : in_loop n (flags_weight (st h)) (mk_locals n 0 (pc (st h))) h).
  { unfold in_loop, advanced. cbn [l_n l_instret l_pc]. split_and!; auto; try lia. apply (ok_resume _ _ Hh). }
  pose proof (step_body_ok n _ _ h Hpos L0 eq_refl) as W. unfold lwp in W.
  destruct (step_body other intrs (mk_locals n 0 (pc (st h))) h) as [[[e|[]] l1] h1] eqn:B.
  - pose proof (catch_exn_ok n Hpos e l1 h1 W) as C. unfold lwp in C.
    destruct (catch_exn other e l1 h1) as [[[e'|b] l2] h2]; [exact C|]. destruct C as [C1 C2].
    destruct b; [now split|]. specialize (C2 eq_refl) as [C2 C3]. split; [now apply ok_set_minstret|]. cbn [fst snd].
    split; [exact C2|]. destruct e as [t|t| |]; [right|left|right|right].
    2: { exists t. now rewrite B. }
    all: destruct C3 as [[]|C3]; rewrite C3;
      match goal with |- step_measure _ ?h' < _ => pose proof (flags_weight_range (st h')) end;
      pose proof (flags_weight_range (st h)); unfold step_measure; lia.
  - destruct W as (H1 & Hn & Hi & Hd). split; [now apply ok_set_minstret|]. cbn [fst snd]. split; [lia|right].
    set (h2 := h1 <| st ::= _ |>).
    assert (E : flags_weight (st h2) = flags_weight (st h1)) by reflexivity.
    pose proof (flags_weight_range (st h1)). pose proof (flags_weight_range (st h)).
    unfold step_measure. rewrite E. destruct Hd as [Hd|Hd]; lia.
Qed.

(** The states at which the iterations of a call of [step] start. *)
Inductive iterations : Z -> hart -> Z -> hart -> Prop :=
| iterations_here n h : iterations n h n h
| iterations_next n h n1 h1 n2 h2 : 0 < n -> step_iteration other intrs n h = (inr (Some n1), h1) ->
    iterations n1 h1 n2 h2 -> iterations n h n2 h2.

Lemma step_loop_ok fuel : forall n h, 0 <= n -> machine_ok xl h ->
  match step_loop other intrs fuel n h with
  | Some (r, h') => machine_ok xl h' /\ (r = inl E_abort -> reserved_action (st h'))
  | None => step_measure n h < Z.of_nat fuel ->
      exists n' h', iterations n h n' h' /\ 0 < n' /\ machine_ok xl h' /\ throws_trigger n' h'
  end.
Proof.
  induction fuel as [|fuel IH]; intros n h Hn Hh; cbn [step_loop].
  - destruct (Z.ltb_spec 0 n); cbn [negb]; [|now split]. intros K. exfalso.
    pose proof (flags_weight_range (st h)). unfold step_measure in K. lia.
  - destruct (Z.ltb_spec 0 n) as [Hp|]; cbn [negb]; [|now split].
    pose proof (step_iteration_ok n h Hp Hh) as [H1 I1].
    destruct (step_iteration other intrs n h) as [[e|[n'|]] h1] eqn:E; cbn [fst snd] in *.
    + split; [exact H1|]. intros [= ->]. now apply I1.
    + destruct I1 as [Hn' P]. specialize (IH n' h1 ltac:(lia) H1).
      destruct (step_loop other intrs fuel n' h1) as [[r h2]|]; [exact IH|]. intros K.
      destruct P as [P|P].
      * exists n, h. split; [constructor|]. auto.
      * destruct (IH ltac:(lia)) as (n2 & h2 & J & K2). exists n2, h2. split; [|exact K2].
        now apply (iterations_next n h n' h1).
    + split; [exact H1|discriminate].
Qed.

Lemma halt_requests_ok (h : hart) : machine_ok xl h -> post (machine_ok xl) (fun _ => True) (halt_requests h).
Proof.
  intros Hh. unfold halt_requests. destruct (debug_mode (st h)); [now split|].
  destruct (halt_request (proc h)); try (now apply runs_enter_debug_mode).
  destruct (dcsr_halt _); [now apply runs_enter_debug_mode|now split].
Qed.

End Step.
