(* ===== verification/StepProps.v ===== *)
(** * StepProps: properties of instructions and of the execution loop

    Every modelled instruction keeps the machine invariant.  If the bodies of the
    unmodelled ones do, then from reset of a processor without H, whatever
    program runs, the simulator stays in legal states and never calls [abort()]
    unless the program has given a debug trigger a reserved action; and a call
    of [step] returns unless a debug trigger fires. *)
From Stdlib Require Import ZArith Lia Bool List String.
From stdpp Require Import base list gmap strings.
From S2P Require Import Prelude Arith Encoding Decode Decoder State Processor Pmp Mmu Csr TrapEntry Macros Base Compressed System Fetch Execute Fields CsrFacts MmuFacts Registers Hoare InsnFacts InsnProps FetchFacts TrapFacts StepFacts.
#[local] Open Scope Z_scope.
#[local] Open Scope word_scope.
#[local] Open Scope record_scope.
#[local] Open Scope monad_scope.

Section Reset.
Context {S : Type} `{!SimIf S} `{!SimIfLaws S}.
#[local] Notation hart := (State.hart S).

(** A processor that may be reset: configured, with the decoder of its
    instruction set and an instruction cache for its register width. *)
Definition resettable (xl : Z) (h : hart) : Prop :=
  configured (proc h) /\ xl = max_xlen (proc h) /\ xlen (proc h) = max_xlen (proc h) /\
  decoder_inv (decoder (proc h)) /\ icache_ok xl (mmu h).

(** What [processor_reset] does to the parts that [csr_inv] does not mention. *)
Lemma reset_machine_ok xl (h : hart) : resettable xl h -> machine_ok xl (processor_reset h).2.
Proof.
  intros (Hc & -> & Xx & D & K). pose proof (reset_establishes h Hc) as C. unfold after in C.
  set (f := fun s : state_t => (state_reset (max_isa (proc h)))
    <| mideleg := if supports_extension (state_reset (max_isa (proc h))) (proc h) chr_H then MIDELEG_FORCED_MASK else 0 |>
    <| dcsr ::= fun d => d <| dcsr_halt := halt_on_reset (proc h) |> |>).
  set (h1 := h <| st ::= f |> <| proc ::= fun p => p <| halt_on_reset := false |> |>).
  assert (F : runs (csr_frame h1) (set_csr CSR_MSTATUS (mstatus (st h1)) ;;
    upd_proc (fun p => p <| VU ::= vector_reset (xlen p) |>) ;;
    p <- gets proc ;;
    when (0 <? n_pmp p) (set_csr CSR_PMPADDR0 minus_1 ;;
      set_csr CSR_PMPCFG0 (PMP_R |w PMP_W |w PMP_X |w PMP_NAPOT))) (fun _ => True)).
  { apply runs_bind_any; [apply frame_set_csr; [apply Hc|discriminate]|intros _].
    apply runs_bind_any; [apply runs_modify; intros h' H'; exact H'|intros _].
    eapply runs_bind; [apply runs_gets|]. intros p _. apply runs_when. intros _.
    apply runs_bind_any; [|intros _]; (apply frame_set_csr; [apply Hc|discriminate]). }
  destruct (F h1) as [(H1 & H2 & H3 & _ & H4 & H5 & H6 & H7) _].
  { refine (conj eq_refl (conj eq_refl (conj eq_refl (conj Xx (conj eq_refl (conj (icache_sub_refl _) (conj _ _))))))); auto. }
  change ((processor_reset h).2) with ((set_csr CSR_MSTATUS (mstatus (st h1)) ;;
    upd_proc (fun p => p <| VU ::= vector_reset (xlen p) |>) ;;
    p <- gets proc ;;
    when (0 <? n_pmp p) (set_csr CSR_PMPADDR0 minus_1 ;;
      set_csr CSR_PMPCFG0 (PMP_R |w PMP_W |w PMP_X |w PMP_NAPOT))) h1).2 in C |- *.
  constructor; rewrite ?H1, ?H3, ?H4; auto.
  - split; [apply Hc|reflexivity].
  - apply regs_reset, Hc.
  - apply H6. change (resume_ok (f (st h))). 
    refine (conj eq_refl (conj eq_refl (conj eq_refl (conj eq_refl (conj eq_refl (conj _ eq_refl)))))).
    change (0 <= 0 <= 3). lia.
  - apply H7. split; [discriminate|reflexivity].
  - now apply (icache_ok_sub _ (mmu h)).
Qed.

(** Calls of [step] one after the other, each with its interrupt map, until one
    throws. *)
Fixpoint run_calls (other : string -> body S) (fuel : nat) (calls : list (gmap Z Z * Z)) (h : hart) :
  option ((exn + unit) * hart) :=
  match calls with
  | [] => Some (inr tt, h)
  | (intrs, n) :: calls' =>
    match step other intrs fuel n h with
    | Some (inr tt, h') => run_calls other fuel calls' h'
    | r => r
    end
  end.

Lemma step_ok other intrs xl fuel n (h : hart) : xlen_ok xl -> (forall name, body_ok xl (other name)) ->
  0 <= n -> machine_ok xl h ->
  match step other intrs fuel n h with
  | Some (r, h') => machine_ok xl h' /\ (r = inl E_abort -> reserved_action (st h'))
  | None => True
  end.
Proof.
  intros Hx Ho Hn Hh. unfold step. destruct (halt_requests_ok xl h Hh) as [H1 R1].
  destruct (halt_requests h) as [[e|[]] h1]; cbn [fst snd] in *.
  - split; [exact H1|]. intros [= ->]. destruct R1.
  - pose proof (step_loop_ok other intrs xl Hx Ho fuel n h1 Hn H1) as K.
    now destruct (step_loop other intrs fuel n h1) as [[r h2]|].
Qed.

Lemma run_calls_ok other xl fuel calls : xlen_ok xl -> (forall name, body_ok xl (other name)) ->
  Forall (fun c => 0 <= snd c) calls -> forall h : hart, machine_ok xl h ->
  match run_calls other fuel calls h with
  | Some (r, h') => machine_ok xl h' /\ (r = inl E_abort -> reserved_action (st h'))
  | None => True
  end.
Proof.
  intros Hx Ho Hc. induction Hc as [|[intrs n] calls Hn _ IH]; intros h Hh; cbn [run_calls]; [now split|].
  pose proof (step_ok other intrs xl fuel n h Hx Ho Hn Hh) as K.
  destruct (step other intrs fuel n h) as [[[e|[]] h']|]; [exact K|now apply IH|exact K].
Qed.

End Reset.

(** ** Properties *)

(** C5.  Type soundness of the instruction set: on a hart without the
    hypervisor extension, each modelled instruction of I, M, A, C, the
    privileged and the hypervisor instructions, run in a legal machine state
    at an even program counter, ends in a legal machine state whether it
    completes or throws - [x0] is zero, on RV32 every register holds a
    sign-extended 32-bit value, the privileged state is legal, every register
    a program counter is loaded from is even -, does not call [abort()], and
    returns an even address, the code that it has serialised, or, having
    changed nothing, the code that it must be serialised first. *)
Theorem instruction_type_soundness {S : Type} `{!SimIf S} `{!SimIfLaws S} (xl : Z) (name : string) (bd : body S)
    (insn : insn_t) (pc npc : Z) (h : State.hart S) :
  xlen_ok xl -> In (name, bd) modelled_insns -> insn_ok insn -> Z.odd pc = false -> wf xl npc -> Z.odd npc = false ->
  machine_ok xl h -> outcome_ok xl h (bd xl insn pc npc h).
Proof.
  intros Hx Hin Hi Hpc Hn Hne Hh. pose proof (modelled_insns_ok xl Hx (S := S)) as K. unfold insns_ok in K.
  rewrite List.Forall_forall in K. exact (K (name, bd) Hin insn pc npc h Hi Hpc Hn Hne Hh).
Qed.

(** C1.  The simulator survives every program, on a processor configured without
    the hypervisor extension: after a reset, however often and with whatever
    interrupts [step] is called, whatever the memory and the devices hold, the
    machine state stays legal; and [step] calls [abort()] only if the program has
    given a debug trigger a reserved action.  The program may use every
    instruction; of those that are not modelled (Q, Zfh, V: the parameter
    [other]) the theorem assumes what it proves of the modelled ones, that their
    bodies keep the machine legal and do not abort ([body_ok]). *)
Theorem simulation_stays_legal {S : Type} `{!SimIf S} `{!SimIfLaws S} (other : string -> body S) (xl : Z)
    (fuel : nat) (calls : list (gmap Z Z * Z)) (h : State.hart S) :
  (forall name, body_ok xl (other name)) -> resettable xl h -> Forall (fun c => 0 <= snd c) calls ->
  match run_calls other fuel calls (processor_reset h).2 with
  | Some (r, h') => machine_ok xl h' /\ (r = inl E_abort -> reserved_action (st h'))
  | None => True
  end.
Proof.
  intros Ho Hr Hc. apply run_calls_ok; auto; [|now apply reset_machine_ok].
  destruct Hr as ((Hx & _) & -> & _). exact Hx.
Qed.

(** C12.  [step] returns, on a processor without the hypervisor extension: from a
    legal state ([machine_ok]), [4 * n + 4] iterations of its outer loop are
    enough, unless one of them is ended by a debug trigger.  Of the instructions
    that are not modelled (Q, Zfh, V: the parameter [other]) it assumes that
    their bodies keep the machine legal and ask to be serialised only as the
    modelled ones do ([body_ok]). *)
Theorem step_returns {S : Type} `{!SimIf S} `{!SimIfLaws S} (other : string -> body S) (intrs : gmap Z Z) (xl n : Z)
    (fuel : nat) (h : State.hart S) :
  xlen_ok xl -> (forall name, body_ok xl (other name)) -> 0 <= n -> machine_ok xl h -> 4 * n + 4 <= Z.of_nat fuel ->
  (exists r h', step other intrs fuel n h = Some (r, h')) \/
  (exists n' h', iterations other intrs n (halt_requests h).2 n' h' /\ 0 < n' /\ throws_trigger other intrs n' h').
Proof.
  intros Hx Ho Hn Hh Hf. unfold step. destruct (halt_requests_ok xl h Hh) as [H1 R1].
  destruct (halt_requests h) as [[e|[]] h1]; cbn [fst snd] in *; [left; eauto|].
  pose proof (step_loop_ok other intrs xl Hx Ho fuel n h1 Hn H1) as K.
  destruct (step_loop other intrs fuel n h1) as [[r h2]|]; [left; eauto|right].
  destruct K as (n' & h' & J & P & _ & T); [|now exists n', h'].
  pose proof (flags_weight_range (st h1)). unfold step_measure. lia.
Qed.
