(* ===== verification/InsnRuns.v ===== *)
(** * InsnRuns: what the instruction macros do, as equations

    One equation per macro of [Macros.v] in head position, by which the run of
    an instruction body on a given machine is rewritten to its result. *)
From Stdlib Require Import ZArith Lia Bool List String.
From stdpp Require Import base list gmap strings.
From S2P Require Import Prelude Arith Encoding Decode Decoder State Processor Pmp Mmu Csr TrapEntry Macros Base Compressed System Fetch Execute.
#[local] Open Scope Z_scope.
#[local] Open Scope word_scope.
#[local] Open Scope record_scope.
#[local] Open Scope monad_scope.

Section Equations.
Context {S : Type} `{!SimIf S}.
#[local] Notation hart := (State.hart S).
#[local] Notation M := (State.M S).

(** The machine with [rd := v]. *)
Definition write_x (reg v : Z) (h : hart) : hart :=
  h <| st ::= fun s => s <| XPR ::= regfile_write true reg (u64 v) |> |>.
Definition illegal_insn {A} (insn : insn_t) (h : hart) : (exn + A) * hart :=
  (inl (E_trap (trap_illegal_instruction (Insn.bits insn))), h).

Lemma run_gets {A B} (f : hart -> A) (k : A -> M B) h : (x <- gets f ;; k x) h = k (f h) h.
Proof. reflexivity. Qed.

Lemma run_ret {A B} (a : A) (k : A -> M B) h : (x <- ret a ;; k x) h = k a h.
Proof. reflexivity. Qed.

Lemma run_assoc {A B C} (m : M A) (k : A -> M B) (l : B -> M C) h :
  (y <- (x <- m ;; k x) ;; l y) h = (x <- m ;; y <- k x ;; l y) h.
Proof. unfold bind. now destruct (m h) as [[e|a] h']. Qed.

Lemma run_require {B} insn c (k : unit -> M B) h :
  (x <- require insn c ;; k x) h = if c then k tt h else illegal_insn insn h.
Proof. now destruct c. Qed.

Lemma run_require_rv64 {B} xl insn (k : unit -> M B) h :
  (x <- require_rv64 xl insn ;; k x) h = if xl =? 64 then k tt h else illegal_insn insn h.
Proof. apply run_require. Qed.

Lemma run_require_extension {B} insn ext (k : unit -> M B) h :
  (x <- require_extension insn ext ;; k x) h =
  if supports_extension (st h) (proc h) ext then k tt h else illegal_insn insn h.
Proof. exact (run_require insn _ k h). Qed.

Lemma run_write insn v (npc : Z) h : (WRITE_RD insn v ;; ret npc) h = (inr npc, write_x (Insn.rd insn) v h).
Proof. reflexivity. Qed.

Lemma run_write_reg reg v (npc : Z) h : (WRITE_REG reg v ;; ret npc) h = (inr npc, write_x reg v h).
Proof. reflexivity. Qed.

Lemma run_set_pc {B} xl x (k : Z -> M B) (h : hart) :
  (npc <- set_pc xl x ;; k npc) h =
  match check_pc_alignment (st h) (proc h) x with
  | Some t => (inl (E_trap t), h)
  | None => k (u64 (sext_xlen xl x)) h
  end.
Proof. unfold set_pc, gets, bind. now destruct (check_pc_alignment _ _ x). Qed.

Lemma set_pc_run xl x (h : hart) :
  set_pc xl x h =
  match check_pc_alignment (st h) (proc h) x with
  | Some t => (inl (E_trap t), h)
  | None => (inr (u64 (sext_xlen xl x)), h)
  end.
Proof. unfold set_pc, gets, bind. now destruct (check_pc_alignment _ _ x). Qed.

(** Writes of values that are one register value. *)
Lemma write_x_eq reg u v h : u64 u = u64 v -> write_x reg u h = write_x reg v h.
Proof. unfold write_x. now intros ->. Qed.

(** [x0] stays zero. *)
Lemma write_x0 v h : write_x 0 v h = h.
Proof. destruct h as [s p m i fe]. now destruct s. Qed.

End Equations.

(** [insn_body other NAME] as the body itself. *)
Ltac find_body :=
  match goal with
  | |- context [@insn_body ?T ?H ?o ?n] =>
    let b := eval cbv [insn_body modelled_insns insns_i insns_m insns_a insns_f insns_d insns_c insns_priv insns_h
                       app List.find String.eqb Ascii.eqb Bool.eqb fst] in (@insn_body T H o n) in
    change (@insn_body T H o n) with b
  end.

(** Unfolds an instruction body at the head of the left-hand side. *)
Ltac unfold_body :=
  match goal with
  | |- ?b _ _ _ _ _ = _ => let rec hd t := lazymatch t with ?f _ => hd f | _ => t end in
                           let c := hd b in unfold c; cbv beta zeta
  end.

Ltac run_macros :=
  repeat first [rewrite run_require_extension | rewrite run_require_rv64 | rewrite run_require
               | rewrite run_gets | rewrite run_write | rewrite run_write_reg | rewrite run_ret].

(** One goal per element of a concrete list. *)
Ltac list_all := repeat match goal with
  | |- Forall _ (_ :: _) => apply List.Forall_cons
  | |- Forall _ [] => apply List.Forall_nil
  end.
