(* ===== verification/Alu.v ===== *)
(** * Alu: the computational instructions against the ISA manual

    Spike computes on 64-bit host registers whatever XLEN, sign-extending 32-bit
    values.  [Ref] defines the operations of the unprivileged specification on
    [w]-bit values; the theorem of this file says that the body of every
    computational instruction of I and M is its operation on the XLEN-bit (or,
    for the W forms, 32-bit) operands, and when it is illegal. *)
From Stdlib Require Import ZArith Lia Bool List String.
From stdpp Require Import base list gmap strings.
From S2P Require Import Prelude Arith Encoding Decode Decoder State Processor Pmp Mmu Csr TrapEntry Macros Base Compressed System Fetch Execute Fields CsrFacts MmuFacts Registers Hoare InsnFacts InsnProps InsnRuns.
#[local] Open Scope Z_scope.
#[local] Open Scope word_scope.
#[local] Open Scope record_scope.

(** ** Reference operations

    [a] and [b] are [w]-bit values; so is the result. *)
Module Ref.
Definition shamt (w b : Z) : Z := b mod w.
Definition add (w a b : Z) : Z := uw w (a + b).
Definition sub (w a b : Z) : Z := uw w (a - b).
Definition sll (w a b : Z) : Z := uw w (a * 2 ^ shamt w b).
Definition srl (w a b : Z) : Z := a / 2 ^ shamt w b.
Definition sra (w a b : Z) : Z := uw w (sw w a / 2 ^ shamt w b).
Definition slt (w a b : Z) : Z := b2z (sw w a <? sw w b).
Definition sltu (w a b : Z) : Z := b2z (a <? b).
Definition xor (w a b : Z) : Z := Z.lxor a b.
Definition or (w a b : Z) : Z := Z.lor a b.
Definition and (w a b : Z) : Z := Z.land a b.
Definition mul (w a b : Z) : Z := uw w (a * b).
Definition mulh (w a b : Z) : Z := uw w (sw w a * sw w b / 2 ^ w).
Definition mulhsu (w a b : Z) : Z := uw w (sw w a * b / 2 ^ w).
Definition mulhu (w a b : Z) : Z := a * b / 2 ^ w.
(** Division by zero gives all ones and the dividend; the quotient of the
    overflowing signed division wraps around to the dividend. *)
Definition div (w a b : Z) : Z := if b =? 0 then 2 ^ w - 1 else uw w (Z.quot (sw w a) (sw w b)).
Definition divu (w a b : Z) : Z := if b =? 0 then 2 ^ w - 1 else a / b.
Definition rem (w a b : Z) : Z := if b =? 0 then a else uw w (Z.rem (sw w a) (sw w b)).
Definition remu (w a b : Z) : Z := if b =? 0 then a else a mod b.
End Ref.

(** Where the operands come from. *)
Inductive alu_src := RegReg | RegImm | RegShamt | UpperImm | PcUpper.

Record alu := mk_alu {
  a_op : Z -> Z -> Z -> Z;
  a_src : alu_src;
  a_word : bool;  (* a W form: 32-bit operands, on RV64 only *)
  a_mul : bool    (* in extension M *)
}.

Definition alu_ops : list (string * alu) :=
  let rr op := mk_alu op RegReg false false in let ri op := mk_alu op RegImm false false in
  let sh op := mk_alu op RegShamt false false in let rrw op := mk_alu op RegReg true false in
  let m op := mk_alu op RegReg false true in let mw op := mk_alu op RegReg true true in
  [("add", rr Ref.add); ("sub", rr Ref.sub); ("sll", rr Ref.sll); ("slt", rr Ref.slt); ("sltu", rr Ref.sltu);
   ("xor", rr Ref.xor); ("srl", rr Ref.srl); ("sra", rr Ref.sra); ("or", rr Ref.or); ("and", rr Ref.and);
   ("addi", ri Ref.add); ("slti", ri Ref.slt); ("sltiu", ri Ref.sltu); ("xori", ri Ref.xor);
   ("ori", ri Ref.or); ("andi", ri Ref.and);
   ("slli", sh Ref.sll); ("srli", sh Ref.srl); ("srai", sh Ref.sra);
   ("lui", mk_alu Ref.add UpperImm false false); ("auipc", mk_alu Ref.add PcUpper false false);
   ("addw", rrw Ref.add); ("subw", rrw Ref.sub); ("sllw", rrw Ref.sll); ("srlw", rrw Ref.srl);
   ("sraw", rrw Ref.sra); ("addiw", mk_alu Ref.add RegImm true false);
   ("slliw", mk_alu Ref.sll RegShamt true false); ("srliw", mk_alu Ref.srl RegShamt true false);
   ("sraiw", mk_alu Ref.sra RegShamt true false);
   ("mul", m Ref.mul); ("mulh", m Ref.mulh); ("mulhsu", m Ref.mulhsu); ("mulhu", m Ref.mulhu);
   ("div", m Ref.div); ("divu", m Ref.divu); ("rem", m Ref.rem); ("remu", m Ref.remu);
   ("mulw", mw Ref.mul); ("divw", mw Ref.div); ("divuw", mw Ref.divu); ("remw", mw Ref.rem);
   ("remuw", mw Ref.remu)]%string.

Section Reference.
Context {S : Type} `{!SimIf S}.
#[local] Notation hart := (State.hart S).

Definition alu_width (xl : Z) (a : alu) : Z := if a_word a then 32 else xl.

Definition alu_operands (a : alu) (insn : insn_t) (pc : Z) (s : state_t) : Z * Z :=
  match a_src a with
  | RegReg => (RS1 s insn, RS2 s insn)
  | RegImm => (RS1 s insn, Insn.i_imm insn)
  | RegShamt => (RS1 s insn, SHAMT insn)
  | UpperImm => (0, Insn.u_imm insn)
  | PcUpper => (pc, Insn.u_imm insn)
  end.

Definition alu_legal (xl : Z) (a : alu) (insn : insn_t) (h : hart) : bool :=
  (negb (a_mul a) || supports_extension (st h) (proc h) chr_M)
  && (negb (a_word a) || (xl =? 64))
  && (match a_src a with RegShamt => SHAMT insn <? alu_width xl a | _ => true end).

(** The operation on the low [w] bits of the operands, sign-extended into [rd]. *)
Definition alu_run (xl : Z) (a : alu) (insn : insn_t) (pc npc : Z) (h : hart) : (exn + Z) * hart :=
  let w := alu_width xl a in
  let '(x, y) := alu_operands a insn pc (st h) in
  if alu_legal xl a insn h then
    (inr npc, write_x (Insn.rd insn) (sw w (a_op a w (uw w x) (uw w y))) h)
  else illegal_insn insn h.

End Reference.

(** ** Host words and [w]-bit values *)
Section Width.
Variable w : Z.
Hypothesis Hw : 0 < w <= 64.

Lemma sw_congr x y : uw w x = uw w y -> sw w x = sw w y.
Proof. intros E. now rewrite <- (sw_uw w x), E, sw_uw. Qed.

Lemma val_add x y : sw w (x +w y) = sw w (Ref.add w (uw w x) (uw w y)).
Proof. unfold add64, Ref.add. now rewrite sw_of_uw, sw_uw, sw_add_l, sw_add_r by lia. Qed.
Lemma val_sub x y : sw w (x -w y) = sw w (Ref.sub w (uw w x) (uw w y)).
Proof. unfold sub64, Ref.sub. rewrite sw_of_uw, sw_uw by lia. apply sw_congr. now rewrite uw_sub_l, uw_sub_r. Qed.
Lemma val_mul x y : sw w (x *w y) = sw w (Ref.mul w (uw w x) (uw w y)).
Proof. unfold mul64, Ref.mul. rewrite sw_of_uw, sw_uw by lia. apply sw_congr. now rewrite uw_mul_l, uw_mul_r. Qed.

Lemma val_sll x n b : 0 <= n /\ Ref.shamt w b = n -> sw w (x <<w n) = sw w (Ref.sll w (uw w x) b).
Proof.
  intros [Hn <-]. unfold shl64, Ref.sll. rewrite Z.shiftl_mul_pow2, sw_of_uw, sw_uw by lia.
  apply sw_congr. now rewrite uw_mul_l.
Qed.
Lemma val_srl x n b : 0 <= n /\ Ref.shamt w b = n -> uw w x >>w n = Ref.srl w (uw w x) b.
Proof. intros [Hn <-]. unfold Ref.srl. now rewrite Z.shiftr_div_pow2. Qed.
Lemma val_sra x n b : 0 <= n /\ Ref.shamt w b = n -> sw w (sw w x >>w n) = sw w (Ref.sra w (uw w x) b).
Proof. intros [Hn <-]. unfold Ref.sra. now rewrite Z.shiftr_div_pow2, !sw_uw. Qed.

Lemma sw_eqb_0 x : (sw w x =? 0) = (uw w x =? 0).
Proof.
  destruct (Z.eqb_spec (uw w x) 0) as [E|N].
  - apply Z.eqb_eq, sw_unique; [lia| |exact E]. pose proof (pow2_pos (w - 1) ltac:(lia)). unfold sfits. lia.
  - apply Z.eqb_neq. intros E. apply N. rewrite <- uw_sw, E by lia. apply Z.mod_0_l. apply Z.pow_nonzero; lia.
Qed.

(** Division: the quotient of the two extreme operands is outside the signed
    range, any other is inside. *)
Lemma val_div x y : sw w y <> 0 ->
  sw w (Z.quot (sw w x) (sw w y)) = sw w (Ref.div w (uw w x) (uw w y)).
Proof.
  intros N. unfold Ref.div. rewrite <- Z.eqb_neq, sw_eqb_0 in N. now rewrite N, !sw_uw.
Qed.
Lemma val_rem x y : sw w y <> 0 ->
  sw w (Z.rem (sw w x) (sw w y)) = sw w (Ref.rem w (uw w x) (uw w y)).
Proof.
  intros N. unfold Ref.rem. rewrite <- Z.eqb_neq, sw_eqb_0 in N. now rewrite N, !sw_uw.
Qed.

Lemma sw_ones : sw w (2 ^ w - 1) = -1.
Proof.
  apply sw_unique; [lia| |].
  - pose proof (pow2_pos (w - 1) ltac:(lia)). unfold sfits. lia.
  - apply uw_congr; [lia|]. exists 1. lia.
Qed.

Lemma u64_sw_ones : u64 (sw w (2 ^ w - 1)) = minus_1.
Proof. now rewrite sw_ones. Qed.
End Width.

(** Registers hold sign extensions, on which unsigned order is that of the
    XLEN-bit values. *)
Section Registers.
Variable xl : Z.
Hypothesis Hx : xlen_ok xl.

Lemma wf_value x : wf xl x -> x = if uw xl x <? 2 ^ (xl - 1) then uw xl x else uw xl x + (2 ^ 64 - 2 ^ xl).
Proof.
  unfold wf. intros E. pose proof (xlen_range xl Hx). pose proof (uw_fits xl x ltac:(lia)) as [? ?].
  pose proof (Z.pow_le_mono_r 2 xl 64 ltac:(lia) ltac:(lia)).
  rewrite <- E at 1. unfold sw. destruct (Z.ltb_spec (uw xl x) (2 ^ (xl - 1))).
  - apply uw_small. unfold fits. lia.
  - rewrite <- (uw_small 64 (_ + _)) by (unfold fits; lia). apply uw_congr; [lia|]. exists (-1). lia.
Qed.

Lemma wf_s64 x : wf xl x -> s64 x = sw xl x.
Proof.
  unfold wf. intros E. rewrite <- E at 1. pose proof (xlen_range xl Hx).
  rewrite sw_of_uw by lia. apply sw_small; [lia|]. apply (sfits_mono xl); [lia|]. apply sw_fits. lia.
Qed.

Lemma wf_reg x : wf xl x -> x = u64 (sw xl (uw xl x)).
Proof. unfold wf. intros E. now rewrite sw_uw. Qed.

Lemma wf_ltb x y : wf xl x -> wf xl y -> (x <? y) = (uw xl x <? uw xl y).
Proof.
  intros Wx Wy. pose proof (wf_value x Wx) as Ex. pose proof (wf_value y Wy) as Ey.
  pose proof (xlen_range xl Hx). pose proof (uw_fits xl x ltac:(lia)) as [? ?]. pose proof (uw_fits xl y ltac:(lia)) as [? ?].
  pose proof (Z.pow_le_mono_r 2 xl 64 ltac:(lia) ltac:(lia)).
  rewrite Ex, Ey at 1. pose proof (pow2_half xl ltac:(lia)). bcases; lia.
Qed.

Lemma wf_eqb x y : wf xl x -> wf xl y -> (x =? y) = (uw xl x =? uw xl y).
Proof.
  intros Wx Wy. destruct (Z.eqb_spec (uw xl x) (uw xl y)) as [E|N].
  - apply Z.eqb_eq. rewrite (wf_reg x Wx), (wf_reg y Wy). now rewrite E.
  - apply Z.eqb_neq. congruence.
Qed.

Lemma val_slt x y : wf xl x -> wf xl y -> (s64 x <? s64 y) = (sw xl (uw xl x) <? sw xl (uw xl y)).
Proof. intros Wx Wy. now rewrite !wf_s64, !sw_uw by assumption. Qed.

Lemma val_bits (f : Z -> Z -> Z) (g : bool -> bool -> bool) x y :
  (forall a b i, Z.testbit (f a b) i = g (Z.testbit a i) (Z.testbit b i)) -> g false false = false ->
  wf xl (f x y) -> f x y = u64 (sw xl (f (uw xl x) (uw xl y))).
Proof.
  intros Hf G W. rewrite (wf_reg (f x y) W) at 1. do 2 f_equal.
  pose proof (xlen_range xl Hx). bits i. rewrite !uw_testbit, !Hf, !uw_testbit by lia.
  destruct (i <? xl); cbn [andb]; auto.
Qed.

Lemma b2z_reg c : u64 (b2z c) = u64 (sw xl (b2z c)).
Proof. pose proof (good_b2z xl Hx c). unfold good, wf in *. pose proof (xlen_range xl Hx). rewrite sw_of_uw in H by lia. symmetry. exact H. Qed.

(** The shift amounts. *)
Lemma shamt_land w y : w = 32 \/ w = 64 -> 0 <= y &w (w - 1) /\ Ref.shamt w (uw w y) = y &w (w - 1).
Proof.
  intros [-> | ->]; unfold Ref.shamt.
  - change (32 - 1) with (Z.ones 5). rewrite Z.land_ones by lia.
    split; [apply Z.mod_pos_bound; lia|]. exact (uw_uw 5 32 y ltac:(lia)).
  - change (64 - 1) with (Z.ones 6). rewrite Z.land_ones by lia.
    split; [apply Z.mod_pos_bound; lia|]. exact (uw_uw 6 64 y ltac:(lia)).
Qed.
End Registers.

Lemma shamt_imm w insn : w = 32 \/ w = 64 -> SHAMT insn < w ->
  0 <= SHAMT insn /\ Ref.shamt w (uw w (SHAMT insn)) = SHAMT insn.
Proof.
  intros Hw L. assert (0 <= SHAMT insn) by (apply Z.land_nonneg; right; lia). split; [assumption|].
  unfold Ref.shamt. rewrite uw_small; [apply Z.mod_small; lia|]. unfold fits.
  destruct Hw as [-> | ->]; lia.
Qed.

(** ** Equivalence *)
Section Equivalence.
Context {S : Type} `{!SimIf S}.
#[local] Notation hart := (State.hart S).
Variables (other : string -> body S) (xl : Z) (insn : insn_t) (pc npc : Z).
Hypothesis Hx : xlen_ok xl.
Hypothesis Hi : insn_ok insn.

(** The entry of [alu_ops] describes the body. *)
Definition alu_entry (e : string * alu) : Prop := forall h : hart,
  (forall r, wf xl (READ_REG (st h) r)) ->
  (a_src (snd e) = RegShamt -> a_word (snd e) = true -> SHAMT insn < 32) ->
  insn_body other (fst e) xl insn pc npc h = alu_run xl (snd e) insn pc npc h.

(** The values written, by operation: what each body computes is the register
    form of the reference result. *)
Lemma reg_sext v r : sw xl v = sw xl r -> u64 (sext_xlen xl v) = u64 (sw xl r).
Proof. intros <-. now rewrite (sext_sw xl Hx). Qed.
Lemma reg_sext32 v r : s32 v = s32 r -> u64 (sext32 v) = u64 (s32 r).
Proof. now intros <-. Qed.

Lemma reg_slt x y : wf xl x -> wf xl y ->
  u64 (b2z (s64 x <? s64 y)) = u64 (sw xl (Ref.slt xl (uw xl x) (uw xl y))).
Proof. intros Wx Wy. rewrite (val_slt xl Hx) by assumption. apply (b2z_reg xl Hx). Qed.
Lemma reg_sltu x y : wf xl x -> wf xl y ->
  u64 (b2z (x <? y)) = u64 (sw xl (Ref.sltu xl (uw xl x) (uw xl y))).
Proof. intros Wx Wy. rewrite (wf_ltb xl Hx) by assumption. apply (b2z_reg xl Hx). Qed.

Lemma reg_bits (f : Z -> Z -> Z) x y : wf xl (f x y) -> f x y = u64 (sw xl (f (uw xl x) (uw xl y))) ->
  u64 (f x y) = u64 (sw xl (f (uw xl x) (uw xl y))).
Proof. intros W <-. now apply (wf_u64 xl). Qed.
Lemma reg_xor x y : wf xl x -> wf xl y -> u64 (x ^w y) = u64 (sw xl (Ref.xor xl (uw xl x) (uw xl y))).
Proof.
  intros Wx Wy. pose proof (wf_lxor xl Hx x y Wx Wy). apply (reg_bits Z.lxor); [assumption|].
  apply (val_bits xl Hx Z.lxor xorb); auto using Z.lxor_spec.
Qed.
Lemma reg_or x y : wf xl x -> wf xl y -> u64 (x |w y) = u64 (sw xl (Ref.or xl (uw xl x) (uw xl y))).
Proof.
  intros Wx Wy. pose proof (wf_lor xl Hx x y Wx Wy). apply (reg_bits Z.lor); [assumption|].
  apply (val_bits xl Hx Z.lor orb); auto using Z.lor_spec.
Qed.
Lemma reg_and x y : wf xl x -> wf xl y -> u64 (x &w y) = u64 (sw xl (Ref.and xl (uw xl x) (uw xl y))).
Proof.
  intros Wx Wy. pose proof (wf_land xl Hx x y Wx Wy). apply (reg_bits Z.land); [assumption|].
  apply (val_bits xl Hx Z.land andb); auto using Z.land_spec.
Qed.

(** Immediates are sign-extended to a register value. *)
Lemma wf_imm : wf xl (u64 (Insn.i_imm insn)).
Proof. exact (good_i_imm xl Hx insn Hi). Qed.
Lemma uw_imm v : uw xl (u64 v) = uw xl v.
Proof. apply uw_uw. pose proof (xlen_range xl Hx). lia. Qed.
Lemma s64_imm : s64 (u64 (Insn.i_imm insn)) = Insn.i_imm insn.
Proof.
  rewrite sw_uw. apply sw_small; [lia|]. pose proof (i_imm_sfits insn Hi). apply (sfits_mono 12); [lia|assumption].
Qed.
Lemma reg_lui : u64 (Insn.u_imm insn) = u64 (sw xl (Ref.add xl (uw xl 0) (uw xl (Insn.u_imm insn)))).
Proof.
  pose proof (good_u_imm xl Hx insn Hi) as G. unfold good, wf in G. pose proof (xlen_range xl Hx).
  rewrite sw_of_uw in G by lia. rewrite <- G. unfold Ref.add. rewrite sw_uw. f_equal. apply sw_congr.
  now rewrite uw_add_l, uw_add_r.
Qed.

(** *** Extension M *)

Lemma shiftr_32 z : z >>w 32 = z / 2 ^ 32.
Proof. apply Z.shiftr_div_pow2. lia. Qed.
Lemma high_32 z : s32 (u64 z / 2 ^ 32) = s32 (uw 32 (z / 2 ^ 32)).
Proof. f_equal. symmetry. exact (div_mod_pow 32 32 z ltac:(lia) ltac:(lia)). Qed.

Lemma reg_mulh x y :
  u64 (if xl =? 64 then Arith.mulh (s64 x) (s64 y) else sext32 ((sext32 x * sext32 y) >>w 32)) =
  u64 (sw xl (Ref.mulh xl (uw xl x) (uw xl y))).
Proof.
  unfold Ref.mulh. rewrite !sw_uw. destruct Hx as [-> | ->].
  - change (32 =? 64) with false. cbv iota. unfold sext32. now rewrite shiftr_32.
  - change (64 =? 64) with true. cbv iota. rewrite mulh_div by (apply sw_fits; lia).
    now rewrite uw_sw by lia.
Qed.

Lemma reg_mulhsu x y : fits 64 y ->
  u64 (if xl =? 64 then Arith.mulhsu (s64 x) y else sext32 ((sext32 x *w u32 y) >>w 32)) =
  u64 (sw xl (Ref.mulhsu xl (uw xl x) (uw xl y))).
Proof.
  intros F. unfold Ref.mulhsu. rewrite !sw_uw. destruct Hx as [-> | ->].
  - change (32 =? 64) with false. cbv iota. unfold sext32, mul64. now rewrite shiftr_32, high_32, sw_uw.
  - change (64 =? 64) with true. cbv iota. rewrite mulhsu_div by (auto; apply sw_fits; lia).
    now rewrite uw_sw, (uw_small 64 y) by (auto; lia).
Qed.

Lemma reg_mulhu x y : fits 64 x -> fits 64 y ->
  u64 (if xl =? 64 then Arith.mulhu x y else sext32 ((u32 x *w u32 y) >>w 32)) =
  u64 (sw xl (Ref.mulhu xl (uw xl x) (uw xl y))).
Proof.
  intros Fx Fy. unfold Ref.mulhu. destruct Hx as [-> | ->].
  - change (32 =? 64) with false. cbv iota. unfold sext32, mul64. now rewrite shiftr_32, high_32, sw_uw.
  - change (64 =? 64) with true. cbv iota. rewrite mulhu_div by auto.
    rewrite (uw_small 64 x), (uw_small 64 y), uw_sw by (auto; lia). reflexivity.
Qed.

Section Division.
Variable w : Z.
Hypothesis Hw : 0 < w <= 64.
Variables x y : Z.

Lemma reg_divu : u64 (if uw w y =? 0 then minus_1 else sw w (uw w x / uw w y)) =
  u64 (sw w (Ref.divu w (uw w x) (uw w y))).
Proof. unfold Ref.divu. destruct (_ =? 0); [|reflexivity]. now rewrite u64_sw_ones. Qed.
Lemma reg_remu : u64 (if uw w y =? 0 then sw w x else sw w (uw w x mod uw w y)) =
  u64 (sw w (Ref.remu w (uw w x) (uw w y))).
Proof. unfold Ref.remu. destruct (_ =? 0); [now rewrite sw_uw|reflexivity]. Qed.

(** The W forms do not single out the overflow: the 64-bit quotient is exact. *)
Lemma reg_div_w : u64 (if sw w y =? 0 then minus_1 else sw w (Z.quot (sw w x) (sw w y))) =
  u64 (sw w (Ref.div w (uw w x) (uw w y))).
Proof.
  destruct (Z.eqb_spec (sw w y) 0) as [E|N]; [|now rewrite val_div].
  apply Z.eqb_eq in E. rewrite sw_eqb_0 in E by lia. unfold Ref.div. now rewrite E, u64_sw_ones.
Qed.
Lemma reg_rem_w : u64 (if sw w y =? 0 then sw w x else sw w (Z.rem (sw w x) (sw w y))) =
  u64 (sw w (Ref.rem w (uw w x) (uw w y))).
Proof.
  destruct (Z.eqb_spec (sw w y) 0) as [E|N]; [|now rewrite val_rem].
  apply Z.eqb_eq in E. rewrite sw_eqb_0 in E by lia. unfold Ref.rem. now rewrite E, sw_uw.
Qed.

(** [div] and [rem] do, to avoid the host's overflow; the result is the same. *)
Lemma reg_div : u64 (if sw w y =? 0 then minus_1
    else if (sw w x =? INT64_MIN) && (sw w y =? -1) then sw w x else sw w (Z.quot (sw w x) (sw w y))) =
  u64 (sw w (Ref.div w (uw w x) (uw w y))).
Proof.
  rewrite <- reg_div_w. destruct (sw w y =? 0); [reflexivity|].
  destruct (Z.eqb_spec (sw w x) INT64_MIN) as [E|]; [|reflexivity].
  destruct (Z.eqb_spec (sw w y) (-1)) as [E'|]; [|reflexivity]. cbn [andb].
  rewrite E, E'. change (Z.quot INT64_MIN (-1)) with (2 ^ 63). unfold INT64_MIN in *.
  pose proof (sw_fits w x ltac:(lia)) as [L _].
  assert (w = 64) as ->; [|reflexivity].
  destruct (Z.eq_dec w 64) as [->|]; [reflexivity|].
  pose proof (Z.pow_lt_mono_r 2 (w - 1) 63 ltac:(lia) ltac:(lia) ltac:(lia)). lia.
Qed.
Lemma reg_rem : u64 (if sw w y =? 0 then sw w x
    else if (sw w x =? INT64_MIN) && (sw w y =? -1) then 0 else sw w (Z.rem (sw w x) (sw w y))) =
  u64 (sw w (Ref.rem w (uw w x) (uw w y))).
Proof.
  rewrite <- reg_rem_w. destruct (sw w y =? 0); [reflexivity|].
  destruct (Z.eqb_spec (sw w y) (-1)) as [E|]; rewrite ?andb_false_r, ?andb_true_r; [|reflexivity].
  destruct (sw w x =? INT64_MIN); [|reflexivity]. rewrite E.
  now rewrite (Z.rem_opp_r _ 1), Z.rem_1_r, (sw_small w 0) by (try (pose proof (pow2_pos (w - 1)); unfold sfits); lia).
Qed.
End Division.

(** *** Immediate operands *)

Lemma reg_slti x : wf xl x ->
  u64 (b2z (s64 x <? Insn.i_imm insn)) = u64 (sw xl (Ref.slt xl (uw xl x) (uw xl (Insn.i_imm insn)))).
Proof. intros W. rewrite <- s64_imm at 1. rewrite <- (uw_imm (Insn.i_imm insn)). apply reg_slt; [exact W|exact wf_imm]. Qed.
Lemma reg_sltiu x : wf xl x ->
  u64 (b2z (x <? u64 (Insn.i_imm insn))) = u64 (sw xl (Ref.sltu xl (uw xl x) (uw xl (Insn.i_imm insn)))).
Proof. intros W. rewrite <- (uw_imm (Insn.i_imm insn)). apply reg_sltu; [exact W|exact wf_imm]. Qed.
Lemma reg_xori x : wf xl x ->
  u64 (u64 (Insn.i_imm insn) ^w x) = u64 (sw xl (Ref.xor xl (uw xl x) (uw xl (Insn.i_imm insn)))).
Proof. intros W. rewrite Z.lxor_comm, <- (uw_imm (Insn.i_imm insn)). apply reg_xor; [exact W|exact wf_imm]. Qed.
Lemma reg_ori x : wf xl x ->
  u64 (u64 (Insn.i_imm insn) |w x) = u64 (sw xl (Ref.or xl (uw xl x) (uw xl (Insn.i_imm insn)))).
Proof. intros W. rewrite Z.lor_comm, <- (uw_imm (Insn.i_imm insn)). apply reg_or; [exact W|exact wf_imm]. Qed.
Lemma reg_andi x : wf xl x ->
  u64 (u64 (Insn.i_imm insn) &w x) = u64 (sw xl (Ref.and xl (uw xl x) (uw xl (Insn.i_imm insn)))).
Proof. intros W. rewrite Z.land_comm, <- (uw_imm (Insn.i_imm insn)). apply reg_and; [exact W|exact wf_imm]. Qed.
Lemma val_add_r w x y : 0 < w <= 64 -> sw w (x +w y) = sw w (Ref.add w (uw w y) (uw w x)).
Proof. intros. unfold add64. rewrite Z.add_comm. now apply val_add. Qed.

(** ** The entries *)

#[local] Ltac entry :=
  intros h W Sh; cbn [fst snd a_src a_word] in W, Sh |- *; find_body; unfold_body;
  run_macros; unfold alu_run, alu_legal;
  cbn [alu_operands alu_width a_src a_word a_mul a_op negb orb andb];
  rewrite ?andb_true_r, ?andb_true_l;
  try (specialize (Sh eq_refl eq_refl); rewrite (proj2 (Z.ltb_lt _ _) Sh), andb_true_r);
  repeat match goal with
         | |- (if ?c then _ else _) = _ => destruct c eqn:?; cbn [andb]; [|reflexivity]
         end;
  apply f_equal, write_x_eq; unfold sext32, zext32;
  rewrite ?(sext_sw xl Hx), ?(zext_xlen_uw xl) by apply (xlen_range xl Hx).

#[local] Ltac width := first [apply (xlen_range xl Hx) | lia].
#[local] Ltac amount :=
  first [ try change 31 with (32 - 1); apply shamt_land; first [exact Hx | left; reflexivity | right; reflexivity]
        | apply shamt_imm; [first [exact Hx | left; reflexivity] | first [apply Z.ltb_lt; assumption | assumption]] ].
#[local] Ltac operand := match goal with H : forall r, wf _ (READ_REG _ r) |- _ => apply H end.
#[local] Ltac value :=
  first
  [ apply f_equal; first [apply val_add | apply val_add_r | apply val_sub | apply val_mul]; width
  | apply f_equal; first [apply val_sll | apply f_equal, val_srl | apply val_sra]; first [width | amount]
  | first [apply reg_slt | apply reg_sltu | apply reg_xor | apply reg_or | apply reg_and
          | apply reg_slti | apply reg_sltiu | apply reg_xori | apply reg_ori | apply reg_andi]; operand
  | apply reg_lui | apply reg_mulh
  | first [apply reg_mulhsu | apply reg_mulhu]; apply (wf_fits xl); operand
  | rewrite ?sw_uw; first [apply reg_div | apply reg_divu | apply reg_rem | apply reg_remu | apply reg_div_w | apply reg_rem_w]; width ].
#[local] Ltac entries :=
  list_all; entry; try solve [value].

Lemma alu_base_ok : Forall alu_entry (firstn 30 alu_ops).
Proof. cbn [firstn alu_ops]. entries. Qed.
Lemma alu_mul_ok : Forall alu_entry (skipn 30 alu_ops).
Proof. cbn [skipn alu_ops]. entries. Qed.

Lemma alu_ops_ok : Forall alu_entry alu_ops.
Proof. rewrite <- (firstn_skipn 30 alu_ops). apply List.Forall_app. split; [exact alu_base_ok|exact alu_mul_ok]. Qed.
End Equivalence.

(** ** Property *)

(** C3.  Equivalence with the instruction-set manual: every computational
    instruction of I and M - 43 names, among them the W forms -, run on a hart
    whose registers hold sign-extended XLEN-bit values, is illegal exactly
    when its extension is off, a W form meets RV32 or a shift amount is too
    large, and then changes nothing; otherwise it changes only [rd], which
    receives the sign extension of the reference operation [Ref.*] applied to
    the XLEN-bit (or 32-bit) operands, and goes on to the next instruction. *)
Theorem alu_refines_manual {S : Type} `{!SimIf S} (other : string -> body S) (xl : Z) (name : string) (a : alu)
    (insn : insn_t) (pc npc : Z) (h : State.hart S) :
  xlen_ok xl -> In (name, a) alu_ops -> insn_ok insn -> regs_ok xl (XPR (st h)) ->
  (a_src a = RegShamt -> a_word a = true -> SHAMT insn < 32) ->
  insn_body other name xl insn pc npc h = alu_run xl a insn pc npc h.
Proof.
  intros Hx Hin Hi Hr Hs. pose proof (alu_ops_ok other xl insn pc npc Hx Hi) as K.
  rewrite List.Forall_forall in K. apply (K (name, a) Hin h); [|exact Hs].
  intros r. apply regs_read; assumption.
Qed.
