(* ===== verification/Control.v ===== *)
(** * Control: branches and jumps against the ISA manual

    The conditional branches compare 64-bit host registers and [set_pc] checks
    the target before anything is written; here both are related to the
    manual: conditions on XLEN-bit values, one target, one link register. *)
From Stdlib Require Import ZArith Lia Bool List String.
From stdpp Require Import base list gmap strings.
From S2P Require Import Prelude Arith Encoding Decode Decoder State Processor Pmp Mmu Csr TrapEntry Macros Base Compressed System Fetch Execute Fields CsrFacts MmuFacts Registers Hoare InsnFacts InsnProps InsnRuns Alu.
#[local] Open Scope Z_scope.
#[local] Open Scope word_scope.
#[local] Open Scope record_scope.

Inductive transfer :=
| Branch (taken : Z -> Z -> Z -> bool)  (* width and the two operands *)
| Jal
| Jalr.

Definition transfer_ops : list (string * transfer) :=
  [("beq"%string, Branch (fun _ a b => a =? b)); ("bne"%string, Branch (fun _ a b => negb (a =? b)));
   ("blt"%string, Branch (fun w a b => sw w a <? sw w b)); ("bge"%string, Branch (fun w a b => sw w b <=? sw w a));
   ("bltu"%string, Branch (fun _ a b => a <? b)); ("bgeu"%string, Branch (fun _ a b => b <=? a));
   ("jal"%string, Jal); ("jalr"%string, Jalr)].

Section Reference.
Context {S : Type} `{!SimIf S}.
#[local] Notation hart := (State.hart S).

(** Instructions are aligned to four bytes, with C to two. *)
Definition misaligned (h : hart) (target : Z) : bool :=
  negb (supports_extension (st h) (proc h) chr_C) && Z.testbit target 1.

(** A jump whose other effect is [link]; none of it happens if the target is
    misaligned. *)
Definition jump (xl target : Z) (link : hart -> hart) (h : hart) : (exn + Z) * hart :=
  if misaligned h target then (inl (E_trap (trap_instruction_address_misaligned target 0 0)), h)
  else (inr (u64 (sw xl target)), link h).

Definition transfer_run (xl : Z) (t : transfer) (insn : insn_t) (pc npc : Z) (h : hart) : (exn + Z) * hart :=
  let x := RS1 (st h) insn in
  match t with
  | Branch taken =>
    if taken xl (uw xl x) (uw xl (RS2 (st h) insn))
    then jump xl (u64 (pc + Insn.sb_imm insn)) (fun h => h) h else (inr npc, h)
  | Jal => jump xl (u64 (pc + Insn.uj_imm insn)) (write_x (Insn.rd insn) npc) h
  | Jalr => jump xl (2 * (u64 (x + Insn.i_imm insn) / 2)) (write_x (Insn.rd insn) npc) h
  end.

End Reference.

Section Equivalence.
Context {S : Type} `{!SimIf S}.
#[local] Notation hart := (State.hart S).
Variables (other : string -> body S) (xl : Z) (insn : insn_t) (pc npc : Z).
Hypothesis Hx : xlen_ok xl.

(** Without C, the bit that must be clear is bit 1. *)
Lemma check_misaligned (h : hart) t :
  check_pc_alignment (st h) (proc h) t =
  if misaligned h t then Some (trap_instruction_address_misaligned t 0 0) else None.
Proof.
  unfold check_pc_alignment, misaligned, pc_alignment_mask.
  destruct (supports_extension (st h) (proc h) chr_C); cbn [negb andb].
  - change (not64 (not64 0)) with 0. now rewrite Z.land_0_r.
  - change (not64 (not64 2)) with (2 ^ 1). now rewrite z2b_land_pow2 by lia.
Qed.

Lemma jump_run t link (h : hart) :
  match check_pc_alignment (st h) (proc h) t with
  | Some e => (inl (E_trap e), h)
  | None => (inr (u64 (sext_xlen xl t)), link h)
  end = jump xl t link h.
Proof. rewrite check_misaligned, (sext_sw xl Hx). unfold jump. now destruct (misaligned h t). Qed.

Lemma clear_bit0 x : fits 64 x -> x &w not64 1 = 2 * (x / 2).
Proof.
  intros F. replace (2 * (x / 2)) with (Z.shiftl (Z.shiftr x 1) 1)
    by (rewrite Z.shiftl_mul_pow2, Z.shiftr_div_pow2 by lia; change (2 ^ 1) with 2; lia).
  bits i. rewrite Z.land_spec. unfold not64. rewrite uw_testbit, Z.lnot_spec by lia.
  destruct (Z.eq_dec i 0) as [->|N].
  - rewrite Z.shiftl_spec_low by lia. apply andb_false_r.
  - rewrite Z.shiftl_spec, Z.shiftr_spec by lia. replace (i - 1 + 1) with i by lia.
    replace (Z.testbit 1 i) with false by (symmetry; change 1 with (2 ^ 0); apply Z.pow2_bits_false; lia).
    destruct (Z.ltb_spec i 64); cbn [negb andb]; [apply andb_true_r|].
    rewrite (fits_testbit 64 x) by (auto; lia). reflexivity.
Qed.

Definition transfer_entry (e : string * transfer) : Prop := forall h : hart,
  (forall r, wf xl (READ_REG (st h) r)) ->
  insn_body other (fst e) xl insn pc npc h = transfer_run xl (snd e) insn pc npc h.

Lemma branch_run c taken (h : hart) :
  c (st h) = taken xl (uw xl (RS1 (st h) insn)) (uw xl (RS2 (st h) insn)) ->
  RVI.branch c xl insn pc npc h = transfer_run xl (Branch taken) insn pc npc h.
Proof.
  intros E. unfold RVI.branch, transfer_run. rewrite run_gets, E.
  destruct (taken _ _ _); [|reflexivity]. rewrite set_pc_run. apply (jump_run _ (fun h => h)).
Qed.

(** The conditions agree because sign extension is monotone, for both orders. *)
Lemma transfer_ops_ok : Forall transfer_entry transfer_ops.
Proof.
  unfold transfer_ops; list_all; intros h W; cbn [fst snd]; find_body; unfold_body.
  - apply branch_run. apply (wf_eqb xl); apply W.
  - apply branch_run. f_equal. apply (wf_eqb xl); apply W.
  - apply branch_run. apply (val_slt xl Hx); apply W.
  - apply branch_run. rewrite !Z.leb_antisym. f_equal. apply (val_slt xl Hx); apply W.
  - apply branch_run. apply (wf_ltb xl Hx); apply W.
  - apply branch_run. rewrite !Z.leb_antisym. f_equal. apply (wf_ltb xl Hx); apply W.
  - rewrite run_set_pc. apply jump_run.
  - rewrite run_gets, run_set_pc, clear_bit0 by (apply uw_fits; lia). apply jump_run.
Qed.
End Equivalence.

(** ** Property *)

(** C9.  Branches and jumps: a branch is taken exactly when the manual's
    condition holds of the XLEN-bit operands; a taken transfer goes to
    [pc + imm] ([(rs1 + imm)] with bit 0 cleared for [jalr]), wrapped to XLEN
    bits, and links the address of the next instruction; a target that is not
    aligned - without C, to four bytes - throws
    instruction-address-misaligned with the target, before the link register
    or anything else is written. *)
Theorem transfers_refine_manual {S : Type} `{!SimIf S} (other : string -> body S) (xl : Z) (name : string)
    (t : transfer) (insn : insn_t) (pc npc : Z) (h : State.hart S) :
  xlen_ok xl -> In (name, t) transfer_ops -> regs_ok xl (XPR (st h)) ->
  insn_body other name xl insn pc npc h = transfer_run xl t insn pc npc h.
Proof.
  intros Hx Hin Hr. pose proof (transfer_ops_ok other xl insn pc npc Hx) as K.
  rewrite List.Forall_forall in K. apply (K (name, t) Hin h).
  intros r. apply regs_read; assumption.
Qed.
