(* ===== verification/Expand.v ===== *)
(** * Expand: compressed instructions as their 32-bit expansions

    The manual defines each instruction of extension C by the base instruction
    it expands to.  The files [c_*.h] do not expand: they repeat the base
    instruction with its own operand fields.  Here the expansion is written
    down, shown to be an encoding of the base instruction, and shown to behave
    as the compressed body. *)
From Stdlib Require Import ZArith Lia Bool List String.
From stdpp Require Import base list gmap strings.
From S2P Require Import Prelude Arith Encoding Decode Decoder State Processor Pmp Mmu Csr TrapEntry Macros Base Compressed System Fetch Execute Fields CsrFacts MmuFacts Registers Hoare InsnFacts InsnProps InsnRuns Alu Control.
#[local] Open Scope Z_scope.
#[local] Open Scope word_scope.
#[local] Open Scope record_scope.

(** ** Formats *)

Definition enc_R (op f3 f7 rd rs1 rs2 : Z) : Z :=
  op + rd * 2 ^ 7 + f3 * 2 ^ 12 + rs1 * 2 ^ 15 + rs2 * 2 ^ 20 + f7 * 2 ^ 25.

Lemma R_format op f3 f7 rd' rs1' rs2' :
  fits 7 op -> fits 3 f3 -> fits 7 f7 -> fits 5 rd' -> fits 5 rs1' -> fits 5 rs2' ->
  let i := fetched32 (enc_R op f3 f7 rd' rs1' rs2') in
  Insn.rd i = rd' /\ Insn.rs1 i = rs1' /\ Insn.rs2 i = rs2'.
Proof.
  intros Ho Hf Hg Hd H1 H2 i. subst i. unfold fits, enc_R, Insn.rd, Insn.rs1, Insn.rs2 in *.
  rewrite !x_fetched32 by lia. split_and!; Z.div_mod_to_equations; lia.
Qed.

(** The word of a 32-bit instruction. *)
Lemma bits_fetched32 w : fits 32 w -> w mod 2 ^ 2 = 3 -> w mod 2 ^ 5 <> 31 -> Insn.bits (fetched32 w) = w.
Proof.
  intros F H2 H5. assert (E : forall n, 0 < n <= 32 -> u64 (s32 w) &w Z.ones n = w mod 2 ^ n).
  { intros n Hn. rewrite Z.land_ones by lia. change (uw n (u64 (s32 w)) = uw n w).
    rewrite uw_uw by lia. apply uw_of_sw. lia. }
  unfold Insn.bits, Insn.length, insn_length. cbn [b fetched32].
  change 0x03 with (Z.ones 2) at 1. change 0x1f with (Z.ones 5) at 1.
  rewrite !E, H2 by lia. change (3 <? 3) with false. cbv iota.
  pose proof (Z.mod_pos_bound w (2 ^ 5) ltac:(lia)).
  replace (w mod 2 ^ 5 <? 31) with true by lia. cbv iota.
  change (not64 ((2 ^ 64 - 1) <<w (4 * 8))) with (Z.ones 32).
  rewrite E by lia. now apply Z.mod_small.
Qed.

(** Masks cover opcode, [funct3] and [funct7]. *)
Lemma land_field w lo len : 0 <= lo -> 0 <= len ->
  w &w Z.shiftl (Z.ones len) lo = (w / 2 ^ lo) mod 2 ^ len * 2 ^ lo.
Proof.
  intros. rewrite <- Z.shiftl_mul_pow2, <- Z.land_ones, <- Z.shiftr_div_pow2 by lia.
  bits i. rewrite Z.land_spec. destruct (Z_lt_le_dec i lo).
  - rewrite !Z.shiftl_spec_low by lia. apply andb_false_r.
  - rewrite !Z.shiftl_spec, Z.land_spec, Z.shiftr_spec by lia. do 2 f_equal. lia.
Qed.

Lemma land_split w m1 m2 : Z.land m1 m2 = 0 -> w &w (m1 + m2) = (w &w m1) + (w &w m2).
Proof.
  intros D. rewrite (Z.add_nocarry_lxor m1 m2 D), Z.lxor_lor, Z.land_lor_distr_r by assumption.
  symmetry. rewrite <- Z.lxor_lor; [apply Z.add_nocarry_lxor|];
    bits i; rewrite !Z.land_spec, Z.bits_0;
    assert (T : Z.testbit (Z.land m1 m2) i = false) by (now rewrite D, Z.bits_0);
    rewrite Z.land_spec in T; destruct (Z.testbit w i), (Z.testbit m1 i); cbn in *; auto.
Qed.

Section Masks.
Variable w : Z.
Lemma land_op : w &w 0x7f = w mod 2 ^ 7.
Proof. exact (Z.land_ones w 7 ltac:(lia)). Qed.
Lemma land_op_f3 : w &w 0x707f = w mod 2 ^ 7 + (w / 2 ^ 12) mod 2 ^ 3 * 2 ^ 12.
Proof.
  change 0x707f with (0x7f + Z.shiftl (Z.ones 3) 12). rewrite land_split by reflexivity.
  now rewrite land_op, land_field by lia.
Qed.
Lemma land_op_f3_f7 : w &w 0xfe00707f =
  w mod 2 ^ 7 + (w / 2 ^ 12) mod 2 ^ 3 * 2 ^ 12 + (w / 2 ^ 25) mod 2 ^ 7 * 2 ^ 25.
Proof.
  change 0xfe00707f with (0x707f + Z.shiftl (Z.ones 7) 25). rewrite land_split by reflexivity.
  now rewrite land_op_f3, land_field by lia.
Qed.
Lemma land_op_f3_f6 : w &w 0xfc00707f =
  w mod 2 ^ 7 + (w / 2 ^ 12) mod 2 ^ 3 * 2 ^ 12 + (w / 2 ^ 26) mod 2 ^ 6 * 2 ^ 26.
Proof.
  change 0xfc00707f with (0x707f + Z.shiftl (Z.ones 6) 26). rewrite land_split by reflexivity.
  now rewrite land_op_f3, land_field by lia.
Qed.
End Masks.

(** [insn] is an encoding of the instruction [name], by the opcode table. *)
Definition encodes (name : string) (insn : insn_t) : Prop :=
  match match_mask name with
  | Some (mt, mk) => matches (Insn.bits insn) (mk_insn_desc mt mk (rv32 name) (rv64 name)) = true
  | None => False
  end.

(** ** Operand fields of compressed instructions *)
Section Fields.
Variable i : insn_t.
Import Insn.

Lemma rd_fits : fits 5 (rd i).
Proof. apply x_range; lia. Qed.
Lemma rvc_rs2_fits : fits 5 (rvc_rs2 i).
Proof. apply x_range; lia. Qed.
Lemma rs1s_value : rvc_rs1s i = 8 + x i 7 3.
Proof. pose proof (x_range i 7 3 ltac:(lia) ltac:(lia)). apply uw_small. unfold fits. lia. Qed.
Lemma rs2s_value : rvc_rs2s i = 8 + x i 2 3.
Proof. pose proof (x_range i 2 3 ltac:(lia) ltac:(lia)). apply uw_small. unfold fits. lia. Qed.
Lemma rvc_rs1s_fits : fits 5 (rvc_rs1s i).
Proof. rewrite rs1s_value. pose proof (x_range i 7 3 ltac:(lia) ltac:(lia)). unfold fits. lia. Qed.
Lemma rvc_rs2s_fits : fits 5 (rvc_rs2s i).
Proof. rewrite rs2s_value. pose proof (x_range i 2 3 ltac:(lia) ltac:(lia)). unfold fits. lia. Qed.

(** Unsigned immediates: sums of disjoint fields, far below 64 bits. *)
#[local] Ltac field_bounds :=
  repeat match goal with
  | |- context [x i ?lo ?len] =>
    lazymatch goal with
    | H : 0 <= x i lo len < _ |- _ => fail
    | _ => pose proof (x_range i lo len ltac:(lia) ltac:(lia))
    end
  end.
#[local] Ltac unsigned_imm :=
  field_bounds; unfold add64, shl64; rewrite ?Z.shiftl_mul_pow2 by lia;
  repeat (progress (autorewrite with word_rw; rewrite <- ?Z.add_assoc));
  rewrite sw_nonneg by lia; unfold sfits, fits; lia.

Lemma rvc_zimm_fits : fits 6 (rvc_zimm i).
Proof. unfold rvc_zimm. unsigned_imm. Qed.
Lemma addi4spn_sfits : sfits 12 (rvc_addi4spn_imm i).
Proof. unfold rvc_addi4spn_imm. unsigned_imm. Qed.
Lemma lwsp_sfits : sfits 12 (rvc_lwsp_imm i).
Proof. unfold rvc_lwsp_imm. unsigned_imm. Qed.
Lemma ldsp_sfits : sfits 12 (rvc_ldsp_imm i).
Proof. unfold rvc_ldsp_imm. unsigned_imm. Qed.
Lemma swsp_sfits : sfits 12 (rvc_swsp_imm i).
Proof. unfold rvc_swsp_imm. unsigned_imm. Qed.
Lemma sdsp_sfits : sfits 12 (rvc_sdsp_imm i).
Proof. unfold rvc_sdsp_imm. unsigned_imm. Qed.
Lemma lw_sfits : sfits 12 (rvc_lw_imm i).
Proof. unfold rvc_lw_imm. unsigned_imm. Qed.
Lemma ld_sfits : sfits 12 (rvc_ld_imm i).
Proof. unfold rvc_ld_imm. unsigned_imm. Qed.

(** Signed immediates: the top field is the sign. *)
#[local] Ltac signed_imm :=
  field_bounds; rewrite xs_signed by lia; unfold add64, shl64; rewrite ?Z.shiftl_mul_pow2 by lia;
  repeat (progress (autorewrite with word_rw; rewrite <- ?Z.add_assoc));
  match goal with |- context [sw 1 ?z] => pose proof (sw_fits 1 z ltac:(lia)) as [? ?] end;
  change (1 - 1) with 0 in *; rewrite sw_small; [|lia|]; unfold sfits; lia.

Lemma addi16sp_sfits : sfits 12 (rvc_addi16sp_imm i).
Proof. unfold rvc_addi16sp_imm. signed_imm. Qed.
Lemma rvc_j_sfits : sfits 21 (rvc_j_imm i).
Proof. unfold rvc_j_imm. signed_imm. Qed.
Lemma rvc_b_sfits : sfits 13 (rvc_b_imm i).
Proof. unfold rvc_b_imm. signed_imm. Qed.
Lemma rvc_imm_sfits12 : sfits 12 (rvc_imm i).
Proof. apply (sfits_mono 6); [lia|apply rvc_imm_sfits]. Qed.

Lemma zimm_sfits k : 0 <= k < 2 ^ 5 -> sfits 12 (rvc_zimm i + k * 2 ^ 6).
Proof. intros. pose proof rvc_zimm_fits. unfold sfits, fits in *. lia. Qed.
Lemma zimm_sfits_0 : sfits 12 (rvc_zimm i).
Proof. rewrite <- (Z.add_0_r (rvc_zimm i)). exact (zimm_sfits 0 ltac:(lia)). Qed.
Lemma zimm_sfits_16 : sfits 12 (rvc_zimm i + 2 ^ 10).
Proof. exact (zimm_sfits 16 ltac:(lia)). Qed.
Lemma shamt_zimm k : (rvc_zimm i + k * 2 ^ 6) &w 0x3f = rvc_zimm i.
Proof.
  pose proof rvc_zimm_fits as F. change 0x3f with (Z.ones 6). rewrite Z.land_ones by lia.
  rewrite Z.mod_add by lia. now apply Z.mod_small.
Qed.
Lemma shamt_zimm_0 : rvc_zimm i &w 0x3f = rvc_zimm i.
Proof. rewrite <- (Z.add_0_r (rvc_zimm i)) at 1. exact (shamt_zimm 0). Qed.
Lemma shamt_zimm_16 : (rvc_zimm i + 2 ^ 10) &w 0x3f = rvc_zimm i.
Proof. exact (shamt_zimm 16). Qed.
Lemma lui_sfits : sfits 32 (rvc_imm i * 2 ^ 12).
Proof. pose proof (rvc_imm_sfits i). unfold sfits in *. lia. Qed.
Lemma lui_aligned : (rvc_imm i * 2 ^ 12) mod 2 ^ 12 = 0.
Proof. apply Z.mod_mul. lia. Qed.

Lemma even_mod z : Z.odd z = false -> z mod 2 = 0.
Proof. intros E. now rewrite Zmod_odd, E. Qed.
Lemma rvc_j_even : rvc_j_imm i mod 2 = 0.
Proof. apply even_mod. apply (odd_imm i). Qed.
Lemma rvc_b_even : rvc_b_imm i mod 2 = 0.
Proof. apply even_mod. apply (odd_imm i). Qed.
End Fields.

Create HintDb rvc.
#[local] Hint Resolve rd_fits rvc_rs2_fits rvc_rs1s_fits rvc_rs2s_fits addi4spn_sfits lwsp_sfits ldsp_sfits
  swsp_sfits sdsp_sfits lw_sfits ld_sfits addi16sp_sfits rvc_j_sfits rvc_b_sfits rvc_imm_sfits12
  rvc_j_even rvc_b_even zimm_sfits_0 zimm_sfits_16 lui_sfits lui_aligned : rvc.

(** ** Expansions *)

Definition sp : Z := 2.
Definition ra : Z := 1.

Section Expansions.
Import Insn.
Definition OP_IMM (f3 rd rs1 imm : Z) : insn_t := fetched32 (enc_I 0x13 f3 rd rs1 imm).
Definition OP (f3 f7 rd rs1 rs2 : Z) : insn_t := fetched32 (enc_R 0x33 f3 f7 rd rs1 rs2).
Definition OP_32 (f3 f7 rd rs1 rs2 : Z) : insn_t := fetched32 (enc_R 0x3b f3 f7 rd rs1 rs2).
Definition LOAD (f3 rd rs1 imm : Z) : insn_t := fetched32 (enc_I 0x03 f3 rd rs1 imm).
Definition STORE (f3 rs1 rs2 imm : Z) : insn_t := fetched32 (enc_S 0x23 f3 rs1 rs2 imm).
Definition BRANCH (f3 rs1 imm : Z) : insn_t := fetched32 (enc_B 0x63 f3 rs1 0 imm).
Definition JAL (rd imm : Z) : insn_t := fetched32 (enc_J 0x6f rd imm).
Definition JALR (rd rs1 : Z) : insn_t := fetched32 (enc_I 0x67 0 rd rs1 0).

(** The compressed instruction, the base instruction it expands to, its
    expansion, and when the encoding is not reserved (an instruction of one
    register width is reserved for, or another instruction on, the other). *)
Record expansion := mk_expansion {
  e_base : string;
  e_insn : insn_t -> insn_t;
  e_legal : Z -> insn_t -> bool
}.

Definition always (xl : Z) (i : insn_t) : bool := true.
Definition rv64_only (xl : Z) (i : insn_t) : bool := xl =? 64.

Definition expansions : list (string * expansion) :=
  [("c_addi4spn", mk_expansion "addi" (fun i => OP_IMM 0 (rvc_rs2s i) sp (rvc_addi4spn_imm i))
      (fun _ i => negb (rvc_addi4spn_imm i =? 0)%Z));
   ("c_addi", mk_expansion "addi" (fun i => OP_IMM 0 (rd i) (rd i) (rvc_imm i)) always);
   ("c_li", mk_expansion "addi" (fun i => OP_IMM 0 (rd i) 0 (rvc_imm i)) always);
   ("c_lui", mk_expansion "addi" (fun i => OP_IMM 0 sp sp (rvc_addi16sp_imm i))
      (fun _ i => (rd i =? 2)%Z && negb (rvc_addi16sp_imm i =? 0)%Z));
   ("c_lui", mk_expansion "lui" (fun i => fetched32 (enc_U 0x37 (rd i) (rvc_imm i * 2 ^ 12)))
      (fun _ i => negb (rd i =? 2)%Z && negb (rvc_imm i =? 0)%Z));
   ("c_slli", mk_expansion "slli" (fun i => OP_IMM 1 (rd i) (rd i) (rvc_zimm i)) (fun xl i => (rvc_zimm i <? xl)%Z));
   ("c_srli", mk_expansion "srli" (fun i => OP_IMM 5 (rvc_rs1s i) (rvc_rs1s i) (rvc_zimm i))
      (fun xl i => (rvc_zimm i <? xl)%Z));
   ("c_srai", mk_expansion "srai" (fun i => OP_IMM 5 (rvc_rs1s i) (rvc_rs1s i) (rvc_zimm i + 2 ^ 10))
      (fun xl i => (rvc_zimm i <? xl)%Z));
   ("c_andi", mk_expansion "andi" (fun i => OP_IMM 7 (rvc_rs1s i) (rvc_rs1s i) (rvc_imm i)) always);
   ("c_mv", mk_expansion "add" (fun i => OP 0 0 (rd i) 0 (rvc_rs2 i)) (fun _ i => negb (rvc_rs2 i =? 0)%Z));
   ("c_add", mk_expansion "add" (fun i => OP 0 0 (rd i) (rd i) (rvc_rs2 i)) (fun _ i => negb (rvc_rs2 i =? 0)%Z));
   ("c_sub", mk_expansion "sub" (fun i => OP 0 0x20 (rvc_rs1s i) (rvc_rs1s i) (rvc_rs2s i)) always);
   ("c_xor", mk_expansion "xor" (fun i => OP 4 0 (rvc_rs1s i) (rvc_rs1s i) (rvc_rs2s i)) always);
   ("c_or", mk_expansion "or" (fun i => OP 6 0 (rvc_rs1s i) (rvc_rs1s i) (rvc_rs2s i)) always);
   ("c_and", mk_expansion "and" (fun i => OP 7 0 (rvc_rs1s i) (rvc_rs1s i) (rvc_rs2s i)) always);
   ("c_subw", mk_expansion "subw" (fun i => OP_32 0 0x20 (rvc_rs1s i) (rvc_rs1s i) (rvc_rs2s i)) rv64_only);
   ("c_addw", mk_expansion "addw" (fun i => OP_32 0 0 (rvc_rs1s i) (rvc_rs1s i) (rvc_rs2s i)) rv64_only);
   ("c_j", mk_expansion "jal" (fun i => JAL 0 (rvc_j_imm i)) always);
   ("c_jal", mk_expansion "jal" (fun i => JAL ra (rvc_j_imm i)) (fun xl _ => (xl =? 32)%Z));
   ("c_jal", mk_expansion "addiw" (fun i => fetched32 (enc_I 0x1b 0 (rd i) (rd i) (rvc_imm i)))
      (fun xl i => (xl =? 64)%Z && negb (rd i =? 0)%Z));
   ("c_jr", mk_expansion "jalr" (fun i => JALR 0 (rd i)) (fun _ i => negb (rd i =? 0)%Z));
   ("c_jalr", mk_expansion "jalr" (fun i => JALR ra (rd i)) (fun _ i => negb (rd i =? 0)%Z));
   ("c_beqz", mk_expansion "beq" (fun i => BRANCH 0 (rvc_rs1s i) (rvc_b_imm i)) always);
   ("c_bnez", mk_expansion "bne" (fun i => BRANCH 1 (rvc_rs1s i) (rvc_b_imm i)) always);
   ("c_ebreak", mk_expansion "ebreak" (fun _ => fetched32 0x00100073) always);
   ("c_lw", mk_expansion "lw" (fun i => LOAD 2 (rvc_rs2s i) (rvc_rs1s i) (rvc_lw_imm i)) always);
   ("c_lwsp", mk_expansion "lw" (fun i => LOAD 2 (rd i) sp (rvc_lwsp_imm i)) (fun _ i => negb (rd i =? 0)%Z));
   ("c_sw", mk_expansion "sw" (fun i => STORE 2 (rvc_rs1s i) (rvc_rs2s i) (rvc_lw_imm i)) always);
   ("c_swsp", mk_expansion "sw" (fun i => STORE 2 sp (rvc_rs2 i) (rvc_swsp_imm i)) always);
   ("c_flw", mk_expansion "ld" (fun i => LOAD 3 (rvc_rs2s i) (rvc_rs1s i) (rvc_ld_imm i)) rv64_only);
   ("c_flwsp", mk_expansion "ld" (fun i => LOAD 3 (rd i) sp (rvc_ldsp_imm i))
      (fun xl i => (xl =? 64)%Z && negb (rd i =? 0)%Z));
   ("c_fsw", mk_expansion "sd" (fun i => STORE 3 (rvc_rs1s i) (rvc_rs2s i) (rvc_ld_imm i)) rv64_only);
   ("c_fswsp", mk_expansion "sd" (fun i => STORE 3 sp (rvc_rs2 i) (rvc_sdsp_imm i)) rv64_only)]%string.
End Expansions.

(** ** The expansions are encodings *)

Definition base_table : list (string * (Z * Z)) :=
  [("addi", (0x13, 0x707f)); ("slli", (0x1013, 0xfc00707f)); ("srli", (0x5013, 0xfc00707f));
   ("srai", (0x40005013, 0xfc00707f)); ("andi", (0x7013, 0x707f)); ("lui", (0x37, 0x7f));
   ("add", (0x33, 0xfe00707f)); ("sub", (0x40000033, 0xfe00707f)); ("xor", (0x4033, 0xfe00707f));
   ("or", (0x6033, 0xfe00707f)); ("and", (0x7033, 0xfe00707f)); ("subw", (0x4000003b, 0xfe00707f));
   ("addw", (0x3b, 0xfe00707f)); ("jal", (0x6f, 0x7f)); ("addiw", (0x1b, 0x707f)); ("jalr", (0x67, 0x707f));
   ("beq", (0x63, 0x707f)); ("bne", (0x1063, 0x707f)); ("ebreak", (0x100073, 0xffffffff));
   ("lw", (0x2003, 0x707f)); ("sw", (0x2023, 0x707f)); ("ld", (0x3003, 0x707f)); ("sd", (0x3023, 0x707f))]%string.

Lemma base_masks name m : In (name, m) base_table -> match_mask name = Some m.
Proof.
  assert (E : map (fun e => match_mask (fst e)) base_table = map (fun e => Some (snd e)) base_table) by reflexivity.
  rewrite map_ext_in_iff in E. apply E.
Qed.

Lemma encodes_intro name w mt mk : In (name, (mt, mk)) base_table ->
  fits 32 w -> w mod 2 ^ 7 = mt mod 2 ^ 7 -> mt mod 2 ^ 2 = 3 -> mt mod 2 ^ 5 <> 31 -> w &w mk = mt ->
  encodes name (fetched32 w).
Proof.
  intros E F H7 H2 H5 Hm. unfold encodes. rewrite (base_masks _ _ E). unfold matches. cbn [d_match d_mask].
  rewrite bits_fetched32; [now apply Z.eqb_eq|exact F| |]; Z.div_mod_to_equations; lia.
Qed.

(** Opcode and function fields of an encoded word. *)
Section Encoded.
Variables op f3 f7 rd rs1 rs2 imm : Z.
Hypothesis Hop : fits 7 op.
Hypothesis Hf3 : fits 3 f3.
Hypothesis Hf7 : fits 7 f7.
Hypothesis Hrd : fits 5 rd.
Hypothesis Hrs1 : fits 5 rs1.
Hypothesis Hrs2 : fits 5 rs2.
#[local] Ltac encoded := unfold fits, enc_I, enc_R, enc_S, enc_B, enc_U, enc_J in *; Z.div_mod_to_equations; lia.

Lemma enc_I_fits : fits 32 (enc_I op f3 rd rs1 imm).
Proof. clear Hf7 Hrs2. encoded. Qed.
Lemma enc_I_op : enc_I op f3 rd rs1 imm mod 2 ^ 7 = op.
Proof. clear Hf7 Hrs2. encoded. Qed.
Lemma enc_I_f3 : (enc_I op f3 rd rs1 imm / 2 ^ 12) mod 2 ^ 3 = f3.
Proof. clear Hf7 Hrs2. encoded. Qed.
Lemma enc_I_f6 : (enc_I op f3 rd rs1 imm / 2 ^ 26) mod 2 ^ 6 = imm mod 2 ^ 12 / 2 ^ 6.
Proof. clear Hf7 Hrs2. encoded. Qed.

Lemma enc_R_fits : fits 32 (enc_R op f3 f7 rd rs1 rs2).
Proof. encoded. Qed.
Lemma enc_R_op : enc_R op f3 f7 rd rs1 rs2 mod 2 ^ 7 = op.
Proof. encoded. Qed.
Lemma enc_R_f3 : (enc_R op f3 f7 rd rs1 rs2 / 2 ^ 12) mod 2 ^ 3 = f3.
Proof. encoded. Qed.
Lemma enc_R_f7 : (enc_R op f3 f7 rd rs1 rs2 / 2 ^ 25) mod 2 ^ 7 = f7.
Proof. encoded. Qed.

Lemma enc_S_fits : fits 32 (enc_S op f3 rs1 rs2 imm).
Proof. clear Hf7 Hrd. encoded. Qed.
Lemma enc_S_op : enc_S op f3 rs1 rs2 imm mod 2 ^ 7 = op.
Proof. clear Hf7 Hrd. encoded. Qed.
Lemma enc_S_f3 : (enc_S op f3 rs1 rs2 imm / 2 ^ 12) mod 2 ^ 3 = f3.
Proof. clear Hf7 Hrd. encoded. Qed.

Lemma enc_B_fits : fits 32 (enc_B op f3 rs1 rs2 imm).
Proof. clear Hf7 Hrd. encoded. Qed.
Lemma enc_B_op : enc_B op f3 rs1 rs2 imm mod 2 ^ 7 = op.
Proof. clear Hf7 Hrd. encoded. Qed.
Lemma enc_B_f3 : (enc_B op f3 rs1 rs2 imm / 2 ^ 12) mod 2 ^ 3 = f3.
Proof. clear Hf7 Hrd. encoded. Qed.

Lemma enc_U_fits : fits 32 (enc_U op rd imm).
Proof. clear Hf3 Hf7 Hrs1 Hrs2. encoded. Qed.
Lemma enc_U_op : enc_U op rd imm mod 2 ^ 7 = op.
Proof. clear Hf3 Hf7 Hrs1 Hrs2. encoded. Qed.
Lemma enc_J_fits : fits 32 (enc_J op rd imm).
Proof. clear Hf3 Hf7 Hrs1 Hrs2. encoded. Qed.
Lemma enc_J_op : enc_J op rd imm mod 2 ^ 7 = op.
Proof. clear Hf3 Hf7 Hrs1 Hrs2. encoded. Qed.
End Encoded.

Section Encodings.
Variable i : insn_t.
Import Insn.

#[local] Ltac field := solve [eauto with rvc | unfold fits; cbn; lia].
#[local] Ltac in_table := cbn [In base_table]; repeat (first [left; reflexivity | right]).
#[local] Ltac by_format F O := eapply encodes_intro;
  [in_table | apply F; field | rewrite O by field; reflexivity | reflexivity | discriminate |].

Lemma zimm_small : 0 <= rvc_zimm i < 2 ^ 6.
Proof. apply rvc_zimm_fits. Qed.

Lemma shift_f6 k : 0 <= k < 2 ^ 6 -> (rvc_zimm i + k * 2 ^ 6) mod 2 ^ 12 / 2 ^ 6 = k.
Proof. intros. pose proof zimm_small. Z.div_mod_to_equations; lia. Qed.

Lemma expansion_encodes : Forall (fun e => encodes (e_base (snd e)) (e_insn (snd e) i)) expansions.
Proof.
  unfold expansions.
  list_all; cbn [fst snd e_base e_insn];
    unfold OP_IMM, OP, OP_32, LOAD, STORE, BRANCH, JAL, JALR, sp, ra.
  all: first
    [ by_format enc_I_fits enc_I_op;
      first [ rewrite land_op_f3, enc_I_op, enc_I_f3 by field; reflexivity
            | rewrite land_op_f3_f6, enc_I_op, enc_I_f3, enc_I_f6 by field ]
    | by_format enc_R_fits enc_R_op; rewrite land_op_f3_f7, enc_R_op, enc_R_f3, enc_R_f7 by field; reflexivity
    | by_format enc_S_fits enc_S_op; rewrite land_op_f3, enc_S_op, enc_S_f3 by field; reflexivity
    | by_format enc_B_fits enc_B_op; rewrite land_op_f3, enc_B_op, enc_B_f3 by field; reflexivity
    | by_format enc_U_fits enc_U_op; rewrite land_op, enc_U_op by field; reflexivity
    | by_format enc_J_fits enc_J_op; rewrite land_op, enc_J_op by field; reflexivity
    | apply (encodes_intro _ _ 0x100073 0xffffffff); [in_table | unfold fits; lia | reflexivity | reflexivity | discriminate | reflexivity] ].
  - rewrite <- (Z.add_0_r (rvc_zimm i)). exact (f_equal (fun k => 0x1013 + k * 2 ^ 26) (shift_f6 0 ltac:(lia))).
  - rewrite <- (Z.add_0_r (rvc_zimm i)). exact (f_equal (fun k => 0x5013 + k * 2 ^ 26) (shift_f6 0 ltac:(lia))).
  - exact (f_equal (fun k => 0x5013 + k * 2 ^ 26) (shift_f6 16 ltac:(lia))).
Qed.
End Encodings.

(** ** The expansions behave alike *)
Section Behaviour.
Context {S : Type} `{!SimIf S}.
#[local] Notation hart := (State.hart S).
Variables (other : string -> body S) (xl : Z) (i : insn_t) (pc npc : Z).
Hypothesis Hx : xlen_ok xl.
Import Insn.

Definition entry_runs (e : string * expansion) : Prop := forall h : hart,
  regs_ok xl (XPR (st h)) -> supports_extension (st h) (proc h) chr_C = true ->
  e_legal (snd e) xl i = true ->
  insn_body other (fst e) xl i pc npc h = insn_body other (e_base (snd e)) xl (e_insn (snd e) i) pc npc h.

#[local] Ltac field := solve [eauto with rvc | unfold fits, sfits; cbn; lia].
#[local] Ltac fields_of F := let H := fresh in pose proof F as H; cbv zeta in H; decompose [and] H; clear H;
  repeat match goal with E : _ (fetched32 _) = _ |- _ => rewrite ?E; clear E end.
#[local] Ltac format :=
  match goal with
  | |- context [fetched32 (enc_I ?op ?f3 ?rd ?rs1 ?imm)] =>
    fields_of (I_format op f3 rd rs1 imm ltac:(field) ltac:(field) ltac:(field) ltac:(field) ltac:(field))
  | |- context [fetched32 (enc_R ?op ?f3 ?f7 ?rd ?rs1 ?rs2)] =>
    fields_of (R_format op f3 f7 rd rs1 rs2 ltac:(field) ltac:(field) ltac:(field) ltac:(field) ltac:(field) ltac:(field))
  | |- context [fetched32 (enc_S ?op ?f3 ?rs1 ?rs2 ?imm)] =>
    fields_of (S_format op f3 rs1 rs2 imm ltac:(field) ltac:(field) ltac:(field) ltac:(field) ltac:(field))
  | |- context [fetched32 (enc_B ?op ?f3 ?rs1 ?rs2 ?imm)] =>
    fields_of (B_format op f3 rs1 rs2 imm ltac:(field) ltac:(field) ltac:(field) ltac:(field) ltac:(field) ltac:(field))
  | |- context [fetched32 (enc_U ?op ?rd ?imm)] =>
    fields_of (U_format op rd imm ltac:(field) ltac:(field) ltac:(field) ltac:(field))
  | |- context [fetched32 (enc_J ?op ?rd ?imm)] =>
    fields_of (J_format op rd imm ltac:(field) ltac:(field) ltac:(field) ltac:(field))
  end.
#[local] Ltac unfold_head t := let rec hd t := lazymatch t with ?f _ => hd f | _ => t end in
  let c := hd t in unfold c; cbv beta zeta.
(** The guards that the legality of the encoding decides. *)
#[local] Ltac decide_guards :=
  repeat match goal with
  | H : (_ && _)%bool = true |- _ => apply andb_true_iff in H; destruct H
  | H : negb _ = true |- _ => apply negb_true_iff in H
  | H : (xl =? 64) = true |- _ =>
    rewrite ?H; replace (xl =? 32) with false by (apply Z.eqb_eq in H; lia); clear H
  | H : ?c = true |- _ => rewrite ?H; clear H
  | H : ?c = false |- _ => rewrite ?H; clear H
  end; cbn [negb andb]; cbv iota.

Lemma read_x0 (h : hart) : regs_ok xl (XPR (st h)) -> READ_REG (st h) 0 = 0.
Proof. intros (_ & Z0 & _). exact Z0. Qed.
Lemma read_wf (h : hart) r : regs_ok xl (XPR (st h)) -> wf xl (READ_REG (st h) r).
Proof. intros R. now apply regs_read. Qed.

Lemma sext_0_imm v : sfits 12 v -> sext_xlen xl (0 +w v) = v.
Proof.
  intros F. pose proof (xlen_range xl Hx). unfold add64. rewrite (sext_sw xl Hx), sw_of_uw by lia.
  apply sw_small; [lia|]. apply (sfits_mono 12); [destruct Hx; lia|exact F].
Qed.
Lemma sext_0_reg v : wf xl v -> u64 (sext_xlen xl (0 +w v)) = u64 v.
Proof.
  intros W. rewrite (sext_sw xl Hx). unfold add64. rewrite sw_of_uw by (pose proof (xlen_range xl Hx); lia).
  change (u64 (sw xl v) = u64 v). rewrite W. symmetry. now apply (wf_u64 xl).
Qed.
Lemma add_0_reg v : wf xl v -> v +w 0 = v.
Proof. intros W. unfold add64. rewrite Z.add_0_r. now apply (wf_u64 xl). Qed.

Lemma set_pc_x0 x (h : hart) : set_pc xl x h = (p <- set_pc xl x ;; WRITE_REG 0 npc ;; ret p)%monad h.
Proof.
  rewrite run_set_pc, set_pc_run. destruct (check_pc_alignment _ _ x); [reflexivity|].
  now rewrite run_write_reg, write_x0.
Qed.

Lemma expansion_runs : Forall entry_runs expansions.
Proof.
  unfold expansions, entry_runs; list_all; intros h R C L; cbn [fst snd e_base e_insn e_legal] in L |- *;
  unfold always, rv64_only in L;
  do 2 find_body; match goal with |- ?l = ?r => unfold_head l; unfold_head r end;
  unfold RVI.load, RVI.store, RVI.branch, WRITE_RVC_RS1S, WRITE_RVC_RS2S, WRITE_RD, rvc_rd, rvc_rs1;
  run_macros; rewrite ?C;
  unfold OP_IMM, OP, OP_32, LOAD, STORE, BRANCH, JAL, JALR, sp, ra, RS1, RS2, SHAMT, BRANCH_TARGET, JUMP_TARGET,
    RVC_RS1, RVC_RS2, RVC_RS1S, RVC_RS2S, RVC_SP, rvc_rs1;
  try format; rewrite ?(shamt_zimm_0 i), ?(shamt_zimm_16 i);
  decide_guards; run_macros; rewrite ?(read_x0 h R), ?(add_0_reg _ (read_wf h _ R)); try reflexivity.
  - now rewrite sext_0_imm by apply rvc_imm_sfits12.
  - now rewrite Z.shiftl_mul_pow2 by lia.
  - now rewrite Z.land_comm.
  - apply f_equal, write_x_eq. symmetry. apply sext_0_reg, read_wf, R.
  - apply set_pc_x0.
  - unfold add64. now rewrite Z.add_comm.
  - apply set_pc_x0.
Qed.
End Behaviour.

(** ** Property *)

(** C4.  Compressed instructions are their expansions: for each instruction of
    C over the integer registers, on the register width it belongs to, unless
    its encoding is reserved, the expansion given by the manual is an encoding
    of the base instruction by the opcode table, and running the compressed
    body gives exactly the result - returned address, exception, registers,
    memory and all other state - of running the base instruction on its
    expansion, with the same next address. *)
Theorem compressed_is_expansion {S : Type} `{!SimIf S} (other : string -> body S) (xl : Z) (name : string)
    (e : expansion) (insn : insn_t) (pc npc : Z) (h : State.hart S) :
  xlen_ok xl -> In (name, e) expansions -> regs_ok xl (XPR (st h)) ->
  supports_extension (st h) (proc h) chr_C = true -> e_legal e xl insn = true ->
  encodes (e_base e) (e_insn e insn) /\
  insn_body other name xl insn pc npc h = insn_body other (e_base e) xl (e_insn e insn) pc npc h.
Proof.
  intros Hx Hin R C L. pose proof (expansion_encodes insn) as K. pose proof (expansion_runs other xl insn pc npc Hx) as K'.
  rewrite List.Forall_forall in K, K'. split; [exact (K (name, e) Hin)|exact (K' (name, e) Hin h R C L)].
Qed.
