(* ===== verification/Precise.v ===== *)
(** * Precise: exceptions are precise

    An instruction that throws a trap or matches a trigger has changed no
    register, no control and status register and nothing of the processor: the
    handler sees the state before it.  Memory and devices are left out on
    purpose: [store_func] stores before it tests the alignment. *)
From Stdlib Require Import ZArith Lia Bool List String.
From stdpp Require Import base list gmap strings.
From S2P Require Import Prelude Arith Encoding Decode Decoder State Processor Pmp Mmu Csr TrapEntry Macros Base Float Compressed System Fetch Execute InsnRuns.
#[local] Open Scope Z_scope.
#[local] Open Scope word_scope.
#[local] Open Scope record_scope.
#[local] Open Scope monad_scope.

(** What the devices may do to the pending interrupts when they are accessed. *)
Class Drives (S : Type) `{!SimIf S} := {
  drives : Z -> Z -> Prop;
  drives_refl : forall v, drives v v;
  drives_trans : forall u v w, drives u v -> drives v w -> drives u w;
  drives_load : forall s m a n, drives m (mmio_load s m a n).2;
  drives_store : forall s m a bs, drives m (mmio_store s m a bs).2
}.

(** Anything, *)
Definition drives_any (S : Type) `{!SimIf S} : Drives S :=
  Build_Drives S _ (fun _ _ => True) (fun _ => I) (fun _ _ _ _ _ => I) (fun _ _ _ _ => I) (fun _ _ _ _ => I).

(** or nothing but the bits of [dev]. *)
Definition within (dev u v : Z) : Prop := forall i, 0 <= i < 64 -> Z.testbit dev i = false -> Z.testbit v i = Z.testbit u i.
Definition driven_bits (S : Type) `{!SimIf S} (dev : Z) : Prop :=
  (forall (s : S) m a n, within dev m (mmio_load s m a n).2) /\
  (forall (s : S) m a bs, within dev m (mmio_store s m a bs).2).
Lemma within_refl dev v : within dev v v.
Proof. intros i _ _. reflexivity. Qed.
Lemma within_trans dev u v w : within dev u v -> within dev v w -> within dev u w.
Proof. intros H K i Hi D. now rewrite K, H. Qed.
Definition drives_bits (S : Type) `{!SimIf S} (dev : Z) (H : driven_bits S dev) : Drives S :=
  Build_Drives S _ (within dev) (within_refl dev) (within_trans dev) (proj1 H) (proj2 H).

Section Precise.
Context {S : Type} `{!SimIf S, !Drives S}.
#[local] Notation M := (State.M S).
#[local] Notation hart := (State.hart S).

(** The pending interrupts belong to the devices, and [serialized] is the
    simulator's own flag. *)
Definition quiet_step (h h' : hart) : Prop :=
  proc h' = proc h /\ exists v z, drives (mip (st h)) v /\ st h' = (st h) <| mip := v |> <| serialized := z |>.

Definition is_fault (e : exn) : Prop := match e with E_trap _ | E_trigger _ => True | E_wfi | E_abort => False end.

(** [quiet]: changes nothing, however it ends.  [precise]: changes nothing if
    it ends in a fault.  [nofault]: does not end in a fault. *)
Definition quiet {A : Type} (m : M A) : Prop := forall h, quiet_step h (m h).2.
Definition precise {A : Type} (m : M A) : Prop := forall h,
  match (m h).1 with inl e => is_fault e -> quiet_step h (m h).2 | inr _ => True end.
Definition nofault {A : Type} (m : M A) : Prop := forall h,
  match (m h).1 with inl e => ~ is_fault e | inr _ => True end.

Lemma quiet_refl h : quiet_step h h.
Proof. split; [reflexivity|]. exists (mip (st h)), (serialized (st h)). split; [apply drives_refl|now destruct (st h)]. Qed.

Lemma quiet_trans h1 h2 h3 : quiet_step h1 h2 -> quiet_step h2 h3 -> quiet_step h1 h3.
Proof.
  intros [P1 (v1 & z1 & D1 & E1)] [P2 (v2 & z2 & D2 & E2)]. split; [congruence|].
  exists v2, z2. rewrite E2, E1 in *. split; [exact (drives_trans _ _ _ D1 D2)|reflexivity].
Qed.

Section Rules.
Context {A B : Type}.

Lemma quiet_bind (m : M A) (k : A -> M B) : quiet m -> (forall a, quiet (k a)) -> quiet (bind m k).
Proof.
  intros Hm Hk h. specialize (Hm h). unfold bind. destruct (m h) as [[e|a] h']; cbn [snd] in *; [exact Hm|].
  exact (quiet_trans _ _ _ Hm (Hk a h')).
Qed.
Lemma quiet_try (m : M A) (k : exn -> M A) : quiet m -> (forall e, quiet (k e)) -> quiet (try_catch m k).
Proof.
  intros Hm Hk h. specialize (Hm h). unfold try_catch. destruct (m h) as [[e|a] h']; cbn [snd] in *; [|exact Hm].
  exact (quiet_trans _ _ _ Hm (Hk e h')).
Qed.
Lemma quiet_ret (a : A) : quiet (ret a).
Proof. intros h. apply quiet_refl. Qed.
Lemma quiet_throw (e : exn) : quiet (throw (A := A) e).
Proof. intros h. apply quiet_refl. Qed.
Lemma quiet_gets (f : hart -> A) : quiet (gets f).
Proof. intros h. apply quiet_refl. Qed.
Lemma quiet_when (c : bool) (m : M unit) : quiet m -> quiet (when c m).
Proof. intros H. destruct c; [exact H|]. intros h. apply quiet_refl. Qed.
Lemma quiet_mmu (f : hart -> mmu_t -> mmu_t) : quiet (modify (fun h => h <| mmu ::= f h |>)).
Proof. intros h. exact (quiet_refl h). Qed.
Lemma quiet_sim (f : hart -> S -> S) : quiet (modify (fun h => h <| sim ::= f h |>)).
Proof. intros h. exact (quiet_refl h). Qed.

Lemma quiet_precise (m : M A) : quiet m -> precise m.
Proof. intros H h. specialize (H h). now destruct (m h) as [[e|a] h']. Qed.
Lemma nofault_precise (m : M A) : nofault m -> precise m.
Proof. intros H h. specialize (H h). destruct (m h) as [[e|a] h']; cbn [fst snd] in *; [contradiction|exact I]. Qed.

Lemma precise_bind_quiet (m : M A) (k : A -> M B) : quiet m -> (forall a, precise (k a)) -> precise (bind m k).
Proof.
  intros Hm Hk h. specialize (Hm h). unfold bind. destruct (m h) as [[e|a] h']; cbn [fst snd] in *; [auto|].
  specialize (Hk a h'). destruct (k a h') as [[e|b] h'']; cbn [fst snd] in *; [|exact I].
  intros F. exact (quiet_trans _ _ _ Hm (Hk F)).
Qed.
Lemma precise_bind_last (m : M A) (k : A -> M B) : precise m -> (forall a, nofault (k a)) -> precise (bind m k).
Proof.
  intros Hm Hk h. specialize (Hm h). unfold bind. destruct (m h) as [[e|a] h']; cbn [fst snd] in *; [exact Hm|].
  specialize (Hk a h'). destruct (k a h') as [[e|b] h'']; cbn [fst snd] in *; [contradiction|exact I].
Qed.

Lemma nofault_bind (m : M A) (k : A -> M B) : nofault m -> (forall a, nofault (k a)) -> nofault (bind m k).
Proof.
  intros Hm Hk h. specialize (Hm h). unfold bind. destruct (m h) as [[e|a] h']; cbn [fst snd] in *; [exact Hm|].
  apply Hk.
Qed.
Lemma nofault_ret (a : A) : nofault (ret a).
Proof. intros h. exact I. Qed.
Lemma nofault_throw (e : exn) : ~ is_fault e -> nofault (throw (A := A) e).
Proof. intros H h. exact H. Qed.
Lemma nofault_gets (f : hart -> A) : nofault (gets f).
Proof. intros h. exact I. Qed.
Lemma nofault_modify f : nofault (modify (S := S) f).
Proof. intros h. exact I. Qed.
Lemma nofault_when (c : bool) (m : M unit) : nofault m -> nofault (when c m).
Proof. intros H. destruct c; [exact H|]. intros h. exact I. Qed.
End Rules.

End Precise.

Create HintDb quiet.
#[export] Hint Resolve quiet_ret quiet_throw quiet_gets quiet_mmu quiet_sim : quiet.

(** Walk through a quiet computation. *)
Ltac quiet_step_tac :=
  lazymatch goal with
  | |- quiet (bind _ _) => apply quiet_bind; [|intros ?]
  | |- quiet (try_catch _ _) => apply quiet_try; [|intros ?]
  | |- quiet (if ?c then _ else _) => destruct c
  | |- quiet (let _ := _ in _) => cbv zeta
  | |- quiet (when _ _) => apply quiet_when
  | |- quiet (throw_trap _) => apply quiet_throw
  | |- quiet (match ?x with _ => _ end) => destruct x
  | |- quiet (modify (fun h => h <| sim ::= _ |>)) => exact (quiet_sim (fun h => _))
  | |- quiet (modify (fun h => h <| mmu ::= _ |>)) => exact (quiet_mmu (fun h => _))
  | |- quiet _ => solve [auto with quiet]
  end.
Ltac quiet_tac := repeat quiet_step_tac.

Section Memory.
Context {S : Type} `{!SimIf S, !Drives S}.
#[local] Notation hart := (State.hart S).

Lemma quiet_lift f : quiet (lift (S := S) f).
Proof. intros h. apply quiet_refl. Qed.
Lemma quiet_flush_icache : quiet (flush_icache (S := S)).
Proof. apply (quiet_mmu (fun _ => _)). Qed.
#[local] Hint Resolve quiet_lift quiet_flush_icache : quiet.
Lemma quiet_flush_tlb : quiet (flush_tlb (S := S)).
Proof. unfold flush_tlb. quiet_tac. Qed.
Lemma quiet_set_mip (h : hart) sm v : drives (mip (st h)) v ->
  quiet_step h (h <| sim := sm |> <| st ::= fun s => s <| mip := v |> |>).
Proof.
  intros D. split; [reflexivity|]. exists v, (serialized (st h)). split; [exact D|].
  destruct h as [s p m sm0 fe]. now destruct s.
Qed.
Lemma quiet_mmio_load addr n : quiet (mmu_mmio_load (S := S) addr n).
Proof.
  intros h. unfold mmu_mmio_load. destruct (negb _); [apply quiet_refl|].
  pose proof (drives_load (sim h) (mip (st h)) addr n) as D.
  destruct (mmio_load _ _ _ _) as [[r sm] v]. now apply quiet_set_mip.
Qed.
Lemma quiet_mmio_store addr bytes : quiet (mmu_mmio_store (S := S) addr bytes).
Proof.
  intros h. unfold mmu_mmio_store. destruct (negb _); [apply quiet_refl|].
  pose proof (drives_store (sim h) (mip (st h)) addr bytes) as D.
  destruct (mmio_store _ _ _ _) as [[r sm] v]. now apply quiet_set_mip.
Qed.
Lemma quiet_refill_tlb vaddr paddr host type : quiet (refill_tlb (S := S) vaddr paddr host type).
Proof.
  intros h. unfold refill_tlb. destruct (pmp_homogeneous _ _ _ _); [|apply quiet_refl].
  destruct (refill_tlb_mmu _ _ _ _ _ _) as [m e]. exact (quiet_refl h).
Qed.
Lemma quiet_trigger_exception op addr data : quiet (trigger_exception (S := S) op addr data).
Proof. intros h. unfold trigger_exception. repeat destruct (_ : bool); apply quiet_refl. Qed.
#[local] Hint Resolve quiet_flush_tlb quiet_mmio_load quiet_mmio_store quiet_refill_tlb quiet_trigger_exception : quiet.
Lemma quiet_check_trigger op addr data : quiet (check_trigger (S := S) op addr data).
Proof. unfold check_trigger. quiet_tac. Qed.
#[local] Hint Resolve quiet_check_trigger : quiet.
Lemma quiet_load_slow_path addr len fl : quiet (load_slow_path (S := S) addr len fl).
Proof. unfold load_slow_path. quiet_tac. Qed.
Lemma quiet_store_slow_path addr bytes fl : quiet (store_slow_path (S := S) addr bytes fl).
Proof. unfold store_slow_path. quiet_tac. Qed.
#[local] Hint Resolve quiet_load_slow_path quiet_store_slow_path : quiet.
Lemma quiet_load_func size cast fl addr : quiet (load_func (S := S) size cast fl addr).
Proof. unfold load_func. quiet_tac. Qed.
Lemma quiet_store_func size fl addr val : quiet (store_func (S := S) size fl addr val).
Proof. unfold store_func. quiet_tac. Qed.
#[local] Hint Resolve quiet_load_func quiet_store_func : quiet.
Lemma quiet_amo_func size addr f : quiet (amo_func (S := S) size addr f).
Proof. unfold amo_func, amo_catch. quiet_tac. Qed.
Lemma quiet_yield : quiet (yield_load_reservation (S := S)).
Proof. unfold yield_load_reservation. quiet_tac. Qed.
Lemma quiet_acquire vaddr : quiet (acquire_load_reservation (S := S) vaddr).
Proof. unfold acquire_load_reservation. quiet_tac. Qed.
Lemma quiet_check vaddr size : quiet (check_load_reservation (S := S) vaddr size).
Proof. unfold check_load_reservation. quiet_tac. Qed.
End Memory.

(** ** CSR writes

    [set_csr] throws, if at all, before it changes anything. *)
#[export] Hint Resolve quiet_lift quiet_flush_icache quiet_flush_tlb quiet_check_trigger quiet_load_func
  quiet_store_func quiet_amo_func quiet_yield quiet_acquire quiet_check : quiet.

Ltac nofault_step :=
  lazymatch goal with
  | |- nofault (bind _ _) => apply nofault_bind; [|intros ?]
  | |- nofault (ret _) => apply nofault_ret
  | |- nofault (throw _) => apply nofault_throw; exact (fun x => x)
  | |- nofault (gets _) => apply nofault_gets
  | |- nofault (modify _) => apply nofault_modify
  | |- nofault (upd _) => apply nofault_modify
  | |- nofault (upd_proc _) => apply nofault_modify
  | |- nofault (when _ _) => apply nofault_when
  | |- nofault (let _ := _ in _) => cbv zeta
  | |- nofault (if ?c then _ else _) => destruct c
  | |- nofault (match ?x with _ => _ end) => destruct x
  | |- nofault (flush_tlb) => unfold flush_tlb
  | |- nofault (flush_icache) => apply nofault_modify
  | |- nofault (trigger_updated) => unfold trigger_updated
  | |- nofault _ => solve [auto with nofault]
  end.
Create HintDb nofault.
Ltac nofault_tac := repeat nofault_step.

(** A prefix that is quiet, one step that may fault but is precise, and a rest
    that does not fault. *)
Create HintDb precise.
Ltac precise_step :=
  lazymatch goal with
  | |- precise (bind _ _) =>
    first [ apply precise_bind_quiet; [solve [quiet_tac]|intros ?]
          | apply precise_bind_last; [solve [auto with precise]|intros ?; nofault_tac]
          | apply nofault_precise; solve [nofault_tac] ]
  | |- precise (if ?c then _ else _) => destruct c
  | |- precise (let _ := _ in _) => cbv zeta
  | |- precise _ => first [ apply quiet_precise; solve [quiet_tac] | apply nofault_precise; solve [nofault_tac] ]
  end.
Ltac precise_tac := repeat precise_step.

Section Csr.
Context {S : Type} `{!SimIf S, !Drives S}.

Lemma nofault_mstatus val : nofault (set_mstatus_csr (S := S) val).
Proof. unfold set_mstatus_csr. nofault_tac. Qed.
#[local] Hint Resolve nofault_mstatus : nofault.

Section Writes.
Variables which val : Z.
Lemma precise_vector : precise (csr_write_vector (S := S) which val).
Proof. unfold csr_write_vector. precise_tac. Qed.
Lemma precise_debug k : precise (S := S) k -> precise (csr_write_debug which val k).
Proof. intros K. unfold csr_write_debug. precise_tac. exact K. Qed.
Lemma precise_hypervisor k : precise (S := S) k -> precise (csr_write_hypervisor which val k).
Proof. intros K. unfold csr_write_hypervisor. precise_tac. exact K. Qed.
Lemma precise_supervisor k : precise (S := S) k -> precise (csr_write_supervisor which val k).
Proof. intros K. unfold csr_write_supervisor. precise_tac. exact K. Qed.
Lemma precise_machine k : precise (S := S) k -> precise (csr_write_machine which val k).
Proof. intros K. unfold csr_write_machine. precise_tac. exact K. Qed.
Lemma precise_float k : precise (S := S) k -> precise (csr_write_float which val k).
Proof. intros K. unfold csr_write_float. precise_tac. exact K. Qed.
End Writes.
#[local] Hint Resolve precise_vector precise_debug precise_hypervisor precise_supervisor precise_machine
  precise_float : precise.

Lemma precise_set_csr which val : precise (set_csr (S := S) which val).
Proof. unfold set_csr, set_pmpaddr, set_pmpcfg. precise_tac. auto 10 with precise. Qed.

Lemma nofault_set_mstatus val : nofault (set_csr (S := S) CSR_MSTATUS val).
Proof. intros h. exact (nofault_mstatus (zext_xlen (xlen (proc h)) val) h). Qed.
End Csr.

(** ** Instructions *)

(** Unfolds the macros over the basic computations. *)
Ltac body_macros :=
  cbv beta delta [WRITE_RD WRITE_RVC_RS1S WRITE_RVC_RS2S WRITE_FRD WRITE_RVC_FRS2S
    RVI.branch RVI.load RVI.store load_int8 load_int16 load_int32 load_int64 load_uint8 load_uint16
    load_uint32 load_uint64 store_uint8 store_uint16 store_uint32 store_uint64 RVA.amo_w RVA.amo_d
    amo_uint32 amo_uint64 Sys.hfence Sys.hlv Sys.hsv guest_load_int8 guest_load_int16 guest_load_int32
    guest_load_int64 guest_load_uint8 guest_load_uint16 guest_load_uint32 guest_load_x_uint16
    guest_load_x_uint32 guest_store_uint8 guest_store_uint16 guest_store_uint32 guest_store_uint64
    round_mode fp_op fp_op64 fp_to_int32 fp_to_int64 fp_compare fp_minmax fp_move].

Section Instructions.
Context {S : Type} `{!SimIf S, !Drives S}.
#[local] Notation hart := (State.hart S).

Lemma quiet_require insn c : quiet (require (S := S) insn c).
Proof. unfold require, throw_illegal. quiet_tac. Qed.
#[local] Hint Resolve quiet_require : quiet.
Lemma quiet_require_privilege insn lo : quiet (require_privilege (S := S) insn lo).
Proof. unfold require_privilege. quiet_tac. Qed.
Lemma quiet_require_novirt insn : quiet (require_novirt (S := S) insn).
Proof. unfold require_novirt. quiet_tac. Qed.
Lemma quiet_require_rv64 xl insn : quiet (require_rv64 (S := S) xl insn).
Proof. apply quiet_require. Qed.
Lemma quiet_require_extension insn ext : quiet (require_extension (S := S) insn ext).
Proof. unfold require_extension. quiet_tac. Qed.
Lemma quiet_require_fp insn : quiet (require_fp (S := S) insn).
Proof. unfold require_fp. quiet_tac. Qed.
Lemma quiet_RM insn : quiet (RM (S := S) insn).
Proof. unfold RM, throw_illegal. quiet_tac. Qed.
Lemma quiet_softfloat {A : Type} (m : SoftFloat.SF A) : quiet (softfloat (S := S) m).
Proof. intros h. unfold softfloat. destruct (m (fenv h)). exact (quiet_refl h). Qed.
Lemma quiet_set_roundingMode rm : quiet (set_roundingMode (S := S) rm).
Proof. intros h. exact (quiet_refl h). Qed.
Lemma quiet_set_pc xl x : quiet (set_pc (S := S) xl x).
Proof. unfold set_pc. quiet_tac. Qed.
Lemma quiet_read_csr insn which : quiet (read_csr (S := S) insn which).
Proof. intros h. unfold read_csr. destruct (get_csr _ _ _ _); apply quiet_refl. Qed.
#[local] Hint Resolve quiet_require_privilege quiet_require_novirt quiet_require_rv64 quiet_require_extension
  quiet_require_fp quiet_set_pc quiet_read_csr quiet_RM quiet_softfloat quiet_set_roundingMode : quiet.
Lemma quiet_require_guest insn : quiet (Sys.require_guest (S := S) insn).
Proof. unfold Sys.require_guest. quiet_tac. Qed.
Lemma quiet_require_guest64 xl insn : quiet (Sys.require_guest64 (S := S) xl insn).
Proof. unfold Sys.require_guest64. quiet_tac. Qed.

Lemma nofault_write_reg r v : nofault (WRITE_REG (S := S) r v).
Proof. apply nofault_modify. Qed.
Lemma nofault_write_freg xl r v : nofault (WRITE_FREG (S := S) xl r v).
Proof. apply nofault_modify. Qed.
Lemma nofault_set_fp_exceptions xl : nofault (set_fp_exceptions (S := S) xl).
Proof. unfold set_fp_exceptions. nofault_tac. Qed.
#[local] Hint Resolve nofault_set_fp_exceptions : nofault.
Lemma nofault_serialize x : nofault (set_pc_and_serialize (S := S) x).
Proof. unfold set_pc_and_serialize. nofault_tac. Qed.
#[local] Hint Resolve nofault_serialize : nofault.
Lemma nofault_serialize' x : nofault (serialize (S := S) x).
Proof. apply nofault_serialize. Qed.
Lemma nofault_wfi x : nofault (wfi_ (S := S) (A := Z) x).
Proof. unfold wfi_. nofault_tac. Qed.
Lemma nofault_set_privilege x : nofault (set_privilege (S := S) x).
Proof. unfold set_privilege. nofault_tac. Qed.
Lemma nofault_set_virt x : nofault (set_virt (S := S) x).
Proof. apply nofault_modify. Qed.
#[local] Hint Resolve quiet_require_guest quiet_require_guest64 : quiet.
#[local] Hint Resolve nofault_write_reg nofault_write_freg nofault_serialize' nofault_wfi nofault_set_privilege
  nofault_set_virt nofault_set_mstatus : nofault.
#[local] Hint Resolve precise_set_csr : precise.

Lemma precise_csr_op write new xl insn pc npc : precise (Sys.csr_op (S := S) write new xl insn pc npc).
Proof.
  unfold Sys.csr_op. set (k := fun csr => _).
  assert (K : forall csr, precise (k csr)).
  { intros csr. unfold k. apply precise_bind_quiet; [apply quiet_read_csr|intros old].
    apply precise_bind_quiet; [apply quiet_gets|intros s].
    apply precise_bind_last; [|intros _; unfold WRITE_RD; nofault_tac].
    destruct (write insn); [apply precise_set_csr|apply quiet_precise, quiet_ret]. }
  clearbody k. unfold validate_csr. apply precise_bind_quiet; [apply quiet_gets|intros s].
  apply precise_bind_quiet; [apply quiet_gets|intros p]. destruct (negb (serialized s)); [apply quiet_precise, quiet_ret|].
  apply precise_bind_quiet; [|intros _; cbv zeta; unfold throw_illegal].
  - intros h. split; [reflexivity|]. exists (mip (st h)), false. split; [apply drives_refl|].
    destruct h as [s0 p0 m sm fe]. now destruct s0.
  - repeat match goal with |- precise (if ?c then _ else _) => destruct c end; auto;
      apply quiet_precise, quiet_throw.
Qed.

Definition body_precise (bd : body S) : Prop := forall xl insn pc npc, precise (bd xl insn pc npc).

#[local] Ltac body_precise :=
  lazymatch goal with |- body_precise ?bd => let t := eval hnf in bd in change (body_precise t) end;
  intros xl insn pc npc;
  body_macros;
  precise_tac.

Lemma modelled_precise : Forall (fun e => body_precise (snd e)) (modelled_insns (S := S)).
Proof.
  unfold modelled_insns, insns_i, insns_m, insns_a, insns_f, insns_d, insns_c, insns_priv, insns_h. cbn [app]. list_all; cbn [snd].
  all: try (intros ? ? ? ?; apply precise_csr_op).
  all: body_precise.
Qed.
End Instructions.
#[export] Hint Resolve quiet_require quiet_require_privilege quiet_require_novirt quiet_require_rv64
  quiet_require_extension quiet_require_fp quiet_set_pc quiet_read_csr quiet_require_guest quiet_require_guest64
  quiet_RM quiet_softfloat quiet_set_roundingMode : quiet.

(** ** Property *)

(** C6.  Exceptions are precise: when one of the modelled instructions ends in
    a trap or a trigger match, the processor and its whole architectural state
    - integer and floating-point registers, program counter, every control and
    status register - are what they were before it, except for the pending
    interrupts, which the devices drive, and the simulator's own
    serialisation flag. *)
Theorem exceptions_precise {S : Type} `{!SimIf S} (name : string) (bd : body S) (xl : Z) (insn : insn_t)
    (pc npc : Z) (h h' : State.hart S) (e : exn) :
  In (name, bd) modelled_insns -> bd xl insn pc npc h = (inl e, h') -> is_fault e ->
  proc h' = proc h /\ exists v z, st h' = (st h) <| mip := v |> <| serialized := z |>.
Proof.
  intros Hin E F. pose proof (@modelled_precise S _ (drives_any S)) as K. rewrite List.Forall_forall in K.
  specialize (K (name, bd) Hin xl insn pc npc h). cbn [snd] in K. rewrite E in K.
  destruct (K F) as (P & v & z & _ & Es). eauto.
Qed.
