(* ===== verification/TrapReturn.v ===== *)
(** * TrapReturn: a trap handler can resume the interrupted program

    What a trap taken into machine or supervisor mode saves, and that [mret]
    and [sret] restore it: program counter, privilege mode, interrupt enable
    and every bit of [mstatus] but the stack bits of the trap itself. *)
From Stdlib Require Import ZArith Lia Bool List.
From stdpp Require Import base list gmap.
From S2P Require Import Prelude Arith Encoding Decode Decoder State Processor Pmp Mmu Csr TrapEntry Macros Base Compressed System Fetch Execute Fields CsrFacts InsnRuns.
#[local] Open Scope Z_scope.
#[local] Open Scope word_scope.
#[local] Open Scope record_scope.
#[local] Open Scope monad_scope.

(** ** Writes of [mstatus] that keep it *)
Section Kept.
Variables (s : state_t) (p : processor_t) (val m : Z).
Hypothesis C : csr_inv s p.
Hypothesis E : write_mstatus s p val = Some m.
(** The fields on which SD and FS depend are written back as they are. *)
Hypothesis A : forall i, i = 9 \/ i = 10 \/ 13 <= i <= 16 -> Z.testbit val i = Z.testbit (mstatus s) i.

Lemma z2b_fs : z2b (val &w MSTATUS_FS) = Z.testbit (mstatus s) 13.
Proof.
  pose proof (A 13 ltac:(lia)) as A13. pose proof (A 14 ltac:(lia)) as A14.
  rewrite <- (inv_fs _ _ C) in A14. destruct (Z.testbit (mstatus s) 13).
  - apply z2b_true. intros Z. pose proof (f_equal (fun x => Z.testbit x 13) Z) as T. cbv beta in T.
    rewrite Z.land_spec, A13 in T. discriminate.
  - apply z2b_false. bits i. rewrite Z.land_spec, Z.bits_0. change MSTATUS_FS with (field 13 2).
    rewrite field_testbit by lia. destruct ((13 <=? i) && (i <? 13 + 2)) eqn:R; [|apply andb_false_r].
    assert (i = 13 \/ i = 14) as [-> | ->] by (bcases; cbn in R; lia); now rewrite ?A13, ?A14.
Qed.

Lemma merge_kept i : 0 <= i < 64 -> ~ 11 <= i < 13 ->
  (Z.testbit (mstatus_mask s p) i = true -> Z.testbit val i = Z.testbit (mstatus s) i) ->
  Z.testbit (merge_mstatus s p val) i = Z.testbit (mstatus s) i.
Proof.
  intros Hi Hn K. rewrite merge_mstatus_bit by lia. rewrite z2b_fs.
  replace ((11 <=? i) && (i <? 13)) with false by (bcases; lia || reflexivity).
  change MSTATUS_FS with (field 13 2). rewrite field_testbit by lia.
  replace (if Z.testbit (mstatus_mask s p) i then Z.testbit val i else Z.testbit (mstatus s) i)
    with (Z.testbit (mstatus s) i) by (destruct (Z.testbit (mstatus_mask s p) i); auto; symmetry; auto).
  destruct ((13 <=? i) && (i <? 13 + 2)) eqn:R; cbn [andb]; [|apply orb_false_r].
  assert (i = 13 \/ i = 14) as [-> | ->] by (bcases; cbn in R; lia); rewrite <- ?(inv_fs _ _ C); apply orb_diag.
Qed.

Lemma mstatus_kept i : 0 <= i < 32 \/ 36 <= i < 64 -> ~ 11 <= i < 13 ->
  (Z.testbit (mstatus_mask s p) i = true -> Z.testbit val i = Z.testbit (mstatus s) i) ->
  Z.testbit m i = Z.testbit (mstatus s) i.
Proof.
  intros Hi Hn K. rewrite (write_mstatus_bit s p val m) by auto.
  pose proof (inv_sd _ _ C) as SD. unfold sd_position in SD.
  destruct (Z.eqb_spec i (if max_xlen p =? 32 then 31 else 63)) as [->|]; [|apply merge_kept; auto; lia].
  rewrite SD, !mstatus_dirty_bits.
  now rewrite !merge_kept by first [lia | intros _; apply A; lia].
Qed.
End Kept.

(** *** UXL and SXL, which every write of [mstatus] sets to the width of the hart *)

Definition with_fixed_xl (s : state_t) (p : processor_t) (x : Z) : Z :=
  match xlen_to_uxl (max_xlen p) with Some uxl => mstatus_with_xl s p uxl x | None => x end.

Lemma with_xl_at s p uxl x i : 0 <= i < 64 -> Z.testbit (mstatus_with_xl s p uxl x) i =
  if supports_extension s p chr_S && ((34 <=? i) && (i <? 34 + 2)) then Z.testbit uxl (i - 34)
  else if supports_extension s p chr_U && ((32 <=? i) && (i <? 32 + 2)) then Z.testbit uxl (i - 32)
  else Z.testbit x i.
Proof.
  intros Hi. unfold mstatus_with_xl. change MSTATUS_UXL with (field 32 2). change MSTATUS_SXL with (field 34 2).
  destruct (supports_extension s p chr_S), (supports_extension s p chr_U); rewrite ?set_field_testbit by lia; reflexivity.
Qed.

Lemma fixed_xl_congr s p x y i : 0 <= i < 64 -> Z.testbit x i = Z.testbit y i ->
  Z.testbit (with_fixed_xl s p x) i = Z.testbit (with_fixed_xl s p y) i.
Proof.
  intros Hi E. unfold with_fixed_xl. destruct (xlen_to_uxl _); [|exact E]. now rewrite !with_xl_at, E by lia.
Qed.

Lemma fixed_xl_idem s p x i : 0 <= i < 64 ->
  Z.testbit (with_fixed_xl s p (with_fixed_xl s p x)) i = Z.testbit (with_fixed_xl s p x) i.
Proof.
  intros Hi. unfold with_fixed_xl. destruct (xlen_to_uxl _); [|reflexivity]. rewrite !with_xl_at by lia.
  repeat match goal with |- context [if ?c then _ else _] => destruct c end; reflexivity.
Qed.

Lemma fixed_xl_other s p x i : 0 <= i < 32 \/ 36 <= i < 64 -> Z.testbit (with_fixed_xl s p x) i = Z.testbit x i.
Proof. intros Hi. unfold with_fixed_xl. destruct (xlen_to_uxl _); [now apply with_xl_bit|reflexivity]. Qed.

Lemma written_xl s p val m i : write_mstatus s p val = Some m -> 32 <= i < 36 ->
  Z.testbit (mstatus_mask s p) i = false -> Z.testbit m i = Z.testbit (with_fixed_xl s p (mstatus s)) i.
Proof.
  intros E Hi Hm.
  assert (B : Z.testbit (mstatus_with_sd p (merge_mstatus s p val)) i = Z.testbit (mstatus s) i).
  { rewrite with_sd_bit by lia. replace (i =? _) with false by (destruct (max_xlen p =? 32); lia).
    rewrite merge_mstatus_bit, Hm by lia. replace ((11 <=? i) && (i <? 13)) with false by (bcases; lia || reflexivity).
    change MSTATUS_FS with (field 13 2). rewrite field_testbit by lia.
    replace ((13 <=? i) && (i <? 13 + 2)) with false by (bcases; lia || reflexivity). apply orb_false_r. }
  rewrite <- (fixed_xl_congr s p _ _ i ltac:(lia) B). unfold write_mstatus in E. unfold with_fixed_xl.
  destruct (xlen_to_uxl _); [now apply (inj Some) in E as <-|].
  destruct (_ || _); [discriminate|]. now apply (inj Some) in E as <-.
Qed.

(** ** The values written by trap entry and return *)
Section Values.
Variable s : state_t.

#[local] Ltac fields := rewrite !set_field_testbit by lia; change (11 + 2) with 13.
#[local] Ltac ranges := repeat match goal with
  | |- context [(?a <=? ?i) && (?i <? ?b)] => destruct (Z.leb_spec a i), (Z.ltb_spec i b); cbn [andb]; try lia
  end.

Lemma enter_m_bit v gva i : 0 <= i < 64 -> i <> 38 -> i <> 39 ->
  Z.testbit (mstatus_enter_m s v gva) i =
  if i =? 3 then false else if i =? 7 then Z.testbit (mstatus s) 3
  else if (11 <=? i) && (i <? 13) then Z.testbit (prv s) (i - 11) else Z.testbit (mstatus s) i.
Proof.
  intros Hi N1 N2. unfold mstatus_enter_m. change MSTATUS_MPIE with (field 7 1). change MSTATUS_MIE with (field 3 1).
  change MSTATUS_MPP with (field 11 2). change MSTATUS_MPV with (field 39 1). change MSTATUS_GVA with (field 38 1).
  fields. rewrite get_field_bit by lia.
  destruct (Z.eqb_spec i 3) as [->|]; [reflexivity|]. destruct (Z.eqb_spec i 7) as [->|]; [now destruct (Z.testbit _ 3)|].
  ranges; reflexivity.
Qed.

Lemma mret_bit x i : 0 <= i < 64 -> Z.testbit (Sys.mstatus_mret x) i =
  if i =? 3 then Z.testbit x 7 else if i =? 7 then true else if (11 <=? i) && (i <? 13) then false else Z.testbit x i.
Proof.
  intros Hi. unfold Sys.mstatus_mret. change MSTATUS_MPIE with (field 7 1). change MSTATUS_MIE with (field 3 1).
  change MSTATUS_MPP with (field 11 2). fields. rewrite get_field_bit by lia.
  destruct (Z.eqb_spec i 3) as [->|]; [now destruct (Z.testbit x 7)|]. destruct (Z.eqb_spec i 7) as [->|]; [reflexivity|].
  ranges; try reflexivity; apply Z.bits_0.
Qed.

Lemma enter_s_bit i : 0 <= i < 64 -> 0 <= prv s <= 1 -> Z.testbit (mstatus_enter_s s) i =
  if i =? 1 then false else if i =? 5 then Z.testbit (mstatus s) 1
  else if i =? 8 then Z.testbit (prv s) 0 else Z.testbit (mstatus s) i.
Proof.
  intros Hi Hp. unfold mstatus_enter_s. change MSTATUS_SPIE with (field 5 1). change MSTATUS_SIE with (field 1 1).
  change MSTATUS_SPP with (field 8 1). fields. rewrite get_field_bit by lia.
  destruct (Z.eqb_spec i 1) as [->|]; [reflexivity|]. destruct (Z.eqb_spec i 5) as [->|]; [now destruct (Z.testbit _ 1)|].
  destruct (Z.eqb_spec i 8) as [->|]; [reflexivity|]. ranges; reflexivity.
Qed.

Lemma sret_bit x i : 0 <= i < 64 -> Z.testbit (Sys.mstatus_sret x) i =
  if i =? 1 then Z.testbit x 5 else if i =? 5 then true else if i =? 8 then false else Z.testbit x i.
Proof.
  intros Hi. unfold Sys.mstatus_sret. change MSTATUS_SPIE with (field 5 1). change MSTATUS_SIE with (field 1 1).
  change MSTATUS_SPP with (field 8 1). fields. rewrite get_field_bit by lia.
  destruct (Z.eqb_spec i 1) as [->|]; [now destruct (Z.testbit x 5)|]. destruct (Z.eqb_spec i 5) as [->|]; [reflexivity|].
  destruct (Z.eqb_spec i 8) as [->|]; [reflexivity|]. ranges; reflexivity.
Qed.
End Values.

(** ** Runs *)
Section Runs.
Context {S : Type} `{!SimIf S}.
#[local] Notation hart := (State.hart S).
Implicit Types h : hart.

(** [m], run from [h], returns and makes the registers [s'], the processor
    stays. *)
Definition goes {A} (m : State.M S A) h (a : A) (s' : state_t) : Prop :=
  exists h', m h = (inr a, h') /\ st h' = s' /\ proc h' = proc h.

Lemma goes_bind {A B} (m : State.M S A) (k : A -> State.M S B) h a s' b s'' :
  goes m h a s' -> (forall h', st h' = s' -> proc h' = proc h -> goes (k a) h' b s'') -> goes (x <- m ;; k x) h b s''.
Proof.
  intros (h' & E & Es & Ep) K. destruct (K h' Es Ep) as (h'' & E' & Es' & Ep').
  exists h''. split; [unfold bind; now rewrite E|]. split; [exact Es'|congruence].
Qed.
Lemma goes_ret {A} (a : A) h : goes (ret a) h a (st h).
Proof. now exists h. Qed.
Lemma goes_gets {A} (f : hart -> A) h : goes (gets f) h (f h) (st h).
Proof. now exists h. Qed.
Lemma goes_upd f h : goes (upd f) h tt (f (st h)).
Proof. now exists (h <| st ::= f |>). Qed.
Lemma goes_flush h : goes flush_tlb h tt (st h).
Proof. eexists. split; [reflexivity|]. now split. Qed.

Lemma goes_set_privilege x h :
  goes (set_privilege x) h tt ((st h) <| prv := legalize_privilege (st h) (proc h) x |>).
Proof. eexists. split; [reflexivity|]. now split. Qed.

Lemma set_virt_state_same p s : v_ s = false -> set_virt_state p false s = s.
Proof. unfold set_virt_state. intros ->. now destruct (prv s =? PRV_M). Qed.
Lemma goes_set_virt h : v_ (st h) = false -> goes (set_virt false) h tt (st h).
Proof.
  intros V. exists (h <| st ::= set_virt_state (proc h) false |>). split; [reflexivity|].
  split; [now apply set_virt_state_same|reflexivity].
Qed.

Lemma goes_set_mstatus v m h : xlen (proc h) = max_xlen (proc h) -> max_xlen (proc h) = 32 \/ max_xlen (proc h) = 64 ->
  write_mstatus (st h) (proc h) (uw (max_xlen (proc h)) v) = Some m ->
  goes (set_csr CSR_MSTATUS v) h tt ((st h) <| mstatus := m |>).
Proof.
  intros Ex Hx E. assert (Zx : zext_xlen (xlen (proc h)) v = uw (max_xlen (proc h)) v).
  { rewrite Ex. apply zext_xlen_uw. lia. }
  assert (G : goes (set_mstatus_csr (zext_xlen (xlen (proc h)) v)) h tt ((st h) <| mstatus := m |>)); [|exact G].
  rewrite Zx.
  unfold set_mstatus_csr. eapply goes_bind; [apply goes_gets|]. intros h1 E1 P1. rewrite <- E1.
  eapply goes_bind; [apply goes_gets|]. intros h2 E2 P2. rewrite <- E2, P1.
  apply goes_bind with (a := tt) (s' := st h2).
  - destruct (z2b _); [apply goes_flush|apply goes_ret].
  - intros h3 E3 P3. rewrite E2, E1, E. eapply goes_bind; [apply goes_upd|]. intros h4 E4 P4.
    exists (h4 <| proc ::= fun p => p <| xlen := max_xlen p |> |>). split; [reflexivity|].
    split; [change (st h4 = (st h) <| mstatus := m |>); now rewrite E4, E3, E2, E1|].
    change ((proc h4) <| xlen := max_xlen (proc h4) |> = proc h4). rewrite P4, P3, P2, P1, <- Ex.
    now destruct (proc h).
Qed.

(** *** Trap entry *)

Definition trapped_m (p : processor_t) (t : trap_t) (epc : Z) (s : state_t) : state_t :=
  s <| pc := trap_vector (mtvec s) (cause_bit p (cause t)) (is_interrupt p (cause t)) |>
    <| mepc := epc |> <| mcause := cause t |> <| mtval := rocket_tval (get_tval t) |>
    <| mtval2 := get_tval2 t |> <| mtinst := get_tinst t |>.

Lemma legalize_m s p : legalize_privilege s p PRV_M = PRV_M.
Proof. unfold legalize_privilege. now destruct (negb (supports_extension s p chr_U)). Qed.

Lemma goes_trap_m t epc h : csr_inv (st h) (proc h) ->
  exists m, write_mstatus (st h) (proc h) (uw (max_xlen (proc h)) (mstatus_enter_m (st h) false (has_gva t))) = Some m /\
    goes (trap_to_m t epc false) h tt ((trapped_m (proc h) t epc (st h)) <| mstatus := m |> <| prv := PRV_M |>).
Proof.
  intros C. destruct (inv_xlen _ _ C) as [Ex Hx].
  destruct (write_mstatus_total (st h) (proc h) (uw (max_xlen (proc h)) (mstatus_enter_m (st h) false (has_gva t))) Hx)
    as [m E].
  exists m. split; [exact E|]. unfold trap_to_m.
  eapply goes_bind; [apply goes_set_virt, C|]. intros h2 E2 P2.
  eapply goes_bind; [apply goes_gets|]. intros h3 E3 P3. rewrite E2.
  eapply goes_bind; [apply goes_gets|]. intros h4 E4 P4. rewrite P3, P2.
  eapply goes_bind; [apply goes_upd|]. intros h5 E5 P5.
  assert (Es : st h5 = trapped_m (proc h) t epc (st h)) by (rewrite E5, E4, E3, E2; reflexivity).
  assert (Ep : proc h5 = proc h) by (rewrite P5, P4, P3, P2; reflexivity).
  eapply goes_bind; [apply (goes_set_mstatus _ m); rewrite Ep; [exact Ex|exact Hx|rewrite Es; exact E]|].
  intros h6 E6 P6. pose proof (goes_set_privilege PRV_M h6) as G. now rewrite legalize_m, E6, Es in G.
Qed.

Lemma goes_take_trap_m t epc h : csr_inv (st h) (proc h) -> debug_mode (st h) = false ->
  (cause t =? CAUSE_BREAKPOINT) && ebreak_debug (st h) = false ->
  trap_target_of (st h) (proc h) (cause t) = To_M ->
  exists m, write_mstatus (st h) (proc h) (uw (max_xlen (proc h)) (mstatus_enter_m (st h) false (has_gva t))) = Some m /\
    goes (take_trap t epc) h tt ((trapped_m (proc h) t epc (st h)) <| mstatus := m |> <| prv := PRV_M |>).
Proof.
  intros C D B T. destruct (goes_trap_m t epc h C) as (m & E & G). exists m. split; [exact E|].
  assert (K : take_trap t epc h = trap_to_m t epc false h); [|unfold goes; now rewrite K].
  unfold take_trap, bind, gets. rewrite D, B, T. now rewrite (inv_virt _ _ C).
Qed.

(** *** Return *)

Definition returned (p : processor_t) (m : Z) (s : state_t) : state_t :=
  s <| pc := mepc s &w pc_alignment_mask s p |> <| mstatus := m |>
    <| prv := legalize_privilege s p (get_field (mstatus s) MSTATUS_MPP) |>.

Lemma goes_mret xl insn pc npc h : xlen (proc h) = max_xlen (proc h) ->
  max_xlen (proc h) = 32 \/ max_xlen (proc h) = 64 -> prv (st h) = PRV_M -> v_ (st h) = false ->
  Z.testbit (mstatus (st h)) 39 = false ->
  exists m, write_mstatus (st h) (proc h) (uw (max_xlen (proc h)) (Sys.mstatus_mret (mstatus (st h)))) = Some m /\
    goes (Sys.mret xl insn pc npc) h PC_SERIALIZE_AFTER (returned (proc h) m (st h)).
Proof.
  intros Ex Hx Hp V MV.
  destruct (write_mstatus_total (st h) (proc h) (uw (max_xlen (proc h)) (Sys.mstatus_mret (mstatus (st h)))) Hx) as [m E].
  exists m. split; [exact E|]. unfold Sys.mret.
  apply goes_bind with (a := tt) (s' := st h).
  { exists h. unfold require_privilege, bind, gets. now rewrite Hp. }
  intros h1 E1 P1. eapply goes_bind; [apply goes_gets|]. intros h2 E2 P2. rewrite E1.
  apply goes_bind with (a := PC_SERIALIZE_AFTER) (s' := (st h) <| State.pc := mepc (st h) &w pc_alignment_mask (st h) (proc h) |>).
  { unfold set_pc_and_serialize. eapply goes_bind; [apply goes_gets|]. intros h3 E3 P3. rewrite P2, P1.
    eapply goes_bind; [apply goes_upd|]. intros h4 E4 P4. rewrite E3, E2, E1 in E4. rewrite <- E4. apply goes_ret. }
  intros h3 E3 P3. eapply goes_bind; [apply goes_gets|]. intros h4 E4 P4. rewrite E3.
  assert (Ep : proc h4 = proc h) by congruence. assert (Es : st h4 = _) by (rewrite E4; exact E3).
  eapply goes_bind; [apply (goes_set_mstatus _ m); rewrite Ep; [exact Ex|exact Hx|rewrite Es; exact E]|].
  intros h5 E5 P5. eapply goes_bind; [apply goes_set_privilege|]. intros h6 E6 P6.
  change MSTATUS_MPV with (field 39 1). rewrite get_field_bit by lia.
  change (mstatus ((st h) <| State.pc := mepc (st h) &w pc_alignment_mask (st h) (proc h) |>)) with (mstatus (st h)) in *.
  rewrite MV. change (z2b (b2z false)) with false.
  eapply goes_bind; [apply goes_set_virt; rewrite E6, E5, Es; exact V|]. intros h7 E7 P7.
  assert (Er : st h7 = returned (proc h) m (st h)); [|rewrite <- Er; apply goes_ret].
  rewrite E7, E6, P5, E5, Es, Ep. reflexivity.
Qed.

End Runs.

(** ** What entry and return do to [mstatus] *)
Lemma mask_high s p i : supports_extension s p chr_H = false -> 32 <= i -> Z.testbit (mstatus_mask s p) i = false.
Proof.
  intros H Hi. apply (fits_testbit 32); [|lia..]. unfold mstatus_mask. rewrite H, andb_false_r. cbn [iff_].
  extensions; vm_compute; split; congruence.
Qed.

Lemma get_mpp_bits x y : (forall i, 0 <= i < 2 -> Z.testbit x (i + 11) = Z.testbit y i) -> fits 2 y ->
  get_field x MSTATUS_MPP = y.
Proof.
  intros H F. change MSTATUS_MPP with (field 11 2). bits i. rewrite get_field_testbit by lia.
  destruct (Z.ltb_spec i 2); [apply H; lia|]. symmetry. apply (fits_testbit 2); auto; lia.
Qed.

Section Stack.
Variables (s : state_t) (p : processor_t) (m : Z).
Hypothesis C : csr_inv s p.
#[local] Notation xl := (max_xlen p).

Lemma low_bit x i : 0 <= i < 32 -> Z.testbit (uw xl x) i = Z.testbit x i.
Proof.
  intros Hi. destruct (inv_xlen _ _ C) as [_ Hx]. rewrite uw_testbit by lia.
  now replace (i <? xl) with true by lia.
Qed.

(** Entry to machine mode stacks MIE in MPIE and the mode in MPP. *)
Section Enter.
Variables (v gva : bool).
Hypothesis E : write_mstatus s p (uw xl (mstatus_enter_m s v gva)) = Some m.

Lemma entered_bit i : 0 <= i < 32 \/ 36 <= i < 64 -> i <> 3 -> i <> 7 -> ~ 11 <= i < 13 ->
  Z.testbit m i = Z.testbit (mstatus s) i.
Proof.
  intros Hi N3 N7 N11.
  assert (B : forall j, 0 <= j < 32 -> j <> 3 -> j <> 7 -> ~ 11 <= j < 13 ->
    Z.testbit (uw xl (mstatus_enter_m s v gva)) j = Z.testbit (mstatus s) j).
  { intros j Hj M3 M7 M11. rewrite low_bit, enter_m_bit by lia.
    replace (j =? 3) with false by lia. replace (j =? 7) with false by lia.
    now replace ((11 <=? j) && (j <? 13)) with false by (bcases; lia || reflexivity). }
  apply (mstatus_kept s p _ m C E); [intros j Hj; apply B; lia|exact Hi|exact N11|].
  destruct (Z_lt_le_dec i 32); [intros _; apply B; lia|]. rewrite mask_high; [discriminate|now apply noH|lia].
Qed.

Lemma entered_mie : Z.testbit m 3 = false /\ Z.testbit m 7 = Z.testbit (mstatus s) 3.
Proof. rewrite !(written_bit s p _ m E), !low_bit, !enter_m_bit by lia. now split. Qed.

Lemma entered_mpp : get_field m MSTATUS_MPP = prv s.
Proof.
  destruct (inv_prv _ _ C) as [R L]. rewrite (written_mpp s p _ m E). transitivity (legalize_privilege s p (prv s)); [f_equal|exact L].
  apply get_mpp_bits; [|unfold fits; lia]. intros i Hi. rewrite low_bit, enter_m_bit by lia.
  replace (i + 11 =? 3) with false by lia. replace (i + 11 =? 7) with false by lia.
  replace ((11 <=? i + 11) && (i + 11 <? 13)) with true by (bcases; lia || reflexivity). f_equal. lia.
Qed.
End Enter.

(** [mret] unstacks them. *)
Section Return.
Hypothesis E : write_mstatus s p (uw xl (Sys.mstatus_mret (mstatus s))) = Some m.

Lemma returned_bit i : 0 <= i < 32 \/ 36 <= i < 64 -> i <> 3 -> i <> 7 -> ~ 11 <= i < 13 ->
  Z.testbit m i = Z.testbit (mstatus s) i.
Proof.
  intros Hi N3 N7 N11.
  assert (B : forall j, 0 <= j < 32 -> j <> 3 -> j <> 7 -> ~ 11 <= j < 13 ->
    Z.testbit (uw xl (Sys.mstatus_mret (mstatus s))) j = Z.testbit (mstatus s) j).
  { intros j Hj M3 M7 M11. rewrite low_bit, mret_bit by lia.
    replace (j =? 3) with false by lia. replace (j =? 7) with false by lia.
    now replace ((11 <=? j) && (j <? 13)) with false by (bcases; lia || reflexivity). }
  apply (mstatus_kept s p _ m C E); [intros j Hj; apply B; lia|exact Hi|exact N11|].
  destruct (Z_lt_le_dec i 32); [intros _; apply B; lia|]. rewrite mask_high; [discriminate|now apply noH|lia].
Qed.

Lemma returned_mie : Z.testbit m 3 = Z.testbit (mstatus s) 7.
Proof. rewrite (written_bit s p _ m E), low_bit, mret_bit by lia. reflexivity. Qed.
End Return.
End Stack.

(** ** Property *)

(** C8.  A trap handler in machine mode resumes the interrupted program: a
    trap that is not delegated, taken in a legal state outside debug mode,
    saves the program counter in [mepc], the cause, the privilege mode in MPP
    and MIE in MPIE, clears MIE and enters machine mode; [mret] then returns to
    [mepc] (aligned) in the old mode, with MIE and every other bit of [mstatus]
    except MPIE and MPP restored, and with every register that is neither the
    program counter nor a trap register as it was at the trap.  UXL and SXL hold
    the width of the hart afterwards, as after every write of [mstatus].  Legal
    states are those of a processor without H. *)
Theorem trap_mret_roundtrip {S : Type} `{!SimIf S} (t : trap_t) (epc xl : Z) (insn : insn_t) (pc npc : Z)
    (h : State.hart S) :
  csr_inv (st h) (proc h) -> debug_mode (st h) = false ->
  (cause t =? CAUSE_BREAKPOINT) && ebreak_debug (st h) = false ->
  trap_target_of (st h) (proc h) (cause t) = To_M ->
  exists h1 h2 m,
    take_trap t epc h = (inr tt, h1) /\ mepc (st h1) = epc /\ mcause (st h1) = cause t /\
    prv (st h1) = PRV_M /\ get_field (mstatus (st h1)) MSTATUS_MPP = prv (st h) /\
    Z.testbit (mstatus (st h1)) 3 = false /\ Z.testbit (mstatus (st h1)) 7 = Z.testbit (mstatus (st h)) 3 /\
    Sys.mret xl insn pc npc h1 = (inr PC_SERIALIZE_AFTER, h2) /\ proc h2 = proc h /\
    st h2 = (st h) <| State.pc := epc &w pc_alignment_mask (st h) (proc h) |> <| mepc := epc |> <| mcause := cause t |>
      <| mtval := rocket_tval (get_tval t) |> <| mtval2 := get_tval2 t |> <| mtinst := get_tinst t |> <| mstatus := m |> /\
    forall i, 0 <= i < 64 -> i <> 7 -> ~ 11 <= i < 13 ->
      Z.testbit m i = Z.testbit (with_fixed_xl (st h) (proc h) (mstatus (st h))) i.
Proof.
  intros C D B T. destruct (goes_take_trap_m t epc h C D B T) as (m1 & E1 & h1 & R1 & S1 & P1).
  pose proof (keeps_take_trap t epc h C) as C1. unfold after in C1. rewrite R1 in C1. cbn [snd] in C1.
  destruct (inv_xlen _ _ C1) as [Ex Hx].
  destruct (goes_mret xl insn pc npc h1 Ex Hx) as (m2 & E2 & h2 & R2 & S2 & P2);
    [now rewrite S1|apply C1|apply C1|].
  exists h1, h2, m2. destruct (entered_mie _ _ _ C _ _ E1) as [M3 M7].
  pose proof (entered_mpp _ _ _ C _ _ E1) as MP. rewrite S1 in *. rewrite P1 in *.
  destruct (inv_prv _ _ C) as [_ L].
  split_and!; try assumption; try reflexivity.
  - rewrite S2. unfold returned.
    change (get_field (mstatus (_ <| mstatus := m1 |> <| prv := PRV_M |>)) MSTATUS_MPP) with (get_field m1 MSTATUS_MPP).
    rewrite MP. change (legalize_privilege (_ <| prv := PRV_M |>) (proc h) (prv (st h)))
      with (legalize_privilege (st h) (proc h) (prv (st h))). rewrite L. now destruct (st h).
  - intros i Hi N7 N11. destruct (decide (32 <= i < 36)) as [Hx'|Hx'].
    + rewrite (written_xl _ _ _ _ i E2 Hx') by (apply mask_high; [now apply noH|lia]).
      pose proof (written_xl _ _ _ _ i E1 Hx' ltac:(apply mask_high; [now apply noH|lia])) as M1.
      transitivity (Z.testbit (with_fixed_xl (st h) (proc h) m1) i); [reflexivity|].
      rewrite (fixed_xl_congr _ _ _ _ i Hi M1). now apply fixed_xl_idem.
    + rewrite fixed_xl_other by lia. destruct (Z.eq_dec i 3) as [->|N3].
      * rewrite (returned_mie _ _ _ C1 E2). exact M7.
      * rewrite (returned_bit _ _ _ C1 E2) by lia. apply (entered_bit _ _ _ C _ _ E1); lia.
Qed.
