(* ===== verification/Isolation.v ===== *)
(** * Isolation: unprivileged code does not touch privileged state

    In user or supervisor mode, no modelled instruction changes a machine-level
    register other than [mip], the machine-level bits of [mstatus], an interrupt
    enable that is not delegated, the physical memory protection, the triggers
    or the debug registers; of [mip] only what the devices drive and, in
    supervisor mode, a delegated SSIP; in user mode, no supervisor register
    either; and none raises the privilege mode.  The only way up is a trap. *)
From Stdlib Require Import ZArith Lia Bool List String.
From stdpp Require Import base list gmap strings.
From S2P Require Import Prelude Arith Encoding Decode Decoder State Processor Pmp Mmu Csr TrapEntry Macros Base Float Compressed System Fetch Execute Fields CsrFacts CsrProps InsnRuns Precise TrapReturn.
#[local] Open Scope Z_scope.
#[local] Open Scope word_scope.
#[local] Open Scope record_scope.
#[local] Open Scope monad_scope.

(** ** Views *)

(** What belongs to machine mode and to debug mode, and the hypervisor's
    registers, which are out of reach without H. *)
Definition machine_view (s : state_t) :=
  ((misa s, mepc s, mtval s, mscratch s, mtvec s, mcause s, medeleg s, mideleg s, mcounteren s, mtval2 s, mtinst s, minstret s),
   (pmpcfg s, pmpaddr s),
   (dpc s, dscratch0 s, dscratch1 s, dcsr s, tselect s, mcontrol s, tdata2 s, debug_mode s, single_step s),
   (v_ s, hstatus s, hideleg s, hedeleg s, hcounteren s, htval s, htinst s, hgatp s),
   (vsstatus s, vstvec s, vsscratch s, vsepc s, vscause s, vstval s, vsatp s)).

Definition supervisor_view (s : state_t) :=
  (scounteren s, sepc s, stval s, sscratch s, stvec s, satp s, scause s, mie s, prv s).

(** The bits of [mstatus] that only machine mode may write: MIE, MPIE, MPP,
    MPRV, TVM, TW, TSR; and those that user-mode code may dirty: VS, FS, SD. *)
Definition machine_bit (i : Z) : Prop := i = 3 \/ i = 7 \/ i = 11 \/ i = 12 \/ i = 17 \/ i = 20 \/ i = 21 \/ i = 22.
Definition dirty_bit (p : processor_t) (i : Z) : Prop := i = 9 \/ i = 10 \/ i = 13 \/ i = 14 \/ i = sd_position p.

Section Isolation.
(** The bits of [mip] that the devices drive. *)
Variable dev : Z.

(** The bit of [mip] that code in the mode of [s] may write itself: SSIP, where
    it is delegated, from supervisor mode. *)
Definition own_bit (s : state_t) (i : Z) : Prop := PRV_S <= prv s /\ i = 1 /\ Z.testbit (mideleg s) 1 = true.

(** [s'] differs from [s] only where code in the mode of [s] may write. *)
Record isolated (p : processor_t) (s s' : state_t) : Prop := mk_isolated {
  iso_machine : machine_view s' = machine_view s;
  iso_mstatus : forall i, machine_bit i -> Z.testbit (mstatus s') i = Z.testbit (mstatus s) i;
  iso_mie : forall i, 0 <= i -> Z.testbit (mideleg s) i = false -> Z.testbit (mie s') i = Z.testbit (mie s) i;
  iso_mip : forall i, 0 <= i < 64 -> Z.testbit dev i = false -> ~ own_bit s i -> Z.testbit (mip s') i = Z.testbit (mip s) i;
  iso_prv : 0 <= prv s' <= prv s;
  iso_user : prv s = PRV_U -> supervisor_view s' = supervisor_view s /\
    forall i, 0 <= i < 64 -> ~ dirty_bit p i -> Z.testbit (mstatus s') i = Z.testbit (mstatus s) i
}.

Lemma isolated_refl p s : 0 <= prv s -> isolated p s s.
Proof. intros H. constructor; auto. lia. Qed.

Lemma view_mideleg s s' : machine_view s' = machine_view s -> mideleg s' = mideleg s.
Proof. unfold machine_view. now intros [= ]. Qed.
Lemma view_misa s s' : machine_view s' = machine_view s -> misa s' = misa s.
Proof. unfold machine_view. now intros [= ]. Qed.
Lemma view_hstatus s s' : machine_view s' = machine_view s -> hstatus s' = hstatus s.
Proof. unfold machine_view. now intros [= ]. Qed.
Lemma view_debug s s' : machine_view s' = machine_view s -> debug_mode s' = debug_mode s.
Proof. unfold machine_view. now intros [= ]. Qed.

Lemma isolated_trans p s1 s2 s3 : isolated p s1 s2 -> isolated p s2 s3 -> isolated p s1 s3.
Proof.
  intros [V1 M1 I1 K1 P1 U1] [V2 M2 I2 K2 P2 U2]. constructor.
  - congruence.
  - intros i Hi. now rewrite M2, M1.
  - intros i Hi D. rewrite I2, I1; auto. now rewrite (view_mideleg _ _ V1).
  - intros i Hi D N. rewrite K2, K1; auto. intros (G & E & B). apply N. split; [lia|].
    split; [exact E|]. now rewrite <- (view_mideleg _ _ V1).
  - lia.
  - intros E. destruct (U1 E) as [S1 B1]. assert (E2 : prv s2 = PRV_U) by (unfold PRV_U in *; lia).
    destruct (U2 E2) as [S2 B2]. split; [congruence|]. intros i Hi N. now rewrite B2, B1.
Qed.

(** An update of registers that are in neither view. *)
Lemma isolated_same p s s' : 0 <= prv s -> machine_view s' = machine_view s ->
  supervisor_view s' = supervisor_view s -> mstatus s' = mstatus s -> within dev (mip s) (mip s') -> isolated p s s'.
Proof.
  intros Hp V U M W. assert (prv s' = prv s /\ mie s' = mie s) as [Ep Em] by (unfold supervisor_view in U; now injection U).
  constructor; rewrite ?M, ?Ep, ?Em; auto. lia.
Qed.

(** An update of supervisor registers, from supervisor mode. *)
Lemma isolated_super p s s' : prv s = PRV_S -> machine_view s' = machine_view s -> mie s' = mie s ->
  prv s' = prv s -> mstatus s' = mstatus s -> mip s' = mip s -> isolated p s s'.
Proof.
  intros Hp V Em Ep M K. constructor; rewrite ?M, ?Ep, ?Em, ?K; auto; rewrite Hp; [unfold PRV_S; lia|discriminate].
Qed.

Lemma VU_same (p : processor_t) : p = p <| VU := VU p |>.
Proof. now destruct p. Qed.

(** ** CSR writes *)
Section Writes.
Context {S : Type} `{!SimIf S}.
#[local] Notation hart := (State.hart S).
Variable h : hart.
Hypothesis C : csr_inv (st h) (proc h).
Hypothesis L : prv (st h) <= PRV_S.

(** The result of a write: isolated, and the processor's configuration kept. *)
Definition lands (h' : hart) : Prop :=
  isolated (proc h) (st h) (st h') /\ exists vu, proc h' = (proc h) <| VU := vu |>.

Lemma prv_nonneg : 0 <= prv (st h).
Proof. apply C. Qed.

Lemma lands_st h' : isolated (proc h) (st h) (st h') -> proc h' = proc h -> lands h'.
Proof. intros H E. split; [exact H|]. exists (VU (proc h)). rewrite E. apply VU_same. Qed.

(** [mstatus] after a write that leaves the machine-level bits alone. *)
Lemma written_machine_bit val m : write_mstatus (st h) (proc h) val = Some m ->
  (forall i, machine_bit i -> Z.testbit val i = Z.testbit (mstatus (st h)) i) ->
  forall i, machine_bit i -> Z.testbit m i = Z.testbit (mstatus (st h)) i.
Proof.
  intros E A i Hi. destruct (Z.eq_dec i 11) as [->|N11]; [|destruct (Z.eq_dec i 12) as [->|N12]].
  1,2: assert (G : get_field m MSTATUS_MPP = get_field (mstatus (st h)) MSTATUS_MPP).
  1,3: rewrite (written_mpp _ _ val m E), <- (inv_mpp _ _ C); f_equal; change MSTATUS_MPP with (field 11 2);
    bits j; rewrite !get_field_testbit by lia; destruct (Z.ltb_spec j 2); [|reflexivity]; apply A;
    assert (j = 0 \/ j = 1) as [-> | ->] by lia; unfold machine_bit; cbn; auto.
  1: pose proof (f_equal (fun x => Z.testbit x 0) G) as T. 2: pose proof (f_equal (fun x => Z.testbit x 1) G) as T.
  1,2: cbv beta in T; change MSTATUS_MPP with (field 11 2) in T; rewrite !get_field_testbit in T by lia; exact T.
  rewrite (written_bit _ _ val m E); [now apply A|]. unfold machine_bit in Hi. lia.
Qed.

(** A write of [mstatus] from supervisor mode. *)
Lemma lands_mstatus val : prv (st h) = PRV_S ->
  (forall i, machine_bit i -> Z.testbit val i = Z.testbit (mstatus (st h)) i) ->
  lands (set_mstatus_csr val h).2.
Proof.
  intros Hp A. destruct (inv_xlen _ _ C) as [Ex Hx].
  destruct (write_mstatus_total (st h) (proc h) val Hx) as [m E].
  unfold set_mstatus_csr. rewrite !run_gets. unfold bind, when.
  assert (F : forall h1 : hart, st h1 = st h -> proc h1 = proc h ->
    lands ((match write_mstatus (st h) (proc h) val with
            | Some m => upd (fun s => s <| mstatus := m |>) ;; upd_proc (fun p => p <| xlen := max_xlen p |>)
            | None => throw E_abort end) h1).2).
  { intros h1 E1 P1. rewrite E. apply lands_st.
    - change (isolated (proc h) (st h) ((st h1) <| mstatus := m |>)). rewrite E1. constructor; try reflexivity.
      + exact (written_machine_bit val m E A).
      + rewrite Hp. change (0 <= prv (st h) <= 1). rewrite Hp. unfold PRV_S. lia.
      + intros K. rewrite Hp in K. discriminate.
    - change ((proc h1) <| xlen := max_xlen (proc h1) |> = proc h). rewrite P1, <- Ex. now destruct (proc h). }
  destruct (z2b _); now apply F.
Qed.

(** Marking the floating-point or vector state dirty. *)
Lemma isolated_dirty k s' : k = 9 \/ k = 13 ->
  machine_view s' = machine_view (st h) -> supervisor_view s' = supervisor_view (st h) ->
  mstatus s' = mstatus (st h) |w (field k 2 |w sd_bit (xlen (proc h))) -> mip s' = mip (st h) ->
  isolated (proc h) (st h) s'.
Proof.
  intros Hk V U M Kp. destruct (inv_xlen _ _ C) as [Ex Hx]. pose proof prv_nonneg.
  assert (prv s' = prv (st h) /\ mie s' = mie (st h)) as [Ep Em] by (unfold supervisor_view in U; now injection U).
  assert (B : forall i, 0 <= i -> ~ (k <= i < k + 2) -> i <> sd_position (proc h) ->
    Z.testbit (mstatus s') i = Z.testbit (mstatus (st h)) i).
  { intros i Hi N Ns. rewrite M, !Z.lor_spec, field_testbit by lia.
    replace ((k <=? i) && (i <? k + 2)) with false by (bcases; lia || reflexivity).
    replace (Z.testbit (sd_bit (xlen (proc h))) i) with false; [now rewrite !orb_false_r|].
    unfold sd_bit, sd_position in *. rewrite Ex. destruct Hx as [E|E]; rewrite E in *; cbn [Z.eqb Pos.eqb] in *;
      [change MSTATUS32_SD with (2 ^ 31)|change MSTATUS64_SD with (2 ^ 63)];
      rewrite Z.pow2_bits_eqb by lia; symmetry; apply Z.eqb_neq; lia. }
  constructor; rewrite ?Ep, ?Em, ?Kp; auto; [|lia|].
  - intros i Hi. apply B; unfold machine_bit, sd_position in *; destruct (max_xlen (proc h) =? 32); lia.
  - intros _. split; [exact U|]. intros i Hi N. unfold dirty_bit in N. apply B; lia.
Qed.

(** ** Each group of registers *)
Variables which val : Z.
Hypothesis P : get_field which 0x300 <= prv (st h).

Lemma super : 1 <= prv (st h) -> prv (st h) = PRV_S.
Proof. unfold PRV_S in *. lia. Qed.

#[local] Ltac other_level :=
  exfalso; match goal with H : which = ?c |- _ =>
    rewrite H in P; let n := eval vm_compute in (get_field c 0x300) in change (get_field c 0x300) with n in P;
    unfold PRV_S in *; lia
  end.
#[local] Ltac super_level :=
  match goal with H : which = ?c |- _ =>
    let Q := fresh in pose proof P as Q; rewrite H in Q;
    let n := eval vm_compute in (get_field c 0x300) in change (get_field c 0x300) with n in Q; exact (super Q)
  end.
#[local] Ltac cases := repeat match goal with
  | |- lands ((if (which =? ?a) || (which =? ?b) then _ else _) h).2 =>
    destruct (Z.eqb_spec which a); [try other_level|]; [destruct (Z.eqb_spec which b); [try other_level|]]; cbn [orb]
  | |- lands ((if which =? ?c then _ else _) h).2 => destruct (Z.eqb_spec which c); [try other_level|]
  end.

Lemma lands_float next : lands (next h).2 -> lands (csr_write_float which val next h).2.
Proof.
  intros N. unfold csr_write_float. rewrite run_gets. cases; try exact N.
  1-3: apply lands_st; [apply (isolated_dirty 13); auto|reflexivity].
  split; [apply (isolated_dirty 9); auto|]. eexists. reflexivity.
Qed.

Lemma lands_vector : lands (csr_write_vector which val h).2.
Proof.
  unfold csr_write_vector. rewrite run_gets. cases.
  1-3: split; [apply (isolated_dirty 9); auto|eexists; reflexivity].
  apply lands_st; [apply isolated_refl, prv_nonneg|reflexivity].
Qed.

Lemma lands_machine next : lands (next h).2 -> lands (csr_write_machine which val next h).2.
Proof.
  intros N. unfold csr_write_machine. rewrite !run_gets. cases; try exact N.
  apply lands_st; [apply isolated_super; auto; super_level|reflexivity].
Qed.

Lemma merged_machine_bit mask i : (forall j, machine_bit j -> Z.testbit mask j = false) -> machine_bit i ->
  Z.testbit (zext_xlen (xlen (proc h)) (merge (mstatus (st h)) mask val)) i = Z.testbit (mstatus (st h)) i.
Proof.
  intros H Hi. destruct (inv_xlen _ _ C) as [Ex Hx]. rewrite Ex, zext_xlen_uw by lia.
  rewrite uw_testbit, merge_testbit, H by first [assumption | unfold machine_bit in Hi; lia].
  replace (i <? max_xlen (proc h)) with true by (unfold machine_bit in Hi; lia). reflexivity.
Qed.

Lemma sstatus_mask_machine i : machine_bit i -> Z.testbit (sstatus_write_mask (st h) (proc h)) i = false.
Proof.
  unfold machine_bit, sstatus_write_mask. destruct (supports_extension _ _ _); cbn [iff_];
    intuition (subst; reflexivity).
Qed.

Lemma isolated_mie v' : prv (st h) = PRV_S ->
  isolated (proc h) (st h) ((st h) <| mie ::= fun x => merge x (mideleg (st h) &w not64 MIP_HS_MASK) v' |>).
Proof.
  intros Hp. constructor; auto.
  - intros i Hi D. change (Z.testbit (merge (mie (st h)) (mideleg (st h) &w not64 MIP_HS_MASK) v') i = Z.testbit (mie (st h)) i).
    unfold merge. rewrite Z.lor_spec, !Z.land_spec, D. cbn [andb]. rewrite andb_false_r, orb_false_r.
    destruct (Z.testbit (mie (st h)) i) eqn:K; [|reflexivity].
    assert (i < 64).
    { destruct (Z_lt_le_dec i 64); [assumption|]. pose proof (inv_mie _ _ C i Hi K) as T.
      rewrite (fits_testbit 64 known_ints) in T by first [lia | vm_compute; split; congruence]. discriminate. }
    rewrite not64_bits, Z.land_spec, D by lia. now replace (i <? 64) with true by lia.
  - change (0 <= prv (st h) <= prv (st h)). rewrite Hp. unfold PRV_S. lia.
  - intros K. rewrite Hp in K. discriminate.
Qed.

(** The write of [sip]: SSIP where it is delegated. *)
Lemma isolated_sip v' : prv (st h) = PRV_S ->
  isolated (proc h) (st h) ((st h) <| mip ::= fun x => merge x (mideleg (st h) &w MIP_SSIP) v' |>).
Proof.
  intros Hp. constructor; auto.
  - intros i Hi _ N. change (Z.testbit (merge (mip (st h)) (mideleg (st h) &w MIP_SSIP) v') i = Z.testbit (mip (st h)) i).
    rewrite merge_testbit by lia.
    replace (Z.testbit (mideleg (st h) &w MIP_SSIP) i) with false; [reflexivity|].
    rewrite Z.land_spec. change MIP_SSIP with (2 ^ 1). rewrite Z.pow2_bits_eqb by lia.
    destruct (Z.eqb_spec 1 i) as [<-|]; [|now rewrite andb_false_r].
    destruct (Z.testbit (mideleg (st h)) 1) eqn:E; [|reflexivity]. exfalso. apply N.
    split; [rewrite Hp; lia|now split].
  - change (0 <= prv (st h) <= prv (st h)). rewrite Hp. unfold PRV_S. lia.
Qed.

(** Registers that virtualisation would redirect. *)
Lemma lands_v f g : isolated (proc h) (st h) (g (st h)) ->
  lands (upd (fun s => if v_ s then f s else g s) h).2 /\
  lands ((flush_tlb ;; upd (fun s => if v_ s then f s else g s)) h).2.
Proof.
  intros H. assert (K : isolated (proc h) (st h) (if v_ (st h) then f (st h) else g (st h))) by now rewrite (inv_virt _ _ C).
  split; apply lands_st; auto.
Qed.

Lemma lands_supervisor next : lands (next h).2 -> lands (csr_write_supervisor which val next h).2.
Proof.
  intros N. pose proof (inv_virt _ _ C) as V. unfold csr_write_supervisor. rewrite !run_gets, V. cases; try exact N.
  - apply lands_mstatus; [super_level|]. intros i Hi.
    apply merged_machine_bit; [apply sstatus_mask_machine|exact Hi].
  - apply lands_st; [apply isolated_sip; super_level|reflexivity].
  - apply lands_st; [apply isolated_mie; super_level|reflexivity].
  - apply lands_v; apply isolated_super; first [super_level | reflexivity].
  - apply lands_v; apply isolated_super; first [super_level | reflexivity].
  - apply lands_v; apply isolated_super; first [super_level | reflexivity].
  - apply lands_v; apply isolated_super; first [super_level | reflexivity].
  - apply lands_v; apply isolated_super; first [super_level | reflexivity].
  - apply lands_v; apply isolated_super; first [super_level | reflexivity].
Qed.

Lemma lands_hypervisor next : lands (next h).2 -> lands (csr_write_hypervisor which val next h).2.
Proof. intros N. unfold csr_write_hypervisor. rewrite !run_gets. cases; exact N. Qed.

Lemma lands_debug next : lands (next h).2 -> lands (csr_write_debug which val next h).2.
Proof. intros N. unfold csr_write_debug. rewrite !run_gets. cbv zeta. cases; exact N. Qed.

Lemma level_range : 0x300 <= which < 0x400 -> False.
Proof.
  intros R. assert (E : get_field which 0x300 = 3); [|rewrite E in P; unfold PRV_S in *; lia].
  change 0x300 with (field 8 2). rewrite get_field_bits by lia. Z.div_mod_to_equations; lia.
Qed.
End Writes.

Lemma lands_set_csr {S : Type} `{!SimIf S} (h : State.hart S) which val : csr_inv (st h) (proc h) -> prv (st h) <= PRV_S ->
  get_field which 0x300 <= prv (st h) -> lands h (set_csr which val h).2.
Proof.
  intros C L P. unfold set_csr. rewrite run_gets. cbv zeta.
  destruct (is_pmpaddr which) eqn:E1; 
    [exfalso; unfold is_pmpaddr, CSR_PMPADDR0, max_pmp in E1; change (Z.of_nat 16) with 16 in E1; eapply level_range; eauto; lia|].
  destruct (is_pmpcfg which) eqn:E2; 
    [exfalso; unfold is_pmpcfg, CSR_PMPCFG0, max_pmp in E2; change (Z.of_nat 16 / 4) with 4 in E2; eapply level_range; eauto; lia|].
  apply lands_float, lands_machine, lands_supervisor, lands_hypervisor, lands_debug, lands_vector; assumption.
Qed.

(** ** Instructions *)
Section Instructions.
Context {S : Type} `{!SimIf S}.
Hypothesis devices : driven_bits S dev.
#[local] Instance device_drives : Drives S := drives_bits S dev devices.
#[local] Notation hart := (State.hart S).
#[local] Notation M := (State.M S).
Variable h0 : hart.
Hypothesis L0 : prv (st h0) <= PRV_S.
Hypothesis D0 : debug_mode (st h0) = false.
Hypothesis G0 : Z.testbit (hstatus (st h0)) 7 = false.

Definition reaches (h : hart) : Prop := csr_inv (st h) (proc h) /\ lands h0 h.
Definition kept {A} (m : M A) : Prop := forall h, reaches h -> reaches (m h).2.

Lemma reaches_lands h h' : reaches h -> csr_inv (st h') (proc h') -> lands h h' -> reaches h'.
Proof.
  intros (C & Is & vu & E) C' (Is' & vu' & E'). split; [exact C'|]. split.
  - eapply isolated_trans; [exact Is|]. rewrite E in Is'. destruct Is'. constructor; auto.
  - exists vu'. rewrite E', E. reflexivity.
Qed.

Lemma reaches_level h : reaches h -> prv (st h) <= PRV_S.
Proof. intros (_ & Is & _). pose proof (iso_prv _ _ _ Is). lia. Qed.
Lemma reaches_debug h : reaches h -> debug_mode (st h) = false.
Proof. intros (_ & Is & _). now rewrite (view_debug _ _ (iso_machine _ _ _ Is)). Qed.
Lemma reaches_guest h : reaches h -> Z.testbit (hstatus (st h)) 7 = false.
Proof. intros (_ & Is & _). now rewrite (view_hstatus _ _ (iso_machine _ _ _ Is)). Qed.

Lemma kept_of_quiet {A} (m : M A) : quiet m -> kept m.
Proof.
  intros Q h Hh. destruct (Q h) as [Ep (v & z & W & Es)]. pose proof Hh as [C _]. apply (reaches_lands h); auto.
  - rewrite Es, Ep. destruct C. constructor; assumption.
  - apply lands_st; [|exact Ep]. rewrite Es. apply isolated_same; try reflexivity; [apply C|exact W].
Qed.

Lemma kept_bind {A B} (m : M A) (k : A -> M B) : kept m -> (forall a, kept (k a)) -> kept (bind m k).
Proof.
  intros Hm Hk h Hh. specialize (Hm h Hh). unfold bind. destruct (m h) as [[e|a] h']; cbn [snd] in *; auto.
  now apply Hk.
Qed.
Lemma kept_gets {A B} (f : hart -> A) (k : A -> M B) : (forall h, reaches h -> kept (k (f h))) -> kept (bind (gets f) k).
Proof. intros H h Hh. exact (H h Hh h Hh). Qed.
Lemma kept_when c (m : M unit) : kept m -> kept (when c m).
Proof. intros H. destruct c; [exact H|]. apply kept_of_quiet, quiet_ret. Qed.

(** Updates of registers in neither view. *)
Lemma kept_upd f : (forall s, machine_view (f s) = machine_view s /\ supervisor_view (f s) = supervisor_view s /\
    mstatus (f s) = mstatus s /\ mip (f s) = mip s) -> (forall s p, csr_inv s p -> csr_inv (f s) p) -> kept (upd f).
Proof.
  intros H K h Hh. pose proof Hh as [C _]. destruct (H (st h)) as (V & U & Ms & Kp). apply (reaches_lands h); auto.
  - exact (K _ _ C).
  - apply lands_st; [|reflexivity]. apply isolated_same; auto; [apply C|]. change (within dev (mip (st h)) (mip (f (st h)))). rewrite Kp. apply within_refl.
Qed.
Lemma kept_write_reg r v : kept (WRITE_REG r v).
Proof. apply kept_upd; [now intros []|]. intros s p []. constructor; assumption. Qed.
Lemma kept_set_serialized z : kept (upd (fun s => s <| serialized := z |>)).
Proof. apply kept_upd; [now intros []|]. intros s p []. constructor; assumption. Qed.
Lemma kept_serialize x : kept (set_pc_and_serialize x).
Proof.
  unfold set_pc_and_serialize. apply kept_gets. intros h Hh. apply kept_bind; [|intros _; apply kept_of_quiet, quiet_ret].
  apply kept_upd; [now intros []|]. intros s p []. constructor; assumption.
Qed.
Lemma kept_write_freg xl r v : xl = max_xlen (proc h0) -> kept (WRITE_FREG xl r v).
Proof.
  intros E h Hh. pose proof Hh as [C (Is & vu & Ev)]. destruct (inv_xlen _ _ C) as [Ex _].
  assert (Exl : xl = xlen (proc h)) by (rewrite Ex, Ev, E; reflexivity). subst xl. rewrite Exl.
  apply (reaches_lands h); auto.
  - change (csr_inv (dirty_fp_state (proc h) ((st h) <| FPR ::= regfile_write false r v |>)) (proc h)).
    apply inv_dirty_fp. destruct C. constructor; assumption.
  - apply lands_st; [|reflexivity]. apply (isolated_dirty h C 13); auto.
Qed.

Lemma kept_set_fp_exceptions xl : xl = max_xlen (proc h0) -> kept (set_fp_exceptions xl).
Proof.
  intros E. unfold set_fp_exceptions. apply kept_gets. intros h _. apply kept_bind.
  - apply kept_when. intros h1 Hh. pose proof Hh as [C (Is & vu & Ev)]. destruct (inv_xlen _ _ C) as [Ex _].
    assert (Exl : xl = xlen (proc h1)) by (rewrite Ex, Ev, E; reflexivity). subst xl. rewrite Exl.
    apply (reaches_lands h1); auto.
    + pose proof (inv_dirty_fp _ _ C) as D. destruct D. constructor; assumption.
    + apply lands_st; [|reflexivity]. apply (isolated_dirty h1 C 13); auto.
  - intros _. apply kept_of_quiet. intros h1. exact (quiet_refl h1).
Qed.

(** *** CSR instructions *)

(** The guard of [validate_csr] leaves registers of at most the current mode. *)
Lemma csr_guard (h : hart) which : reaches h ->
  let csr_priv := get_field which 0x300 in
  ((csr_priv =? PRV_S) && negb (supports_extension (st h) (proc h) chr_S)) ||
  ((csr_priv =? PRV_HS) && negb (supports_extension (st h) (proc h) chr_H)) = false ->
  ((if (prv (st h) =? PRV_S) && negb (v_ (st h)) then PRV_HS else prv (st h)) <? csr_priv) = false ->
  csr_priv <= prv (st h).
Proof.
  intros Hh csr_priv U G. pose proof (reaches_level h Hh) as L. destruct Hh as [C _].
  rewrite (noH _ _ C), (inv_virt _ _ C), !andb_true_r in *. cbn [negb andb] in *. rewrite ?andb_true_r in *.
  apply orb_false_elim in U as [_ U]. apply Z.eqb_neq in U. apply Z.ltb_ge in G.
  clearbody csr_priv. change PRV_S with 1 in *. change PRV_HS with 2 in *. destruct (Z.eqb_spec (prv (st h)) 1); lia.
Qed.

Lemma kept_csr_op write new xl insn pc npc : kept (Sys.csr_op write new xl insn pc npc).
Proof.
  intros h Hh. unfold Sys.csr_op, validate_csr. rewrite !run_gets.
  destruct (negb (serialized (st h))); [exact Hh|].
  pose proof (kept_set_serialized false h Hh) as H1. unfold bind at 1. cbn [upd modify snd] in *.
  set (h1 := h <| st ::= _ |>) in *. cbv zeta.
  change (supports_extension (st h) (proc h)) with (supports_extension (st h1) (proc h1)).
  change (prv (st h)) with (prv (st h1)). change (v_ (st h)) with (v_ (st h1)).
  match goal with |- reaches ((if ?c then _ else _) _).2 => destruct c eqn:U end; [exact H1|].
  match goal with |- reaches ((if ?c then _ else _) _).2 => destruct c eqn:G end; [destruct (_ =? PRV_HS); exact H1|].
  apply orb_false_elim in G as [_ G]. pose proof (csr_guard h1 _ H1 U G) as P.
  clearbody h1. unfold bind at 1, read_csr. destruct (get_csr _ _ _ _) as [t|old]; [exact H1|].
  rewrite run_gets. revert H1. generalize (new insn old (RS1 (st h1) insn)). intros v H1.
  assert (K : reaches ((when (write insn) (set_csr (Insn.csr insn) v)) h1).2).
  { destruct (write insn); [|exact H1]. apply (reaches_lands h1); auto.
    - exact (keeps_set_csr _ _ _ (proj1 H1)).
    - apply lands_set_csr; [apply H1|now apply reaches_level|exact P]. }
  unfold bind at 1. destruct ((when _ _) h1) as [[e|[]] h2]; cbn [snd] in K; [exact K|].
  revert h2 K. change (kept (WRITE_RD insn (sext_xlen xl old) ;; serialize npc)).
  apply kept_bind; [apply kept_write_reg|intros _; apply kept_serialize].
Qed.

(** *** Returns and waits *)

Lemma kept_require_m insn (k : unit -> M Z) : kept (bind (require_privilege insn PRV_M) k).
Proof.
  intros h Hh. pose proof (reaches_level h Hh). unfold bind, require_privilege, require, gets, bind.
  replace (PRV_M <=? prv (st h)) with false by (unfold PRV_M, PRV_S in *; lia). exact Hh.
Qed.

Lemma kept_mret xl insn pc npc : kept (Sys.mret xl insn pc npc).
Proof. apply kept_require_m. Qed.

Lemma kept_dret xl insn pc npc : kept (Sys.dret xl insn pc npc).
Proof.
  intros h Hh. unfold Sys.dret. rewrite run_gets, run_require, (reaches_debug h Hh). exact Hh.
Qed.

Lemma kept_wfi xl insn pc npc : kept (Sys.wfi xl insn pc npc).
Proof.
  unfold Sys.wfi. apply kept_gets. intros h _. apply kept_bind; [apply kept_of_quiet, quiet_require_privilege|intros _].
  apply kept_bind; [apply kept_of_quiet, quiet_when, quiet_require_novirt|intros _].
  apply kept_bind; [apply kept_serialize|intros _; apply kept_of_quiet, quiet_throw].
Qed.

(** *** [sret]: from supervisor mode to the stacked one, which is no higher *)

Lemma sret_machine_bit xl x i : 32 <= xl <= 64 -> machine_bit i ->
  Z.testbit (uw xl (Sys.mstatus_sret x)) i = Z.testbit x i.
Proof.
  intros Hx Hi. unfold machine_bit in Hi. rewrite uw_testbit by lia. replace (i <? xl) with true by lia.
  rewrite sret_bit by lia. replace (i =? 1) with false by lia. replace (i =? 5) with false by lia.
  now replace (i =? 8) with false by lia.
Qed.

Lemma returned_level (s : state_t) p x : csr_inv s p -> prv s = PRV_S -> 0 <= x <= 1 ->
  0 <= legalize_privilege s p x <= 1.
Proof.
  intros C E Hx. pose proof (proj2 (inv_prv _ _ C)) as L. rewrite E in L. revert L.
  unfold legalize_privilege. destruct (negb _); [discriminate|]. intros _. destruct (_ || _); unfold PRV_U; lia.
Qed.

Lemma kept_sret_return (h : hart) : reaches h -> prv (st h) = PRV_S ->
  reaches ((set_csr CSR_MSTATUS (Sys.mstatus_sret (mstatus (st h))) ;;
            set_privilege (get_field (mstatus (st h)) MSTATUS_SPP)) h).2.
Proof.
  intros Hh Ep. pose proof Hh as [C _]. destruct (inv_xlen _ _ C) as [Ex Hx].
  set (v := Sys.mstatus_sret _). set (x := get_field _ _).
  destruct (write_mstatus_total (st h) (proc h) (uw (max_xlen (proc h)) v) Hx) as [m E].
  destruct (goes_set_mstatus v m h Ex Hx E) as (h1 & R1 & S1 & P1).
  assert (K : csr_inv (st h1) (proc h1)).
  { pose proof (keeps_set_csr CSR_MSTATUS v h C) as K. unfold after in K. now rewrite R1 in K. }
  assert (Rx : 0 <= x <= 1) by (unfold x; change MSTATUS_SPP with (field 8 1); rewrite get_field_bits by lia;
    Z.div_mod_to_equations; lia).
  unfold bind. rewrite R1. pose proof (goes_set_privilege x h1) as (h2 & R2 & S2 & P2). rewrite R2. cbn [snd].
  assert (L1 : 0 <= legalize_privilege (st h1) (proc h1) x <= 1)
    by (apply returned_level; [exact K|rewrite S1; exact Ep|exact Rx]).
  apply (reaches_lands h); [exact Hh| |].
  - pose proof (keeps_set_privilege x h1 ltac:(lia) K) as K2. unfold after in K2. now rewrite R2 in K2.
  - apply lands_st; [|congruence]. rewrite S2, S1. constructor; try reflexivity.
    + exact (written_machine_bit h C _ m E (fun i Hi => sret_machine_bit (max_xlen (proc h)) _ i ltac:(lia) Hi)).
    + rewrite S1 in L1. cbn -[legalize_privilege]. rewrite Ep. exact L1.
    + rewrite Ep. discriminate.
Qed.

Lemma reaches_seq (m n : M unit) (k : M Z) h : reaches ((m ;; n) h).2 -> kept k -> reaches ((m ;; n ;; k) h).2.
Proof.
  intros H K. unfold bind in *. destruct (m h) as [[e|[]] h1]; [exact H|].
  destruct (n h1) as [[e|[]] h2]; [exact H|]. now apply K.
Qed.

Lemma kept_set_virt : kept (set_virt false).
Proof.
  intros h Hh. destruct (goes_set_virt h (inv_virt _ _ (proj1 Hh))) as (h1 & R & E1 & E2). rewrite R. cbn [snd].
  pose proof Hh as [C _]. apply (reaches_lands h); [exact Hh|now rewrite E1, E2|].
  apply lands_st; [|exact E2]. rewrite E1. apply isolated_refl, C.
Qed.

Lemma kept_sret xl insn pc npc : kept (Sys.sret xl insn pc npc).
Proof.
  unfold Sys.sret. apply kept_bind; [apply kept_of_quiet, quiet_require_extension|intros _].
  intros h Hh. rewrite run_gets. unfold require_privilege. rewrite run_assoc, run_gets, run_require.
  pose proof (reaches_level h Hh) as L.
  destruct (_ <=? _) eqn:G; [|exact Hh].
  assert (Ep : prv (st h) = PRV_S) by (revert G; destruct (z2b _); intros G; apply Z.leb_le in G; unfold PRV_S, PRV_M in *; lia).
  rewrite (inv_virt _ _ (proj1 Hh)). cbn [andb when]. rewrite run_ret.
  pose proof (kept_serialize (sepc (st h)) h Hh) as H1. unfold bind at 1.
  assert (E1 : prv (st (set_pc_and_serialize (sepc (st h)) h).2) = PRV_S) by exact Ep.
  destruct (set_pc_and_serialize _ h) as [[e|a] h1]; cbn [snd] in *; [exact H1|]. rewrite run_gets.
  apply reaches_seq; [now apply kept_sret_return|]. apply kept_gets. intros h2 H2.
  rewrite (inv_virt _ _ (proj1 H2)). cbn [negb when].
  replace (z2b (get_field (hstatus (st h2)) HSTATUS_SPV)) with false.
  - apply kept_bind; [apply kept_set_virt|intros _; apply kept_of_quiet, quiet_ret].
  - change HSTATUS_SPV with (field 7 1). rewrite get_field_bit by lia. now rewrite (reaches_guest h2 H2).
Qed.

(** *** The others write no privileged register *)

Definition body_kept (bd : body S) : Prop := forall insn pc npc, kept (bd (max_xlen (proc h0)) insn pc npc).

#[local] Ltac kept_step :=
  lazymatch goal with
  | |- kept (WRITE_REG _ _) => apply kept_write_reg
  | |- kept (WRITE_FREG _ _ _) => apply kept_write_freg; reflexivity
  | |- kept (set_fp_exceptions _) => apply kept_set_fp_exceptions; reflexivity
  | |- kept (set_pc_and_serialize _) => apply kept_serialize
  | |- kept (serialize _) => apply kept_serialize
  | |- kept (bind _ _) => first [apply kept_of_quiet; solve [quiet_tac] | apply kept_bind; [|intros ?]]
  | |- kept (let _ := _ in _) => cbv zeta
  | |- kept (if ?c then _ else _) => destruct c
  | |- kept _ => apply kept_of_quiet; solve [quiet_tac]
  end.
#[local] Ltac body_kept :=
  lazymatch goal with |- body_kept ?bd => let t := eval hnf in bd in change (body_kept t) end;
  intros insn pc npc; body_macros; repeat kept_step.

Lemma modelled_kept : Forall (fun e => body_kept (snd e)) (modelled_insns (S := S)).
Proof.
  unfold modelled_insns, insns_i, insns_m, insns_a, insns_f, insns_d, insns_c, insns_priv, insns_h. cbn [app]. list_all; cbn [snd].
  all: lazymatch goal with
    | |- body_kept Sys.mret => intros ? ? ?; apply kept_mret
    | |- body_kept Sys.sret => intros ? ? ?; apply kept_sret
    | |- body_kept Sys.dret => intros ? ? ?; apply kept_dret
    | |- body_kept Sys.wfi => intros ? ? ?; apply kept_wfi
    | |- body_kept Sys.csrrw => intros ? ? ?; apply kept_csr_op
    | |- body_kept Sys.csrrs => intros ? ? ?; apply kept_csr_op
    | |- body_kept Sys.csrrc => intros ? ? ?; apply kept_csr_op
    | |- body_kept Sys.csrrwi => intros ? ? ?; apply kept_csr_op
    | |- body_kept Sys.csrrsi => intros ? ? ?; apply kept_csr_op
    | |- body_kept Sys.csrrci => intros ? ? ?; apply kept_csr_op
    | _ => body_kept
    end.
Qed.

End Instructions.
End Isolation.

(** ** Property *)

(** C2.  Unprivileged code is confined: in a legal state (of a processor without
    H) in user or supervisor mode, outside debug mode and with [hstatus.SPV]
    clear, one of the modelled instructions - whatever it is and however it
    ends - leaves every machine-level register but [mip], the physical memory
    protection, the triggers and debug registers, the machine-level bits of
    [mstatus] and the interrupt enables that are not delegated as they were,
    and does not raise the privilege mode; of [mip] only the bits that the
    devices drive can change, and SSIP if it is delegated and the mode is
    supervisor; from user mode the supervisor registers and all of [mstatus]
    but the dirty bits are left as well; and the machine is again legal. *)
Theorem unprivileged_code_confined {S : Type} `{!SimIf S} (name : string) (bd : body S) (insn : insn_t) (pc npc : Z)
    (h : State.hart S) (dev : Z) :
  driven_bits S dev -> csr_inv (st h) (proc h) -> prv (st h) <= PRV_S -> debug_mode (st h) = false ->
  Z.testbit (hstatus (st h)) 7 = false -> In (name, bd) modelled_insns ->
  let h' := (bd (max_xlen (proc h)) insn pc npc h).2 in
  isolated dev (proc h) (st h) (st h') /\ csr_inv (st h') (proc h') /\ exists vu, proc h' = (proc h) <| VU := vu |>.
Proof.
  intros V C L D G Hin h'. pose proof (modelled_kept dev V h L D G) as K. rewrite List.Forall_forall in K.
  assert (R : reaches dev h h) by (split; [exact C|]; apply lands_st; [apply isolated_refl, C|reflexivity]).
  destruct (K (name, bd) Hin insn pc npc h R) as (C' & I & U). auto.
Qed.
