(* ===== verification/FloatProps.v ===== *)
(** * FloatProps: what the floating-point instructions do

    The run of a rounding instruction and of a comparison as one equation:
    the checks, the value from the reference arithmetic of [Ieee], the flags
    accrued in [fflags], the dirty state; and SoftFloat's flags are clear again
    afterwards. *)
From Stdlib Require Import ZArith Lia Bool List String.
From stdpp Require Import base list gmap strings.
From S2P Require Import Prelude SoftFloat SoftF32 SoftF64 SoftConv Ieee SoftFields SoftMul SoftAdd32 SoftAdd64 SoftDiv64 SoftCompare SoftConvFacts SoftIntFacts SoftToInt Arith Encoding Decode Decoder State Processor Pmp Mmu Csr TrapEntry Macros Base Float Compressed System Fetch Execute InsnRuns.
#[local] Open Scope Z_scope.
#[local] Open Scope word_scope.
#[local] Open Scope record_scope.
#[local] Open Scope monad_scope.

Section Runs.
Context {S : Type} `{!SimIf S}.
#[local] Notation hart := (State.hart S).
#[local] Notation M := (State.M S).

(** The rounding mode that the instruction asks for. *)
Definition mode_of (s : state_t) (insn : insn_t) : Z := if Insn.rm insn =? 7 then frm s else Insn.rm insn.

(** The checks of every floating-point instruction. *)
Definition fp_enabled (ext : Z) (h : hart) : bool :=
  supports_extension (st h) (proc h) ext && negb (mstatus (st h) &w MSTATUS_FS =? 0).

(** [fflags] with new flags; the floating-point state becomes dirty with them. *)
Definition accrue (xl fl : Z) (s : state_t) : state_t :=
  if z2b fl then dirty_fp xl s <| fflags ::= fun old => old |w fl |> else s.

(** The machine after an instruction that wrote [fd] or [rd]. *)
Definition fp_done (xl : Z) (f : state_t -> state_t) (rm fl : Z) (h : hart) : hart :=
  h <| fenv := mk_fenv rm 0 |> <| st ::= fun s => accrue xl fl (f s) |>.

Lemma run_require_fp {B} insn (k : unit -> M B) h :
  (x <- require_fp insn ;; k x) h = if negb (mstatus (st h) &w MSTATUS_FS =? 0) then k tt h else illegal_insn insn h.
Proof. exact (run_require insn _ k h). Qed.

Lemma run_round_mode {B} insn (k : unit -> M B) (h : hart) :
  (x <- round_mode insn ;; k x) h =
  if 4 <? mode_of (st h) insn then illegal_insn insn h
  else k tt (h <| fenv ::= fun e => mk_fenv (mode_of (st h) insn) (softfloat_exceptionFlags e) |>).
Proof.
  unfold round_mode. rewrite run_assoc. unfold RM. rewrite run_assoc, run_gets. cbv zeta. fold (mode_of (st h) insn).
  destruct (4 <? _); reflexivity.
Qed.

Lemma run_softfloat {A B} (m : SF A) (k : A -> M B) (h : hart) r : implements m (fenv h) r ->
  (x <- softfloat m ;; k x) h =
  k r.1 (h <| fenv := mk_fenv (softfloat_roundingMode (fenv h)) (softfloat_exceptionFlags (fenv h) |w r.2) |>).
Proof. intros E. unfold bind, softfloat. now rewrite E. Qed.

Lemma run_set_fp_exceptions xl (npc : Z) (h : hart) :
  (set_fp_exceptions xl ;; ret npc) h =
  (inr npc, h <| st ::= accrue xl (softfloat_exceptionFlags (fenv h)) |>
              <| fenv := mk_fenv (softfloat_roundingMode (fenv h)) 0 |>).
Proof.
  unfold set_fp_exceptions. rewrite run_assoc, run_gets. unfold accrue. destruct h as [s p m i e]. cbn [fenv].
  destruct (z2b _); [reflexivity|]. now destruct s.
Qed.

Definition write_f (xl reg : Z) (v : freg_t) (s : state_t) : state_t :=
  dirty_fp xl (s <| FPR ::= regfile_write false reg v |>).

Lemma run_fp_op ext box op xl insn pc npc (h : hart) r : softfloat_exceptionFlags (fenv h) = 0 ->
  (forall e, softfloat_roundingMode e = mode_of (st h) insn -> mode_of (st h) insn <= 4 -> implements (op (st h)) e r) ->
  fp_op ext box op xl insn pc npc h =
  if fp_enabled ext h && (mode_of (st h) insn <=? 4)
  then (inr npc, fp_done xl (write_f xl (Insn.rd insn) (box r.1)) (mode_of (st h) insn) r.2 h)
  else illegal_insn insn h.
Proof.
  intros E0 Hop. unfold fp_op, fp_enabled. rewrite run_require_extension. destruct (supports_extension _ _ _); [|reflexivity].
  rewrite run_require_fp. destruct (negb _); [|reflexivity]. rewrite run_round_mode, (Z.ltb_antisym (mode_of _ _)).
  destruct (Z.leb_spec (mode_of (st h) insn) 4) as [L|L]; [|reflexivity]. cbn [negb andb]. rewrite run_gets.
  rewrite (run_softfloat _ _ _ r) by (apply Hop; [reflexivity|exact L]).
  destruct h as [s p m i e]. cbn [fenv st] in *. destruct e as [rm0 fl0]. cbn [softfloat_exceptionFlags] in E0. subst fl0.
  transitivity ((set_fp_exceptions xl ;; ret npc)
    (mk_hart (write_f xl (Insn.rd insn) (box r.1) s) p m i (mk_fenv (mode_of s insn) r.2))); [reflexivity|].
  now rewrite run_set_fp_exceptions.
Qed.

Lemma run_fp_compare ext op xl insn pc npc (h : hart) r : softfloat_exceptionFlags (fenv h) = 0 ->
  (forall e, implements (op (st h)) e r) ->
  fp_compare ext op xl insn pc npc h =
  if fp_enabled ext h
  then (inr npc, fp_done xl (fun s => s <| XPR ::= regfile_write true (Insn.rd insn) (u64 (b2z r.1)) |>)
                   (softfloat_roundingMode (fenv h)) r.2 h)
  else illegal_insn insn h.
Proof.
  intros E0 Hop. unfold fp_compare, fp_enabled. rewrite run_require_extension. destruct (supports_extension _ _ _); [|reflexivity].
  rewrite run_require_fp. destruct (negb _); [|reflexivity]. rewrite run_gets, (run_softfloat _ _ _ r) by apply Hop.
  destruct h as [s p m i e]. cbn [fenv st andb] in *. destruct e as [rm0 fl0]. cbn [softfloat_exceptionFlags] in E0. subst fl0.
  transitivity ((set_fp_exceptions xl ;; ret npc)
    (mk_hart (s <| XPR ::= regfile_write true (Insn.rd insn) (u64 (b2z r.1)) |>) p m i (mk_fenv rm0 r.2))); [reflexivity|].
  now rewrite run_set_fp_exceptions.
Qed.

Lemma run_fp_op64 ext box op xl insn pc npc (h : hart) :
  fp_op64 ext box op xl insn pc npc h = if xl =? 64 then fp_op ext box op xl insn pc npc h else illegal_insn insn h.
Proof.
  unfold fp_op64, fp_op. rewrite !run_require_extension.
  destruct (supports_extension _ _ _); [|now destruct (xl =? 64)]. exact (run_require insn (xl =? 64) _ h).
Qed.

Lemma run_RM {B} insn (k : Z -> M B) (h : hart) :
  (rm <- RM insn ;; k rm) h = if 4 <? mode_of (st h) insn then illegal_insn insn h else k (mode_of (st h) insn) h.
Proof. unfold RM. rewrite run_assoc, run_gets. cbv zeta. fold (mode_of (st h) insn). now destruct (4 <? _). Qed.

(** What a conversion to an integer does once it is enabled. *)
Lemma run_to_int op (write : Z -> Z) xl insn (npc : Z) (h : hart) r : softfloat_exceptionFlags (fenv h) = 0 ->
  (forall e, mode_of (st h) insn <= 4 -> implements (op (st h) (mode_of (st h) insn)) e r) ->
  (round_mode insn ;; s <- gets st ;; rm <- RM insn ;; x <- softfloat (op s rm) ;; WRITE_RD insn (write x) ;;
   set_fp_exceptions xl ;; ret npc) h =
  if mode_of (st h) insn <=? 4
  then (inr npc, fp_done xl (fun s => s <| XPR ::= regfile_write true (Insn.rd insn) (u64 (write r.1)) |>) (mode_of (st h) insn) r.2 h)
  else illegal_insn insn h.
Proof.
  intros E0 Hop. rewrite run_round_mode, (Z.ltb_antisym (mode_of _ _)).
  destruct (Z.leb_spec (mode_of (st h) insn) 4) as [L|L]; [|reflexivity]. cbn [negb]. rewrite run_gets.
  destruct h as [s p m i [rm0 fl0]]. cbn [fenv st softfloat_exceptionFlags] in *. subst fl0. rewrite run_RM.
  change (st (_ <|fenv ::= _|>)) with s. replace (4 <? mode_of s insn) with false by lia.
  rewrite (run_softfloat _ _ _ r) by now apply Hop.
  transitivity ((set_fp_exceptions xl ;; ret npc)
    (mk_hart (s <| XPR ::= regfile_write true (Insn.rd insn) (u64 (write r.1)) |>) p m i (mk_fenv (mode_of s insn) r.2))); [reflexivity|].
  now rewrite run_set_fp_exceptions.
Qed.

Lemma run_fp_to_int32 ext op xl insn pc npc (h : hart) r : softfloat_exceptionFlags (fenv h) = 0 ->
  (forall e, mode_of (st h) insn <= 4 -> implements (op (st h) (mode_of (st h) insn)) e r) ->
  fp_to_int32 ext op xl insn pc npc h =
  if fp_enabled ext h && (mode_of (st h) insn <=? 4)
  then (inr npc, fp_done xl (fun s => s <| XPR ::= regfile_write true (Insn.rd insn) (u64 (sext32 r.1)) |>) (mode_of (st h) insn) r.2 h)
  else illegal_insn insn h.
Proof.
  intros E0 Hop. unfold fp_to_int32, fp_enabled. rewrite run_require_extension. destruct (supports_extension _ _ _); [|reflexivity].
  rewrite run_require_fp. destruct (negb _); [|reflexivity]. exact (run_to_int op sext32 xl insn npc h r E0 Hop).
Qed.

Lemma run_fp_to_int64 ext op xl insn pc npc (h : hart) r : softfloat_exceptionFlags (fenv h) = 0 ->
  (forall e, mode_of (st h) insn <= 4 -> implements (op (st h) (mode_of (st h) insn)) e r) ->
  fp_to_int64 ext op xl insn pc npc h =
  if (xl =? 64) && (fp_enabled ext h && (mode_of (st h) insn <=? 4))
  then (inr npc, fp_done xl (fun s => s <| XPR ::= regfile_write true (Insn.rd insn) (u64 r.1) |>) (mode_of (st h) insn) r.2 h)
  else illegal_insn insn h.
Proof.
  intros E0 Hop. unfold fp_to_int64, fp_enabled. rewrite run_require_extension.
  destruct (supports_extension _ _ _); [|now rewrite andb_false_r].
  transitivity (if xl =? 64 then (require_fp insn ;; round_mode insn ;; s <- gets st ;; rm <- RM insn ;; x <- softfloat (op s rm) ;;
    WRITE_RD insn x ;; set_fp_exceptions xl ;; ret npc) h else illegal_insn insn h); [exact (run_require insn (xl =? 64) _ h)|].
  destruct (xl =? 64); [|reflexivity]. rewrite run_require_fp. destruct (negb _); [|reflexivity].
  exact (run_to_int op (fun z => z) xl insn npc h r E0 Hop).
Qed.
End Runs.

(** ** The reference *)

(** An arithmetic instruction: its format, how registers hold it, its operation. *)
Record fp_arith := mk_fp_arith {
  fa_ext : Z; fa_format : format; fa_box : Z -> freg_t; fa_unbox : freg_t -> Z; fa_op : format -> Z -> Z -> Z -> Z * Z
}.
Definition single : (format -> Z -> Z -> Z -> Z * Z) -> fp_arith := mk_fp_arith chr_F binary32 freg32 f32.
Definition double : (format -> Z -> Z -> Z -> Z * Z) -> fp_arith := mk_fp_arith chr_D binary64 freg64 f64.

Definition fp_arithmetic : list (string * fp_arith) :=
  [("fadd_s", single Ieee.add); ("fsub_s", single Ieee.sub); ("fmul_s", single Ieee.mul); ("fdiv_s", single Ieee.div);
   ("fadd_d", double Ieee.add); ("fsub_d", double Ieee.sub); ("fmul_d", double Ieee.mul); ("fdiv_d", double Ieee.div)].

(** A comparison: its test and whether quiet NaNs are accepted. *)
Record fp_test := mk_fp_test {
  ft_ext : Z; ft_format : format; ft_unbox : freg_t -> Z; ft_test : comparison -> bool; ft_quiet : bool
}.
Definition fp_tests : list (string * fp_test) :=
  [("feq_s", mk_fp_test chr_F binary32 f32 is_eq true); ("flt_s", mk_fp_test chr_F binary32 f32 is_lt false);
   ("fle_s", mk_fp_test chr_F binary32 f32 is_le false); ("feq_d", mk_fp_test chr_D binary64 f64 is_eq true);
   ("flt_d", mk_fp_test chr_D binary64 f64 is_lt false); ("fle_d", mk_fp_test chr_D binary64 f64 is_le false)].

(** A conversion to a format: whether it is for RV64 only, its operand, its
    reference and how the result is held. *)
Record fp_to_format := mk_fp_to_format {
  tf_ext : Z; tf_rv64 : bool; tf_operand : state_t -> insn_t -> Z; tf_round : Z -> Z -> Z * Z; tf_box : Z -> freg_t
}.
Definition fp_to_formats : list (string * fp_to_format) :=
  [("fcvt_s_w", mk_fp_to_format chr_F false (fun s insn => s32 (RS1 s insn)) (of_int binary32) freg32);
   ("fcvt_s_wu", mk_fp_to_format chr_F false (fun s insn => u32 (RS1 s insn)) (of_int binary32) freg32);
   ("fcvt_s_l", mk_fp_to_format chr_F true (fun s insn => s64 (RS1 s insn)) (of_int binary32) freg32);
   ("fcvt_s_lu", mk_fp_to_format chr_F true RS1 (of_int binary32) freg32);
   ("fcvt_d_w", mk_fp_to_format chr_D false (fun s insn => s32 (RS1 s insn)) (of_int binary64) freg64);
   ("fcvt_d_wu", mk_fp_to_format chr_D false (fun s insn => u32 (RS1 s insn)) (of_int binary64) freg64);
   ("fcvt_d_l", mk_fp_to_format chr_D true (fun s insn => s64 (RS1 s insn)) (of_int binary64) freg64);
   ("fcvt_d_lu", mk_fp_to_format chr_D true RS1 (of_int binary64) freg64);
   ("fcvt_s_d", mk_fp_to_format chr_D false (fun s insn => f64 (FRS1 s insn)) (convert binary64 binary32) freg32);
   ("fcvt_d_s", mk_fp_to_format chr_D false (fun s insn => f32 (FRS1 s insn)) (convert binary32 binary64) freg64)].

(** A conversion to an integer: the format and the range. *)
Record fp_to_integer := mk_fp_to_integer {
  ti_ext : Z; ti_rv64 : bool; ti_format : format; ti_unbox : freg_t -> Z; ti_lo : Z; ti_hi : Z
}.
Definition fp_to_integers : list (string * fp_to_integer) :=
  [("fcvt_w_s", mk_fp_to_integer chr_F false binary32 f32 (- 2 ^ 31) (2 ^ 31 - 1));
   ("fcvt_wu_s", mk_fp_to_integer chr_F false binary32 f32 0 (2 ^ 32 - 1));
   ("fcvt_l_s", mk_fp_to_integer chr_F true binary32 f32 (- 2 ^ 63) (2 ^ 63 - 1));
   ("fcvt_lu_s", mk_fp_to_integer chr_F true binary32 f32 0 (2 ^ 64 - 1));
   ("fcvt_w_d", mk_fp_to_integer chr_D false binary64 f64 (- 2 ^ 31) (2 ^ 31 - 1));
   ("fcvt_wu_d", mk_fp_to_integer chr_D false binary64 f64 0 (2 ^ 32 - 1));
   ("fcvt_l_d", mk_fp_to_integer chr_D true binary64 f64 (- 2 ^ 63) (2 ^ 63 - 1));
   ("fcvt_lu_d", mk_fp_to_integer chr_D true binary64 f64 0 (2 ^ 64 - 1))].

Section Refines.
Context {S : Type} `{!SimIf S}.
#[local] Notation hart := (State.hart S).
Variable other : string -> body S.
Variables (xl pc npc : Z) (insn : insn_t) (h : hart).
Hypothesis Hf : forall r, fits 64 (v0 (READ_FREG (st h) r)).
Hypothesis Hrm : 0 <= frm (st h).
Hypothesis Hc : softfloat_exceptionFlags (fenv h) = 0.

Lemma f32_fits r : fits 32 (f32 r).
Proof. unfold f32, unboxF32. destruct (isBoxedF32 r); [apply uw_fits; lia|unfold fits, defaultNaNF32UI; lia]. Qed.
Lemma f64_fits r : fits 64 (f64 (READ_FREG (st h) r)).
Proof. unfold f64, unboxF64. destruct (isBoxedF64 _); [apply Hf|unfold fits, defaultNaNF64UI; lia]. Qed.

Lemma mode_valid : mode_of (st h) insn <= 4 -> valid_mode (mode_of (st h) insn).
Proof.
  intros L. unfold valid_mode. split; [|lia]. unfold mode_of. destruct (_ =? 7); [exact Hrm|].
  apply (x_range insn 12 3); lia.
Qed.

Definition arith_entry (e : string * fp_arith) : Prop :=
  let a := e.2 in
  let r := fa_op a (fa_format a) (mode_of (st h) insn) (fa_unbox a (FRS1 (st h) insn)) (fa_unbox a (FRS2 (st h) insn)) in
  insn_body other e.1 xl insn pc npc h =
  if fp_enabled (fa_ext a) h && (mode_of (st h) insn <=? 4)
  then (inr npc, fp_done xl (write_f xl (Insn.rd insn) (fa_box a r.1)) (mode_of (st h) insn) r.2 h)
  else illegal_insn insn h.

#[local] Ltac operands :=
  first [ apply f32_fits | apply f64_fits
        | match goal with E : softfloat_roundingMode _ = _ |- _ => rewrite E end; now apply mode_valid ].
(** The entry's instruction as its shape, the SoftFloat call left to prove. *)
#[local] Ltac shape tac :=
  cbn [fst snd fa_ext fa_format fa_box fa_unbox fa_op single double ft_ext ft_format ft_unbox ft_test ft_quiet];
  find_body; unfold_body;
  lazymatch goal with |- _ = (if _ then (_, fp_done _ _ _ (snd ?r) _) else _) => tac r end.

Lemma fp_arithmetic_ok : Forall arith_entry fp_arithmetic.
Proof.
  unfold fp_arithmetic. list_all; unfold arith_entry; shape ltac:(fun r => refine (run_fp_op _ _ _ _ _ _ _ _ r Hc _));
    intros e E L; rewrite <- E.
  - apply f32_add_correct; operands.
  - apply f32_sub_correct; operands.
  - apply f32_mul_correct; operands.
  - apply f32_div_correct; operands.
  - apply f64_add_correct; operands.
  - apply f64_sub_correct; operands.
  - apply f64_mul_correct; operands.
  - apply f64_div_correct; operands.
Qed.

Definition test_entry (e : string * fp_test) : Prop :=
  let t := e.2 in
  let r := compare_with (ft_format t) (ft_test t) (ft_quiet t) (ft_unbox t (FRS1 (st h) insn)) (ft_unbox t (FRS2 (st h) insn)) in
  insn_body other e.1 xl insn pc npc h =
  if fp_enabled (ft_ext t) h
  then (inr npc, fp_done xl (fun s => s <| XPR ::= regfile_write true (Insn.rd insn) (u64 (b2z r.1)) |>)
                   (softfloat_roundingMode (fenv h)) r.2 h)
  else illegal_insn insn h.

Lemma fp_tests_ok : Forall test_entry fp_tests.
Proof.
  unfold fp_tests. list_all; unfold test_entry; shape ltac:(fun r => refine (run_fp_compare _ _ _ _ _ _ _ r Hc _)); intros e.
  1-3: destruct (f32_comparisons_ok (f32 (FRS1 (st h) insn)) (f32 (FRS2 (st h) insn)) e) as (K1 & K2 & K3 & _);
    [apply f32_fits..|assumption].
  all: destruct (f64_comparisons_ok (f64 (FRS1 (st h) insn)) (f64 (FRS2 (st h) insn)) e) as (K1 & K2 & K3 & _);
    [apply f64_fits..|assumption].
Qed.

Definition to_format_entry (e : string * fp_to_format) : Prop :=
  let c := e.2 in
  let r := tf_round c (mode_of (st h) insn) (tf_operand c (st h) insn) in
  insn_body other e.1 xl insn pc npc h =
  if (negb (tf_rv64 c) || (xl =? 64)) && (fp_enabled (tf_ext c) h && (mode_of (st h) insn <=? 4))
  then (inr npc, fp_done xl (write_f xl (Insn.rd insn) (tf_box c r.1)) (mode_of (st h) insn) r.2 h)
  else illegal_insn insn h.

Lemma run_fp_op64_guarded ext box op r :
  (forall e, softfloat_roundingMode e = mode_of (st h) insn -> mode_of (st h) insn <= 4 -> implements (op (st h)) e r) ->
  fp_op64 ext box op xl insn pc npc h =
  if (xl =? 64) && (fp_enabled ext h && (mode_of (st h) insn <=? 4))
  then (inr npc, fp_done xl (write_f xl (Insn.rd insn) (box r.1)) (mode_of (st h) insn) r.2 h)
  else illegal_insn insn h.
Proof. intros H. rewrite run_fp_op64. destruct (xl =? 64); [now apply run_fp_op|reflexivity]. Qed.

Hypothesis Hx : fits 64 (RS1 (st h) insn).

(** The theorem about the call of SoftFloat that is left. *)
#[local] Ltac conversion :=
  cbv beta;
  let call := lazymatch goal with |- implements ?m _ _ => m end in
  lazymatch call with
  | f32_to_i32 _ _ _ => apply f32_to_i32_correct | f32_to_ui32 _ _ _ => apply f32_to_ui32_correct
  | f32_to_i64 _ _ _ => apply f32_to_i64_correct | f32_to_ui64 _ _ _ => apply f32_to_ui64_correct
  | f64_to_i32 _ _ _ => apply f64_to_i32_correct | f64_to_ui32 _ _ _ => apply f64_to_ui32_correct
  | f64_to_i64 _ _ _ => apply f64_to_i64_correct | f64_to_ui64 _ _ _ => apply f64_to_ui64_correct
  | i32_to_f32 _ => apply i32_to_f32_correct | ui32_to_f32 _ => apply ui32_to_f32_correct
  | i64_to_f32 _ => apply i64_to_f32_correct | ui64_to_f32 _ => apply ui64_to_f32_correct
  | i32_to_f64 _ => apply i32_to_f64_correct | ui32_to_f64 _ => apply ui32_to_f64_correct
  | i64_to_f64 _ => apply i64_to_f64_correct | ui64_to_f64 _ => apply ui64_to_f64_correct
  | f64_to_f32 _ => apply f64_to_f32_correct | f32_to_f64 _ => apply f32_to_f64_correct
  end;
  first [ operands | exact Hx | now apply uw_fits | exact (sw_fits 32 _ eq_refl) | exact (sw_fits 64 _ eq_refl) | lia ].

Lemma fp_to_formats_ok : Forall to_format_entry fp_to_formats.
Proof.
  unfold fp_to_formats. list_all; unfold to_format_entry; cbn [fst snd tf_ext tf_rv64 tf_operand tf_round tf_box negb orb andb];
    find_body; unfold_body;
    lazymatch goal with
    | |- fp_op _ _ _ _ _ _ _ _ = (if _ then (_, fp_done _ _ _ (snd ?r) _) else _) => refine (run_fp_op _ _ _ _ _ _ _ _ r Hc _)
    | |- fp_op64 _ _ _ _ _ _ _ _ = (if _ then (_, fp_done _ _ _ (snd ?r) _) else _) => refine (run_fp_op64_guarded _ _ _ r _)
    end; intros e E L; rewrite <- E.
  all: conversion.
Qed.

Definition to_integer_entry (e : string * fp_to_integer) : Prop :=
  let c := e.2 in
  let r := to_int (ti_format c) (ti_lo c) (ti_hi c) (mode_of (st h) insn) (ti_unbox c (FRS1 (st h) insn)) in
  insn_body other e.1 xl insn pc npc h =
  if (negb (ti_rv64 c) || (xl =? 64)) && (fp_enabled (ti_ext c) h && (mode_of (st h) insn <=? 4))
  then (inr npc, fp_done xl (fun s => s <| XPR ::= regfile_write true (Insn.rd insn) (u64 (if ti_rv64 c then r.1 else sext32 r.1)) |>)
                   (mode_of (st h) insn) r.2 h)
  else illegal_insn insn h.

Lemma fp_to_integers_ok : Forall to_integer_entry fp_to_integers.
Proof.
  unfold fp_to_integers. list_all; unfold to_integer_entry; cbn [fst snd ti_ext ti_rv64 ti_format ti_unbox ti_lo ti_hi negb orb andb];
    find_body; unfold_body;
    lazymatch goal with
    | |- fp_to_int32 _ _ _ _ _ _ _ = (if _ then (_, fp_done _ _ _ (snd ?r) _) else _) => refine (run_fp_to_int32 _ _ _ _ _ _ _ r Hc _)
    | |- fp_to_int64 _ _ _ _ _ _ _ = (if _ then (_, fp_done _ _ _ (snd ?r) _) else _) => refine (run_fp_to_int64 _ _ _ _ _ _ _ r Hc _)
    end; intros e L;
    pose proof (mode_valid L) as [V _];
    conversion.
Qed.
End Refines.

(** ** The instructions refine IEEE 754 arithmetic *)

(** Floating-point registers hold words, and no flag of SoftFloat waits to be
    accrued: the state between instructions. *)
Definition float_ok {S : Type} (h : State.hart S) : Prop :=
  Forall (fun r => fits 64 (v0 r)) (FPR (st h)) /\ 0 <= frm (st h) /\ softfloat_exceptionFlags (fenv h) = 0.

Lemma read_freg_fits s r : Forall (fun r => fits 64 (v0 r)) (FPR s) -> fits 64 (v0 (READ_FREG s r)).
Proof.
  intros H. unfold READ_FREG, regfile_read. destruct (nth_in_or_default (Z.to_nat r) (FPR s) (mk_freg 0 0)) as [I| ->].
  - rewrite List.Forall_forall in H. exact (H _ I).
  - cbn. unfold fits. lia.
Qed.

(** C7. Each of the arithmetic instructions of F and D for sums, differences,
    products and quotients is illegal unless its extension and the
    floating-point unit are on and its rounding mode is one of the five; then
    it writes the reference result of its unboxed operands, rounded in that
    mode, accrues the reference flags in [fflags], makes the floating-point
    state dirty and leaves SoftFloat's flags clear. *)
Theorem fp_arithmetic_refines_ieee {S : Type} `{!SimIf S} (other : string -> body S) xl insn pc npc (h : State.hart S) name a :
  float_ok h -> List.In (name, a) fp_arithmetic ->
  let rm := mode_of (st h) insn in
  let r := fa_op a (fa_format a) rm (fa_unbox a (FRS1 (st h) insn)) (fa_unbox a (FRS2 (st h) insn)) in
  insn_body other name xl insn pc npc h =
  if fp_enabled (fa_ext a) h && (rm <=? 4)
  then (inr npc, fp_done xl (write_f xl (Insn.rd insn) (fa_box a r.1)) rm r.2 h)
  else illegal_insn insn h.
Proof.
  intros (Hf & Hrm & Hc) I.
  pose proof (fp_arithmetic_ok other xl pc npc insn h (fun r => read_freg_fits _ r Hf) Hrm Hc) as A.
  rewrite List.Forall_forall in A. exact (A _ I).
Qed.

(** C11. Each comparison of F and D writes 1 or 0 to its integer register as the
    reference comparison of its unboxed operands says, and accrues the invalid
    flag for the NaNs the manual names. *)
Theorem fp_comparisons_refine_ieee {S : Type} `{!SimIf S} (other : string -> body S) xl insn pc npc (h : State.hart S) name t :
  float_ok h -> List.In (name, t) fp_tests ->
  let r := compare_with (ft_format t) (ft_test t) (ft_quiet t) (ft_unbox t (FRS1 (st h) insn)) (ft_unbox t (FRS2 (st h) insn)) in
  insn_body other name xl insn pc npc h =
  if fp_enabled (ft_ext t) h
  then (inr npc, fp_done xl (fun s => s <| XPR ::= regfile_write true (Insn.rd insn) (u64 (b2z r.1)) |>)
                   (softfloat_roundingMode (fenv h)) r.2 h)
  else illegal_insn insn h.
Proof.
  intros (Hf & _ & Hc) I.
  pose proof (fp_tests_ok other xl pc npc insn h (fun r => read_freg_fits _ r Hf) Hc) as A.
  rewrite List.Forall_forall in A. exact (A _ I).
Qed.

(** C10. The eighteen conversions of F and D: to a format, the register operand
    rounded once; to an integer, rounded and saturated, the 32-bit results
    sign-extended; the 64-bit forms are illegal on RV32. *)
Theorem fp_conversions_refine_ieee {S : Type} `{!SimIf S} (other : string -> body S) xl insn pc npc (h : State.hart S) :
  float_ok h -> fits 64 (RS1 (st h) insn) ->
  let rm := mode_of (st h) insn in
  (forall name c, List.In (name, c) fp_to_formats ->
     let r := tf_round c rm (tf_operand c (st h) insn) in
     insn_body other name xl insn pc npc h =
     if (negb (tf_rv64 c) || (xl =? 64)) && (fp_enabled (tf_ext c) h && (rm <=? 4))
     then (inr npc, fp_done xl (write_f xl (Insn.rd insn) (tf_box c r.1)) rm r.2 h)
     else illegal_insn insn h) /\
  (forall name c, List.In (name, c) fp_to_integers ->
     let r := to_int (ti_format c) (ti_lo c) (ti_hi c) rm (ti_unbox c (FRS1 (st h) insn)) in
     insn_body other name xl insn pc npc h =
     if (negb (ti_rv64 c) || (xl =? 64)) && (fp_enabled (ti_ext c) h && (rm <=? 4))
     then (inr npc, fp_done xl (fun s => s <| XPR ::= regfile_write true (Insn.rd insn) (u64 (if ti_rv64 c then r.1 else sext32 r.1)) |>)
                      rm r.2 h)
     else illegal_insn insn h).
Proof.
  intros (Hf & Hrm & Hc) Hx rm.
  pose proof (fp_to_formats_ok other xl pc npc insn h (fun r => read_freg_fits _ r Hf) Hrm Hc Hx) as A.
  pose proof (fp_to_integers_ok other xl pc npc insn h (fun r => read_freg_fits _ r Hf) Hrm Hc) as B.
  rewrite List.Forall_forall in A, B. split; intros name c I; [exact (A _ I)|exact (B _ I)].
Qed.
