(* ===== verification/Tlb.v ===== *)
(** * Tlb: the TLBs are a transparent cache of translations

    Coherence of the load and store TLBs: an entry that hits gives the host
    address a fresh translation would.  Flushes establish it, refills keep it,
    and loads and stores through the TLBs of [Mmu] are simulated by the
    specification [load_spec] and [store_spec], which translates every access,
    as long as no store changes a translation. *)
From Stdlib Require Import ZArith Lia Bool List.
From stdpp Require Import base list gmap.
From S2P Require Import Prelude Arith Encoding Decode State Processor Pmp Mmu MmuFacts.
#[local] Open Scope Z_scope.
#[local] Open Scope word_scope.
#[local] Open Scope record_scope.
#[local] Open Scope monad_scope.

(** ** The TLB-less specification *)

Section Spec.
Context {S : Type} `{!SimIf S}.

Definition load_spec (size : nat) (cast : Z -> Z) (addr : Z) : State.M S Z :=
  paddr <- lift (fun h => translate h addr (Z.of_nat size) LOAD 0) ;;
  host_addr <- gets (fun h => addr_to_mem (sim h) paddr) ;;
  match host_addr with
  | Some p => gets (fun h => cast (host_load_int (sim h) p size))
  | None =>
    r <- mmu_mmio_load paddr size ;;
    match r with
    | Some bytes => ret (cast (le_value bytes))
    | None => throw_trap (trap_load_access_fault addr 0 0)
    end
  end.

Definition store_spec (size : nat) (addr val : Z) : State.M S unit :=
  let bytes := le_bytes size (uw (8 * Z.of_nat size) val) in
  paddr <- lift (fun h => translate h addr (Z.of_nat size) STORE 0) ;;
  host_addr <- gets (fun h => addr_to_mem (sim h) paddr) ;;
  match host_addr with
  | Some p => modify (fun h => h <| sim ::= fun sm => host_store sm p bytes |>)
  | None =>
    ok <- mmu_mmio_store paddr bytes ;;
    if ok then ret tt else throw_trap (trap_store_access_fault addr 0 0)
  end.

End Spec.

(** ** Tags *)

Definition tag_hit (tags : gmap Z Z) (vpn : Z) : bool :=
  let t := tlb_tag tags (vpn mod TLB_ENTRIES) in
  (t =? vpn) || (t =? (vpn |w TLB_CHECK_TRIGGERS)).

Lemma vpn_fits a : fits 64 a -> fits 52 (a >>w 12).
Proof. intros [? ?]. rewrite Z.shiftr_div_pow2 by lia. unfold fits. Z.div_mod_to_equations; lia. Qed.

Lemma check_bit_add vpn : fits 52 vpn -> vpn |w TLB_CHECK_TRIGGERS = vpn + 2 ^ 63.
Proof.
  intros F. rewrite Z.lor_comm. unfold TLB_CHECK_TRIGGERS. rewrite lor_add_shift; [lia|lia|].
  now apply (fits_mono 52).
Qed.

Lemma strip_check_bit vpn : fits 52 vpn ->
  vpn &w not64 TLB_CHECK_TRIGGERS = vpn /\ (vpn |w TLB_CHECK_TRIGGERS) &w not64 TLB_CHECK_TRIGGERS = vpn.
Proof.
  intros F. rewrite check_bit_add by auto.
  change (not64 TLB_CHECK_TRIGGERS) with (Z.ones 63). rewrite !Z.land_ones by lia.
  unfold fits in F. split; Z.div_mod_to_equations; lia.
Qed.

Lemma tag_hit_empty vpn : fits 52 vpn -> tag_hit ∅ vpn = false.
Proof.
  intros F. unfold tag_hit, tlb_tag. rewrite lookup_empty. cbn [default]. rewrite check_bit_add by auto.
  unfold minus_1, fits in *. bcases; lia || reflexivity.
Qed.

Lemma minus_1_miss vpn : fits 52 vpn -> (minus_1 =? vpn) || (minus_1 =? (vpn |w TLB_CHECK_TRIGGERS)) = false.
Proof. intros F. rewrite check_bit_add by auto. unfold minus_1, fits in *. bcases; lia || reflexivity. Qed.

Lemma tlb_tag_insert tags i x j : tlb_tag (<[i:=x]> tags) j = if i =? j then x else tlb_tag tags j.
Proof.
  unfold tlb_tag. destruct (Z.eqb_spec i j) as [->|].
  - now rewrite lookup_insert_eq.
  - now rewrite lookup_insert_ne.
Qed.

Lemma tlb_entry_insert data i x j : tlb_entry (<[i:=x]> data) j = if i =? j then x else tlb_entry data j.
Proof.
  unfold tlb_entry. destruct (Z.eqb_spec i j) as [->|].
  - now rewrite lookup_insert_eq.
  - now rewrite lookup_insert_ne.
Qed.

(** After [stale_tag] only an entry of the same page remains at the index. *)
Lemma stale_tag_hit tags e vpn : fits 52 e -> fits 52 vpn ->
  tag_hit (stale_tag tags (e mod TLB_ENTRIES) e) vpn = true ->
  tag_hit tags vpn = true /\ (vpn mod TLB_ENTRIES = e mod TLB_ENTRIES -> vpn = e).
Proof.
  intros Fe Fv. unfold stale_tag. destruct (Z.eqb_spec (tlb_tag tags (e mod TLB_ENTRIES)
    &w not64 TLB_CHECK_TRIGGERS) e) as [E|_].
  - intros H. split; [exact H|]. unfold tag_hit. intros Hi. unfold tag_hit in H. rewrite Hi in H.
    destruct (strip_check_bit vpn Fv) as [S1 S2].
    apply orb_true_iff in H as [H|H]; apply Z.eqb_eq in H; rewrite H in E; congruence.
  - unfold tag_hit. rewrite tlb_tag_insert.
    destruct (Z.eqb_spec (e mod TLB_ENTRIES) (vpn mod TLB_ENTRIES)) as [Hi|Hi].
    + now rewrite minus_1_miss.
    + intros H. split; [exact H|]. congruence.
Qed.

Section Coherence.
Context {S : Type} `{!SimIf S} `{!SimIfLaws S}.
#[local] Notation hart := (State.hart S).
Implicit Types h : hart.

(** ** What translation depends on *)

Definition same_view h h' : Prop :=
  st h' = (st h) <| mip := mip (st h') |> /\ proc h' = proc h /\ same_memory (sim h) (sim h').

Lemma same_view_refl h : same_view h h.
Proof. split; [now destruct h as [[]]|split; [reflexivity|split; reflexivity]]. Qed.

Lemma host_load_ext s s' : same_memory s s' -> forall n p, host_load s' p n = host_load s p n.
Proof. intros [H _]. induction n as [|n IH]; intros p; cbn [host_load]; [reflexivity|]. now rewrite H, IH. Qed.

Lemma pmp_ok_ext h h' a len type mode : same_view h h' -> pmp_ok_h h' a len type mode = pmp_ok_h h a len type mode.
Proof. intros (E & P & _). unfold pmp_ok_h. rewrite P, E. reflexivity. Qed.

Lemma read_pte_ext h h' a n : same_view h h' -> read_pte h' a n = read_pte h a n.
Proof.
  intros V. unfold read_pte. destruct V as (E & P & M). rewrite (proj2 M).
  destruct (addr_to_mem (sim h) a); [|reflexivity].
  rewrite (pmp_ok_ext h h') by (now split). unfold host_load_int.
  now rewrite (host_load_ext _ _ M).
Qed.

Lemma s2xlate_loop_ext h h' : same_view h h' -> forall vm type mxr n gva gpa base,
  s2xlate_loop h' vm gva gpa type mxr n base = s2xlate_loop h vm gva gpa type mxr n base.
Proof.
  intros V vm type mxr. induction n as [|n IH]; intros gva gpa base; cbn [s2xlate_loop]; [reflexivity|].
  rewrite (read_pte_ext h h') by auto. destruct (read_pte _ _ _); [|reflexivity]. now rewrite IH.
Qed.

Lemma s2xlate_ext h h' gva gpa type virt mxr : same_view h h' ->
  s2xlate h' gva gpa type virt mxr = s2xlate h gva gpa type virt mxr.
Proof.
  intros V. pose proof V as (E & P & _). unfold s2xlate. rewrite P.
  replace (hgatp (st h')) with (hgatp (st h)) by (rewrite E; reflexivity).
  destruct (decode_vm_info _ _ _ _); [|reflexivity]. now rewrite (s2xlate_loop_ext h h').
Qed.

Lemma walk_loop_ext h h' : same_view h h' -> forall vm type s_mode sum virt mxr n a base,
  walk_loop h' vm a type s_mode sum virt mxr n base = walk_loop h vm a type s_mode sum virt mxr n base.
Proof.
  intros V vm type s_mode sum virt mxr. induction n as [|n IH]; intros a base; cbn [walk_loop]; [reflexivity|].
  rewrite (s2xlate_ext h h') by auto. destruct (s2xlate h a _ LOAD virt false); [reflexivity|].
  rewrite (read_pte_ext h h') by auto. destruct (read_pte _ _ _); [|reflexivity].
  now rewrite IH, (s2xlate_ext h h').
Qed.

Lemma translate_ext h h' a len type fl : same_view h h' ->
  translate h' a len type fl = translate h a len type fl.
Proof.
  intros V. pose proof V as (E & P & _). unfold translate.
  replace (translate_mode h' type fl) with (translate_mode h type fl)
    by (unfold translate_mode; rewrite E; reflexivity).
  destruct (translate_mode h type fl) as [[mode virt] mxr].
  replace (walk h' a type mode virt mxr) with (walk h a type mode virt mxr).
  - destruct (walk _ _ _ _ _ _); [reflexivity|]. now rewrite (pmp_ok_ext h h').
  - unfold walk. rewrite P.
    replace (satp (st h')) with (satp (st h)) by (rewrite E; reflexivity).
    replace (vsatp (st h')) with (vsatp (st h)) by (rewrite E; reflexivity).
    replace (mstatus (st h')) with (mstatus (st h)) by (rewrite E; reflexivity).
    destruct (decode_vm_info _ _ _ _); [|reflexivity].
    rewrite (s2xlate_ext h h') by auto. now rewrite (walk_loop_ext h h').
Qed.

(** ** Coherence *)

(** An access that stays inside its page. *)
Definition in_page (a len : Z) : Prop := fits 64 a /\ 0 < len /\ a mod 2 ^ 12 + len <= 2 ^ 12.

Definition coherent_for h (type : access_type) (tags : gmap Z Z) (data : gmap Z tlb_entry_t) : Prop :=
  forall a len, in_page a len -> tag_hit tags (a >>w 12) = true ->
  exists paddr p, translate h a len type 0 = inr paddr /\
    addr_to_mem (sim h) paddr = Some p /\
    host_offset (tlb_entry data ((a >>w 12) mod TLB_ENTRIES)) +w a = p.

Definition tlb_coherent h : Prop :=
  coherent_for h LOAD (tlb_load_tag (mmu h)) (tlb_data (mmu h)) /\
  coherent_for h STORE (tlb_store_tag (mmu h)) (tlb_data (mmu h)).

Lemma coherent_for_ext h h' type tags data :
  (forall a len, translate h' a len type 0 = translate h a len type 0) ->
  (forall a, addr_to_mem (sim h') a = addr_to_mem (sim h) a) ->
  coherent_for h type tags data -> coherent_for h' type tags data.
Proof.
  intros T M C a len I H. destruct (C a len I H) as (paddr & p & E & A & O).
  exists paddr, p. now rewrite T, M.
Qed.

Lemma coherent_view h h' : same_view h h' -> tlb_load_tag (mmu h') = tlb_load_tag (mmu h) ->
  tlb_store_tag (mmu h') = tlb_store_tag (mmu h) -> tlb_data (mmu h') = tlb_data (mmu h) ->
  tlb_coherent h -> tlb_coherent h'.
Proof.
  intros V L T D [CL CS]. unfold tlb_coherent. rewrite L, T, D.
  pose proof V as (_ & _ & _ & A).
  split; (apply (coherent_for_ext h); [intros; now apply translate_ext|exact A|assumption]).
Qed.

Lemma flush_coherent h : tlb_coherent (flush_tlb h).2.
Proof.
  split; intros a len (F & _) H; exfalso; revert H; cbn -[tag_hit];
    rewrite tag_hit_empty by (now apply vpn_fits); discriminate.
Qed.

(** The host offset of an entry, for any address of its page. *)
Lemma entry_offset h a a' paddr p : fits 64 a -> fits 64 a' -> a' >>w 12 = a >>w 12 ->
  fits 64 paddr -> fits 64 (paddr + (a' - a)) -> (paddr + (a' - a)) >>w 12 = paddr >>w 12 ->
  addr_to_mem (sim h) paddr = Some p ->
  addr_to_mem (sim h) (paddr + (a' - a)) = Some (p + (a' - a)) /\ (p -w a) +w a' = p + (a' - a).
Proof.
  intros Fa Fa' Hp F F' Hpp A.
  assert (A' : addr_to_mem (sim h) (paddr + (a' - a)) = Some (p + (a' - a))).
  { rewrite (addr_to_mem_page _ paddr p) by auto. do 2 f_equal. lia. }
  split; [exact A'|]. pose proof (addr_to_mem_range _ _ _ A').
  unfold sub64, add64. rewrite uw_add_l. replace (p - a + a') with (p + (a' - a)) by lia. now apply uw_small.
Qed.

(** One successful translation on a page and its effect on the others. *)
Lemma translate_page_mem h a len a' len' type paddr p :
  in_page a len -> in_page a' len' -> a' >>w 12 = a >>w 12 ->
  translate h a len type 0 = inr paddr -> addr_to_mem (sim h) paddr = Some p ->
  addr_to_mem (sim h) (paddr + (a' - a)) = Some (p + (a' - a)) /\ (p -w a) +w a' = p + (a' - a).
Proof.
  intros (Fa & Hl & Hin) (Fa' & Hl' & Hin') Hp E A.
  destruct (translate_walk _ _ _ _ _ _ Fa E) as (P & _ & FP & AP & -> & _).
  pose proof (Z.mod_pos_bound a (2 ^ 12) ltac:(lia)). pose proof (Z.mod_pos_bound a' (2 ^ 12) ltac:(lia)).
  assert (D : a' - a = a' mod 2 ^ 12 - a mod 2 ^ 12)
    by (rewrite !Z.shiftr_div_pow2 in Hp by lia; Z.div_mod_to_equations; lia).
  assert (B : P + 2 ^ 12 <= 2 ^ 64) by (unfold fits in FP; Z.div_mod_to_equations; lia).
  apply entry_offset with (paddr := P + a mod 2 ^ 12); auto; unfold fits in *; try lia.
  rewrite !Z.shiftr_div_pow2 by lia. rewrite D. clear D B.
  replace (P + a mod 2 ^ 12 + (a' mod 2 ^ 12 - a mod 2 ^ 12)) with (P + a' mod 2 ^ 12) by lia.
  Z.div_mod_to_equations; lia.
Qed.

(** ** Refills *)

(** A hit after a refill is an old hit that [stale_tag] kept, or the new entry. *)
Definition refilled_hit (old : gmap Z Z) (new_entry : bool) (vpn page : Z) : Prop :=
  (tag_hit old vpn = true /\ (vpn mod TLB_ENTRIES = page mod TLB_ENTRIES -> vpn = page)) \/
  (new_entry = true /\ vpn = page).

Lemma inserted_hit tags page vpn (c : bool) : fits 52 page -> fits 52 vpn ->
  tag_hit (<[page mod TLB_ENTRIES := if c then page |w TLB_CHECK_TRIGGERS else page]>
             (stale_tag tags (page mod TLB_ENTRIES) page)) vpn = true ->
  refilled_hit tags true vpn page.
Proof.
  intros Fp Fv. unfold tag_hit at 1. rewrite tlb_tag_insert.
  destruct (Z.eqb_spec (page mod TLB_ENTRIES) (vpn mod TLB_ENTRIES)) as [Hi|Hi].
  - intros H. right. split; [reflexivity|]. rewrite !check_bit_add in H by auto. unfold fits in *.
    apply orb_true_iff in H as [H|H]; apply Z.eqb_eq in H; destruct c; lia.
  - intros H. left. now apply stale_tag_hit.
Qed.

Lemma refill_tlb_mmu_spec m a paddr p type hom m' e : fits 64 a ->
  refill_tlb_mmu m a paddr p type hom = (m', e) ->
  e = mk_tlb_entry (p -w a) (paddr -w a) /\
  tlb_data m' = <[(a >>w 12) mod TLB_ENTRIES := e]> (tlb_data m) /\
  (matched_trigger m' = matched_trigger m /\ load_reservation_address m' = load_reservation_address m) /\
  (forall vpn, fits 52 vpn -> tag_hit (tlb_load_tag m') vpn = true ->
     refilled_hit (tlb_load_tag m) (hom && bool_decide (type = LOAD)) vpn (a >>w 12)) /\
  (forall vpn, fits 52 vpn -> tag_hit (tlb_store_tag m') vpn = true ->
     refilled_hit (tlb_store_tag m) (hom && bool_decide (type = STORE)) vpn (a >>w 12)).
Proof.
  intros Fa. unfold refill_tlb_mmu. change PGSHIFT with 12. intros [= <- <-].
  pose proof (vpn_fits a Fa) as Fp.
  split; [reflexivity|]. split; [destruct hom, type; reflexivity|].
  split; [destruct hom, type; now split|].
  split; intros vpn Fv; destruct hom, type; cbn -[tag_hit stale_tag refilled_hit];
    first [intros H; left; now apply stale_tag_hit | now apply inserted_hit].
Qed.

Lemma refill_tlb_coherent h a len type paddr p : in_page a len -> type <> FETCH ->
  translate h a len type 0 = inr paddr -> addr_to_mem (sim h) paddr = Some p -> tlb_coherent h ->
  exists m', refill_tlb a paddr p type h = (inr (mk_tlb_entry (p -w a) (paddr -w a)), h <| mmu := m' |>) /\
    tlb_coherent (h <| mmu := m' |>) /\ matched_trigger m' = matched_trigger (mmu h) /\
    load_reservation_address m' = load_reservation_address (mmu h).
Proof.
  intros I N E A [CL CS]. pose proof I as (Fa & Hl & Hin).
  destruct (translate_walk _ _ _ _ _ _ Fa E) as (P & _ & FP & AP & Ep & _).
  pose proof (Z.mod_pos_bound a (2 ^ 12) ltac:(lia)) as Ha.
  assert (Hpage : page_of paddr = P).
  { subst paddr. rewrite <- aligned_lor_add by auto. now apply page_of_lor. }
  unfold refill_tlb. fold (page_of paddr).
  destruct (pmp_homogeneous_total (st h) (proc h) (page_of paddr)) as [hom Hh]; [now rewrite Hpage..|].
  rewrite Hh. destruct (refill_tlb_mmu (mmu h) a paddr p type hom) as [m' e] eqn:R.
  destruct (refill_tlb_mmu_spec _ _ _ _ _ _ _ _ Fa R) as (-> & D & Mt & HL & HS).
  exists m'. split; [reflexivity|]. split; [|exact Mt].
  assert (G : forall t tags, t <> FETCH -> (forall vpn, fits 52 vpn -> tag_hit tags vpn = true ->
       refilled_hit (if bool_decide (t = LOAD) then tlb_load_tag (mmu h) else tlb_store_tag (mmu h))
                    (hom && bool_decide (type = t)) vpn (a >>w 12)) ->
     coherent_for (h <| mmu := m' |>) t tags (tlb_data m')).
  { intros t tags Nt HT a' len' I' Hit. pose proof I' as (Fa' & Hl' & Hin').
    rewrite (translate_ext h) by (split; [now destruct h as [[]]|split; [reflexivity|split; reflexivity]]).
    change (sim (h <| mmu := m' |>)) with (sim h). rewrite D, tlb_entry_insert.
    destruct (HT _ (vpn_fits a' Fa') Hit) as [[Hold Hsame]|[Hnew Hp]].
    - assert (C : coherent_for h t (if bool_decide (t = LOAD) then tlb_load_tag (mmu h) else tlb_store_tag (mmu h)) (tlb_data (mmu h)))
        by (destruct t; [exact CL|exact CS|congruence]).
      destruct (C a' len' I' Hold) as (paddr' & p' & E' & A' & O').
      destruct (Z.eqb_spec ((a >>w 12) mod TLB_ENTRIES) ((a' >>w 12) mod TLB_ENTRIES)) as [Hi|Hi];
        [|now exists paddr', p'].
      specialize (Hsame (eq_sym Hi)).
      destruct (C a len I ltac:(now rewrite <- Hsame)) as (q & pq & Eq & Aq & Oq).
      assert (q = paddr) as -> by (eapply translate_agree; [exact Fa|exact Nt|exact N|exact Eq|exact E]).
      exists paddr', p'. split; [exact E'|split; [exact A'|]]. cbn [host_offset].
      assert (pq = p) by congruence. subst pq p p'. rewrite Hsame. unfold add64, sub64.
      rewrite uw_sub_l, uw_add_l. f_equal. lia.
    - apply andb_true_iff in Hnew as [-> Ht]. apply bool_decide_eq_true in Ht as <-.
      replace ((a' >>w 12) mod TLB_ENTRIES) with ((a >>w 12) mod TLB_ENTRIES) by now rewrite Hp.
      rewrite Z.eqb_refl. cbn [host_offset]. exists (paddr + (a' - a)), (p + (a' - a)).
      destruct (translate_page_mem h a len a' len' type paddr p) as [T1 T2]; auto.
      split; [|split; auto]. apply (translate_page h a len a' len'); auto. }
  split; apply G; auto; discriminate.
Qed.

(** ** Loads and stores *)

(** No trigger is waiting and none matches. *)
Definition no_trigger h (op : trigger_operation_t) : Prop :=
  matched_trigger (mmu h) = None /\ forall a d, trigger_match (st h) (proc h) op a d = -1.

Lemma check_trigger_none h op a d : no_trigger h op -> check_trigger op a d h = (inr tt, h).
Proof.
  intros [M T]. unfold check_trigger, gets, bind, trigger_exception. rewrite M, T.
  change (-1 =? -1) with true. unfold modify, ret. f_equal.
  destruct h as [s p [] sm fe]. cbn in *. now subst.
Qed.

Lemma access_in_page a size : In size [1; 2; 4; 8]%nat -> fits 64 a -> misaligned a size = false ->
  in_page a (Z.of_nat size).
Proof.
  intros Hs F H. split; [exact F|]. unfold misaligned in H. apply z2b_false in H.
  assert (E : exists k, 0 <= k <= 3 /\ Z.of_nat size = 2 ^ k).
  { destruct Hs as [<-|[<-|[<-|[<-|[]]]]]; [exists 0|exists 1|exists 2|exists 3]; (split; [lia|reflexivity]). }
  destruct E as (k & Hk & E). rewrite E in *.
  replace (2 ^ k - 1) with (Z.ones k) in H by (rewrite Z.ones_equiv; lia).
  rewrite Z.land_ones in H by lia.
  assert (k = 0 \/ k = 1 \/ k = 2 \/ k = 3) as [-> | [-> | [-> | ->]]] by lia;
    (split; [reflexivity|]); Z.div_mod_to_equations; lia.
Qed.

Lemma mmu_mmio_load_view a n h r h' : mmu_mmio_load a n h = (r, h') ->
  same_view h h' /\ mmu h' = mmu h.
Proof.
  unfold mmu_mmio_load. destruct (negb _); [intros [= <- <-]; split; [apply same_view_refl|reflexivity]|].
  pose proof (mmio_load_mem (sim h) (mip (st h)) a n) as L.
  destruct (mmio_load _ _ _ _) as [[r' sm] mip'] eqn:E. intros [= <- <-].
  split; [|reflexivity]. split; [now destruct h as [[]]|split; [reflexivity|]]. exact L.
Qed.

Lemma mmu_mmio_store_view a bs h r h' : mmu_mmio_store a bs h = (r, h') ->
  same_view h h' /\ mmu h' = mmu h.
Proof.
  unfold mmu_mmio_store. destruct (negb _); [intros [= <- <-]; split; [apply same_view_refl|reflexivity]|].
  pose proof (mmio_store_mem (sim h) (mip (st h)) a bs) as L.
  destruct (mmio_store _ _ _ _) as [[r' sm] mip'] eqn:E. intros [= <- <-].
  split; [|reflexivity]. split; [now destruct h as [[]]|split; [reflexivity|]]. exact L.
Qed.

Lemma host_store_mem sm : forall bs p a, addr_to_mem (host_store sm p bs) a = addr_to_mem sm a.
Proof.
  intros bs. revert sm. induction bs as [|x bs IH]; intros sm p a; cbn [host_store]; [reflexivity|].
  rewrite IH. apply addr_to_mem_write.
Qed.

(** The outcome of an access through the TLBs, next to the specification's. *)
Definition simulates {A : Type} (m spec : State.M S A) h : Prop :=
  exists m', m h = ((spec h).1, (spec h).2 <| mmu := m' |>) /\
    tlb_coherent ((spec h).2 <| mmu := m' |>) /\ matched_trigger m' = None.

Lemma set_own_mmu h : h <| mmu := mmu h |> = h.
Proof. now destruct h. Qed.

Lemma simulates_same {A : Type} (m : State.M S A) spec h : m h = spec h ->
  tlb_coherent (spec h).2 -> matched_trigger (mmu (spec h).2) = None -> simulates m spec h.
Proof.
  intros E C M. exists (mmu (spec h).2). rewrite set_own_mmu, E.
  split; [apply surjective_pairing|]. now split.
Qed.

Lemma no_trigger_view h h' op : same_view h h' -> mmu h' = mmu h -> no_trigger h op -> no_trigger h' op.
Proof. intros (E & P & _) M [N1 N2]. split; [now rewrite M|]. intros a d. rewrite E, P. apply N2. Qed.

Lemma coherent_mmio h h' : same_view h h' -> mmu h' = mmu h -> tlb_coherent h -> tlb_coherent h'.
Proof. intros V M. apply coherent_view; rewrite ?M; auto. Qed.

Lemma load_slow_path_simulates h size cast a : in_page a (Z.of_nat size) ->
  tlb_coherent h -> no_trigger h OPERATION_LOAD ->
  simulates (bytes <- load_slow_path a size 0 ;; ret (cast (le_value bytes))) (load_spec size cast a) h.
Proof.
  intros I C N. unfold load_slow_path, load_spec, lift, gets, bind, ret, throw_trap, throw.
  destruct (translate h a (Z.of_nat size) LOAD 0) as [e|paddr] eqn:E.
  - apply simulates_same; [now rewrite E|rewrite E; exact C|rewrite E; apply N].
  - destruct (addr_to_mem (sim h) paddr) as [p|] eqn:A.
    + destruct (refill_tlb_coherent h a _ LOAD paddr p I ltac:(discriminate) E A C) as (m' & R & C' & Mt & _).
      unfold simulates. rewrite E, A, R, check_trigger_none by (split; [now rewrite <- (proj1 N)|apply N]).
      exists m'. split; [reflexivity|]. split; [exact C'|]. now rewrite Mt, (proj1 N).
    + destruct (mmu_mmio_load paddr size h) as [[e|r] h'] eqn:Mm;
        destruct (mmu_mmio_load_view _ _ _ _ _ Mm) as [V Em];
        [|destruct r as [bytes|]]; apply simulates_same; rewrite E, A, Mm;
        rewrite ?check_trigger_none by (apply (no_trigger_view h); auto); try reflexivity; cbn [fst snd].
      all: first [now apply (coherent_mmio h) | rewrite Em; apply N].
Qed.

Lemma load_func_simulates h size cast a : In size [1; 2; 4; 8]%nat -> fits 64 a ->
  misaligned a size = false -> tlb_coherent h -> no_trigger h OPERATION_LOAD ->
  simulates (load_func size cast 0 a) (load_spec size cast a) h.
Proof.
  intros Hs F Al C N. pose proof (access_in_page a size Hs F Al) as I.
  pose proof (load_slow_path_simulates h size cast a I C N) as Slow.
  pose proof (proj1 C a _ I) as Hit. unfold tag_hit in Hit.
  assert (Fast : forall r, r = (inr (cast (host_load_int (sim h)
      (host_offset (tlb_entry (tlb_data (mmu h)) ((a >>w 12) mod TLB_ENTRIES)) +w a) size)), h) ->
      forall paddr p, translate h a (Z.of_nat size) LOAD 0 = inr paddr ->
      addr_to_mem (sim h) paddr = Some p ->
      host_offset (tlb_entry (tlb_data (mmu h)) ((a >>w 12) mod TLB_ENTRIES)) +w a = p ->
      simulates (fun _ => r) (load_spec size cast a) h).
  { intros r -> paddr p E A ->. apply simulates_same; unfold load_spec, lift, gets, bind;
      rewrite E, A; [reflexivity|exact C|apply N]. }
  unfold simulates in *. revert Slow.
  unfold load_func, gets, bind, ret, throw_trap, throw. cbn [z2b Z.eqb negb when ret].
  change PGSHIFT with 12. rewrite Al. intros Slow.
  destruct (_ =? a >>w 12); [|destruct (_ =? (a >>w 12 |w TLB_CHECK_TRIGGERS))].
  - destruct (Hit eq_refl) as (paddr & p & E & A & O). now apply (Fast _ eq_refl paddr p).
  - rewrite check_trigger_none by auto.
    destruct (Hit eq_refl) as (paddr & p & E & A & O). now apply (Fast _ eq_refl paddr p).
  - exact Slow.
Qed.

(** A store leaves translation alone: it is not to a page table in use. *)
Definition store_stable size a x h : Prop := forall a' len type,
  translate (store_spec size a x h).2 a' len type 0 = translate h a' len type 0.

Lemma store_mem_coherent h p bytes :
  (forall a' len type, translate (h <| sim ::= fun sm => host_store sm p bytes |>) a' len type 0
                       = translate h a' len type 0) ->
  tlb_coherent h -> tlb_coherent (h <| sim ::= fun sm => host_store sm p bytes |>).
Proof.
  intros T [CL CS]. split; (apply (coherent_for_ext h); [intros; apply T|intros; apply host_store_mem|assumption]).
Qed.

Lemma store_slow_path_simulates h size x a : in_page a (Z.of_nat size) ->
  tlb_coherent h -> no_trigger h OPERATION_STORE -> store_stable size a x h ->
  simulates (store_slow_path a (le_bytes size (uw (8 * Z.of_nat size) x)) 0) (store_spec size a x) h.
Proof.
  intros I C N T. unfold store_stable in T. revert T.
  unfold store_slow_path, store_spec, lift, gets, modify, bind, ret, throw_trap, throw.
  rewrite le_bytes_length. set (bytes := le_bytes size _).
  destruct (translate h a (Z.of_nat size) STORE 0) as [e|paddr] eqn:E; intros T.
  - apply simulates_same; rewrite E; [reflexivity|exact C|apply N].
  - unfold simulates. rewrite E.
    destruct (addr_to_mem (sim h) paddr) as [p|] eqn:A; cbn [snd] in T.
    + rewrite check_trigger_none, A by auto.
      destruct (refill_tlb_coherent (h <| sim ::= fun sm => host_store sm p bytes |>) a _ STORE paddr p I
        ltac:(discriminate) ltac:(now rewrite T) ltac:(now rewrite <- A; apply host_store_mem)
        (store_mem_coherent h p bytes T C)) as (m' & R & C' & Mt & _).
      rewrite R. exists m'. split; [reflexivity|]. split; [exact C'|]. rewrite Mt. apply N.
    + rewrite check_trigger_none, A by auto.
      destruct (mmu_mmio_store paddr bytes h) as [[e|r] h'] eqn:Mm;
        destruct (mmu_mmio_store_view _ _ _ _ _ Mm) as [V Em];
        [|destruct r]; exists (mmu h'); rewrite set_own_mmu; (split; [reflexivity|]);
        (split; [now apply (coherent_mmio h)|rewrite Em; apply N]).
Qed.

Lemma store_func_simulates h size x a : In size [1; 2; 4; 8]%nat -> fits 64 a ->
  misaligned a size = false -> tlb_coherent h -> no_trigger h OPERATION_STORE ->
  store_stable size a x h ->
  simulates (store_func size 0 a x) (store_spec size a x) h.
Proof.
  intros Hs F Al C N T. pose proof (access_in_page a size Hs F Al) as I.
  pose proof (store_slow_path_simulates h size x a I C N T) as Slow.
  pose proof (proj2 C a _ I) as Hit. unfold tag_hit in Hit.
  unfold simulates in *. unfold store_func, gets, bind, ret, throw_trap, throw.
  cbn [z2b Z.eqb negb when ret]. change PGSHIFT with 12. rewrite Al.
  set (bytes := le_bytes size (uw (8 * Z.of_nat size) x)) in *.
  set (q := host_offset (tlb_entry (tlb_data (mmu h)) ((a >>w 12) mod TLB_ENTRIES)) +w a) in *.
  assert (Fast : forall paddr p, translate h a (Z.of_nat size) STORE 0 = inr paddr ->
      addr_to_mem (sim h) paddr = Some p -> q = p ->
      simulates (modify (fun h => h <| sim ::= fun sm => host_store sm q bytes |>)) (store_spec size a x) h).
  { intros paddr p E A ->. assert (Sp : store_spec size a x h =
      (inr tt, h <| sim ::= fun sm => host_store sm p bytes |>))
      by (unfold store_spec, lift, gets, bind, modify; now rewrite E, A).
    apply simulates_same; rewrite Sp; [reflexivity| |apply N].
    apply store_mem_coherent; [|exact C]. unfold store_stable in T. now rewrite Sp in T. }
  unfold simulates in Fast.
  destruct (_ =? a >>w 12); [|destruct (_ =? (a >>w 12 |w TLB_CHECK_TRIGGERS))].
  - destruct (Hit eq_refl) as (paddr & p & E & A & O).
    destruct (Fast paddr p E A O) as (m' & Em & R). exists m'. now rewrite <- Em.
  - rewrite check_trigger_none by auto. destruct (Hit eq_refl) as (paddr & p & E & A & O).
    destruct (Fast paddr p E A O) as (m' & Em & R). exists m'. now rewrite <- Em.
  - destruct Slow as (m' & Em & R). exists m'. rewrite Em. split; [|exact R].
    now destruct (store_spec size a x h) as [[e|[]] h'].
Qed.

(** ** Sequences of accesses *)

Inductive access :=
| Read (size : nat) (a : Z)
| Write (size : nat) (a x : Z).

Definition access_size (x : access) : nat := match x with Read n _ => n | Write n _ _ => n end.
Definition access_addr (x : access) : Z := match x with Read _ a => a | Write _ a _ => a end.

(** One access, through the TLBs or by the specification; stores return [0]. *)
Definition run_access (load : nat -> Z -> State.M S Z) (store : nat -> Z -> Z -> State.M S unit)
    (x : access) : State.M S Z :=
  match x with
  | Read n a => load n a
  | Write n a v => store n a v ;; ret 0
  end.

(** A sequence: the result of every access, a trap does not stop it. *)
Fixpoint run_accesses (load : nat -> Z -> State.M S Z) (store : nat -> Z -> Z -> State.M S unit)
    (xs : list access) h : list (exn + Z) * hart :=
  match xs with
  | [] => ([], h)
  | x :: xs' =>
    let '(r, h1) := run_access load store x h in
    let '(rs, h2) := run_accesses load store xs' h1 in
    (r :: rs, h2)
  end.

Definition tlb_run := run_accesses (fun n => load_func n (uw (8 * Z.of_nat n)) 0) (fun n => store_func n 0).
Definition spec_run := run_accesses (fun n => load_spec n (uw (8 * Z.of_nat n))) store_spec.

(** Each access is aligned, and each store (of the specification's run) leaves
    translation alone. *)
Fixpoint well_behaved (xs : list access) h : Prop :=
  match xs with
  | [] => True
  | x :: xs' =>
    In (access_size x) [1; 2; 4; 8]%nat /\ fits 64 (access_addr x) /\
    misaligned (access_addr x) (access_size x) = false /\
    match x with Read _ _ => True | Write n a v => store_stable n a v h end /\
    well_behaved xs' (run_access (fun n => load_spec n (uw (8 * Z.of_nat n))) store_spec x h).2
  end.

(** Harts that differ only in their MMU. *)
Definition eq_but_mmu h h' : Prop := exists m', h' = h <| mmu := m' |>.

(** No access triggers, in a run that changes nothing but memory and [mip]. *)
Definition no_triggers h : Prop := no_trigger h OPERATION_LOAD /\ no_trigger h OPERATION_STORE.

Lemma load_spec_mmu n cast a h m : load_spec n cast a (h <| mmu := m |>) =
  ((load_spec n cast a h).1, (load_spec n cast a h).2 <| mmu := m |>).
Proof.
  unfold load_spec, lift, gets, bind, ret, throw_trap, throw.
  change (translate (h <| mmu := m |>)) with (translate h). change (sim (h <| mmu := m |>)) with (sim h).
  destruct (translate h _ _ _ _); [reflexivity|]. destruct (addr_to_mem _ _); [reflexivity|].
  unfold mmu_mmio_load. change (mmio_ok (h <| mmu := m |>)) with (mmio_ok h).
  change (sim (h <| mmu := m |>)) with (sim h). change (st (h <| mmu := m |>)) with (st h).
  destruct (negb _); [reflexivity|]. destruct (mmio_load _ _ _ _) as [[[]]]; reflexivity.
Qed.

Lemma store_spec_mmu n a v h m : store_spec n a v (h <| mmu := m |>) =
  ((store_spec n a v h).1, (store_spec n a v h).2 <| mmu := m |>).
Proof.
  unfold store_spec, lift, gets, bind, ret, throw_trap, throw, modify.
  change (translate (h <| mmu := m |>)) with (translate h). change (sim (h <| mmu := m |>)) with (sim h).
  destruct (translate h _ _ _ _); [reflexivity|]. destruct (addr_to_mem _ _); [reflexivity|].
  unfold mmu_mmio_store. change (mmio_ok (h <| mmu := m |>)) with (mmio_ok h).
  change (sim (h <| mmu := m |>)) with (sim h). change (st (h <| mmu := m |>)) with (st h).
  destruct (negb _); [reflexivity|]. destruct (mmio_store _ _ _ _) as [[[]]]; reflexivity.
Qed.

Lemma run_access_spec_mmu x h m :
  let sp := run_access (fun n => load_spec n (uw (8 * Z.of_nat n))) store_spec x in
  sp (h <| mmu := m |>) = ((sp h).1, (sp h).2 <| mmu := m |>).
Proof.
  destruct x as [n a|n a v]; cbn [run_access]; [apply load_spec_mmu|].
  cbv zeta. unfold bind, ret. rewrite store_spec_mmu. now destruct (store_spec n a v h) as [[|[]] ?].
Qed.

(** Accesses change the architectural state in [mip] only. *)
Definition same_regs h h' : Prop := st h' = (st h) <| mip := mip (st h') |> /\ proc h' = proc h.

Lemma run_access_spec_regs x h :
  same_regs h (run_access (fun n => load_spec n (uw (8 * Z.of_nat n))) store_spec x h).2.
Proof.
  assert (R : same_regs h h) by (split; [now destruct h as [[]]|reflexivity]).
  destruct x as [n a|n a v]; cbn [run_access];
    unfold load_spec, store_spec, lift, gets, bind, ret, throw_trap, throw, modify.
  - destruct (translate _ _ _ _ _); [exact R|]. destruct (addr_to_mem _ _); [exact R|].
    destruct (mmu_mmio_load _ _ _) as [[e|[|]] h'] eqn:E;
      destruct (mmu_mmio_load_view _ _ _ _ _ E) as [(V1 & V2 & _) _]; now split.
  - destruct (translate _ _ _ _ _); [exact R|]. destruct (addr_to_mem _ _);
      [split; [now destruct h as [[]]|reflexivity]|].
    destruct (mmu_mmio_store _ _ _) as [[e|[|]] h'] eqn:E;
      destruct (mmu_mmio_store_view _ _ _ _ _ E) as [(V1 & V2 & _) _]; now split.
Qed.

Lemma no_triggers_regs h h' : same_regs h h' -> matched_trigger (mmu h') = None ->
  no_triggers h -> no_triggers h'.
Proof.
  intros [E P] M [[_ N1] [_ N2]].
  split; (split; [exact M|]); intros a d; rewrite E, P; [apply N1|apply N2].
Qed.

Lemma run_access_simulates x h m xs : well_behaved (x :: xs) h ->
  tlb_coherent (h <| mmu := m |>) -> no_triggers (h <| mmu := m |>) ->
  simulates (run_access (fun n => load_func n (uw (8 * Z.of_nat n)) 0) (fun n => store_func n 0) x)
            (run_access (fun n => load_spec n (uw (8 * Z.of_nat n))) store_spec x) (h <| mmu := m |>).
Proof.
  intros (Hs & F & Al & Hst & _) C [NL NS]. destruct x as [n a|n a v]; cbn [run_access access_size access_addr] in *.
  - now apply load_func_simulates.
  - assert (T : store_stable n a v (h <| mmu := m |>)).
    { intros a' len type. rewrite store_spec_mmu. exact (Hst a' len type). }
    destruct (store_func_simulates _ n v a Hs F Al C NS T) as (m' & E & C' & M).
    exists m'. unfold bind, ret. rewrite E.
    destruct (store_spec n a v (h <| mmu := m |>)) as [[e|[]] h']; now split.
Qed.

Lemma run_accesses_simulates xs : forall h m, well_behaved xs h ->
  tlb_coherent (h <| mmu := m |>) -> no_triggers (h <| mmu := m |>) ->
  (tlb_run xs (h <| mmu := m |>)).1 = (spec_run xs h).1 /\
  eq_but_mmu (spec_run xs h).2 (tlb_run xs (h <| mmu := m |>)).2 /\
  tlb_coherent (tlb_run xs (h <| mmu := m |>)).2.
Proof.
  induction xs as [|x xs IH]; intros h m W C N; [split; [reflexivity|split; [now exists m|exact C]]|].
  destruct (run_access_simulates x h m xs W C N) as (m' & E & C' & M).
  unfold tlb_run, spec_run in *. cbn [run_accesses]. rewrite E, run_access_spec_mmu in *. cbn [fst snd] in *.
  destruct W as (_ & _ & _ & _ & W).
  pose proof (run_access_spec_regs x h) as R.
  destruct (run_access (fun n => load_spec n (uw (8 * Z.of_nat n))) store_spec x h) as [r h1]. cbn [fst snd] in *.
  destruct (IH h1 m' W C') as (I1 & I2 & I3).
  { apply (no_triggers_regs (h <| mmu := m |>)); auto. }
  change (h1 <| mmu := m |> <| mmu := m' |>) with (h1 <| mmu := m' |>).
  destruct (run_accesses _ _ xs (h1 <| mmu := m' |>)) as [rs h2]. destruct (run_accesses _ _ xs h1) as [rs' h2'].
  cbn [fst snd] in *. subst rs'. auto.
Qed.

End Coherence.

(** ** Property *)

(** C13.  Between flushes the TLBs are invisible, as long as no page-table entry in
    use is written.  From coherent TLBs, with no debug trigger set up to match
    and for a sequence of aligned loads and stores none of whose stores changes
    a translation ([well_behaved]), running them through the TLBs ([load_func],
    [store_func]) gives the results, traps included, and leaves the memory,
    devices and registers that the same sequence run by translating every access
    afresh ([load_spec], [store_spec]) gives, and leaves the TLBs coherent.  A
    flush makes the TLBs of every state coherent. *)
Theorem tlb_transparent {S : Type} `{!SimIf S} `{!SimIfLaws S} (h : State.hart S) (xs : list access) :
  tlb_coherent (flush_tlb h).2 /\
  (tlb_coherent h -> no_triggers h -> well_behaved xs h ->
   (tlb_run xs h).1 = (spec_run xs h).1 /\
   eq_but_mmu (spec_run xs h).2 (tlb_run xs h).2 /\
   tlb_coherent (tlb_run xs h).2).
Proof.
  split; [apply flush_coherent|]. intros C N W.
  pose proof (run_accesses_simulates xs h (mmu h) W) as R. rewrite set_own_mmu in R. now apply R.
Qed.
