(* ===== verification/Atomics.v ===== *)
(** * Atomics: what [amo_func] and the load reservation guarantee

    Contracts of the member functions of [mmu_t] behind the A extension
    ([riscv/mmu.h]: [amo_func], [acquire_load_reservation],
    [check_load_reservation], [yield_load_reservation]), proved from the TLB
    simulation of [Tlb]. *)
From Stdlib Require Import ZArith Lia Bool List.
From stdpp Require Import base list gmap.
From S2P Require Import Prelude Arith Encoding Decode State Processor Pmp Mmu MmuFacts Tlb.
#[local] Open Scope Z_scope.
#[local] Open Scope word_scope.
#[local] Open Scope record_scope.
#[local] Open Scope monad_scope.


Section Atomics.
Context {S : Type} `{!SimIf S} `{!SimIfLaws S}.
#[local] Notation hart := (State.hart S).
Implicit Types h : hart.









Section Amo.
Variables (h : hart) (size : nat) (a : Z) (f : Z -> Z).
Hypothesis Hsize : In size [4; 8]%nat.
Hypothesis Ha : fits 64 a.
Hypothesis Al : misaligned a size = false.
Hypothesis C : tlb_coherent h.
Hypothesis N : no_triggers h.

#[local] Notation old p := (uw (8 * Z.of_nat size) (host_load_int (sim h) p size)).





End Amo.

(** ** Reservations *)

Lemma target_entry paddr a p : fits 64 paddr ->
  target_offset (mk_tlb_entry (p -w a) (paddr -w a)) +w a = paddr.
Proof. intros F. cbn. unfold add64, sub64. rewrite uw_add_l, Z.sub_add. now apply uw_small. Qed.

Lemma translate_fits h a len type fl paddr : fits 64 a -> translate h a len type fl = inr paddr -> fits 64 paddr.
Proof.
  intros Fa E. destruct (translate_walk _ _ _ _ _ _ Fa E) as (P & _ & F & Al & -> & _).
  pose proof (Z.mod_pos_bound a (2 ^ 12) ltac:(lia)). unfold fits in *. Z.div_mod_to_equations; lia.
Qed.

Lemma byte_in_page a : fits 64 a -> in_page a 1.
Proof. intros F. split; [exact F|]. pose proof (Z.mod_pos_bound a (2 ^ 12) ltac:(lia)). lia. Qed.

Lemma acquire_memory h a paddr p : fits 64 a -> tlb_coherent h ->
  translate h a 1 LOAD 0 = inr paddr -> addr_to_mem (sim h) paddr = Some p ->
  exists m', acquire_load_reservation a h = (inr tt, h <| mmu := m' |>) /\
    load_reservation_address m' = paddr /\ tlb_coherent (h <| mmu := m' |>).
Proof.
  intros Fa C E A. unfold acquire_load_reservation, lift, gets, modify, bind. rewrite E, A.
  destruct (refill_tlb_coherent h a 1 LOAD paddr p (byte_in_page a Fa) ltac:(discriminate) E A C)
    as (m' & R & C' & _).
  rewrite R, target_entry by (now apply (translate_fits _ _ _ _ _ _ Fa E)).
  eexists. split; [reflexivity|]. split; [reflexivity|].
  revert C'. apply coherent_view; [now split; [destruct h as [[]]|]|reflexivity..].
Qed.

Lemma check_memory h a size paddr p : fits 64 a -> tlb_coherent h -> misaligned a size = false ->
  translate h a 1 STORE 0 = inr paddr -> addr_to_mem (sim h) paddr = Some p ->
  exists m', check_load_reservation a size h =
      (inr (load_reservation_address (mmu h) =? paddr), h <| mmu := m' |>) /\
    load_reservation_address m' = load_reservation_address (mmu h) /\ tlb_coherent (h <| mmu := m' |>).
Proof.
  intros Fa C Al E A. unfold check_load_reservation. rewrite Al.
  unfold lift, gets, bind. rewrite E, A.
  destruct (refill_tlb_coherent h a 1 STORE paddr p (byte_in_page a Fa) ltac:(discriminate) E A C)
    as (m' & R & C' & _ & L).
  rewrite R, target_entry by (now apply (translate_fits _ _ _ _ _ _ Fa E)). exists m'.
  rewrite <- L. now split.
Qed.

End Atomics.

(** ** Properties *)


(** C29.  The reservation of LR is the physical address it translated to:
    after [acquire_load_reservation] at one address, an SC's
    [check_load_reservation] at any aligned address succeeds exactly when that
    address translates to the same physical address, and after
    [yield_load_reservation] it fails unless the address is the impossible
    [-1].  Checking does not consume the reservation; registers and memory are
    never changed. *)
Theorem reservation_exact {S : Type} `{!SimIf S} `{!SimIfLaws S} (h : State.hart S)
    (a a' paddr p paddr' p' : Z) (size : nat) :
  fits 64 a -> fits 64 a' -> tlb_coherent h -> misaligned a' size = false ->
  translate h a 1 LOAD 0 = inr paddr -> addr_to_mem (sim h) paddr = Some p ->
  translate h a' 1 STORE 0 = inr paddr' -> addr_to_mem (sim h) paddr' = Some p' ->
  (exists m1 m2, acquire_load_reservation a h = (inr tt, h <| mmu := m1 |>) /\
     check_load_reservation a' size (h <| mmu := m1 |>) = (inr (paddr =? paddr'), h <| mmu := m2 |>) /\
     load_reservation_address m2 = paddr) /\
  (exists m1 m2, yield_load_reservation h = (inr tt, h <| mmu := m1 |>) /\
     check_load_reservation a' size (h <| mmu := m1 |>) = (inr (minus_1 =? paddr'), h <| mmu := m2 |>)).
Proof.
  intros Fa Fa' C Al E A E' A'. split.
  - destruct (acquire_memory h a paddr p Fa C E A) as (m1 & R1 & L1 & C1).
    destruct (check_memory (h <| mmu := m1 |>) a' size paddr' p' Fa' C1 Al E' A') as (m2 & R2 & L2 & _).
    exists m1, m2. split; [exact R1|]. rewrite <- L1. split; [exact R2|exact L2].
  - assert (C' : tlb_coherent (yield_load_reservation h).2)
      by (apply (coherent_view h); [split; [now destruct h as [[]]|now split]|reflexivity..|exact C]).
    destruct (check_memory (yield_load_reservation h).2 a' size paddr' p' Fa' C' Al E' A') as (m2 & R2 & _).
    eexists _, m2. split; [reflexivity|]. exact R2.
Qed.
