(* ===== verification/Sim.v ===== *)
(** * Sim: the platform behind [simif_t]

    [sim_t]'s part of the interface ([riscv/sim.cc]: [paddr_ok],
    [addr_to_mem], [mmio_load], [mmio_store]), the bus and its devices
    ([riscv/devices.h], [devices.cc], [rom.cc], [clint.cc]) for a machine of one
    hart.  The bus is filled before the simulation runs, so it parameterises
    the state.  The CLINT keeps simulated time ([--real-time-clint] is off);
    plugin devices are not on the modelled bus, and neither is the debug module,
    which [DebugModule] puts beside it. *)
From Stdlib Require Import ZArith Lia Bool List.
From stdpp Require Import base list gmap.
From S2P Require Import Prelude Arith Encoding Decode State Processor Pmp Mmu Csr TrapEntry Fields CsrFacts CsrProps MmuFacts Tlb Atomics.
#[local] Open Scope Z_scope.
#[local] Open Scope word_scope.
#[local] Open Scope record_scope.


(** ** The bus *)

(** The devices on the bus; a memory is its [contents()] pointer and its size. *)
Inductive device_t :=
| D_mem (contents size : Z)
| D_rom (data : list Z)
| D_clint.

(** [std::map]: a list with strictly increasing keys. *)
Definition bus_t : Type := list (Z * device_t).

Fixpoint add_device (devices : bus_t) (addr : Z) (dev : device_t) : bus_t :=
  match devices with
  | [] => [(addr, dev)]
  | (k, d) :: rest =>
    if addr <? k then (addr, dev) :: devices
    else if addr =? k then (addr, dev) :: rest
    else (k, d) :: add_device rest addr dev
  end.

(** The element before [upper_bound(addr)]. *)
Fixpoint find_device (devices : bus_t) (addr : Z) : option (Z * device_t) :=
  match devices with
  | [] => None
  | (k, d) :: rest =>
    if addr <? k then None
    else match find_device rest addr with Some x => Some x | None => Some (k, d) end
  end.

(** ** The CLINT *)

Record clint_t := mk_clint { mtime : Z; mtimecmp : list Z }.

Definition MSIP_BASE : Z := 0x0.
Definition MTIMECMP_BASE : Z := 0x4000.
Definition MTIME_BASE : Z := 0xbff8.

(** [memcpy] out of and into the little-endian representation of an object. *)
Definition copy_out (obj : list Z) (off : Z) (len : nat) : list Z := firstn len (skipn (Z.to_nat off) obj).
Definition copy_in (obj : list Z) (off : Z) (bytes : list Z) : list Z :=
  firstn (Z.to_nat off) obj ++ bytes ++ skipn (Z.to_nat off + length bytes) obj.

Definition clint_increment (c : clint_t) (mip : Z) (inc : Z) : clint_t * Z :=
  let t := mtime c +w inc in
  let mip := mip &w not64 MIP_MTIP in
  let mip := if nth 0 (mtimecmp c) 0 <=? t then mip |w MIP_MTIP else mip in
  (mk_clint t (mtimecmp c), mip).

Definition clint_load (c : clint_t) (mip addr : Z) (len : nat) : option (list Z) * clint_t * Z :=
  let '(c, mip) := clint_increment c mip 0 in
  let n := Z.of_nat len in
  if (MSIP_BASE <=? addr) && (addr +w n <=? MSIP_BASE + 4) then
    (Some (copy_out (le_bytes 4 (b2z (z2b (mip &w MIP_MSIP)))) (addr - MSIP_BASE) len), c, mip)
  else if (MTIMECMP_BASE <=? addr) && (addr +w n <=? MTIMECMP_BASE + 8) then
    (Some (copy_out (le_bytes 8 (nth 0 (mtimecmp c) 0)) (addr - MTIMECMP_BASE) len), c, mip)
  else if (MTIME_BASE <=? addr) && (addr +w n <=? MTIME_BASE + 8) then
    (Some (copy_out (le_bytes 8 (mtime c)) (addr - MTIME_BASE) len), c, mip)
  else (None, c, mip).

Definition clint_store (c : clint_t) (mip addr : Z) (bytes : list Z) : bool * clint_t * Z :=
  let n := Z.of_nat (length bytes) in
  if (MSIP_BASE <=? addr) && (addr +w n <=? MSIP_BASE + 4) then
    let msip := le_value (copy_in (le_bytes 4 0) (addr - MSIP_BASE) bytes) in
    let mask := le_value (copy_in (le_bytes 4 0) (addr - MSIP_BASE) (map (fun _ => 0xff) bytes)) in
    let mip :=
      if negb (z2b (mask &w 0xFF)) then mip
      else
        let mip := mip &w not64 MIP_MSIP in
        if z2b (msip &w 1) then mip |w MIP_MSIP else mip in
    let '(c, mip) := clint_increment c mip 0 in (true, c, mip)
  else if (MTIMECMP_BASE <=? addr) && (addr +w n <=? MTIMECMP_BASE + 8) then
    let cmp := le_value (copy_in (le_bytes 8 (nth 0 (mtimecmp c) 0)) (addr - MTIMECMP_BASE) bytes) in
    let '(c, mip) := clint_increment (mk_clint (mtime c) [cmp]) mip 0 in (true, c, mip)
  else if (MTIME_BASE <=? addr) && (addr +w n <=? MTIME_BASE + 8) then
    let t := le_value (copy_in (le_bytes 8 (mtime c)) (addr - MTIME_BASE) bytes) in
    let '(c, mip) := clint_increment (mk_clint t (mtimecmp c)) mip 0 in (true, c, mip)
  else (false, c, mip).

(** ** Devices *)

Definition rom_load (data : list Z) (addr : Z) (len : nat) : option (list Z) :=
  if Z.of_nat (length data) <? addr +w Z.of_nat len then None else Some (copy_out data addr len).

Definition device_load (d : device_t) (c : clint_t) (mip addr : Z) (len : nat) : option (list Z) * clint_t * Z :=
  match d with
  | D_mem _ _ => (None, c, mip)
  | D_rom data => (rom_load data addr len, c, mip)
  | D_clint => clint_load c mip addr len
  end.

Definition device_store (d : device_t) (c : clint_t) (mip addr : Z) (bytes : list Z) : bool * clint_t * Z :=
  match d with
  | D_mem _ _ | D_rom _ => (false, c, mip)
  | D_clint => clint_store c mip addr bytes
  end.

Definition bus_load (bus : bus_t) (c : clint_t) (mip addr : Z) (len : nat) : option (list Z) * clint_t * Z :=
  match find_device bus addr with
  | None => (None, c, mip)
  | Some (base, d) => device_load d c mip (addr -w base) len
  end.

Definition bus_store (bus : bus_t) (c : clint_t) (mip addr : Z) (bytes : list Z) : bool * clint_t * Z :=
  match find_device bus addr with
  | None => (false, c, mip)
  | Some (base, d) => device_store d c mip (addr -w base) bytes
  end.

(** ** [sim_t] *)

Definition paddr_ok (addr : Z) : bool := addr >>w MAX_PADDR_BITS =? 0.

(** The changing part of [sim_t]: host memory ([calloc]ed: absent bytes are
    zero) and the CLINT; the type carries the bus. *)
Record sim_t (bus : bus_t) := mk_sim { host_memory : gmap Z Z; clint : clint_t }.
Arguments host_memory {bus} s : rename.
Arguments clint {bus} s : rename.

Section Sim.
Variable bus : bus_t.

#[local] Notation sim_t := (Sim.sim_t bus).
#[local] Notation mk_sim := (Sim.mk_sim bus).

Definition sim_addr_to_mem (addr : Z) : option Z :=
  if negb (paddr_ok addr) then None
  else
    match find_device bus addr with
    | Some (base, D_mem contents size) =>
      if addr -w base <? size then Some (contents + (addr -w base)) else None
    | _ => None
    end.

Definition sim_mmio_ok (addr n : Z) : bool :=
  negb (addr +w n <? addr) && paddr_ok (addr +w n -w 1).

Definition sim_mmio_load (s : sim_t) (mip addr : Z) (len : nat) : option (list Z) * sim_t * Z :=
  if negb (sim_mmio_ok addr (Z.of_nat len)) then (None, s, mip)
  else
    let '(r, c, mip) := bus_load bus (clint s) mip addr len in
    (r, mk_sim (host_memory s) c, mip).

Definition sim_mmio_store (s : sim_t) (mip addr : Z) (bytes : list Z) : bool * sim_t * Z :=
  if negb (sim_mmio_ok addr (Z.of_nat (length bytes))) then (false, s, mip)
  else
    let '(r, c, mip) := bus_store bus (clint s) mip addr bytes in
    (r, mk_sim (host_memory s) c, mip).

#[local] Instance sim_simif : SimIf sim_t := {
  addr_to_mem := fun _ => sim_addr_to_mem;
  host_read := fun s p => u8 (default 0 (host_memory s !! p));
  host_write := fun s p x => mk_sim (<[p := x]> (host_memory s)) (clint s);
  mmio_load := sim_mmio_load;
  mmio_store := sim_mmio_store
}.

(** Every device starts on a page boundary, memories are whole pages
    ([make_mems]), and their contents are objects of the host. *)
Definition device_ok (x : Z * device_t) : Prop :=
  fits 64 x.1 /\ x.1 mod 2 ^ 12 = 0 /\
  match x.2 with
  | D_mem contents size => 0 <= contents /\ contents + size <= 2 ^ 64 /\ size mod 2 ^ 12 = 0
  | _ => True
  end.
Definition bus_ok : Prop := Forall device_ok bus.

Lemma find_device_in (b : bus_t) addr x : find_device b addr = Some x -> In x b /\ x.1 <= addr.
Proof.
  induction b as [|[k d] b IH]; cbn [find_device]; [discriminate|].
  destruct (Z.ltb_spec addr k); [discriminate|].
  destruct (find_device b addr) as [y|]; intros [= <-]; [|split; [now left|auto]].
  destruct (IH eq_refl). split; [now right|auto].
Qed.

Lemma find_device_page (b : bus_t) a a' : Forall device_ok b -> a' >>w 12 = a >>w 12 ->
  find_device b a' = find_device b a.
Proof.
  intros Hb Hp. induction Hb as [|[k d] b (F & A & _) _ IH]; cbn [find_device]; [reflexivity|].
  rewrite IH. cbn [fst] in *. replace (a' <? k) with (a <? k); [reflexivity|].
  rewrite !Z.shiftr_div_pow2 in Hp by lia. bcases; try reflexivity; Z.div_mod_to_equations; lia.
Qed.

Lemma sim_addr_to_mem_range a p : bus_ok -> sim_addr_to_mem a = Some p -> fits 64 p.
Proof.
  intros Hb. unfold sim_addr_to_mem. destruct (negb _); [discriminate|].
  destruct (find_device bus a) as [[base [contents size| |]]|] eqn:E; try discriminate.
  destruct (Z.ltb_spec (a -w base) size); [|discriminate]. intros [= <-].
  destruct (find_device_in _ _ _ E) as [Hin _].
  unfold bus_ok in Hb. rewrite Forall_forall in Hb. destruct (Hb _ (proj2 (list_elem_of_In _ _) Hin)) as (_ & _ & C1 & C2 & _).
  pose proof (uw_fits 64 (a - base) ltac:(lia)). unfold sub64, fits in *. lia.
Qed.

Lemma sim_addr_to_mem_page a p a' : bus_ok -> fits 64 a -> fits 64 a' -> a' >>w 12 = a >>w 12 ->
  sim_addr_to_mem a = Some p -> sim_addr_to_mem a' = Some (p + (a' - a)).
Proof.
  intros Hb Fa Fa' Hp. unfold sim_addr_to_mem.
  replace (paddr_ok a') with (paddr_ok a).
  2: { unfold paddr_ok, MAX_PADDR_BITS. change 32 with (12 + 20). now rewrite (same_page_shiftr a' a) by (auto; lia). }
  destruct (negb _); [discriminate|]. rewrite (find_device_page bus a a') by auto.
  destruct (find_device bus a) as [[base [contents size| |]]|] eqn:E; try discriminate.
  assert (H : In (base, D_mem contents size) bus /\ base <= a) by (apply (find_device_in _ _ _ E)).
  assert (H' : base <= a').
  { apply (find_device_in bus a' (base, D_mem contents size)). now rewrite (find_device_page bus a a'). }
  unfold bus_ok in Hb. rewrite Forall_forall in Hb.
  destruct (Hb _ (proj2 (list_elem_of_In _ _) (proj1 H))) as (Fb & Ab & C1 & C2 & C3). cbn [fst snd] in *.
  unfold sub64. unfold fits in *.
  rewrite !(uw_small 64 (_ - base)) by (unfold fits; lia).
  destruct (Z.ltb_spec (a - base) size); [|discriminate]. intros [= <-].
  destruct (Z.ltb_spec (a' - base) size); [f_equal; lia|].
  exfalso. rewrite !Z.shiftr_div_pow2 in Hp by lia. Z.div_mod_to_equations; lia.
Qed.

Lemma clint_increment_fits c mip inc : fits 64 mip -> fits 64 (clint_increment c mip inc).2.
Proof.
  intros F. unfold clint_increment. cbn [snd].
  assert (G : fits 64 (mip &w not64 MIP_MTIP)) by (apply land_fits_l; [lia|exact F]).
  destruct (_ <=? _); [|exact G]. apply lor_fits; [lia|exact G|split; [discriminate|reflexivity]].
Qed.

Lemma clint_load_fits c mip addr n : fits 64 mip -> fits 64 (clint_load c mip addr n).2.
Proof.
  intros F. unfold clint_load. pose proof (clint_increment_fits c mip 0 F) as G.
  destruct (clint_increment c mip 0) as [c' mip']. cbn [snd] in G.
  repeat match goal with |- context [if ?b then _ else _] => destruct b end; exact G.
Qed.

Lemma clint_store_fits c mip addr bytes : fits 64 mip -> fits 64 (clint_store c mip addr bytes).2.
Proof.
  intros F. unfold clint_store. cbv zeta.
  assert (B : fits 64 MIP_MSIP) by (split; [discriminate|reflexivity]).
  assert (G : fits 64 (mip &w not64 MIP_MSIP)) by (apply land_fits_l; [lia|exact F]).
  assert (D : forall c mip inc, fits 64 mip -> fits 64 (let '(c', mip') := clint_increment c mip inc in (true, c', mip')).2).
  { intros c1 mip1 inc F1. pose proof (clint_increment_fits c1 mip1 inc F1). now destruct (clint_increment _ _ _). }
  repeat match goal with |- context [if ?b then _ else _] => destruct b end; auto; apply D; auto.
  apply lor_fits; auto; lia.
Qed.

Lemma sim_laws : bus_ok -> SimIfLaws sim_t.
Proof.
  intros Hb. split.
  - intros s p. apply uw_fits. lia.
  - intros s p x q Fx. cbn [host_read host_write sim_simif host_memory].
    destruct (Z.eqb_spec q p) as [->|].
    + rewrite lookup_insert_eq. now apply uw_small.
    + now rewrite lookup_insert_ne.
  - reflexivity.
  - intros s a p. now apply sim_addr_to_mem_range.
  - intros s a p a'. now apply sim_addr_to_mem_page.
  - intros s m a n. cbn. unfold sim_mmio_load. destruct (negb _); [now split|].
    destruct (bus_load _ _ _ _ _) as [[r c] mip]. now split.
  - intros s m a bs. cbn. unfold sim_mmio_store. destruct (negb _); [now split|].
    destruct (bus_store _ _ _ _ _) as [[r c] mip]. now split.
  - intros s m a n F. cbn. unfold sim_mmio_load, bus_load. destruct (negb _); [exact F|].
    assert (G : forall d b, fits 64 (device_load d (clint s) m b n).2) by (intros [] b; try exact F; now apply clint_load_fits).
    destruct (find_device _ _) as [[base d]|]; [|exact F].
    specialize (G d (a -w base)). now destruct (device_load _ _ _ _ _) as [[r c] mip].
  - intros s m a bs F. cbn. unfold sim_mmio_store, bus_store. destruct (negb _); [exact F|].
    assert (G : forall d b, fits 64 (device_store d (clint s) m b bs).2) by (intros [] b; try exact F; now apply clint_store_fits).
    destruct (find_device _ _) as [[base d]|]; [|exact F].
    specialize (G d (a -w base)). now destruct (device_store _ _ _ _ _) as [[r c] mip].
Qed.

End Sim.

(** ** A concrete machine *)

#[export] Existing Instance sim_simif.

(** 64 KiB of memory at [DRAM_BASE], a CLINT and a boot ROM. *)
Definition example_bus : bus_t :=
  add_device (add_device (add_device [] 0x80000000 (D_mem 0x7f0000001010 0x10000))
    CLINT_BASE D_clint) DEFAULT_RSTVEC (D_rom (repeat 0x13 4096)).

Lemma example_bus_ok : bus_ok example_bus.
Proof. unfold bus_ok, device_ok. repeat constructor; cbn; try reflexivity; discriminate. Qed.

#[export] Instance example_laws : SimIfLaws (sim_t example_bus) := sim_laws _ example_bus_ok.

Definition example_mmu : mmu_t := mk_mmu minus_1 0 ∅ ∅ ∅ ∅ false false false None ∅.

Definition example_hart : State.hart (sim_t example_bus) :=
  mk_hart (state_reset 0) example_processor example_mmu (mk_sim _ ∅ (mk_clint 0 [0])) (SoftFloat.mk_fenv 0 0).

(** Sv39 on: three levels of tables at [0x80001000], mapping the page
    [0x40000000] to [0x80005000]; [mtvec] and the rest as after reset. *)
Definition example_paged : State.hart (sim_t example_bus) :=
  let pte sm a x := host_store sm (0x7f0000001010 + (a - 0x80000000)) (le_bytes 8 x) in
  let sm := pte (mk_sim example_bus ∅ (mk_clint 0 [0])) 0x80001008 (Z.shiftl 0x80002 10 |w PTE_V) in
  let sm := pte sm 0x80002000 (Z.shiftl 0x80003 10 |w PTE_V) in
  let sm := pte sm 0x80003000
    (Z.shiftl 0x80005 10 |w PTE_V |w PTE_R |w PTE_W |w PTE_A |w PTE_D) in
  mk_hart
    (set_field_of satp (fun _ => Z.shiftl SATP_MODE_SV39 60 |w 0x80001)
      (set_field_of prv (fun _ => PRV_S) (state_reset 0)))
    (set_field_of n_pmp (fun _ => 0) example_processor) example_mmu sm (SoftFloat.mk_fenv 0 0).

Example example_paged_run :
  (tlb_run [Write 4 0x40000ff8 0xdeadbeef; Read 4 0x40000ff8; Read 8 0x40000ff8; Read 1 0x40001000]
    example_paged).1 =
  [inr 0; inr 0xdeadbeef; inr 0xdeadbeef; inl (E_trap (trap_load_page_fault 0x40001000 0 0))].
Proof. vm_compute. reflexivity. Qed.

(** A walk that reads no page table is the same whatever the memory holds. *)
Lemma bare_translate {bus : bus_t} (s : state_t) (p : processor_t) m m' (sm sm' : sim_t bus) fe a len type :
  debug_mode s = false -> get_field (mstatus s) MSTATUS_MPRV = 0 -> prv s = PRV_M -> v_ s = false ->
  translate (mk_hart s p m sm fe) a len type 0 = translate (mk_hart s p m' sm' fe) a len type 0.
Proof.
  intros D M P V. unfold translate, translate_mode, walk. cbn [st proc sim]. rewrite D, M, P, V.
  destruct (bool_decide _); reflexivity.
Qed.

Lemma tlb_transparent_witness :
  (tlb_run [Write 8 0x80004ff8 77; Read 8 0x80004ff8; Read 4 0x02004000] example_hart).1 =
  [inr 0; inr 77; inr 0].
Proof.
  destruct (tlb_transparent example_hart [Write 8 0x80004ff8 77; Read 8 0x80004ff8; Read 4 0x02004000])
    as [_ T].
  destruct T as [E _].
  - exact (flush_coherent example_hart).
  - split; (split; [reflexivity|intros a d; reflexivity]).
  - cbn [well_behaved access_size access_addr]. split; [right; right; right; now left|].
    split; [vm_compute; intuition congruence|]. split; [reflexivity|]. split.
    + intros a' len type. apply bare_translate; reflexivity.
    + repeat split; try (vm_compute; intuition congruence).
  - rewrite E. vm_compute. reflexivity.
Defined.

Lemma translate_permissions_witness :
  exists i pte_paddr pte, 0 <= i < 3 /\
     read_pte example_paged pte_paddr 8 = Some pte /\ bit pte PTE_W = true /\
     0x80005123 = leaf_paddr (i * 9) pte 0x40000123.
Proof.
  assert (E : translate example_paged 0x40000123 1 STORE 0 = inr 0x80005123) by (vm_compute; reflexivity).
  destruct (translate_permissions example_paged 0x40000123 1 0x80005123 STORE
    (mk_vm_info 3 9 0 8 0x80001000) ltac:(unfold fits; lia) E eq_refl eq_refl ltac:(cbn; lia))
    as ((i & a & pte & H1 & H2 & _ & (_ & _ & _ & (_ & H3 & _) & _) & H4) & _).
  exists i, a, pte. auto.
Defined.


Lemma reservation_exact_witness :
  exists m1 m2, acquire_load_reservation 0x80004ff8 example_hart = (inr tt, example_hart <| mmu := m1 |>) /\
    check_load_reservation 0x80004ff8 4 (example_hart <| mmu := m1 |>) =
      (inr true, example_hart <| mmu := m2 |>).
Proof.
  assert (A : addr_to_mem (sim example_hart) 0x80004ff8 = Some 0x7f0000006008) by (vm_compute; reflexivity).
  destruct (reservation_exact example_hart 0x80004ff8 0x80004ff8 0x80004ff8 0x7f0000006008
    0x80004ff8 0x7f0000006008 4 ltac:(unfold fits; lia) ltac:(unfold fits; lia)
    (flush_coherent example_hart) eq_refl eq_refl A eq_refl A) as [(m1 & m2 & E1 & E2 & _) _].
  exists m1, m2. auto.
Defined.

(** ** A processor with extensions A, C, D, F, I, M, S and U *)

Definition example_isa : Z :=
  fold_right (fun c x => x |w misa_bit c) (Z.shiftl 2 62)
    [chr_A; chr_C; chr_D; chr_F; chr_I; chr_M; chr_S; chr_U].

Definition example_soc : State.hart (sim_t example_bus) :=
  example_hart <| proc := set_field_of max_isa (fun _ => example_isa) example_processor |>.

Lemma example_soc_configured : configured (proc example_soc).
Proof. split; [now right|reflexivity]. Qed.

(** Delegation, a page table, a trap from user mode and a return. *)
Definition example_ops : list priv_op :=
  [Op_set_csr CSR_MEDELEG 0x100; Op_set_csr CSR_SATP 0x8000000000080001;
   Op_set_csr CSR_MSTATUS 0x2aaa; Op_return PRV_U;
   Op_take_trap (Trap CAUSE_USER_ECALL) 0x80000100].

Lemma privileged_state_legal_witness :
  csr_inv (st (run_priv_ops example_ops (processor_reset example_soc).2))
    (proc (run_priv_ops example_ops (processor_reset example_soc).2)) /\
  prv (st (run_priv_ops example_ops (processor_reset example_soc).2)) = PRV_S.
Proof.
  split; [|vm_compute; reflexivity].
  apply (privileged_state_legal example_soc example_ops).
  - exact example_soc_configured.
  - repeat apply List.Forall_cons; try apply List.Forall_nil; cbn; unfold PRV_U; try exact I; lia.
Defined.

(** Entry 1 locked as a top-of-range entry: neither it nor [pmpaddr0] moves. *)
Definition example_locked : State.hart (sim_t example_bus) :=
  set_csrs [(CSR_PMPADDR0, 0x100); (CSR_PMPADDR0 + 1, 0x200); (CSR_PMPCFG0, 0x8900)]
    (processor_reset example_soc).2.

Lemma pmp_lock_sticky_witness :
  get_pmpcfg (st (set_csrs [(CSR_PMPCFG0, 0); (CSR_PMPADDR0, 0)] example_locked)) 1 = 0x89 /\
  get_pmpaddr (st (set_csrs [(CSR_PMPCFG0, 0); (CSR_PMPADDR0, 0)] example_locked)) 0 = 0x100.
Proof.
  split.
  - rewrite (proj1 (pmp_lock_sticky example_locked [(CSR_PMPCFG0, 0); (CSR_PMPADDR0, 0)] 1 ltac:(lia)));
      vm_compute; reflexivity.
  - rewrite (proj2 (pmp_lock_sticky example_locked [(CSR_PMPCFG0, 0); (CSR_PMPADDR0, 0)] 0 ltac:(lia))).
    + vm_compute. reflexivity.
    + right. vm_compute. split; [reflexivity|]. split; reflexivity.
Defined.

(** In user mode the pending, enabled machine timer interrupt is taken before
    the delegated supervisor software interrupt. *)
Definition example_irq_ops : list priv_op :=
  [Op_set_csr CSR_MIE 0x82; Op_set_csr CSR_MIDELEG 2; Op_return PRV_U].
Definition example_irq_hart : State.hart (sim_t example_bus) :=
  run_priv_ops example_irq_ops (processor_reset example_soc).2.
Definition example_irq : state_t := (st example_irq_hart) <| mip := 0x82 |>.

Lemma example_irq_legal : csr_inv example_irq (proc example_irq_hart).
Proof.
  assert (F : Forall priv_op_ok example_irq_ops)
    by (repeat apply List.Forall_cons; try apply List.Forall_nil; cbn; unfold PRV_U; try exact I; lia).
  assert (R : after csr_inv processor_reset example_soc)
    by exact (reset_establishes _ example_soc_configured).
  exact (inv_mip (st example_irq_hart) (proc example_irq_hart) 0x82
    (run_priv_ops_inv example_irq_ops (processor_reset example_soc).2 F R)).
Qed.

Lemma interrupt_exact_witness :
  exists i, interrupt_exn example_irq (proc example_irq_hart) (mip example_irq &w mie example_irq) =
    Some (E_trap (Trap (interrupt_bit (proc example_irq_hart) |w i))) /\
  takeable example_irq i = true /\ Z.testbit (mideleg example_irq) i = false.
Proof.
  pose proof (interrupt_exact example_irq (proc example_irq_hart) example_irq_legal
    ltac:(split; [vm_compute; discriminate|vm_compute; reflexivity])) as H.
  destruct (interrupt_exn _ _ _) as [e|] eqn:X.
  - destruct H as (_ & i & -> & T & M & _). exists i. split; [reflexivity|split; [exact T|]].
    apply (M 7); [lia|vm_compute; reflexivity|vm_compute; reflexivity].
  - exfalso. vm_compute in X. discriminate.
Defined.

Lemma address_registers_warl_witness :
  legal_epc 0xffffff8000000001 = 0xffffff8000000000 /\ rocket_tval 0xffffffc000000000 = 0xffffffc000000000 /\
  Z.testbit (rocket_tval 0x8000000000) 39 = true.
Proof.
  split; [|split].
  - rewrite (proj1 (address_registers_warl 0xffffff8000000001 0 ltac:(unfold fits; lia) ltac:(unfold fits; lia))).
    vm_compute. reflexivity.
  - apply (address_registers_warl 0 0xffffffc000000000 ltac:(unfold fits; lia) ltac:(unfold fits; lia)).
    vm_compute. reflexivity.
  - pose proof (address_registers_warl 0 0x8000000000 ltac:(unfold fits; lia) ltac:(unfold fits; lia)) as H.
    destruct (Z.testbit (rocket_tval 0x8000000000) 39); [reflexivity|].
    exfalso. apply (proj2 (proj2 (proj2 (proj2 H)))); vm_compute; [discriminate|reflexivity].
Defined.

(** ** The CLINT's registers *)

Lemma copy_in_length obj off bytes : 0 <= off -> off + Z.of_nat (length bytes) <= Z.of_nat (length obj) ->
  length (copy_in obj off bytes) = length obj.
Proof. intros. unfold copy_in. rewrite !length_app, length_firstn, length_skipn. lia. Qed.

Lemma copy_out_in obj off bytes : 0 <= off -> off + Z.of_nat (length bytes) <= Z.of_nat (length obj) ->
  copy_out (copy_in obj off bytes) off (length bytes) = bytes.
Proof.
  intros. unfold copy_out, copy_in. rewrite skipn_app, skipn_all2 by (rewrite length_firstn; lia).
  rewrite length_firstn. replace (Z.to_nat off - _)%nat with 0%nat by lia.
  rewrite drop_0. cbn [app]. apply take_app_length.
Qed.

Lemma le_bytes_fits n x : Forall (fits 8) (le_bytes n x).
Proof. revert x. induction n; intros x; cbn [le_bytes]; constructor; auto. apply uw_fits. lia. Qed.

Lemma copy_in_fits obj off bytes : Forall (fits 8) obj -> Forall (fits 8) bytes -> Forall (fits 8) (copy_in obj off bytes).
Proof. intros Ho Hb. unfold copy_in. rewrite !Forall_app. auto using Forall_take, Forall_drop. Qed.

(** [increment] recomputes MTIP and nothing else of [mip]. *)
Lemma clint_increment_mip c mip inc i : 0 <= mip -> 0 <= i < 64 ->
  Z.testbit (clint_increment c mip inc).2 i =
  if i =? IRQ_M_TIMER then nth 0 (mtimecmp c) 0 <=? mtime c +w inc else Z.testbit mip i.
Proof.
  intros Hm Hi. unfold clint_increment. cbn [snd].
  change (not64 MIP_MTIP) with (Z.ones 64 - 2 ^ 7). change MIP_MTIP with (2 ^ 7). change IRQ_M_TIMER with 7.
  assert (B : Z.testbit (mip &w (Z.ones 64 - 2 ^ 7)) i = (if i =? 7 then false else Z.testbit mip i)).
  { rewrite Z.land_spec, Z.sub_nocarry_ldiff by reflexivity.
    rewrite Z.ldiff_spec, Z.testbit_ones, Z.pow2_bits_eqb by lia.
    replace (0 <=? i) with true by lia. replace (i <? 64) with true by lia. cbn [andb].
    destruct (Z.eqb_spec i 7) as [->|Hn]; [now rewrite andb_false_r|].
    replace (7 =? i) with false by lia. apply andb_true_r. }
  destruct (_ <=? _); rewrite ?Z.lor_spec, B, ?Z.pow2_bits_eqb by lia;
    destruct (Z.eqb_spec i 7) as [->|Hn]; try reflexivity.
  replace (7 =? i) with false by lia. apply orb_false_r.
Qed.

(** C39.  The CLINT's [mtimecmp] is a register: a store of any size and
    alignment inside it succeeds, the same bytes are read back by a load there,
    time does not move, and the only interrupt-pending bit it changes is
    [mip.MTIP], which afterwards says whether the time has reached the new
    comparand. *)
Theorem clint_mtimecmp (c : clint_t) (mip addr : Z) (bytes : list Z) :
  fits 64 (mtime c) -> fits 64 mip -> Forall (fits 8) bytes ->
  MTIMECMP_BASE <= addr -> addr + Z.of_nat (length bytes) <= MTIMECMP_BASE + 8 ->
  let '(ok, c', mip') := clint_store c mip addr bytes in
  ok = true /\ (clint_load c' mip' addr (length bytes)).1.1 = Some bytes /\ mtime c' = mtime c /\
  Z.testbit mip' IRQ_M_TIMER = (nth 0 (mtimecmp c') 0 <=? mtime c) /\
  (forall i, 0 <= i < 64 -> i <> IRQ_M_TIMER -> Z.testbit mip' i = Z.testbit mip i).
Proof.
  intros Ft Fm Fb Hlo Hhi. unfold MTIMECMP_BASE in *.
  assert (W : addr +w Z.of_nat (length bytes) = addr + Z.of_nat (length bytes))
    by (apply uw_small; unfold fits; lia).
  assert (Z0 : mtime c +w 0 = mtime c) by (unfold add64; rewrite Z.add_0_r; now apply uw_small).
  unfold clint_store. rewrite W. unfold MSIP_BASE, MTIMECMP_BASE.
  replace (_ <=? 0 + 4) with false by lia. rewrite andb_false_r.
  replace (16384 <=? addr) with true by lia. replace (_ <=? 16384 + 8) with true by lia. cbn [andb].
  set (obj := copy_in (le_bytes 8 _) _ bytes).
  pose proof (clint_increment_mip (mk_clint (mtime c) [le_value obj]) mip 0) as B.
  assert (Obj : le_bytes 8 (le_value obj) = obj).
  { replace 8%nat with (length obj) by (apply copy_in_length; rewrite ?le_bytes_length; lia).
    apply le_bytes_value, copy_in_fits; auto using le_bytes_fits. }
  unfold clint_load, clint_increment in *. cbn [mtime mtimecmp nth snd fst] in *. rewrite Z0 in *.
  rewrite W. unfold MSIP_BASE, MTIMECMP_BASE.
  replace (_ <=? 0 + 4) with false by lia. rewrite andb_false_r.
  replace (16384 <=? addr) with true by lia. replace (_ <=? 16384 + 8) with true by lia. cbn [andb].
  split; [reflexivity|]. split; [|split; [reflexivity|split]].
  - cbn [fst]. rewrite Obj. f_equal. apply copy_out_in; rewrite ?le_bytes_length; lia.
  - rewrite B; [reflexivity|apply Fm|unfold IRQ_M_TIMER; lia].
  - intros i Hi Hn. rewrite B; [|apply Fm|lia]. now apply Z.eqb_neq in Hn as ->.
Qed.

Lemma clint_mtimecmp_witness :
  let '(ok, c', mip') := clint_store (mk_clint 500 [100]) MIP_MTIP 0x4001 [1; 2] in
  ok = true /\ (clint_load c' mip' 0x4001 2).1.1 = Some [1; 2] /\ Z.testbit mip' IRQ_M_TIMER = false.
Proof.
  pose proof (clint_mtimecmp (mk_clint 500 [100]) MIP_MTIP 0x4001 [1; 2]) as H.
  destruct (clint_store _ _ _ _) as [[ok c'] mip'] eqn:E.
  destruct H as (H1 & H2 & _ & H3 & _); try (unfold MTIMECMP_BASE, fits; cbn; lia).
  - split; [discriminate|reflexivity].
  - repeat apply List.Forall_cons; try apply List.Forall_nil; unfold fits; lia.
  - split; [exact H1|split; [exact H2|]]. rewrite H3. vm_compute in E. now inversion E.
Defined.
