(* ===== verification/DebugDefines.v ===== *)
(** * DebugDefines: constants of the debug module

    The registers and fields of the Debug Module Interface and of the JTAG
    transport that the modelled code names, and the addresses of the debug ROM. *)
From Stdlib Require Import ZArith.
#[local] Open Scope Z_scope.

(** ** The registers of the debug module and of its transport ([debug_defines.h]) *)

Definition DTM_DTMCS_ABITS_OFFSET : Z := 4.
Definition DTM_DMI_OP_OFFSET : Z := 0.
Definition DMI_DMSTATUS : Z := 0x11.
Definition DMI_DMSTATUS_IMPEBREAK_OFFSET : Z := 22.
Definition DMI_DMSTATUS_IMPEBREAK : Z := Z.shiftl 0x1 DMI_DMSTATUS_IMPEBREAK_OFFSET.
Definition DMI_DMSTATUS_ALLHAVERESET_OFFSET : Z := 19.
Definition DMI_DMSTATUS_ALLHAVERESET : Z := Z.shiftl 0x1 DMI_DMSTATUS_ALLHAVERESET_OFFSET.
Definition DMI_DMSTATUS_ANYHAVERESET_OFFSET : Z := 18.
Definition DMI_DMSTATUS_ANYHAVERESET : Z := Z.shiftl 0x1 DMI_DMSTATUS_ANYHAVERESET_OFFSET.
Definition DMI_DMSTATUS_ALLRESUMEACK_OFFSET : Z := 17.
Definition DMI_DMSTATUS_ALLRESUMEACK : Z := Z.shiftl 0x1 DMI_DMSTATUS_ALLRESUMEACK_OFFSET.
Definition DMI_DMSTATUS_ANYRESUMEACK_OFFSET : Z := 16.
Definition DMI_DMSTATUS_ANYRESUMEACK : Z := Z.shiftl 0x1 DMI_DMSTATUS_ANYRESUMEACK_OFFSET.
Definition DMI_DMSTATUS_ALLNONEXISTENT_OFFSET : Z := 15.
Definition DMI_DMSTATUS_ALLNONEXISTENT : Z := Z.shiftl 0x1 DMI_DMSTATUS_ALLNONEXISTENT_OFFSET.
Definition DMI_DMSTATUS_ANYNONEXISTENT_OFFSET : Z := 14.
Definition DMI_DMSTATUS_ANYNONEXISTENT : Z := Z.shiftl 0x1 DMI_DMSTATUS_ANYNONEXISTENT_OFFSET.
Definition DMI_DMSTATUS_ALLUNAVAIL_OFFSET : Z := 13.
Definition DMI_DMSTATUS_ALLUNAVAIL : Z := Z.shiftl 0x1 DMI_DMSTATUS_ALLUNAVAIL_OFFSET.
Definition DMI_DMSTATUS_ANYUNAVAIL_OFFSET : Z := 12.
Definition DMI_DMSTATUS_ANYUNAVAIL : Z := Z.shiftl 0x1 DMI_DMSTATUS_ANYUNAVAIL_OFFSET.
Definition DMI_DMSTATUS_ALLRUNNING_OFFSET : Z := 11.
Definition DMI_DMSTATUS_ALLRUNNING : Z := Z.shiftl 0x1 DMI_DMSTATUS_ALLRUNNING_OFFSET.
Definition DMI_DMSTATUS_ANYRUNNING_OFFSET : Z := 10.
Definition DMI_DMSTATUS_ANYRUNNING : Z := Z.shiftl 0x1 DMI_DMSTATUS_ANYRUNNING_OFFSET.
Definition DMI_DMSTATUS_ALLHALTED_OFFSET : Z := 9.
Definition DMI_DMSTATUS_ALLHALTED : Z := Z.shiftl 0x1 DMI_DMSTATUS_ALLHALTED_OFFSET.
Definition DMI_DMSTATUS_ANYHALTED_OFFSET : Z := 8.
Definition DMI_DMSTATUS_ANYHALTED : Z := Z.shiftl 0x1 DMI_DMSTATUS_ANYHALTED_OFFSET.
Definition DMI_DMSTATUS_AUTHENTICATED_OFFSET : Z := 7.
Definition DMI_DMSTATUS_AUTHENTICATED : Z := Z.shiftl 0x1 DMI_DMSTATUS_AUTHENTICATED_OFFSET.
Definition DMI_DMSTATUS_AUTHBUSY_OFFSET : Z := 6.
Definition DMI_DMSTATUS_AUTHBUSY : Z := Z.shiftl 0x1 DMI_DMSTATUS_AUTHBUSY_OFFSET.
Definition DMI_DMSTATUS_VERSION_OFFSET : Z := 0.
Definition DMI_DMSTATUS_VERSION : Z := Z.shiftl 0xf DMI_DMSTATUS_VERSION_OFFSET.
Definition DMI_DMCONTROL : Z := 0x10.
Definition DMI_DMCONTROL_HALTREQ_OFFSET : Z := 31.
Definition DMI_DMCONTROL_HALTREQ : Z := Z.shiftl 0x1 DMI_DMCONTROL_HALTREQ_OFFSET.
Definition DMI_DMCONTROL_RESUMEREQ_OFFSET : Z := 30.
Definition DMI_DMCONTROL_RESUMEREQ : Z := Z.shiftl 0x1 DMI_DMCONTROL_RESUMEREQ_OFFSET.
Definition DMI_DMCONTROL_HARTRESET_OFFSET : Z := 29.
Definition DMI_DMCONTROL_HARTRESET : Z := Z.shiftl 0x1 DMI_DMCONTROL_HARTRESET_OFFSET.
Definition DMI_DMCONTROL_ACKHAVERESET_OFFSET : Z := 28.
Definition DMI_DMCONTROL_ACKHAVERESET : Z := Z.shiftl 0x1 DMI_DMCONTROL_ACKHAVERESET_OFFSET.
Definition DMI_DMCONTROL_HASEL_OFFSET : Z := 26.
Definition DMI_DMCONTROL_HASEL : Z := Z.shiftl 0x1 DMI_DMCONTROL_HASEL_OFFSET.
Definition DMI_DMCONTROL_HARTSELLO_OFFSET : Z := 16.
Definition DMI_DMCONTROL_HARTSELLO_LENGTH : Z := 10.
Definition DMI_DMCONTROL_HARTSELLO : Z := Z.shiftl 0x3ff DMI_DMCONTROL_HARTSELLO_OFFSET.
Definition DMI_DMCONTROL_HARTSELHI_OFFSET : Z := 6.
Definition DMI_DMCONTROL_HARTSELHI : Z := Z.shiftl 0x3ff DMI_DMCONTROL_HARTSELHI_OFFSET.
Definition DMI_DMCONTROL_NDMRESET_OFFSET : Z := 1.
Definition DMI_DMCONTROL_NDMRESET : Z := Z.shiftl 0x1 DMI_DMCONTROL_NDMRESET_OFFSET.
Definition DMI_DMCONTROL_DMACTIVE_OFFSET : Z := 0.
Definition DMI_DMCONTROL_DMACTIVE : Z := Z.shiftl 0x1 DMI_DMCONTROL_DMACTIVE_OFFSET.
Definition DMI_HARTINFO : Z := 0x12.
Definition DMI_HARTINFO_NSCRATCH_OFFSET : Z := 20.
Definition DMI_HARTINFO_NSCRATCH : Z := Z.shiftl 0xf DMI_HARTINFO_NSCRATCH_OFFSET.
Definition DMI_HARTINFO_DATAACCESS_OFFSET : Z := 16.
Definition DMI_HARTINFO_DATAACCESS : Z := Z.shiftl 0x1 DMI_HARTINFO_DATAACCESS_OFFSET.
Definition DMI_HARTINFO_DATASIZE_OFFSET : Z := 12.
Definition DMI_HARTINFO_DATASIZE : Z := Z.shiftl 0xf DMI_HARTINFO_DATASIZE_OFFSET.
Definition DMI_HARTINFO_DATAADDR_OFFSET : Z := 0.
Definition DMI_HARTINFO_DATAADDR : Z := Z.shiftl 0xfff DMI_HARTINFO_DATAADDR_OFFSET.
Definition DMI_HAWINDOWSEL : Z := 0x14.
Definition DMI_HAWINDOW : Z := 0x15.
Definition DMI_ABSTRACTCS : Z := 0x16.
Definition DMI_ABSTRACTCS_PROGBUFSIZE_OFFSET : Z := 24.
Definition DMI_ABSTRACTCS_PROGBUFSIZE : Z := Z.shiftl 0x1f DMI_ABSTRACTCS_PROGBUFSIZE_OFFSET.
Definition DMI_ABSTRACTCS_BUSY_OFFSET : Z := 12.
Definition DMI_ABSTRACTCS_BUSY : Z := Z.shiftl 0x1 DMI_ABSTRACTCS_BUSY_OFFSET.
Definition DMI_ABSTRACTCS_CMDERR_OFFSET : Z := 8.
Definition DMI_ABSTRACTCS_CMDERR : Z := Z.shiftl 0x7 DMI_ABSTRACTCS_CMDERR_OFFSET.
Definition DMI_ABSTRACTCS_DATACOUNT_OFFSET : Z := 0.
Definition DMI_ABSTRACTCS_DATACOUNT : Z := Z.shiftl 0xf DMI_ABSTRACTCS_DATACOUNT_OFFSET.
Definition DMI_COMMAND : Z := 0x17.
Definition DMI_ABSTRACTAUTO : Z := 0x18.
Definition DMI_ABSTRACTAUTO_AUTOEXECPROGBUF_OFFSET : Z := 16.
Definition DMI_ABSTRACTAUTO_AUTOEXECPROGBUF : Z := Z.shiftl 0xffff DMI_ABSTRACTAUTO_AUTOEXECPROGBUF_OFFSET.
Definition DMI_ABSTRACTAUTO_AUTOEXECDATA_OFFSET : Z := 0.
Definition DMI_ABSTRACTAUTO_AUTOEXECDATA : Z := Z.shiftl 0xfff DMI_ABSTRACTAUTO_AUTOEXECDATA_OFFSET.
Definition DMI_DATA0 : Z := 0x04.
Definition DMI_PROGBUF0 : Z := 0x20.
Definition DMI_AUTHDATA : Z := 0x30.
Definition DMI_DMCS2 : Z := 0x32.
Definition DMI_DMCS2_HALTGROUP_OFFSET : Z := 2.
Definition DMI_DMCS2_HALTGROUP : Z := Z.shiftl 0x1f DMI_DMCS2_HALTGROUP_OFFSET.
Definition DMI_DMCS2_HGWRITE_OFFSET : Z := 1.
Definition DMI_DMCS2_HGWRITE : Z := Z.shiftl 0x1 DMI_DMCS2_HGWRITE_OFFSET.
Definition DMI_SBCS : Z := 0x38.
Definition DMI_SBCS_SBVERSION_OFFSET : Z := 29.
Definition DMI_SBCS_SBVERSION : Z := Z.shiftl 0x7 DMI_SBCS_SBVERSION_OFFSET.
Definition DMI_SBCS_SBREADONADDR_OFFSET : Z := 20.
Definition DMI_SBCS_SBREADONADDR : Z := Z.shiftl 0x1 DMI_SBCS_SBREADONADDR_OFFSET.
Definition DMI_SBCS_SBACCESS_OFFSET : Z := 17.
Definition DMI_SBCS_SBACCESS : Z := Z.shiftl 0x7 DMI_SBCS_SBACCESS_OFFSET.
Definition DMI_SBCS_SBAUTOINCREMENT_OFFSET : Z := 16.
Definition DMI_SBCS_SBAUTOINCREMENT : Z := Z.shiftl 0x1 DMI_SBCS_SBAUTOINCREMENT_OFFSET.
Definition DMI_SBCS_SBREADONDATA_OFFSET : Z := 15.
Definition DMI_SBCS_SBREADONDATA : Z := Z.shiftl 0x1 DMI_SBCS_SBREADONDATA_OFFSET.
Definition DMI_SBCS_SBERROR_OFFSET : Z := 12.
Definition DMI_SBCS_SBERROR : Z := Z.shiftl 0x7 DMI_SBCS_SBERROR_OFFSET.
Definition DMI_SBCS_SBASIZE_OFFSET : Z := 5.
Definition DMI_SBCS_SBASIZE : Z := Z.shiftl 0x7f DMI_SBCS_SBASIZE_OFFSET.
Definition DMI_SBCS_SBACCESS128_OFFSET : Z := 4.
Definition DMI_SBCS_SBACCESS128 : Z := Z.shiftl 0x1 DMI_SBCS_SBACCESS128_OFFSET.
Definition DMI_SBCS_SBACCESS64_OFFSET : Z := 3.
Definition DMI_SBCS_SBACCESS64 : Z := Z.shiftl 0x1 DMI_SBCS_SBACCESS64_OFFSET.
Definition DMI_SBCS_SBACCESS32_OFFSET : Z := 2.
Definition DMI_SBCS_SBACCESS32 : Z := Z.shiftl 0x1 DMI_SBCS_SBACCESS32_OFFSET.
Definition DMI_SBCS_SBACCESS16_OFFSET : Z := 1.
Definition DMI_SBCS_SBACCESS16 : Z := Z.shiftl 0x1 DMI_SBCS_SBACCESS16_OFFSET.
Definition DMI_SBCS_SBACCESS8_OFFSET : Z := 0.
Definition DMI_SBCS_SBACCESS8 : Z := Z.shiftl 0x1 DMI_SBCS_SBACCESS8_OFFSET.
Definition DMI_SBADDRESS0 : Z := 0x39.
Definition DMI_SBADDRESS1 : Z := 0x3a.
Definition DMI_SBADDRESS2 : Z := 0x3b.
Definition DMI_SBADDRESS3 : Z := 0x37.
Definition DMI_SBDATA0 : Z := 0x3c.
Definition DMI_SBDATA1 : Z := 0x3d.
Definition DMI_SBDATA2 : Z := 0x3e.
Definition DMI_SBDATA3 : Z := 0x3f.
Definition AC_ACCESS_REGISTER_AARSIZE_OFFSET : Z := 20.
Definition AC_ACCESS_REGISTER_AARSIZE : Z := Z.shiftl 0x7 AC_ACCESS_REGISTER_AARSIZE_OFFSET.
Definition AC_ACCESS_REGISTER_POSTEXEC_OFFSET : Z := 18.
Definition AC_ACCESS_REGISTER_POSTEXEC : Z := Z.shiftl 0x1 AC_ACCESS_REGISTER_POSTEXEC_OFFSET.
Definition AC_ACCESS_REGISTER_TRANSFER_OFFSET : Z := 17.
Definition AC_ACCESS_REGISTER_TRANSFER : Z := Z.shiftl 0x1 AC_ACCESS_REGISTER_TRANSFER_OFFSET.
Definition AC_ACCESS_REGISTER_WRITE_OFFSET : Z := 16.
Definition AC_ACCESS_REGISTER_WRITE : Z := Z.shiftl 0x1 AC_ACCESS_REGISTER_WRITE_OFFSET.
Definition AC_ACCESS_REGISTER_REGNO_OFFSET : Z := 0.
Definition AC_ACCESS_REGISTER_REGNO : Z := Z.shiftl 0xffff AC_ACCESS_REGISTER_REGNO_OFFSET.

(** ** The addresses of the debug ROM ([debug_rom_defines.h]) *)

Definition DEBUG_ROM_HALTED : Z := 0x100.
Definition DEBUG_ROM_GOING : Z := 0x104.
Definition DEBUG_ROM_RESUMING : Z := 0x108.
Definition DEBUG_ROM_EXCEPTION : Z := 0x10C.
Definition DEBUG_ROM_FLAGS : Z := 0x400.
Definition DEBUG_ROM_FLAG_GO : Z := 0.
Definition DEBUG_ROM_FLAG_RESUME : Z := 1.
Definition DEBUG_ROM_WHERETO : Z := 0x300.
Definition DEBUG_ROM_ENTRY : Z := 0x800.
