(* ===== verification/DebugAsm.v ===== *)
(** * DebugAsm: the instructions the debug module assembles

    [riscv/opcodes.h]: one definition per assembler function, on 32-bit words;
    the functions that write a shift count beyond bit 31 are not called. *)
From Stdlib Require Import ZArith Lia Bool List.
From S2P Require Import Prelude.
#[local] Open Scope Z_scope.
#[local] Open Scope word_scope.

Module Asm.

Definition MATCH_JAL : Z := 0x6f.
Definition MATCH_LUI : Z := 0x37.
Definition MATCH_ADDI : Z := 0x13.
Definition MATCH_XORI : Z := 0x4013.
Definition MATCH_SRLI : Z := 0x5013.
Definition MATCH_LB : Z := 0x3.
Definition MATCH_LH : Z := 0x1003.
Definition MATCH_LW : Z := 0x2003.
Definition MATCH_SB : Z := 0x23.
Definition MATCH_SH : Z := 0x1023.
Definition MATCH_SW : Z := 0x2023.
Definition MATCH_FENCE_I : Z := 0x100f.
Definition MATCH_LD : Z := 0x3003.
Definition MATCH_SD : Z := 0x3023.
Definition MATCH_FLW : Z := 0x2007.
Definition MATCH_FSW : Z := 0x2027.
Definition MATCH_FLD : Z := 0x3007.
Definition MATCH_FSD : Z := 0x3027.
Definition MATCH_EBREAK : Z := 0x100073.
Definition MATCH_DRET : Z := 0x7b200073.
Definition MATCH_CSRRW : Z := 0x1073.
Definition MATCH_CSRRS : Z := 0x2073.
Definition MATCH_CSRRSI : Z := 0x6073.
Definition MATCH_C_EBREAK : Z := 0x9002.

Definition ZERO : Z := 0.
Definition T0 : Z := 5.
Definition S0 : Z := 8.
Definition S1 : Z := 9.

Definition bits (value hi lo : Z) : Z := (value >>w lo) &w (Z.shiftl 1 (hi + 1 - lo) - 1).
Definition bit (value b : Z) : Z := (value >>w b) &w 1.
(** [<<] on [uint32_t]. *)
Definition shl (a n : Z) : Z := u32 (Z.shiftl a n).

Definition jal (rd imm : Z) : Z :=
  shl (bit imm 20) 31 |w shl (bits imm 10 1) 21 |w shl (bit imm 11) 20
  |w shl (bits imm 19 12) 12 |w shl rd 7 |w MATCH_JAL.
Definition csrsi (csr imm : Z) : Z := shl csr 20 |w shl (bits imm 4 0) 15 |w MATCH_CSRRSI.

Definition sw (src base offset : Z) : Z :=
  shl (bits offset 11 5) 25 |w shl src 20 |w shl base 15 |w shl (bits offset 4 0) 7 |w MATCH_SW.
Definition sd (src base offset : Z) : Z :=
  shl (bits offset 11 5) 25 |w shl src 20 |w shl base 15 |w shl (bits offset 4 0) 7 |w MATCH_SD.
Definition sh (src base offset : Z) : Z :=
  shl (bits offset 11 5) 25 |w shl src 20 |w shl base 15 |w shl (bits offset 4 0) 7 |w MATCH_SH.
Definition sb (src base offset : Z) : Z :=
  shl (bits offset 11 5) 25 |w shl src 20 |w shl base 15 |w shl (bits offset 4 0) 7 |w MATCH_SB.

Definition ld (rd base offset : Z) : Z :=
  shl (bits offset 11 0) 20 |w shl base 15 |w shl (bits rd 4 0) 7 |w MATCH_LD.
Definition lw (rd base offset : Z) : Z :=
  shl (bits offset 11 0) 20 |w shl base 15 |w shl (bits rd 4 0) 7 |w MATCH_LW.
Definition lh (rd base offset : Z) : Z :=
  shl (bits offset 11 0) 20 |w shl base 15 |w shl (bits rd 4 0) 7 |w MATCH_LH.
Definition lb (rd base offset : Z) : Z :=
  shl (bits offset 11 0) 20 |w shl base 15 |w shl (bits rd 4 0) 7 |w MATCH_LB.

Definition csrw (source csr : Z) : Z := shl csr 20 |w shl source 15 |w MATCH_CSRRW.
Definition addi (dest src imm : Z) : Z :=
  shl (bits imm 11 0) 20 |w shl src 15 |w shl dest 7 |w MATCH_ADDI.
Definition csrr (rd csr : Z) : Z := shl csr 20 |w shl rd 7 |w MATCH_CSRRS.
Definition csrrs (rd rs1 csr : Z) : Z := shl csr 20 |w shl rs1 15 |w shl rd 7 |w MATCH_CSRRS.

Definition fsw (src base offset : Z) : Z :=
  shl (bits offset 11 5) 25 |w shl (bits src 4 0) 20 |w shl base 15
  |w shl (bits offset 4 0) 7 |w MATCH_FSW.
Definition fsd (src base offset : Z) : Z :=
  shl (bits offset 11 5) 25 |w shl (bits src 4 0) 20 |w shl base 15
  |w shl (bits offset 4 0) 7 |w MATCH_FSD.
Definition flw (dest base offset : Z) : Z :=
  shl (bits offset 11 0) 20 |w shl base 15 |w shl (bits dest 4 0) 7 |w MATCH_FLW.
Definition fld (dest base offset : Z) : Z :=
  shl (bits offset 11 0) 20 |w shl base 15 |w shl (bits dest 4 0) 7 |w MATCH_FLD.

Definition ebreak : Z := MATCH_EBREAK.
Definition ebreak_c : Z := MATCH_C_EBREAK.
Definition dret : Z := MATCH_DRET.
Definition fence_i : Z := MATCH_FENCE_I.
Definition lui (dest imm : Z) : Z := shl (bits imm 19 0) 12 |w shl dest 7 |w MATCH_LUI.
Definition xori (dest src imm : Z) : Z :=
  shl (bits imm 11 0) 20 |w shl src 15 |w shl dest 7 |w MATCH_XORI.
Definition srli (dest src shamt : Z) : Z :=
  shl (bits shamt 4 0) 20 |w shl src 15 |w shl dest 7 |w MATCH_SRLI.

End Asm.
