(* ===== verification/DebugModule.v ===== *)
(** * DebugModule: the debug module

    [debug_module_t] of [riscv/debug_module.h] and [debug_module.cc]: the
    registers behind the Debug Module Interface, the memory window through
    which halted harts run the debug ROM and the assembled commands, and the
    system bus access, on a machine of several harts.

    Member functions run in a monad over the whole machine.  An access beyond
    an array or a shift by the width, undefined in C++, is the failure [F_bounds]; an exception that
    leaves the debug module is [F_throw].  The generator behind [random()] is
    a parameter. *)
From Stdlib Require Import ZArith Lia Bool List.
From stdpp Require Import base list gmap.
From S2P Require Import Prelude Arith Encoding Decode State Processor Pmp Mmu TrapEntry Sim DebugDefines DebugAsm.
#[local] Open Scope Z_scope.
#[local] Open Scope word_scope.
#[local] Open Scope record_scope.

(** ** The data *)

Record debug_module_config_t := mk_config {
  progbufsize : Z;
  max_bus_master_bits : Z;
  require_authentication : bool;
  abstract_rti : Z;
  support_hasel : bool;
  support_abstract_csr_access : bool;
  support_haltgroups : bool;
  support_impebreak : bool
}.
#[export] Instance eta_debug_module_config_t : Eta debug_module_config_t := fun s =>
  mk_config
    (progbufsize s) (max_bus_master_bits s) (require_authentication s) (abstract_rti s)
    (support_hasel s) (support_abstract_csr_access s) (support_haltgroups s)
    (support_impebreak s).
#[export] Instance set_progbufsize : Setter progbufsize := ltac:(derive_setter).
#[export] Instance set_max_bus_master_bits : Setter max_bus_master_bits := ltac:(derive_setter).
#[export] Instance set_require_authentication : Setter require_authentication := ltac:(derive_setter).
#[export] Instance set_abstract_rti : Setter abstract_rti := ltac:(derive_setter).
#[export] Instance set_support_hasel : Setter support_hasel := ltac:(derive_setter).
#[export] Instance set_support_abstract_csr_access : Setter support_abstract_csr_access := ltac:(derive_setter).
#[export] Instance set_support_haltgroups : Setter support_haltgroups := ltac:(derive_setter).
#[export] Instance set_support_impebreak : Setter support_impebreak := ltac:(derive_setter).

Record dmcontrol_t := mk_dmcontrol {
  haltreq : bool;
  resumereq : bool;
  hasel : bool;
  hartsel : Z;
  hartreset : bool;
  dmactive : bool;
  ndmreset : bool
}.
#[export] Instance eta_dmcontrol_t : Eta dmcontrol_t := fun s =>
  mk_dmcontrol
    (haltreq s) (resumereq s) (hasel s) (hartsel s) (hartreset s) (dmactive s) (ndmreset
    s).
#[export] Instance set_haltreq : Setter haltreq := ltac:(derive_setter).
#[export] Instance set_resumereq : Setter resumereq := ltac:(derive_setter).
#[export] Instance set_hasel : Setter hasel := ltac:(derive_setter).
#[export] Instance set_hartsel : Setter hartsel := ltac:(derive_setter).
#[export] Instance set_hartreset : Setter hartreset := ltac:(derive_setter).
#[export] Instance set_dmactive : Setter dmactive := ltac:(derive_setter).
#[export] Instance set_ndmreset : Setter ndmreset := ltac:(derive_setter).

Record dmstatus_t := mk_dmstatus {
  impebreak : bool;
  allhavereset : bool;
  anyhavereset : bool;
  allnonexistant : bool;
  anynonexistant : bool;
  allunavail : bool;
  anyunavail : bool;
  allrunning : bool;
  anyrunning : bool;
  allhalted : bool;
  anyhalted : bool;
  allresumeack : bool;
  anyresumeack : bool;
  authenticated : bool;
  authbusy : bool;
  cfgstrvalid : bool;
  version : Z
}.
#[export] Instance eta_dmstatus_t : Eta dmstatus_t := fun s =>
  mk_dmstatus
    (impebreak s) (allhavereset s) (anyhavereset s) (allnonexistant s) (anynonexistant
    s) (allunavail s) (anyunavail s) (allrunning s) (anyrunning s) (allhalted s)
    (anyhalted s) (allresumeack s) (anyresumeack s) (authenticated s) (authbusy s)
    (cfgstrvalid s) (version s).
#[export] Instance set_impebreak : Setter impebreak := ltac:(derive_setter).
#[export] Instance set_allhavereset : Setter allhavereset := ltac:(derive_setter).
#[export] Instance set_anyhavereset : Setter anyhavereset := ltac:(derive_setter).
#[export] Instance set_allnonexistant : Setter allnonexistant := ltac:(derive_setter).
#[export] Instance set_anynonexistant : Setter anynonexistant := ltac:(derive_setter).
#[export] Instance set_allunavail : Setter allunavail := ltac:(derive_setter).
#[export] Instance set_anyunavail : Setter anyunavail := ltac:(derive_setter).
#[export] Instance set_allrunning : Setter allrunning := ltac:(derive_setter).
#[export] Instance set_anyrunning : Setter anyrunning := ltac:(derive_setter).
#[export] Instance set_allhalted : Setter allhalted := ltac:(derive_setter).
#[export] Instance set_anyhalted : Setter anyhalted := ltac:(derive_setter).
#[export] Instance set_allresumeack : Setter allresumeack := ltac:(derive_setter).
#[export] Instance set_anyresumeack : Setter anyresumeack := ltac:(derive_setter).
#[export] Instance set_authenticated : Setter authenticated := ltac:(derive_setter).
#[export] Instance set_authbusy : Setter authbusy := ltac:(derive_setter).
#[export] Instance set_cfgstrvalid : Setter cfgstrvalid := ltac:(derive_setter).
#[export] Instance set_version : Setter version := ltac:(derive_setter).

(** [cmderr_t]: a C enumeration, assigned from integers by [dmi_write]. *)
Definition CMDERR_NONE : Z := 0.
Definition CMDERR_BUSY : Z := 1.
Definition CMDERR_NOTSUP : Z := 2.
Definition CMDERR_EXCEPTION : Z := 3.
Definition CMDERR_HALTRESUME : Z := 4.
Definition CMDERR_OTHER : Z := 7.

Record abstractcs_t := mk_abstractcs {
  busy : bool;
  datacount : Z;
  acs_progbufsize : Z;
  cmderr : Z
}.
#[export] Instance eta_abstractcs_t : Eta abstractcs_t := fun s =>
  mk_abstractcs
    (busy s) (datacount s) (acs_progbufsize s) (cmderr s).
#[export] Instance set_busy : Setter busy := ltac:(derive_setter).
#[export] Instance set_datacount : Setter datacount := ltac:(derive_setter).
#[export] Instance set_acs_progbufsize : Setter acs_progbufsize := ltac:(derive_setter).
#[export] Instance set_cmderr : Setter cmderr := ltac:(derive_setter).

Record abstractauto_t := mk_abstractauto {
  autoexecprogbuf : Z;
  autoexecdata : Z
}.
#[export] Instance eta_abstractauto_t : Eta abstractauto_t := fun s =>
  mk_abstractauto
    (autoexecprogbuf s) (autoexecdata s).
#[export] Instance set_autoexecprogbuf : Setter autoexecprogbuf := ltac:(derive_setter).
#[export] Instance set_autoexecdata : Setter autoexecdata := ltac:(derive_setter).

Record sbcs_t := mk_sbcs {
  sb_version : Z;
  readonaddr : bool;
  sbaccess : Z;
  autoincrement : bool;
  readondata : bool;
  sb_error : Z;
  asize : Z;
  access128 : bool;
  access64 : bool;
  access32 : bool;
  access16 : bool;
  access8 : bool
}.
#[export] Instance eta_sbcs_t : Eta sbcs_t := fun s =>
  mk_sbcs
    (sb_version s) (readonaddr s) (sbaccess s) (autoincrement s) (readondata s)
    (sb_error s) (asize s) (access128 s) (access64 s) (access32 s) (access16 s) (access8
    s).
#[export] Instance set_sb_version : Setter sb_version := ltac:(derive_setter).
#[export] Instance set_readonaddr : Setter readonaddr := ltac:(derive_setter).
#[export] Instance set_sbaccess : Setter sbaccess := ltac:(derive_setter).
#[export] Instance set_autoincrement : Setter autoincrement := ltac:(derive_setter).
#[export] Instance set_readondata : Setter readondata := ltac:(derive_setter).
#[export] Instance set_sb_error : Setter sb_error := ltac:(derive_setter).
#[export] Instance set_asize : Setter asize := ltac:(derive_setter).
#[export] Instance set_access128 : Setter access128 := ltac:(derive_setter).
#[export] Instance set_access64 : Setter access64 := ltac:(derive_setter).
#[export] Instance set_access32 : Setter access32 := ltac:(derive_setter).
#[export] Instance set_access16 : Setter access16 := ltac:(derive_setter).
#[export] Instance set_access8 : Setter access8 := ltac:(derive_setter).

Record hart_debug_state_t := mk_hart_debug_state {
  halted : bool;
  resumeack : bool;
  havereset : bool;
  haltgroup : Z
}.
#[export] Instance eta_hart_debug_state_t : Eta hart_debug_state_t := fun s =>
  mk_hart_debug_state
    (halted s) (resumeack s) (havereset s) (haltgroup s).
#[export] Instance set_halted : Setter halted := ltac:(derive_setter).
#[export] Instance set_resumeack : Setter resumeack := ltac:(derive_setter).
#[export] Instance set_havereset : Setter havereset := ltac:(derive_setter).
#[export] Instance set_haltgroup : Setter haltgroup := ltac:(derive_setter).

(** [debug_module_t]: the arrays are lists of bytes, of words or of flags. *)
Record debug_module_t := mk_debug_module {
  nprocs : Z;
  config : debug_module_config_t;
  program_buffer_bytes : Z;
  debug_progbuf_start : Z;
  debug_abstract_start : Z;
  custom_base : Z;
  hartsellen : Z;
  debug_rom_whereto : list Z;
  debug_abstract : list Z;
  program_buffer : list Z;
  dmdata : list Z;
  hart_state : list hart_debug_state_t;
  debug_rom_flags : list Z;
  dmcontrol : dmcontrol_t;
  dmstatus : dmstatus_t;
  abstractcs : abstractcs_t;
  abstractauto : abstractauto_t;
  command : Z;
  hawindowsel : Z;
  hart_array_mask : list bool;
  sbcs : sbcs_t;
  sbaddress : list Z;
  sbdata : list Z;
  challenge : Z;
  abstract_command_completed : bool;
  rti_remaining : Z
}.
#[export] Instance eta_debug_module_t : Eta debug_module_t := fun s =>
  mk_debug_module
    (nprocs s) (config s) (program_buffer_bytes s) (debug_progbuf_start s)
    (debug_abstract_start s) (custom_base s) (hartsellen s) (debug_rom_whereto s)
    (debug_abstract s) (program_buffer s) (dmdata s) (hart_state s) (debug_rom_flags s)
    (dmcontrol s) (dmstatus s) (abstractcs s) (abstractauto s) (command s) (hawindowsel
    s) (hart_array_mask s) (sbcs s) (sbaddress s) (sbdata s) (challenge s)
    (abstract_command_completed s) (rti_remaining s).
#[export] Instance set_nprocs : Setter nprocs := ltac:(derive_setter).
#[export] Instance set_config : Setter config := ltac:(derive_setter).
#[export] Instance set_program_buffer_bytes : Setter program_buffer_bytes := ltac:(derive_setter).
#[export] Instance set_debug_progbuf_start : Setter debug_progbuf_start := ltac:(derive_setter).
#[export] Instance set_debug_abstract_start : Setter debug_abstract_start := ltac:(derive_setter).
#[export] Instance set_custom_base : Setter custom_base := ltac:(derive_setter).
#[export] Instance set_hartsellen : Setter hartsellen := ltac:(derive_setter).
#[export] Instance set_debug_rom_whereto : Setter debug_rom_whereto := ltac:(derive_setter).
#[export] Instance set_debug_abstract : Setter debug_abstract := ltac:(derive_setter).
#[export] Instance set_program_buffer : Setter program_buffer := ltac:(derive_setter).
#[export] Instance set_dmdata : Setter dmdata := ltac:(derive_setter).
#[export] Instance set_hart_state : Setter hart_state := ltac:(derive_setter).
#[export] Instance set_debug_rom_flags : Setter debug_rom_flags := ltac:(derive_setter).
#[export] Instance set_dmcontrol : Setter dmcontrol := ltac:(derive_setter).
#[export] Instance set_dmstatus : Setter dmstatus := ltac:(derive_setter).
#[export] Instance set_abstractcs : Setter abstractcs := ltac:(derive_setter).
#[export] Instance set_abstractauto : Setter abstractauto := ltac:(derive_setter).
#[export] Instance set_command : Setter command := ltac:(derive_setter).
#[export] Instance set_hawindowsel : Setter hawindowsel := ltac:(derive_setter).
#[export] Instance set_hart_array_mask : Setter hart_array_mask := ltac:(derive_setter).
#[export] Instance set_sbcs : Setter sbcs := ltac:(derive_setter).
#[export] Instance set_sbaddress : Setter sbaddress := ltac:(derive_setter).
#[export] Instance set_sbdata : Setter sbdata := ltac:(derive_setter).
#[export] Instance set_challenge : Setter challenge := ltac:(derive_setter).
#[export] Instance set_abstract_command_completed : Setter abstract_command_completed := ltac:(derive_setter).
#[export] Instance set_rti_remaining : Setter rti_remaining := ltac:(derive_setter).

Definition datasize : Z := 2.
Definition debug_data_start : Z := 0x380.
Definition debug_abstract_size : Z := 12.
Definition secret : Z := 1.

(** Return the number of bits wide that a field has to be to encode up to [n]
    different values. *)
Fixpoint field_width_loop (fuel : nat) (n i : Z) : Z :=
  match fuel with
  | O => i
  | S fuel => if z2b n then field_width_loop fuel (n >>w 1) (i + 1) else i
  end.
Definition field_width (n : Z) : Z := field_width_loop 32 (u32 (n - 1)) 0.

(** [memcpy] from and to an array of the debug module; [None] is an access
    outside the array. *)
Definition in_array {A : Type} (a : list A) (off n : Z) : bool :=
  (0 <=? off) && (off + n <=? Z.of_nat (length a)).
Definition array_out (a : list Z) (off : Z) (len : nat) : option (list Z) :=
  if in_array a off (Z.of_nat len) then Some (copy_out a off len) else None.
Definition array_in (a : list Z) (off : Z) (bytes : list Z) : option (list Z) :=
  if in_array a off (Z.of_nat (length bytes)) then Some (copy_in a off bytes) else None.

Definition write32 (memory : list Z) (index value : Z) : option (list Z) :=
  array_in memory (index * 4) (le_bytes 4 value).
Definition read32 (memory : list Z) (index : Z) : option Z :=
  b ← array_out memory (index * 4) 4; Some (le_value b).

(** [v[i] = f(v[i])] and [v[i]]. *)
Definition array_get {A : Type} (a : list A) (i : Z) : option A :=
  if in_array a i 1 then a !! Z.to_nat i else None.
Definition array_alter {A : Type} (f : A -> A) (a : list A) (i : Z) : option (list A) :=
  if in_array a i 1 then Some (alter f (Z.to_nat i) a) else None.

(** [debug_rom_raw] *)
Definition debug_rom_raw : list Z := [
   0x6f; 0x00; 0xc0; 0x00; 0x6f; 0x00; 0x00; 0x06; 0x6f; 0x00; 0x80; 0x03;
   0x0f; 0x00; 0xf0; 0x0f; 0x73; 0x10; 0x24; 0x7b; 0x73; 0x24; 0x40; 0xf1;
   0x23; 0x20; 0x80; 0x10; 0x03; 0x44; 0x04; 0x40; 0x13; 0x74; 0x14; 0x00;
   0x63; 0x14; 0x04; 0x02; 0x73; 0x24; 0x40; 0xf1; 0x03; 0x44; 0x04; 0x40;
   0x13; 0x74; 0x24; 0x00; 0x63; 0x18; 0x04; 0x02; 0x73; 0x00; 0x50; 0x10;
   0x6f; 0xf0; 0x9f; 0xfd; 0x73; 0x24; 0x20; 0x7b; 0x23; 0x26; 0x00; 0x10;
   0x73; 0x00; 0x10; 0x00; 0x73; 0x24; 0x40; 0xf1; 0x23; 0x22; 0x80; 0x10;
   0x73; 0x24; 0x20; 0x7b; 0x0f; 0x00; 0xf0; 0x0f; 0x0f; 0x10; 0x00; 0x00;
   0x67; 0x00; 0x00; 0x30; 0x73; 0x24; 0x40; 0xf1; 0x23; 0x24; 0x80; 0x10;
   0x73; 0x24; 0x20; 0x7b; 0x73; 0x00; 0x20; 0x7b].
Definition debug_rom_raw_len : Z := 116.

(** The assignments of [reset()] to members; the call also withdraws the halt
    requests of the harts. *)
Definition reset_members (random : Z) (d : debug_module_t) : debug_module_t :=
  let config := config d in
  d <| dmcontrol := mk_dmcontrol false false false 0 false false false |>
    <| dmstatus := mk_dmstatus (support_impebreak config) false false false false false false
         false false false false false false (negb (require_authentication config)) false false 2 |>
    <| abstractcs := mk_abstractcs false (Z.of_nat (length (dmdata d)) / 4) (progbufsize config) CMDERR_NONE |>
    <| abstractauto := mk_abstractauto 0 0 |>
    <| sbcs :=
         let bits := max_bus_master_bits config in
         mk_sbcs (if 0 <? bits then 1 else 0) false 0 false false 0 (if 0 <? bits then 64 else 0)
           false (64 <=? bits) (32 <=? bits) (16 <=? bits) (8 <=? bits) |>
    <| challenge := u32 random |>.

(** The constructor; [sim->get_core] returns [NULL] while it runs, the members
    it leaves uninitialised are those of [d0].  An assertion or an access
    outside an array gives [None]. *)
Definition debug_module_new (sim_nprocs : Z) (conf : debug_module_config_t) (random : Z)
    (d0 : debug_module_t) : option debug_module_t :=
  let bytes := u32 ((if support_impebreak conf then 4 else 0) + 4 * progbufsize conf) in
  let progbuf_start := u32 (debug_data_start - bytes) in
  let abstract_start := u32 (progbuf_start - debug_abstract_size * 4) in
  if negb ((sim_nprocs <=? 1024) && (0 <? sim_nprocs)) then None
  else
    let zeros n := repeat 0 (Z.to_nat n) in
    pbuf ←
      (if support_impebreak conf then write32 (zeros bytes) (progbufsize conf) Asm.ebreak
       else Some (zeros bytes));
    whereto ← write32 (zeros 4) 0 (Asm.jal Asm.ZERO (u32 (abstract_start - DEBUG_ROM_WHERETO)));
    Some (reset_members random (d0
      <| nprocs := sim_nprocs |> <| config := conf |>
      <| program_buffer_bytes := bytes |> <| debug_progbuf_start := progbuf_start |>
      <| debug_abstract_start := abstract_start |> <| custom_base := 0 |>
      <| hartsellen := field_width sim_nprocs |>
      <| hart_state := repeat (mk_hart_debug_state false false false 0)
           (Z.to_nat (Z.shiftl 1 (field_width sim_nprocs))) |>
      <| hart_array_mask := repeat false (Z.to_nat sim_nprocs) |>
      <| rti_remaining := 0 |>
      <| program_buffer := pbuf |> <| debug_rom_flags := zeros 1024 |>
      <| dmdata := zeros (datasize * 4) |> <| debug_rom_whereto := whereto |>
      <| debug_abstract := zeros (debug_abstract_size * 4) |>)).

(** ** The machine around it *)

(** What the bus offers besides the debug module: memory, as a hart sees it,
    and the other devices, which drive the interrupt-pending registers of all
    harts.  [is_debug] tells the addresses at which the bus finds the debug
    module. *)
Class Platform (S : Type) `{SimIf S} := {
  is_debug : S -> Z -> bool;
  dev_load : S -> list Z -> Z -> nat -> option (list Z) * S * list Z;
  dev_store : S -> list Z -> Z -> list Z -> bool * S * list Z
}.

Inductive dm_fail := F_throw (e : exn) | F_bounds.

Section Machine.
Context {S R : Type}.

(** [procs] are the harts of [sim_t], without the shared memory. *)
Record dm_machine := mk_dm_machine {
  dm : debug_module_t;
  procs : list (hart unit);
  debug_mmu : mmu_t;
  platform : S;
  rng : R
}.
#[export] Instance eta_dm_machine : Eta dm_machine := fun s =>
  mk_dm_machine (dm s) (procs s) (debug_mmu s) (platform s) (rng s).
#[export] Instance set_dm : Setter dm := ltac:(derive_setter).
#[export] Instance set_procs : Setter procs := ltac:(derive_setter).
#[export] Instance set_debug_mmu : Setter debug_mmu := ltac:(derive_setter).
#[export] Instance set_platform : Setter platform := ltac:(derive_setter).
#[export] Instance set_rng : Setter rng := ltac:(derive_setter).

Definition DM (A : Type) : Type := dm_machine -> (dm_fail + A) * dm_machine.
Definition dret {A} (a : A) : DM A := fun x => (inr a, x).
Definition dbind {A B} (m : DM A) (k : A -> DM B) : DM B := fun x =>
  match m x with
  | (inr a, y) => k a y
  | (inl e, y) => (inl e, y)
  end.
Definition dfail {A} (e : dm_fail) : DM A := fun x => (inl e, x).
Definition dgets {A} (f : debug_module_t -> A) : DM A := fun x => (inr (f (dm x)), x).
Definition dmodify (f : debug_module_t -> debug_module_t) : DM unit := fun x => (inr tt, x <| dm ::= f |>).
Definition dwhen (c : bool) (m : DM unit) : DM unit := if c then m else dret tt.
(** All members. *)
Definition id_ (d : debug_module_t) : debug_module_t := d.
(** An array access whose [None] is out of bounds. *)
Definition dopt {A} (o : option A) : DM A := match o with Some a => dret a | None => dfail F_bounds end.
(** [for (i = 0; i < n; i++) body(i)] from [i], with [n] turns left. *)
Fixpoint dfor (n : nat) (i : Z) (body : Z -> DM unit) : DM unit :=
  match n with
  | O => dret tt
  | Datatypes.S n => dbind (body i) (fun _ => dfor n (i + 1) body)
  end.

End Machine.
Arguments dm_machine S R : clear implicits.
Arguments DM S R A : clear implicits.

Declare Scope dm_scope.
Delimit Scope dm_scope with dm.
Notation "x <- m ;; k" := (dbind m (fun x => k))
  (at level 100, m at next level, right associativity) : dm_scope.
Notation "m ;; k" := (dbind m (fun _ => k)) (at level 100, right associativity) : dm_scope.
#[local] Open Scope dm_scope.

Section DebugModule.
Context {S R : Type} `{!SimIf S, !Platform S}.
Variable random : R -> Z * R.
#[local] Notation DM := (DM S R).
#[local] Notation dm_machine := (dm_machine S R).

(** ** Members of the harts *)

Definition modify_proc (i : Z) (f : processor_t -> processor_t) : DM unit := fun x =>
  (inr tt, x <| procs ::= alter (fun h => h <| proc ::= f |>) (Z.to_nat i) |>).
Definition set_halt_request_of (i : Z) (r : halt_request_t) : DM unit :=
  modify_proc i (fun p => p <| halt_request := r |>).
(** [processor(i) != NULL] *)
Definition has_core (x : dm_machine) (i : Z) : bool := in_array (procs x) i 1.

(** [hart_state[id]], [debug_rom_flags[id]] *)
Definition hart_at (id : Z) : DM hart_debug_state_t :=
  d <- dgets id_ ;; dopt (array_get (hart_state d) id).
Definition hart_modify (id : Z) (f : hart_debug_state_t -> hart_debug_state_t) : DM unit :=
  d <- dgets id_ ;; l <- dopt (array_alter f (hart_state d) id) ;;
  dmodify (fun d => d <| hart_state := l |>).
Definition flags_at (id : Z) : DM Z := d <- dgets id_ ;; dopt (array_get (debug_rom_flags d) id).
Definition flags_modify (id : Z) (f : Z -> Z) : DM unit :=
  d <- dgets id_ ;; l <- dopt (array_alter f (debug_rom_flags d) id) ;;
  dmodify (fun d => d <| debug_rom_flags := l |>).
Definition report (e : Z) : DM unit :=
  dmodify (fun d => d <| abstractcs ::= fun a => a <| cmderr := e |> |>).

Definition FLAG_GO : Z := Z.shiftl 1 DEBUG_ROM_FLAG_GO.
Definition FLAG_RESUME : Z := Z.shiftl 1 DEBUG_ROM_FLAG_RESUME.

Definition draw : DM Z := fun x => let '(v, r) := random (rng x) in (inr v, x <| rng := r |>).

Definition reset : DM unit :=
  (fun x => (inr tt, x <| procs ::= fmap (fun h => h <| proc ::= fun p => p <| halt_request := HR_NONE |> |>) |>)) ;;
  r <- draw ;;
  dmodify (reset_members r).

(** [proc_reset], which [processor_t::reset] calls at its end. *)
Definition proc_reset (id : Z) : DM unit :=
  hart_modify id (fun h => h <| havereset := true |> <| halted := false |> <| haltgroup := 0 |>).

Definition core_reset (i : Z) : DM unit := fun x =>
  match procs x !! Z.to_nat i with
  | None => (inr tt, x)
  | Some h =>
    match processor_reset h with
    | (inl e, h') => (inl (F_throw e), x <| procs ::= <[Z.to_nat i := h']> |>)
    | (inr tt, h') => proc_reset (id (proc h')) (x <| procs ::= <[Z.to_nat i := h']> |>)
    end
  end.

(** ** The memory window *)

(** One range of [load] or [store]: [start <= addr && addr + len <= start + size]. *)
Definition window (addr len start size : Z) : bool := (start <=? addr) && (addr +w len <=? start + size).
(** The range of the program buffer: its end is a sum of two [unsigned]s. *)
Definition progbuf_window (addr len : Z) (d : debug_module_t) : bool :=
  (debug_progbuf_start d <=? addr) && (addr +w len <=? u32 (debug_progbuf_start d + program_buffer_bytes d)).

Definition load (addr : Z) (len : nat) : DM (option (list Z)) :=
  d <- dgets id_ ;;
  let addr := DEBUG_START +w addr in
  let n := Z.of_nat len in
  let from a start := b <- dopt (array_out a (addr - start) len) ;; dret (Some b) in
  if window addr n DEBUG_ROM_ENTRY debug_rom_raw_len then from debug_rom_raw DEBUG_ROM_ENTRY
  else if window addr n DEBUG_ROM_WHERETO 4 then from (debug_rom_whereto d) DEBUG_ROM_WHERETO
  else if window addr n DEBUG_ROM_FLAGS 1024 then from (debug_rom_flags d) DEBUG_ROM_FLAGS
  else if window addr n (debug_abstract_start d) (debug_abstract_size * 4) then
    from (debug_abstract d) (debug_abstract_start d)
  else if window addr n debug_data_start (datasize * 4) then from (dmdata d) debug_data_start
  else if progbuf_window addr n d then
    from (program_buffer d) (debug_progbuf_start d)
  else dret None.

(** [assert(c)] *)
Definition dassert (c : bool) : DM unit := if c then dret tt else dfail (F_throw E_abort).

(** The store to [DEBUG_ROM_HALTED]: the hart has halted, and with it its group; *)
Definition mark_halted (id : Z) : DM unit :=
  h <- hart_at id ;;
  dwhen (negb (halted h))
    (hart_modify id (fun h => h <| halted := true |>) ;;
     dwhen (z2b (haltgroup h))
       (d <- dgets id_ ;;
        dfor (Z.to_nat (nprocs d)) 0 (fun i =>
          hi <- hart_at i ;;
          dwhen (negb (halted hi) && (haltgroup hi =? haltgroup h)) (set_halt_request_of i HR_GROUP)))).

(** and if it is the selected one, with nothing left to start, its command is done. *)
Definition note_completion (id : Z) : DM unit :=
  d <- dgets id_ ;;
  dwhen (hartsel (dmcontrol d) =? id)
    (flags <- flags_at id ;;
     dwhen (flags &w FLAG_GO =? 0) (dmodify (fun d => d <| abstract_command_completed := true |>))).

Definition store_halted (id : Z) : DM unit := mark_halted id ;; note_completion id.

Definition store (addr : Z) (bytes : list Z) : DM bool :=
  d <- dgets id_ ;;
  let len := Z.of_nat (length bytes) in
  id <- dopt (if len =? 4 then read32 bytes 0 else Some 0) ;;
  let addr := DEBUG_START +w addr in
  if window addr len debug_data_start (datasize * 4) then
    a <- dopt (array_in (dmdata d) (addr - debug_data_start) bytes) ;;
    dmodify (fun d => d <| dmdata := a |>) ;; dret true
  else if progbuf_window addr len d then
    a <- dopt (array_in (program_buffer d) (addr - debug_progbuf_start d) bytes) ;;
    dmodify (fun d => d <| program_buffer := a |>) ;; dret true
  else if addr =? DEBUG_ROM_HALTED then
    dassert (len =? 4) ;; store_halted id ;; dret true
  else if addr =? DEBUG_ROM_GOING then
    dassert (len =? 4) ;;
    flags_modify id (fun f => f &w Z.lnot FLAG_GO) ;; dret true
  else if addr =? DEBUG_ROM_RESUMING then
    dassert (len =? 4) ;;
    hart_modify id (fun h => h <| halted := false |>) ;;
    hart_modify id (fun h => h <| resumeack := true |>) ;;
    flags_modify id (fun f => f &w Z.lnot FLAG_RESUME) ;; dret true
  else if addr =? DEBUG_ROM_EXCEPTION then
    dwhen (cmderr (abstractcs d) =? CMDERR_NONE) (report CMDERR_EXCEPTION) ;; dret true
  else dret false.

(** ** The debug port into memory: an [mmu_t] whose [proc] is [NULL]

    It translates nothing, sees no triggers and checks no permissions; accesses
    to the debug module's own addresses come back to [load] and [store]. *)

Definition debug_mmio_load (addr : Z) (len : nat) : DM (option (list Z)) := fun x =>
  if negb (sim_mmio_ok addr (Z.of_nat len)) then (inr None, x)
  else if is_debug (platform x) addr then load (addr -w DEBUG_START) len x
  else
    let '(r, s, mips) := dev_load (platform x) (map (fun h => mip (st h)) (procs x)) addr len in
    (inr r, x <| platform := s |>
              <| procs ::= imap (fun i h => h <| st ::= fun t => t <| mip ::= fun m => nth i mips m |> |>) |>).

Definition debug_mmio_store (addr : Z) (bytes : list Z) : DM bool := fun x =>
  if negb (sim_mmio_ok addr (Z.of_nat (length bytes))) then (inr false, x)
  else if is_debug (platform x) addr then store (addr -w DEBUG_START) bytes x
  else
    let '(r, s, mips) := dev_store (platform x) (map (fun h => mip (st h)) (procs x)) addr bytes in
    (inr r, x <| platform := s |>
              <| procs ::= imap (fun i h => h <| st ::= fun t => t <| mip ::= fun m => nth i mips m |> |>) |>).

Definition debug_refill (addr ptr : Z) (type : access_type) (x : dm_machine) : dm_machine :=
  x <| debug_mmu ::= fun m => (refill_tlb_mmu m addr addr ptr type true).1 |>.

Definition debug_load_slow (addr : Z) (len : nat) : DM (list Z) := fun x =>
  match addr_to_mem (platform x) addr with
  | Some ptr => (inr (host_load (platform x) ptr len), debug_refill addr ptr LOAD x)
  | None =>
    (r <- debug_mmio_load addr len ;;
     match r with
     | Some bytes => dret bytes
     | None => dfail (F_throw (E_trap (trap_load_access_fault addr 0 0)))
     end) x
  end.

Definition debug_store_slow (addr : Z) (bytes : list Z) : DM unit := fun x =>
  match addr_to_mem (platform x) addr with
  | Some ptr => (inr tt, debug_refill addr ptr STORE (x <| platform ::= fun s => host_store s ptr bytes |>))
  | None =>
    (ok <- debug_mmio_store addr bytes ;;
     if (ok : bool) then dret tt else dfail (F_throw (E_trap (trap_store_access_fault addr 0 0)))) x
  end.

Definition debug_tlb_hit (tags : gmap Z Z) (addr : Z) : bool :=
  let vpn := addr >>w PGSHIFT in
  let tag := tlb_tag tags (vpn mod TLB_ENTRIES) in
  (tag =? vpn) || (tag =? (vpn |w TLB_CHECK_TRIGGERS)).
Definition debug_host (m : mmu_t) (addr : Z) : Z :=
  host_offset (tlb_entry (tlb_data m) ((addr >>w PGSHIFT) mod TLB_ENTRIES)) +w addr.

Definition debug_load (addr : Z) (size : nat) : DM Z := fun x =>
  if debug_tlb_hit (tlb_load_tag (debug_mmu x)) addr then
    (inr (host_load_int (platform x) (debug_host (debug_mmu x) addr) size), x)
  else
    (bytes <- debug_load_slow addr size ;;
     if misaligned addr size then dfail (F_throw (E_trap (trap_load_address_misaligned addr 0 0)))
     else dret (le_value bytes)) x.

Definition debug_store (addr : Z) (size : nat) (val : Z) : DM unit :=
  (fun x =>
     if debug_tlb_hit (tlb_store_tag (debug_mmu x)) addr then
       (inr tt, x <| platform ::= fun s => host_store s (debug_host (debug_mmu x) addr) (le_bytes size val) |>)
     else debug_store_slow addr (le_bytes size val) x) ;;
  if misaligned addr size then dfail (F_throw (E_trap (trap_store_address_misaligned addr 0 0)))
  else dret tt.

(** ** System bus access *)

Definition sb_access_bits (d : debug_module_t) : Z := Z.shiftl 8 (sbaccess (sbcs d)).

Definition word (a : list Z) (i : nat) : Z := nth i a 0.

(** The sums are of 32-bit operands, so they wrap before [value] is widened. *)
Definition sb_autoincrement (d : debug_module_t) : debug_module_t :=
  if negb (autoincrement (sbcs d)) || negb (z2b (max_bus_master_bits (config d))) then d
  else
    let a := sbaddress d in
    let value0 := u32 (word a 0 + sb_access_bits d / 8) in
    let value1 := u32 (word a 1 + u32 (value0 >>w 32)) in
    let value2 := u32 (word a 2 + u32 (value1 >>w 32)) in
    d <| sbaddress := [value0; value1; value2; u32 (word a 3 + u32 (value2 >>w 32))] |>.

Definition put_sbdata (i : nat) (v : Z) : DM unit := dmodify (fun d => d <| sbdata ::= <[i := v]> |>).
Definition put_sb_error (e : Z) : DM unit := dmodify (fun d => d <| sbcs ::= fun s => s <| sb_error := e |> |>).

(** [catch (trap_load_access_fault& t)] *)
Definition catch_load_access_fault (m : DM unit) (handler : DM unit) : DM unit := fun x =>
  match m x with
  | (inl (F_throw (E_trap t)), y) => if cause t =? CAUSE_LOAD_ACCESS then handler y else m x
  | r => r
  end.

Definition sb_address (d : debug_module_t) : Z :=
  Z.shiftl (word (sbaddress d) 1) 32 |w word (sbaddress d) 0.

Definition sb_read : DM unit :=
  d <- dgets id_ ;;
  let address := sb_address d in
  let access := sbaccess (sbcs d) in
  let bits := max_bus_master_bits (config d) in
  catch_load_access_fault
    (if (access =? 0) && (8 <=? bits) then v <- debug_load address 1 ;; put_sbdata 0 v
     else if (access =? 1) && (16 <=? bits) then v <- debug_load address 2 ;; put_sbdata 0 v
     else if (access =? 2) && (32 <=? bits) then v <- debug_load address 4 ;; put_sbdata 0 v
     else if (access =? 3) && (64 <=? bits) then
       v <- debug_load address 8 ;; put_sbdata 0 (u32 v) ;; put_sbdata 1 (u32 (v >>w 32))
     else put_sb_error 3)
    (put_sb_error 2).

Definition sb_write : DM unit :=
  d <- dgets id_ ;;
  let address := sb_address d in
  let access := sbaccess (sbcs d) in
  let bits := max_bus_master_bits (config d) in
  let data := word (sbdata d) in
  if (access =? 0) && (8 <=? bits) then debug_store address 1 (data 0%nat)
  else if (access =? 1) && (16 <=? bits) then debug_store address 2 (data 0%nat)
  else if (access =? 2) && (32 <=? bits) then debug_store address 4 (data 0%nat)
  else if (access =? 3) && (64 <=? bits) then
    debug_store address 8 (Z.shiftl (data 1%nat) 32 |w data 0%nat)
  else put_sb_error 3.

(** ** Abstract commands *)

(** The members after [run_test_idle]. *)
Definition rti_step (d : debug_module_t) : debug_module_t :=
  let d := if 0 <? rti_remaining d then d <| rti_remaining ::= fun n => n - 1 |> else d in
  if (rti_remaining d =? 0) && busy (abstractcs d) && abstract_command_completed d
  then d <| abstractcs ::= fun a => a <| busy := false |> |> else d.
Definition run_test_idle : DM unit := dmodify rti_step.

Definition is_fpu_reg (regno : Z) : bool :=
  ((0x1020 <=? regno) && (regno <=? 0x103f)) || (regno =? CSR_FFLAGS) || (regno =? CSR_FRM) || (regno =? CSR_FCSR).

(** [write32(debug_abstract, i++, w)] *)
Definition emit (i w : Z) : DM Z :=
  d <- dgets id_ ;; a <- dopt (write32 (debug_abstract d) i w) ;;
  dmodify (fun d => d <| debug_abstract := a |>) ;; dret (i + 1).

(** [abstractcs.cmderr = CMDERR_NOTSUP; return true]: [None] ends the command. *)
Definition notsup : DM (option Z) := report CMDERR_NOTSUP ;; dret None.

(** "[switch (size)]" with an assembler for words and one for double words. *)
Definition emit_sized (size i w32 w64 : Z) : DM (option Z) :=
  if size =? 2 then i <- emit i w32 ;; dret (Some i)
  else if size =? 3 then i <- emit i w64 ;; dret (Some i)
  else notsup.

Definition transfer_csr (size : Z) (write : bool) (regno i : Z) : DM (option Z) :=
  let start := debug_data_start in
  let Z0 := Asm.ZERO in
  let S0 := Asm.S0 in
  i <- (if negb (is_fpu_reg regno) then emit i (Asm.csrw S0 CSR_DSCRATCH0) else dret i) ;;
  r <- (if write then
          r <- emit_sized size i (Asm.lw S0 Z0 start) (Asm.ld S0 Z0 start) ;;
          match r with None => dret None | Some i => i <- emit i (Asm.csrw S0 regno) ;; dret (Some i) end
        else
          i <- emit i (Asm.csrr S0 regno) ;;
          emit_sized size i (Asm.sw S0 Z0 start) (Asm.sd S0 Z0 start)) ;;
  match r with
  | None => dret None
  | Some i =>
    i <- (if negb (is_fpu_reg regno) then emit i (Asm.csrr S0 CSR_DSCRATCH0) else dret i) ;;
    dret (Some i)
  end.

(** Support odd-numbered custom registers, to allow for debugger testing. *)
Definition transfer_custom (write : bool) (regno : Z) : DM (option Z) :=
  let custom_number := regno - 0xc000 in
  report CMDERR_NONE ;;
  d <- dgets id_ ;;
  (if write then
     v <- dopt (read32 (dmdata d) 0) ;;
     dmodify (fun d => d <| custom_base := u32 (v - custom_number) |>)
   else
     a <- dopt (write32 (dmdata d) 0 (u32 (custom_number + custom_base d))) ;;
     a <- dopt (write32 a 1 0) ;;
     dmodify (fun d => d <| dmdata := a |>)) ;;
  dret None.

Definition transfer (size : Z) (write : bool) (regno i : Z) : DM (option Z) :=
  let start := debug_data_start in
  let Z0 := Asm.ZERO in
  let S0 := Asm.S0 in
  d <- dgets id_ ;;
  i <- (if is_fpu_reg regno then
          i <- emit i (Asm.csrw S0 CSR_DSCRATCH0) ;;
          i <- emit i (Asm.csrr S0 CSR_MSTATUS) ;;
          i <- emit i (Asm.csrw S0 CSR_DSCRATCH1) ;;
          i <- emit i (Asm.lui S0 (MSTATUS_FS >>w 12)) ;;
          emit i (Asm.csrrs Z0 S0 CSR_MSTATUS)
        else dret i) ;;
  r <- (if (regno <? 0x1000) && support_abstract_csr_access (config d) then
          transfer_csr size write regno i
        else if (0x1000 <=? regno) && (regno <? 0x1020) then
          let regnum := regno - 0x1000 in
          if write then emit_sized size i (Asm.lw regnum Z0 start) (Asm.ld regnum Z0 start)
          else emit_sized size i (Asm.sw regnum Z0 start) (Asm.sd regnum Z0 start)
        else if (0x1020 <=? regno) && (regno <? 0x1040) then
          let fprnum := regno - 0x1020 in
          if write then emit_sized size i (Asm.flw fprnum Z0 start) (Asm.fld fprnum Z0 start)
          else emit_sized size i (Asm.fsw fprnum Z0 start) (Asm.fsd fprnum Z0 start)
        else if (0xc000 <=? regno) && (regno &w 1 =? 1) then transfer_custom write regno
        else notsup) ;;
  match r with
  | None => dret None
  | Some i =>
    i <- (if is_fpu_reg regno then
            i <- emit i (Asm.csrr S0 CSR_DSCRATCH1) ;;
            i <- emit i (Asm.csrw S0 CSR_MSTATUS) ;;
            emit i (Asm.csrr S0 CSR_DSCRATCH0)
          else dret i) ;;
    dret (Some i)
  end.

(** The command is in place: set the flag the hart polls. *)
Definition launch (i : Z) : DM unit :=
  d <- dgets id_ ;;
  emit i (if z2b (get_field (command d) AC_ACCESS_REGISTER_POSTEXEC)
          then Asm.jal Asm.ZERO (u32 (debug_progbuf_start d - debug_abstract_start d - 4 * i))
          else Asm.ebreak) ;;
  flags_modify (hartsel (dmcontrol d)) (fun f => f |w FLAG_GO) ;;
  dmodify (fun d => d <| rti_remaining := abstract_rti (config d) |>
                      <| abstract_command_completed := false |>
                      <| abstractcs ::= fun a => a <| busy := true |> |>).

(** Every path returns [true]. *)
Definition perform_abstract_command : DM unit :=
  d <- dgets id_ ;;
  if negb (cmderr (abstractcs d) =? CMDERR_NONE) then dret tt
  else if busy (abstractcs d) then report CMDERR_BUSY
  else if command d >>w 24 =? 0 then
    let size := get_field (command d) AC_ACCESS_REGISTER_AARSIZE in
    let write := z2b (get_field (command d) AC_ACCESS_REGISTER_WRITE) in
    let regno := get_field (command d) AC_ACCESS_REGISTER_REGNO in
    h <- hart_at (hartsel (dmcontrol d)) ;;
    if negb (halted h) then report CMDERR_HALTRESUME
    else
      r <- (if z2b (get_field (command d) AC_ACCESS_REGISTER_TRANSFER)
            then transfer size write regno 0 else dret (Some 0)) ;;
      match r with None => dret tt | Some i => launch i end
  else report CMDERR_NOTSUP.

(** ** The Debug Module Interface: reads *)

Definition hart_selected (hartid : Z) : DM bool :=
  d <- dgets id_ ;;
  if hasel (dmcontrol d) then
    if hartid =? hartsel (dmcontrol d) then dret true
    else dopt (array_get (hart_array_mask d) hartid)
  else dret (hartid =? hartsel (dmcontrol d)).

Definition field_if (mask : Z) (b : bool) (result : Z) : Z := set_field result mask (b2z b).

Definition read_dmcontrol (c : dmcontrol_t) : Z :=
  let result := field_if DMI_DMCONTROL_HALTREQ (haltreq c) 0 in
  let result := field_if DMI_DMCONTROL_RESUMEREQ (resumereq c) result in
  let result := set_field result DMI_DMCONTROL_HARTSELHI (hartsel c >>w DMI_DMCONTROL_HARTSELLO_LENGTH) in
  let result := field_if DMI_DMCONTROL_HASEL (hasel c) result in
  let result := set_field result DMI_DMCONTROL_HARTSELLO (hartsel c) in
  let result := field_if DMI_DMCONTROL_HARTRESET (hartreset c) result in
  let result := field_if DMI_DMCONTROL_NDMRESET (ndmreset c) result in
  field_if DMI_DMCONTROL_DMACTIVE (dmactive c) result.

Definition read_dmstatus : DM Z :=
  let upd f := dmodify (fun d => d <| dmstatus ::= f |>) in
  upd (fun s => s <| allhalted := true |> <| anyhalted := false |> <| allrunning := true |>
                  <| anyrunning := false |> <| allnonexistant := true |> <| allresumeack := true |>
                  <| anyresumeack := false |>) ;;
  d <- dgets id_ ;;
  dfor (Z.to_nat (nprocs d)) 0 (fun i =>
    selected <- hart_selected i ;;
    dwhen selected
      (upd (fun s => s <| allnonexistant := false |>) ;;
       h <- hart_at i ;;
       (if resumeack h then upd (fun s => s <| anyresumeack := true |>)
        else upd (fun s => s <| allresumeack := false |>)) ;;
       (if halted h then upd (fun s => s <| allrunning := false |> <| anyhalted := true |>)
        else upd (fun s => s <| allhalted := false |> <| anyrunning := true |>)))) ;;
  upd (fun s => s <| anynonexistant := nprocs d <=? hartsel (dmcontrol d) |>
                  <| allunavail := false |> <| anyunavail := false |>) ;;
  h <- hart_at (hartsel (dmcontrol d)) ;;
  s <- dgets dmstatus ;;
  let result := field_if DMI_DMSTATUS_IMPEBREAK (impebreak s) 0 in
  let result := field_if DMI_DMSTATUS_ALLHAVERESET (havereset h) result in
  let result := field_if DMI_DMSTATUS_ANYHAVERESET (havereset h) result in
  let result := field_if DMI_DMSTATUS_ALLNONEXISTENT (allnonexistant s) result in
  let result := field_if DMI_DMSTATUS_ALLUNAVAIL (allunavail s) result in
  let result := field_if DMI_DMSTATUS_ALLRUNNING (allrunning s) result in
  let result := field_if DMI_DMSTATUS_ALLHALTED (allhalted s) result in
  let result := field_if DMI_DMSTATUS_ALLRESUMEACK (allresumeack s) result in
  let result := field_if DMI_DMSTATUS_ANYNONEXISTENT (anynonexistant s) result in
  let result := field_if DMI_DMSTATUS_ANYUNAVAIL (anyunavail s) result in
  let result := field_if DMI_DMSTATUS_ANYRUNNING (anyrunning s) result in
  let result := field_if DMI_DMSTATUS_ANYHALTED (anyhalted s) result in
  let result := field_if DMI_DMSTATUS_ANYRESUMEACK (anyresumeack s) result in
  let result := field_if DMI_DMSTATUS_AUTHENTICATED (authenticated s) result in
  let result := field_if DMI_DMSTATUS_AUTHBUSY (authbusy s) result in
  dret (set_field result DMI_DMSTATUS_VERSION (version s)).

Definition read_abstractcs (a : abstractcs_t) : Z :=
  let result := set_field 0 DMI_ABSTRACTCS_CMDERR (cmderr a) in
  let result := field_if DMI_ABSTRACTCS_BUSY (busy a) result in
  let result := set_field result DMI_ABSTRACTCS_DATACOUNT (datacount a) in
  set_field result DMI_ABSTRACTCS_PROGBUFSIZE (acs_progbufsize a).

Definition read_hartinfo (a : abstractcs_t) : Z :=
  let result := set_field 0 DMI_HARTINFO_NSCRATCH 1 in
  let result := set_field result DMI_HARTINFO_DATAACCESS 1 in
  let result := set_field result DMI_HARTINFO_DATASIZE (datacount a) in
  set_field result DMI_HARTINFO_DATAADDR debug_data_start.

(** The bits of [hart_array_mask] at [base + i] and up. *)
Fixpoint read_hawindow (fuel : nat) (nprocs : Z) (mask : list bool) (base i result : Z) : option Z :=
  match fuel with
  | O => Some result
  | Datatypes.S fuel =>
    if base + i <? nprocs then
      b ← array_get mask (base + i);
      read_hawindow fuel nprocs mask base (i + 1) (if (b : bool) then result |w Z.shiftl 1 i else result)
    else read_hawindow fuel nprocs mask base (i + 1) result
  end.

Definition read_sbcs (s : sbcs_t) : Z :=
  let result := set_field 0 DMI_SBCS_SBVERSION (sb_version s) in
  let result := field_if DMI_SBCS_SBREADONADDR (readonaddr s) result in
  let result := set_field result DMI_SBCS_SBACCESS (sbaccess s) in
  let result := field_if DMI_SBCS_SBAUTOINCREMENT (autoincrement s) result in
  let result := field_if DMI_SBCS_SBREADONDATA (readondata s) result in
  let result := set_field result DMI_SBCS_SBERROR (sb_error s) in
  let result := set_field result DMI_SBCS_SBASIZE (asize s) in
  let result := field_if DMI_SBCS_SBACCESS128 (access128 s) result in
  let result := field_if DMI_SBCS_SBACCESS64 (access64 s) result in
  let result := field_if DMI_SBCS_SBACCESS32 (access32 s) result in
  let result := field_if DMI_SBCS_SBACCESS16 (access16 s) result in
  field_if DMI_SBCS_SBACCESS8 (access8 s) result.

Definition no_sb_error (m : DM unit) : DM unit := d <- dgets id_ ;; dwhen (sb_error (sbcs d) =? 0) m.

Definition all_ones32 : Z := 0xffffffff.

(** The data registers and the program buffer: all ones while a command is busy. *)
Definition read_data (i : Z) : DM (option Z) :=
  d <- dgets id_ ;;
  let a := abstractcs d in
  result <- dopt (read32 (dmdata d) i) ;;
  let result := if busy a then all_ones32 else result in
  dwhen (busy a && (cmderr a =? CMDERR_NONE)) (report CMDERR_BUSY) ;;
  dwhen (negb (busy a) && z2b ((autoexecdata (abstractauto d) >>w i) &w 1)) perform_abstract_command ;;
  dret (Some result).

(** [(v >> i) & 1] on 32-bit operands: a count of 32 or more is undefined, and
    fails like an access outside an array. *)
Definition shifted_bit (v i : Z) : option bool := if i <? 32 then Some (z2b ((v >>w i) &w 1)) else None.

Definition read_progbuf (i : Z) : DM (option Z) :=
  d <- dgets id_ ;;
  let a := abstractcs d in
  result <- dopt (read32 (program_buffer d) i) ;;
  let result := if busy a then all_ones32 else result in
  auto <- (if busy a then dret false else dopt (shifted_bit (autoexecprogbuf (abstractauto d)) i)) ;;
  dwhen auto perform_abstract_command ;;
  dret (Some result).

(** The other registers; [None] is the result [false]. *)
Definition read_register (address : Z) : DM (option Z) :=
  d <- dgets id_ ;;
  if address =? DMI_DMCONTROL then dret (Some (read_dmcontrol (dmcontrol d)))
  else if address =? DMI_DMSTATUS then v <- read_dmstatus ;; dret (Some v)
  else if address =? DMI_ABSTRACTCS then dret (Some (read_abstractcs (abstractcs d)))
  else if address =? DMI_ABSTRACTAUTO then
    dret (Some (set_field (set_field 0 DMI_ABSTRACTAUTO_AUTOEXECPROGBUF (autoexecprogbuf (abstractauto d)))
      DMI_ABSTRACTAUTO_AUTOEXECDATA (autoexecdata (abstractauto d))))
  else if address =? DMI_COMMAND then dret (Some 0)
  else if address =? DMI_HARTINFO then dret (Some (read_hartinfo (abstractcs d)))
  else if address =? DMI_HAWINDOWSEL then dret (Some (hawindowsel d))
  else if address =? DMI_HAWINDOW then
    v <- dopt (read_hawindow 32 (nprocs d) (hart_array_mask d) (hawindowsel d * 32) 0 0) ;; dret (Some v)
  else if address =? DMI_SBCS then dret (Some (read_sbcs (sbcs d)))
  else if address =? DMI_SBADDRESS0 then dret (Some (word (sbaddress d) 0))
  else if address =? DMI_SBADDRESS1 then dret (Some (word (sbaddress d) 1))
  else if address =? DMI_SBADDRESS2 then dret (Some (word (sbaddress d) 2))
  else if address =? DMI_SBADDRESS3 then dret (Some (word (sbaddress d) 3))
  else if address =? DMI_SBDATA0 then
    no_sb_error (dwhen (readondata (sbcs d)) sb_read ;; no_sb_error (dmodify sb_autoincrement)) ;;
    dret (Some (word (sbdata d) 0))
  else if address =? DMI_SBDATA1 then dret (Some (word (sbdata d) 1))
  else if address =? DMI_SBDATA2 then dret (Some (word (sbdata d) 2))
  else if address =? DMI_SBDATA3 then dret (Some (word (sbdata d) 3))
  else if address =? DMI_AUTHDATA then dret (Some (challenge d))
  else if address =? DMI_DMCS2 then
    h <- hart_at (hartsel (dmcontrol d)) ;; dret (Some (set_field 0 DMI_DMCS2_HALTGROUP (haltgroup h)))
  else dret None.

Definition is_data_register (d : debug_module_t) (address : Z) : bool :=
  (DMI_DATA0 <=? address) && (address <? DMI_DATA0 + datacount (abstractcs d)).
Definition is_progbuf_register (d : debug_module_t) (address : Z) : bool :=
  (DMI_PROGBUF0 <=? address) && (address <? DMI_PROGBUF0 + progbufsize (config d)).

Definition dmi_read (address : Z) : DM (option Z) :=
  d <- dgets id_ ;;
  if is_data_register d address then read_data (address - DMI_DATA0)
  else if is_progbuf_register d address then read_progbuf (address - DMI_PROGBUF0)
  else read_register address.

(** ** The Debug Module Interface: writes *)

Definition put_authenticated (b : bool) : DM unit :=
  dmodify (fun d => d <| dmstatus ::= fun s => s <| authenticated := b |> |>).

(** One hart of the loop over the selected harts. *)
Definition request_hart (value i : Z) : DM unit :=
  selected <- hart_selected i ;;
  dwhen selected
    (dwhen (z2b (get_field value DMI_DMCONTROL_ACKHAVERESET))
       (hart_modify i (fun h => h <| havereset := false |>)) ;;
     x <- (fun x => (inr x, x)) ;;
     dwhen (has_core x i)
       (let c := dmcontrol (dm x) in
        set_halt_request_of i (if haltreq c then HR_REGULAR else HR_NONE) ;;
        dwhen (resumereq c)
          (flags_modify i (fun f => f |w FLAG_RESUME) ;;
           hart_modify i (fun h => h <| resumeack := false |>)) ;;
        dwhen (hartreset c) (core_reset i))).

Definition write_dmcontrol (value : Z) : DM unit :=
  d <- dgets id_ ;;
  let bit mask := z2b (get_field value mask) in
  dwhen (negb (dmactive (dmcontrol d)) && bit DMI_DMCONTROL_DMACTIVE) reset ;;
  dmodify (fun d => d <| dmcontrol ::= fun c => c <| dmactive := bit DMI_DMCONTROL_DMACTIVE |> |>) ;;
  d <- dgets id_ ;;
  if negb (authenticated (dmstatus d)) || negb (dmactive (dmcontrol d)) then dret tt
  else
    let sel := Z.shiftl (get_field value DMI_DMCONTROL_HARTSELHI) DMI_DMCONTROL_HARTSELLO_LENGTH
               |w get_field value DMI_DMCONTROL_HARTSELLO in
    dmodify (fun d => d <| dmcontrol ::= fun c =>
      c <| haltreq := bit DMI_DMCONTROL_HALTREQ |> <| resumereq := bit DMI_DMCONTROL_RESUMEREQ |>
        <| hartreset := bit DMI_DMCONTROL_HARTRESET |> <| ndmreset := bit DMI_DMCONTROL_NDMRESET |>
        <| hasel := if support_hasel (config d) then bit DMI_DMCONTROL_HASEL else false |>
        <| hartsel := sel &w (Z.shiftl 1 (hartsellen d) - 1) |> |>) ;;
    dfor (Z.to_nat (nprocs d)) 0 (request_hart value) ;;
    x <- (fun x => (inr x, x)) ;;
    dwhen (ndmreset (dmcontrol (dm x))) (dfor (length (procs x)) 0 core_reset).

(** The write of the window: [hart_array_mask[base + i] = (value >> i) & 1]. *)
Fixpoint write_hawindow (fuel : nat) (nprocs : Z) (mask : list bool) (base i value : Z) : option (list bool) :=
  match fuel with
  | O => Some mask
  | Datatypes.S fuel =>
    if base + i <? nprocs then
      mask ← array_alter (fun _ => z2b ((value >>w i) &w 1)) mask (base + i);
      write_hawindow fuel nprocs mask base (i + 1) value
    else write_hawindow fuel nprocs mask base (i + 1) value
  end.

Definition write_authdata (value : Z) : DM unit :=
  d <- dgets id_ ;;
  dwhen (require_authentication (config d))
    (if value =? u32 (challenge d + secret) then put_authenticated true
     else
       put_authenticated false ;;
       r <- draw ;; dmodify (fun d => d <| challenge := u32 r |>)).

Definition put_sbaddress (i : nat) (v : Z) : DM unit := dmodify (fun d => d <| sbaddress ::= <[i := v]> |>).

Definition write_data (i value : Z) : DM bool :=
  d <- dgets id_ ;;
  let a := abstractcs d in
  dwhen (negb (busy a))
    (m <- dopt (write32 (dmdata d) i value) ;; dmodify (fun d => d <| dmdata := m |>)) ;;
  dwhen (busy a && (cmderr a =? CMDERR_NONE)) (report CMDERR_BUSY) ;;
  dwhen (negb (busy a) && z2b ((autoexecdata (abstractauto d) >>w i) &w 1)) perform_abstract_command ;;
  dret true.

Definition write_progbuf (i value : Z) : DM bool :=
  d <- dgets id_ ;;
  let a := abstractcs d in
  dwhen (negb (busy a))
    (m <- dopt (write32 (program_buffer d) i value) ;; dmodify (fun d => d <| program_buffer := m |>)) ;;
  auto <- (if busy a then dret false else dopt (shifted_bit (autoexecprogbuf (abstractauto d)) i)) ;;
  dwhen auto perform_abstract_command ;;
  dret true.

Definition write_register (address value : Z) : DM bool :=
  d <- dgets id_ ;;
  let field mask := get_field value mask in
  if address =? DMI_DMCONTROL then write_dmcontrol value ;; dret true
  else if address =? DMI_COMMAND then
    dmodify (fun d => d <| command := value |>) ;; perform_abstract_command ;; dret true
  else if address =? DMI_HAWINDOWSEL then
    dmodify (fun d => d <| hawindowsel := value &w (Z.shiftl 1 (field_width (nprocs d)) - 1) |>) ;; dret true
  else if address =? DMI_HAWINDOW then
    m <- dopt (write_hawindow 32 (nprocs d) (hart_array_mask d) (hawindowsel d * 32) 0 value) ;;
    dmodify (fun d => d <| hart_array_mask := m |>) ;; dret true
  else if address =? DMI_ABSTRACTCS then
    report (cmderr (abstractcs d) &w Z.lnot (field DMI_ABSTRACTCS_CMDERR)) ;; dret true
  else if address =? DMI_ABSTRACTAUTO then
    dmodify (fun d => d <| abstractauto :=
      mk_abstractauto (field DMI_ABSTRACTAUTO_AUTOEXECPROGBUF) (field DMI_ABSTRACTAUTO_AUTOEXECDATA) |>) ;;
    dret true
  else if address =? DMI_SBCS then
    dmodify (fun d => d <| sbcs ::= fun s =>
      s <| readonaddr := z2b (field DMI_SBCS_SBREADONADDR) |> <| sbaccess := field DMI_SBCS_SBACCESS |>
        <| autoincrement := z2b (field DMI_SBCS_SBAUTOINCREMENT) |>
        <| readondata := z2b (field DMI_SBCS_SBREADONDATA) |>
        <| sb_error := sb_error s &w Z.lnot (field DMI_SBCS_SBERROR) |> |>) ;; dret true
  else if address =? DMI_SBADDRESS0 then
    put_sbaddress 0 value ;;
    dwhen ((sb_error (sbcs d) =? 0) && readonaddr (sbcs d)) (sb_read ;; dmodify sb_autoincrement) ;;
    dret true
  else if address =? DMI_SBADDRESS1 then put_sbaddress 1 value ;; dret true
  else if address =? DMI_SBADDRESS2 then put_sbaddress 2 value ;; dret true
  else if address =? DMI_SBADDRESS3 then put_sbaddress 3 value ;; dret true
  else if address =? DMI_SBDATA0 then
    put_sbdata 0 value ;;
    no_sb_error (sb_write ;; no_sb_error (dmodify sb_autoincrement)) ;; dret true
  else if address =? DMI_SBDATA1 then put_sbdata 1 value ;; dret true
  else if address =? DMI_SBDATA2 then put_sbdata 2 value ;; dret true
  else if address =? DMI_SBDATA3 then put_sbdata 3 value ;; dret true
  else if address =? DMI_AUTHDATA then write_authdata value ;; dret true
  else if address =? DMI_DMCS2 then
    dwhen (support_haltgroups (config d) && z2b (field DMI_DMCS2_HGWRITE))
      (hart_modify (hartsel (dmcontrol d)) (fun h => h <| haltgroup := field DMI_DMCS2_HALTGROUP |>)) ;;
    dret true
  else dret false.

Definition dmi_write (address value : Z) : DM bool :=
  d <- dgets id_ ;;
  if negb (authenticated (dmstatus d)) && negb (address =? DMI_AUTHDATA) && negb (address =? DMI_DMCONTROL)
  then dret false
  else if is_data_register d address then write_data (address - DMI_DATA0) value
  else if is_progbuf_register d address then write_progbuf (address - DMI_PROGBUF0) value
  else write_register address value.

(** ** What can happen to a debug module *)

Inductive dm_op :=
| Op_dmi_read (address : Z)
| Op_dmi_write (address value : Z)
| Op_run_test_idle
| Op_load (addr : Z) (len : nat)
| Op_store (addr : Z) (bytes : list Z)
| Op_proc_reset (id : Z).

Definition dm_run (op : dm_op) : DM unit :=
  match op with
  | Op_dmi_read a => dmi_read a ;; dret tt
  | Op_dmi_write a v => dmi_write a v ;; dret tt
  | Op_run_test_idle => run_test_idle
  | Op_load a n => load a n ;; dret tt
  | Op_store a bs => store a bs ;; dret tt
  | Op_proc_reset id => proc_reset id
  end.

(** A sequence of operations, until one fails. *)
Fixpoint dm_runs (ops : list dm_op) : DM unit :=
  match ops with
  | [] => dret tt
  | op :: ops => dm_run op ;; dm_runs ops
  end.

End DebugModule.

(** ** The debug module of a machine of one hart *)

(** The bus of [Sim] with the debug module added at [DEBUG_START], below all
    other devices. *)
#[export] Instance sim_platform (bus : bus_t) : Platform (sim_t bus) := {
  is_debug := fun _ addr => match find_device bus addr with None => true | Some _ => false end;
  dev_load := fun s mips addr len =>
    let '(r, c, mip) := bus_load bus (clint s) (hd 0 mips) addr len in
    (r, mk_sim bus (host_memory s) c, mip :: tl mips);
  dev_store := fun s mips addr bytes =>
    let '(r, c, mip) := bus_store bus (clint s) (hd 0 mips) addr bytes in
    (r, mk_sim bus (host_memory s) c, mip :: tl mips)
}.

(** The default configuration of [spike_main/spike.cc]. *)
Definition default_dm_config : debug_module_config_t := mk_config 2 0 false 0 true true true true.
