(* ===== verification/DebugFacts.v ===== *)
(** * DebugFacts: the debug module never leaves its arrays

    A program logic for the members of [DebugModule] ([safe]: from a state that
    satisfies an invariant, the member returns and keeps the invariant), the
    invariant [dm_ok] of the object, and a rule for every operation.  The bus
    master is off, as it is by default: its accesses can come back to the
    debug module with any hart number. *)
From Stdlib Require Import ZArith Lia Bool List.
From stdpp Require Import base list gmap.
From S2P Require Import Prelude Arith Encoding Decode State Processor Mmu Csr TrapEntry Fields CsrFacts Sim DebugDefines DebugAsm DebugModule.
#[local] Open Scope Z_scope.
#[local] Open Scope word_scope.
#[local] Open Scope record_scope.

(** ** Arrays *)

Lemma in_array_spec {A} (a : list A) off n : in_array a off n = true <-> 0 <= off /\ off + n <= Z.of_nat (length a).
Proof. unfold in_array. lia. Qed.

Lemma copied_length (a : list Z) off bs : in_array a off (Z.of_nat (length bs)) = true ->
  length (copy_in a off bs) = length a.
Proof. rewrite in_array_spec. intros [H1 H2]. now apply copy_in_length. Qed.

Lemma array_in_ok a off bs : 0 <= off -> off + Z.of_nat (length bs) <= Z.of_nat (length a) ->
  exists a', array_in a off bs = Some a' /\ length a' = length a.
Proof.
  intros H1 H2. assert (E : in_array a off (Z.of_nat (length bs)) = true) by (now apply in_array_spec).
  exists (copy_in a off bs). unfold array_in. rewrite E. split; [reflexivity|now apply copied_length].
Qed.

Lemma array_out_ok a off n : 0 <= off -> off + Z.of_nat n <= Z.of_nat (length a) ->
  array_out a off n = Some (copy_out a off n).
Proof. intros H1 H2. unfold array_out. now rewrite (proj2 (in_array_spec a off _)). Qed.

Lemma write32_ok a i v : 0 <= i -> i * 4 + 4 <= Z.of_nat (length a) ->
  exists a', write32 a i v = Some a' /\ length a' = length a.
Proof. intros H1 H2. apply array_in_ok; [lia|]. rewrite le_bytes_length. lia. Qed.

Lemma read32_ok a i : 0 <= i -> i * 4 + 4 <= Z.of_nat (length a) -> read32 a i = Some (le_value (copy_out a (i * 4) 4)).
Proof. intros H1 H2. unfold read32. rewrite array_out_ok by lia. reflexivity. Qed.

Lemma array_get_ok {A} (a : list A) i : 0 <= i < Z.of_nat (length a) -> exists x, array_get a i = Some x.
Proof.
  intros H. unfold array_get. rewrite (proj2 (in_array_spec a i 1)) by lia.
  apply lookup_lt_is_Some. lia.
Qed.

Lemma array_alter_ok {A} f (a : list A) i : 0 <= i < Z.of_nat (length a) ->
  exists a', array_alter f a i = Some a' /\ length a' = length a.
Proof.
  intros H. exists (alter f (Z.to_nat i) a). unfold array_alter.
  rewrite (proj2 (in_array_spec a i 1)) by lia. split; [reflexivity|apply length_alter].
Qed.

(** ** Widths *)

Lemma field_width_loop_spec fuel : forall n i, 0 <= n < 2 ^ Z.of_nat fuel ->
  i <= field_width_loop fuel n i /\ n < 2 ^ (field_width_loop fuel n i - i) <= Z.max 1 (2 * n).
Proof.
  induction fuel as [|fuel IH]; intros n i Hn; cbn [field_width_loop].
  - rewrite Z.sub_diag. lia.
  - unfold z2b. destruct (Z.eqb_spec n 0) as [->|N0]; cbn [negb].
    + rewrite Z.sub_diag. lia.
    + rewrite Z.shiftr_div_pow2, Z.pow_1_r by lia.
      rewrite Nat2Z.inj_succ, Z.pow_succ_r in Hn by lia.
      destruct (IH (n / 2) (i + 1)) as (H1 & H2 & H3); [Z.div_mod_to_equations; lia|].
      split; [lia|]. set (k := field_width_loop fuel (n / 2) (i + 1)) in *.
      replace (k - i) with (Z.succ (k - (i + 1))) by lia.
      rewrite Z.pow_succ_r by lia. Z.div_mod_to_equations; lia.
Qed.

(** Wide enough to number [n] harts, within the arrays of 1024. *)
Lemma field_width_spec n : 1 <= n <= 1024 -> 0 <= field_width n /\ n <= 2 ^ field_width n <= 1024.
Proof.
  intros H. unfold field_width. rewrite uw_small by (unfold fits; lia).
  destruct (field_width_loop_spec 32 (n - 1) 0) as (H1 & H2 & H3); [cbn; lia|].
  rewrite Z.sub_0_r in *. split; [exact H1|]. split; [lia|].
  set (k := field_width_loop 32 (n - 1) 0) in *. change 1024 with (2 ^ 10).
  apply Z.pow_le_mono_r; [lia|]. destruct (Z.le_gt_cases k 10) as [|G]; [assumption|].
  assert (2 ^ 11 <= 2 ^ k) by (apply Z.pow_le_mono_r; lia). lia.
Qed.

(** ** A hart's reset returns

    It runs [set_csr] on registers whose writes throw nothing. *)

Section CoreReset.
Context {S : Type}.
#[local] Notation M := (State.M S).
#[local] Open Scope monad_scope.

Definition same_core (p p' : processor_t) : Prop :=
  id p' = id p /\ max_xlen p' = max_xlen p /\ max_isa p' = max_isa p.

(** Returns, with the same configuration. *)
Definition calm (m : M unit) : Prop := forall h, max_xlen (proc h) = 32 \/ max_xlen (proc h) = 64 ->
  exists h', m h = (inr tt, h') /\ same_core (proc h) (proc h').

Lemma calm_bind m k : calm m -> calm k -> calm (m ;; k).
Proof.
  intros Hm Hk h Hx. destruct (Hm h Hx) as (h1 & E1 & A1 & A2 & A3).
  destruct (Hk h1) as (h2 & E2 & B1 & B2 & B3); [now rewrite A2|].
  exists h2. unfold bind. rewrite E1, E2. split; [reflexivity|]. unfold same_core. now rewrite B1, B2, B3.
Qed.

Lemma calm_gets {A} (f : hart S -> A) (k : A -> M unit) : (forall a, calm (k a)) -> calm (a <- gets f ;; k a).
Proof. intros H h. apply H. Qed.

Lemma calm_modify f : (forall h, same_core (proc h) (proc (f h))) -> calm (modify f).
Proof. intros H h _. exists (f h). split; [reflexivity|apply H]. Qed.

Lemma calm_upd f : calm (upd f).
Proof. apply calm_modify. intros h. now split. Qed.

Lemma calm_if (b : bool) m1 m2 : calm m1 -> calm m2 -> calm (if b then m1 else m2).
Proof. now destruct b. Qed.

Lemma calm_ret : calm (ret tt).
Proof. intros h _. exists h. now repeat split. Qed.

Lemma calm_flush_tlb : calm flush_tlb.
Proof. apply calm_bind; apply calm_modify; now split. Qed.

Lemma calm_mstatus val : calm (set_mstatus_csr val).
Proof.
  intros h Hx. destruct (write_mstatus_total (st h) (proc h) val Hx) as [m E].
  assert (K : calm (upd (fun s => s <| mstatus := m |>) ;; upd_proc (fun p => p <| xlen := max_xlen p |>))).
  { apply calm_bind; [apply calm_upd|apply calm_modify; now repeat split]. }
  assert (F : forall b, calm (when b flush_tlb)).
  { intros []; [apply calm_flush_tlb|apply calm_ret]. }
  destruct (calm_bind _ _ (F (z2b ((val ^w mstatus (st h)) &w (MSTATUS_MPP |w MSTATUS_MPRV |w MSTATUS_SUM |w MSTATUS_MXR)))) K h Hx)
    as (h' & E' & A).
  exists h'. split; [|exact A]. rewrite <- E'. unfold set_mstatus_csr, bind, gets. now rewrite E.
Qed.

Lemma calm_reset : calm processor_reset.
Proof.
  unfold processor_reset. apply calm_gets. intros p.
  do 3 (apply calm_bind; [apply calm_upd|]).
  apply calm_bind; [apply calm_modify; now repeat split|]. apply calm_gets. intros s.
  apply calm_bind; [apply calm_gets; intros p'; apply calm_gets; intros s'; apply calm_gets; intros p''; apply calm_mstatus|].
  apply calm_bind; [apply calm_modify; now repeat split|]. apply calm_gets. intros p'.
  apply calm_if; [|apply calm_ret].
  apply calm_bind; (apply calm_gets; intros q; apply calm_gets; intros q'; apply calm_if; [apply calm_ret|];
    apply calm_bind; [apply calm_upd|apply calm_flush_tlb]).
Qed.

End CoreReset.

(** ** The program logic *)

Section Safe.
Context {S R : Type} `{!SimIf S, !Platform S}.
#[local] Notation DM := (DM S R).
#[local] Notation dm_machine := (dm_machine S R).
Implicit Types (I : dm_machine -> Prop) (x y : dm_machine).
#[local] Open Scope dm_scope.

Definition safe {A : Type} I (m : DM A) (Q : A -> Prop) : Prop := forall x, I x ->
  match m x with (inr a, y) => I y /\ Q a | (inl _, _) => False end.

Section Rules.
Context {A B : Type}.
Variable I : dm_machine -> Prop.

Lemma safe_bind (m : DM A) (k : A -> DM B) (Q : A -> Prop) (Q' : B -> Prop) :
  safe I m Q -> (forall a, Q a -> safe I (k a) Q') -> safe I (dbind m k) Q'.
Proof.
  intros Hm Hk x Hx. specialize (Hm x Hx). unfold dbind.
  destruct (m x) as [[e|a] y]; [exact Hm|]. destruct Hm. now apply Hk.
Qed.

Lemma safe_conseq (m : DM A) (Q Q' : A -> Prop) : safe I m Q -> (forall a, Q a -> Q' a) -> safe I m Q'.
Proof.
  intros Hm H x Hx. specialize (Hm x Hx). destruct (m x) as [[e|a] y]; [exact Hm|].
  destruct Hm. auto.
Qed.

Lemma safe_ret (a : A) (Q : A -> Prop) : Q a -> safe I (dret a) Q.
Proof. intros Ha x Hx. now split. Qed.

Lemma safe_gets (f : debug_module_t -> A) (Q : A -> Prop) :
  (forall x, I x -> Q (f (dm x))) -> safe I (dgets f) Q.
Proof. intros H x Hx. split; [exact Hx|now apply H]. Qed.

Lemma safe_opt (o : option A) (Q : A -> Prop) : (exists a, o = Some a /\ Q a) -> safe I (dopt o) Q.
Proof. intros (a & -> & Ha). now apply safe_ret. Qed.

Lemma safe_when (c : bool) (m : DM unit) (Q : unit -> Prop) :
  (c = true -> safe I m Q) -> Q tt -> safe I (dwhen c m) Q.
Proof. destruct c; intros H Ht; [now apply H|intros x Hx; now split]. Qed.

Lemma safe_if (c : bool) (m1 m2 : DM A) (Q : A -> Prop) :
  (c = true -> safe I m1 Q) -> (c = false -> safe I m2 Q) -> safe I (if c then m1 else m2) Q.
Proof. destruct c; auto. Qed.

Lemma safe_modify f : (forall x, I x -> I (x <| dm ::= f |>)) -> safe I (dmodify f) (fun _ => True).
Proof. intros H x Hx. split; [now apply H|exact Logic.I]. Qed.

End Rules.

Lemma safe_for I n body : (forall i, 0 <= i -> safe I (body i) (fun _ => True)) ->
  forall i, 0 <= i -> safe I (dfor n i body) (fun _ => True).
Proof.
  intros H. induction n as [|n IH]; intros i Hi; cbn [dfor]; [intros x Hx; now split|].
  eapply safe_bind; [now apply H|]. intros _ _. apply IH. lia.
Qed.


(** ** The invariant *)

Variable random : R -> Z * R.
Variable c : debug_module_config_t.
Variable N : Z.

Hypothesis N_ok : 1 <= N <= 1024.
Hypothesis no_bus_master : max_bus_master_bits c < 8.
(** [program_buffer_bytes] does not wrap around. *)
Hypothesis size_ok : 0 <= progbufsize c <= 32.

Definition buffer_bytes : Z := (if support_impebreak c then 4 else 0) + 4 * progbufsize c.

(** Every hart number the debug module can form. *)
Definition hart_number (i : Z) : Prop := 0 <= i < 2 ^ field_width N.

Record dm_ok (d : debug_module_t) : Prop := mk_dm_ok {
  ok_nprocs : nprocs d = N;
  ok_config : config d = c;
  ok_hartsellen : hartsellen d = field_width N;
  ok_progbuf : Z.of_nat (length (program_buffer d)) = buffer_bytes;
  ok_bytes : program_buffer_bytes d = buffer_bytes;
  ok_progbuf_start : debug_progbuf_start d = u32 (debug_data_start - buffer_bytes);
  ok_abstract_start : debug_abstract_start d = u32 (debug_progbuf_start d - debug_abstract_size * 4);
  ok_whereto : length (debug_rom_whereto d) = 4%nat;
  ok_abstract : length (debug_abstract d) = 48%nat;
  ok_dmdata : length (dmdata d) = 8%nat;
  ok_hart_state : Z.of_nat (length (hart_state d)) = 2 ^ field_width N;
  ok_flags : length (debug_rom_flags d) = 1024%nat;
  ok_mask : Z.of_nat (length (hart_array_mask d)) = N;
  ok_hartsel : hart_number (hartsel (dmcontrol d));
  ok_hawindowsel : 0 <= hawindowsel d;
  ok_datacount : datacount (abstractcs d) = 2
}.

Definition proc_ok (h : hart unit) : Prop :=
  (max_xlen (proc h) = 32 \/ max_xlen (proc h) = 64) /\ hart_number (id (proc h)).

Definition machine_safe (x : dm_machine) : Prop :=
  dm_ok (dm x) /\ Z.of_nat (length (procs x)) = N /\ Forall proc_ok (procs x).
#[local] Notation I := machine_safe.

Lemma hart_number_flags i : hart_number i -> 0 <= i < 1024.
Proof. intros H. destruct (field_width_spec N N_ok) as (_ & _ & L). unfold hart_number in H. lia. Qed.

Lemma nprocs_hart_number i : 0 <= i < N -> hart_number i.
Proof. intros H. destruct (field_width_spec N N_ok) as (_ & L & _). unfold hart_number. lia. Qed.

(** A change of members that keeps the invariant. *)
Lemma safe_dm f : (forall d, dm_ok d -> dm_ok (f d)) -> safe I (dmodify f) (fun _ => True).
Proof. intros H. apply safe_modify. intros x (H1 & H2 & H3). split; [now apply H|now split]. Qed.

Lemma safe_dm_get (Q : debug_module_t -> Prop) : (forall d, dm_ok d -> Q d) -> safe I (dgets id_) Q.
Proof. intros H. apply safe_gets. intros x (H1 & _). now apply H. Qed.

(** Read all members, with the invariant. *)
Lemma safe_get_bind {A} (k : debug_module_t -> DM A) (Q : A -> Prop) :
  (forall d, dm_ok d -> safe I (k d) Q) -> safe I (dbind (dgets id_) k) Q.
Proof. intros H. eapply safe_bind; [now apply (safe_dm_get dm_ok)|exact H]. Qed.

Lemma safe_opt_bind {A B} (o : option A) (k : A -> DM B) (P : A -> Prop) (Q : B -> Prop) :
  (exists a, o = Some a /\ P a) -> (forall a, P a -> safe I (k a) Q) -> safe I (dbind (dopt o) k) Q.
Proof. intros H K. eapply safe_bind; [apply safe_opt; exact H|exact K]. Qed.

Lemma safe_seq {A} (m : DM unit) (k : DM A) (Q : A -> Prop) :
  safe I m (fun _ => True) -> safe I k Q -> safe I (dbind m (fun _ => k)) Q.
Proof. intros H K. eapply safe_bind; [exact H|auto]. Qed.

Lemma safe_unit (m : DM unit) (Q : unit -> Prop) : Q tt -> safe I m (fun _ => True) -> safe I m Q.
Proof. intros H K. eapply safe_conseq; [exact K|now intros []]. Qed.

(** *** Accesses to the arrays *)

Lemma safe_hart_at id : hart_number id -> safe I (hart_at id) (fun _ => True).
Proof.
  intros H. apply safe_get_bind. intros d D. apply safe_opt.
  destruct (array_get_ok (hart_state d) id) as [h E]; [rewrite (ok_hart_state d D); exact H|eauto].
Qed.

Lemma safe_hart_modify id f : hart_number id -> safe I (hart_modify id f) (fun _ => True).
Proof.
  intros H. apply safe_get_bind. intros d D.
  apply safe_opt_bind with (P := fun l => Z.of_nat (length l) = 2 ^ field_width N).
  - destruct (array_alter_ok f (hart_state d) id) as (l & E & L); [rewrite (ok_hart_state d D); exact H|].
    exists l. now rewrite L, (ok_hart_state d D).
  - intros l L. apply safe_dm. intros d' []. now constructor.
Qed.

Lemma safe_flags_at id : hart_number id -> safe I (flags_at id) (fun _ => True).
Proof.
  intros H%hart_number_flags. apply safe_get_bind. intros d D. apply safe_opt.
  destruct (array_get_ok (debug_rom_flags d) id) as [h E]; [rewrite (ok_flags d D); exact H|eauto].
Qed.

Lemma safe_flags_modify id f : hart_number id -> safe I (flags_modify id f) (fun _ => True).
Proof.
  intros H%hart_number_flags. apply safe_get_bind. intros d D.
  apply safe_opt_bind with (P := fun l => length l = 1024%nat).
  - destruct (array_alter_ok f (debug_rom_flags d) id) as (l & E & L); [rewrite (ok_flags d D); exact H|].
    exists l. now rewrite L, (ok_flags d D).
  - intros l L. apply safe_dm. intros d' []. now constructor.
Qed.

Lemma safe_report e : safe I (report e) (fun _ => True).
Proof. apply safe_dm. intros d []. now constructor. Qed.

Lemma safe_emit i w : 0 <= i < 12 -> safe I (emit i w) (fun j => j = i + 1).
Proof.
  intros H. apply safe_get_bind. intros d D.
  apply safe_opt_bind with (P := fun l => length l = 48%nat).
  - destruct (write32_ok (debug_abstract d) i w) as (l & E & L); [lia|rewrite (ok_abstract d D); lia|].
    exists l. now rewrite L, (ok_abstract d D).
  - intros l L. apply safe_seq; [|now apply safe_ret]. apply safe_dm. intros d' []. now constructor.
Qed.

Lemma safe_proc i f : (forall h, proc_ok h -> proc_ok (h <| proc ::= f |>)) ->
  safe I (modify_proc i f) (fun _ => True).
Proof.
  intros H x (H1 & H2 & H3). split; [|exact Logic.I]. split; [exact H1|]. split.
  - rewrite <- H2. f_equal. apply length_alter.
  - apply Forall_alter; [exact H3|]. intros h _. apply H.
Qed.

Lemma safe_halt_request i r : safe I (set_halt_request_of i r) (fun _ => True).
Proof. apply safe_proc. now intros h [C D]. Qed.

(** *** Resets *)

Lemma safe_draw : safe I (draw random) (fun _ => True).
Proof. intros x Hx. unfold draw. destruct (random (rng x)). now split. Qed.

Lemma safe_reset : safe I (reset random) (fun _ => True).
Proof.
  apply safe_seq.
  - intros x (H1 & H2 & H3). split; [|exact Logic.I]. split; [exact H1|]. split.
    + rewrite <- H2. f_equal. apply length_fmap.
    + apply Forall_fmap. apply Forall_impl with (1 := H3). now intros h [C D].
  - eapply safe_bind; [apply safe_draw|]. intros r _. apply safe_dm.
    intros d []. constructor; try assumption.
    + change (hart_number 0). unfold hart_number.
      destruct (field_width_spec N N_ok) as (H & _). pose proof (pow2_pos (field_width N) H). lia.
    + change (datacount (abstractcs (reset_members r d))) with (Z.of_nat (length (dmdata d)) / 4).
      now rewrite ok_dmdata0.
Qed.

Lemma safe_proc_reset id : hart_number id -> safe I (proc_reset id) (fun _ => True).
Proof. apply safe_hart_modify. Qed.

Lemma safe_core_reset i : safe I (core_reset i) (fun _ => True).
Proof.
  intros x Hx. unfold core_reset. destruct (procs x !! Z.to_nat i) as [h|] eqn:E; [|now split].
  destruct Hx as (H1 & H2 & H3).
  destruct (Forall_lookup_1 _ _ _ _ H3 E) as [Cx Hid].
  destruct (calm_reset h Cx) as (h' & -> & A1 & A2 & A3).
  apply (safe_proc_reset (id (proc h'))); [now rewrite A1|].
  split; [exact H1|]. split.
  - rewrite <- H2. f_equal. apply length_insert.
  - apply Forall_insert; [exact H3|]. unfold proc_ok. now rewrite A1, A2.
Qed.

(** *** The memory window *)

Lemma window_spec addr n start size : 0 <= addr -> 0 <= n -> addr + n < 2 ^ 64 ->
  window addr n start size = true -> 0 <= addr - start /\ addr - start + n <= size.
Proof.
  intros H1 H2 H3 W. unfold window, add64 in W. rewrite uw_small in W by (unfold fits; lia). lia.
Qed.

Lemma progbuf_window_spec addr n d : dm_ok d -> 0 <= addr -> 0 <= n -> addr + n < 2 ^ 64 ->
  progbuf_window addr n d = true -> window addr n (debug_progbuf_start d) (program_buffer_bytes d) = true.
Proof.
  intros D H1 H2 H3. unfold progbuf_window, window. rewrite (ok_bytes d D), (ok_progbuf_start d D).
  assert (B : 0 <= buffer_bytes <= 132) by (unfold buffer_bytes; destruct (support_impebreak c); lia).
  rewrite (uw_small 32 (debug_data_start - _)) by (unfold fits, debug_data_start; lia).
  now rewrite uw_small by (unfold fits, debug_data_start; lia).
Qed.

Lemma debug_addr addr : 0 <= addr < 2 ^ 64 -> DEBUG_START +w addr = addr.
Proof. intros H. apply uw_small. exact H. Qed.

Lemma safe_load addr n : 0 <= addr -> addr + Z.of_nat n < 2 ^ 64 -> safe I (load addr n) (fun _ => True).
Proof.
  intros H1 H2. apply safe_get_bind. intros d D. rewrite debug_addr by lia.
  assert (F : forall a start size, Z.of_nat (length a) = size ->
    window addr (Z.of_nat n) start size = true ->
    safe I (b <- dopt (array_out a (addr - start) n) ;; dret (Some b)) (fun _ => True)).
  { intros a start size L W. apply window_spec in W; [|lia..].
    apply safe_opt_bind with (P := fun _ => True); [|intros b _; now apply safe_ret].
    exists (copy_out a (addr - start) n). split; [apply array_out_ok; lia|exact Logic.I]. }
  apply safe_if; intros W1; [now apply F with (2 := W1)|]. apply safe_if; intros W2; [apply F with (2 := W2)|].
  { now rewrite (ok_whereto d D). }
  apply safe_if; intros W3; [apply F with (2 := W3); now rewrite (ok_flags d D)|].
  apply safe_if; intros W4; [apply F with (2 := W4); now rewrite (ok_abstract d D)|].
  apply safe_if; intros W5; [apply F with (2 := W5); now rewrite (ok_dmdata d D)|].
  apply safe_if; intros W6; [|now apply safe_ret]. apply progbuf_window_spec in W6; [|exact D|lia..].
  apply F with (2 := W6). now rewrite (ok_progbuf d D), (ok_bytes d D).
Qed.

Lemma safe_assert b : b = true -> safe I (dassert b) (fun _ => True).
Proof. intros ->. now apply safe_ret. Qed.

Lemma safe_store_halted id : hart_number id -> safe I (store_halted id) (fun _ => True).
Proof.
  intros H. apply safe_seq.
  - eapply safe_bind; [now apply safe_hart_at|]. intros h _. apply safe_when; [|exact Logic.I]. intros _. apply safe_seq; [now apply safe_hart_modify|].
    apply safe_when; [|exact Logic.I]. intros _. apply safe_get_bind. intros d D.
    rewrite (ok_nprocs d D).
    assert (G : forall n i, 0 <= i -> i + Z.of_nat n <= N ->
      safe I (dfor n i (fun i => hi <- hart_at i ;;
        dwhen (negb (halted hi) && (haltgroup hi =? haltgroup h)) (set_halt_request_of i HR_GROUP))) (fun _ => True)).
    { induction n as [|n IH]; intros i H1 H2; cbn [dfor]; [now apply safe_ret|].
      apply safe_seq; [|apply IH; lia].
      eapply safe_bind; [apply safe_hart_at, nprocs_hart_number; lia|]. intros hi _.
      apply safe_when; [|exact Logic.I]. intros _. apply safe_halt_request. }
    apply G; lia.
  - apply safe_get_bind. intros d D. apply safe_when; [|exact Logic.I]. intros _.
    eapply safe_bind; [now apply safe_flags_at|]. intros f _.
    apply safe_when; [|exact Logic.I]. intros _. apply safe_dm. intros d' []. now constructor.
Qed.

(** Stores a hart's debug ROM makes: to the registers that take a hart number,
    a word with such a number. *)
Definition takes_hart_number (addr : Z) : Prop :=
  addr = DEBUG_ROM_HALTED \/ addr = DEBUG_ROM_GOING \/ addr = DEBUG_ROM_RESUMING.
Definition store_in_range (addr : Z) (bytes : list Z) : Prop :=
  0 <= addr /\ addr + Z.of_nat (length bytes) < 2 ^ 64 /\
  (takes_hart_number addr -> length bytes = 4%nat /\ hart_number (le_value bytes)).

Lemma read32_word bs : length bs = 4%nat -> read32 bs 0 = Some (le_value bs).
Proof.
  intros H. rewrite read32_ok by lia. unfold copy_out.
  change (skipn (Z.to_nat (0 * 4)) bs) with bs. now rewrite firstn_all2 by lia.
Qed.

Lemma safe_store addr bs : store_in_range addr bs -> safe I (store addr bs) (fun _ => True).
Proof.
  intros (H1 & H2 & H3). apply safe_get_bind. intros d D.
  apply safe_opt_bind with (P := fun id => length bs = 4%nat -> id = le_value bs).
  { destruct (Z.eqb_spec (Z.of_nat (length bs)) 4) as [E|E].
    - exists (le_value bs). split; [apply read32_word; lia|easy].
    - exists 0. split; [reflexivity|lia]. }
  intros id Hid. rewrite debug_addr by lia.
  assert (F : forall a start size (f : list Z -> debug_module_t -> debug_module_t), Z.of_nat (length a) = size ->
    window addr (Z.of_nat (length bs)) start size = true ->
    (forall a', length a' = length a -> forall d', dm_ok d' -> dm_ok (f a' d')) ->
    safe I (a <- dopt (array_in a (addr - start) bs) ;; dmodify (f a) ;; dret true) (fun _ => True)).
  { intros a start size f L W G. apply window_spec in W; [|lia..].
    apply safe_opt_bind with (P := fun a' => length a' = length a).
    - destruct (array_in_ok a (addr - start) bs) as (a' & E & L'); [lia..|eauto].
    - intros a' L'. apply safe_seq; [apply safe_dm; now apply G|now apply safe_ret]. }
  assert (G : forall m2 : DM bool, takes_hart_number addr ->
    (hart_number id -> safe I m2 (fun _ => True)) ->
    safe I (dassert (Z.of_nat (length bs) =? 4) ;; m2) (fun _ => True)).
  { intros m2 T Hm. destruct (H3 T) as [L Hn]. apply safe_seq; [apply safe_assert; lia|].
    apply Hm. now rewrite Hid. }
  apply safe_if; intros W1.
  { apply F with (size := datasize * 4); [now rewrite (ok_dmdata d D)|exact W1|].
    intros a' L d' []. constructor; try assumption.
    change (length a' = 8%nat). now rewrite L, (ok_dmdata d D). }
  apply safe_if; intros W2.
  { apply progbuf_window_spec in W2; [|exact D|lia..]. apply F with (size := program_buffer_bytes d); [now rewrite (ok_progbuf d D), (ok_bytes d D)|exact W2|].
    intros a' L d' []. constructor; try assumption. change (Z.of_nat (length a') = buffer_bytes).
    rewrite L. apply (ok_progbuf d D). }
  apply safe_if; intros E1; [apply Z.eqb_eq in E1|apply Z.eqb_neq in E1].
  { apply (G _ (or_introl E1)). intros Hn. apply safe_seq; [now apply safe_store_halted|now apply safe_ret]. }
  apply safe_if; intros E2; [apply Z.eqb_eq in E2|apply Z.eqb_neq in E2].
  { apply (G _ (or_intror (or_introl E2))). intros Hn.
    apply safe_seq; [now apply safe_flags_modify|now apply safe_ret]. }
  apply safe_if; intros E3; [apply Z.eqb_eq in E3|apply Z.eqb_neq in E3].
  { apply (G _ (or_intror (or_intror E3))). intros Hn.
    do 2 (apply safe_seq; [now apply safe_hart_modify|]).
    apply safe_seq; [now apply safe_flags_modify|now apply safe_ret]. }
  apply safe_if; intros E4; [|now apply safe_ret].
  apply safe_seq; [|now apply safe_ret]. apply safe_when; [|exact Logic.I]. intros _. apply safe_report.
Qed.

(** *** Abstract commands *)

Lemma rti_step_eq d : exists r b, rti_step d = d <| rti_remaining := r |> <| abstractcs ::= fun a => a <| busy := b |> |>.
Proof.
  unfold rti_step. cbv zeta.
  set (d' := if 0 <? rti_remaining d then d <| rti_remaining ::= fun n => n - 1 |> else d).
  assert (H : exists r, d' = d <| rti_remaining := r |>).
  { subst d'. destruct (0 <? rti_remaining d); eexists; [reflexivity|]. instantiate (1 := rti_remaining d). now destruct d. }
  destruct H as [r ->]. exists r. destruct ((_ =? 0) && _ && _); [now exists false|].
  exists (busy (abstractcs d)). destruct d as [? ? ? ? ? ? ? ? ? ? ? ? ? ? ? [] ? ? ? ? ? ? ? ? ? ?]. reflexivity.
Qed.

Lemma safe_run_test_idle : safe I run_test_idle (fun _ => True).
Proof. apply safe_dm. intros d D. destruct (rti_step_eq d) as (r & b & ->). destruct D. now constructor. Qed.

(** The number of words written stays below the twelve of [debug_abstract]. *)
Definition ends_at (j : Z) (r : option Z) : Prop := match r with Some i => i = j | None => True end.

Lemma safe_emit_bind {A} i w (k : Z -> DM A) (Q : A -> Prop) : 0 <= i < 12 ->
  safe I (k (i + 1)) Q -> safe I (dbind (emit i w) k) Q.
Proof. intros H K. eapply safe_bind; [now apply safe_emit|]. now intros _ ->. Qed.

Lemma safe_notsup j : safe I notsup (ends_at j).
Proof. apply safe_seq; [apply safe_report|now apply safe_ret]. Qed.

Lemma safe_emit_sized size i w32 w64 : 0 <= i < 12 -> safe I (emit_sized size i w32 w64) (ends_at (i + 1)).
Proof.
  intros H. apply safe_if; intros _; [apply safe_emit_bind; [exact H|now apply safe_ret]|].
  apply safe_if; intros _; [apply safe_emit_bind; [exact H|now apply safe_ret]|apply safe_notsup].
Qed.

Lemma safe_transfer_csr size write regno i : 0 <= i <= 5 ->
  safe I (transfer_csr size write regno i) (ends_at (i + if is_fpu_reg regno then 2 else 4)).
Proof.
  intros H. unfold transfer_csr.
  set (k := if is_fpu_reg regno then 0 else 1).
  eapply safe_bind with (Q := fun j => j = i + k).
  { destruct (is_fpu_reg regno); cbn [negb]; [apply safe_ret; subst k; lia|apply safe_emit; lia]. }
  intros _ ->. eapply safe_bind with (Q := ends_at (i + k + 2)).
  { subst k. destruct write.
    - eapply safe_bind; [apply safe_emit_sized; destruct (is_fpu_reg regno); lia|].
      intros [j|]; cbn [ends_at]; [intros ->|intros _; now apply safe_ret].
      apply safe_emit_bind; [destruct (is_fpu_reg regno); lia|]. apply safe_ret. cbn. lia.
    - apply safe_emit_bind; [destruct (is_fpu_reg regno); lia|].
      eapply safe_conseq; [apply safe_emit_sized; destruct (is_fpu_reg regno); lia|].
      intros [j|]; cbn; lia. }
  intros [j|]; cbn [ends_at]; [intros ->|intros _; now apply safe_ret]. subst k.
  destruct (is_fpu_reg regno); cbn [negb].
  - apply safe_ret. cbn. lia.
  - apply safe_emit_bind; [lia|]. apply safe_ret. cbn. lia.
Qed.

Lemma safe_transfer_custom write regno j : safe I (transfer_custom write regno) (ends_at j).
Proof.
  apply safe_seq; [apply safe_report|]. apply safe_get_bind. intros d D.
  apply safe_seq; [|now apply safe_ret]. pose proof (ok_dmdata d D) as L. destruct write.
  - apply safe_opt_bind with (P := fun _ => True).
    + rewrite read32_ok by lia. eauto.
    + intros v _. apply safe_dm. intros d' []. now constructor.
  - apply safe_opt_bind with (P := fun a => length a = 8%nat).
    { destruct (write32_ok (dmdata d) 0 (u32 (regno - 0xc000 + custom_base d))) as (a & E & L'); [lia..|].
      exists a. now rewrite L'. }
    intros a La. apply safe_opt_bind with (P := fun a => length a = 8%nat).
    { destruct (write32_ok a 1 0) as (a' & E & L'); [lia..|]. exists a'. now rewrite L'. }
    intros a' La'. apply safe_dm. intros d' []. now constructor.
Qed.

Lemma safe_transfer size write regno : safe I (transfer size write regno 0) (fun r => match r with Some i => 0 <= i < 12 | None => True end).
Proof.
  apply safe_get_bind. intros d D. set (f := is_fpu_reg regno).
  eapply safe_bind with (Q := fun j => j = if f then 5 else 0).
  { destruct f; [|now apply safe_ret]. do 4 (apply safe_emit_bind; [lia|]).
    eapply safe_conseq; [apply safe_emit; lia|]. intros j ->. lia. }
  intros _ ->. set (i0 := if f then 5 else 0).
  assert (B : 0 <= i0 <= 5) by (subst i0; destruct f; lia).
  eapply safe_bind with (Q := fun r => match r with Some i => i0 <= i <= if f then 7 else 4 | None => True end).
  { assert (E : forall w32 w64, safe I (emit_sized size i0 w32 w64)
      (fun r => match r with Some i => i0 <= i <= if f then 7 else 4 | None => True end)).
    { intros w32 w64. eapply safe_conseq; [apply safe_emit_sized; lia|].
      intros [j|]; cbn; [intros ->|easy]. subst i0. destruct f; lia. }
    apply safe_if; intros _.
    { eapply safe_conseq; [apply safe_transfer_csr; lia|]. fold f.
      intros [j|]; cbn; [intros ->|easy]. subst i0. destruct f; lia. }
    apply safe_if; intros _; [apply safe_if; intros _; apply E|].
    apply safe_if; intros _; [apply safe_if; intros _; apply E|].
    apply safe_if; intros _; [apply safe_conseq with (Q := ends_at i0); [apply safe_transfer_custom|]|
      apply safe_conseq with (Q := ends_at i0); [apply safe_notsup|]];
      (intros [j|]; cbn; [intros ->; subst i0; destruct f; lia|easy]). }
  intros [i|]; [|intros _; now apply safe_ret]. intros Hi.
  eapply safe_bind with (Q := fun j => 0 <= j < 12).
  { subst i0. destruct f.
    - do 2 (apply safe_emit_bind; [lia|]). eapply safe_conseq; [apply safe_emit; lia|]. intros j ->. lia.
    - apply safe_ret. lia. }
  intros j Hj. now apply safe_ret.
Qed.

Lemma safe_launch i : 0 <= i < 12 -> safe I (launch i) (fun _ => True).
Proof.
  intros H. apply safe_get_bind. intros d D. apply safe_emit_bind; [exact H|].
  apply safe_seq; [apply safe_flags_modify, (ok_hartsel d D)|].
  apply safe_dm. intros d' []. now constructor.
Qed.

Lemma safe_perform : safe I perform_abstract_command (fun _ => True).
Proof.
  apply safe_get_bind. intros d D. apply safe_if; intros _; [now apply safe_ret|].
  apply safe_if; intros _; [apply safe_report|]. apply safe_if; intros _; [|apply safe_report].
  eapply safe_bind; [apply safe_hart_at, (ok_hartsel d D)|]. intros h _.
  apply safe_if; intros _; [apply safe_report|].
  eapply safe_bind; [apply (safe_if I _ _ _ _ (fun _ => safe_transfer _ _ _)); intros _; apply safe_ret; lia|].
  intros [i|] Hi; [now apply safe_launch|now apply safe_ret].
Qed.

(** *** The Debug Module Interface *)

Lemma safe_hart_selected i : 0 <= i < N -> safe I (hart_selected i) (fun _ => True).
Proof.
  intros H. apply safe_get_bind. intros d D. apply safe_if; intros _; [|now apply safe_ret].
  apply safe_if; intros _; [now apply safe_ret|]. apply safe_opt.
  destruct (array_get_ok (hart_array_mask d) i) as [b E]; [rewrite (ok_mask d D); exact H|eauto].
Qed.

(** A loop over the harts. *)
Lemma safe_for_harts body : (forall i, 0 <= i < N -> safe I (body i) (fun _ => True)) ->
  forall n i, 0 <= i -> i + Z.of_nat n <= N -> safe I (dfor n i body) (fun _ => True).
Proof.
  intros H. induction n as [|n IH]; intros i H1 H2; cbn [dfor]; [now apply safe_ret|].
  apply safe_seq; [apply H; lia|apply IH; lia].
Qed.

Lemma safe_dmstatus f : safe I (dmodify (fun d => d <| dmstatus ::= f |>)) (fun _ => True).
Proof. apply safe_dm. intros d []. now constructor. Qed.

Lemma safe_read_dmstatus : safe I read_dmstatus (fun _ => True).
Proof.
  unfold read_dmstatus. apply safe_seq; [apply safe_dmstatus|]. apply safe_get_bind. intros d D.
  apply safe_seq.
  { apply safe_for_harts; [|lia|rewrite (ok_nprocs d D); lia]. intros i Hi.
    eapply safe_bind; [now apply safe_hart_selected|]. intros b _.
    apply safe_when; [|exact Logic.I]. intros _. apply safe_seq; [apply safe_dmstatus|].
    eapply safe_bind; [now apply safe_hart_at, nprocs_hart_number|]. intros h _.
    apply safe_seq; apply safe_if; intros _; apply safe_dmstatus. }
  apply safe_seq; [apply safe_dmstatus|].
  eapply safe_bind; [apply safe_hart_at, (ok_hartsel d D)|]. intros h _.
  eapply safe_bind; [now apply (safe_gets _ _ (fun _ => True))|]. intros s _. now apply safe_ret.
Qed.

Lemma read_hawindow_ok mask base : Z.of_nat (length mask) = N -> 0 <= base ->
  forall fuel i result, 0 <= i -> exists v, read_hawindow fuel N mask base i result = Some v.
Proof.
  intros L B. induction fuel as [|fuel IH]; intros i result Hi; cbn [read_hawindow]; [eauto|].
  destruct (Z.ltb_spec (base + i) N); [|apply IH; lia].
  destruct (array_get_ok mask (base + i)) as [b ->]; [lia|]. apply IH. lia.
Qed.

Lemma write_hawindow_ok base value : 0 <= base ->
  forall fuel mask i, Z.of_nat (length mask) = N -> 0 <= i ->
  exists m, write_hawindow fuel N mask base i value = Some m /\ Z.of_nat (length m) = N.
Proof.
  intros B. induction fuel as [|fuel IH]; intros mask i L Hi; cbn [write_hawindow]; [eauto|].
  destruct (Z.ltb_spec (base + i) N); [|apply IH; [exact L|lia]].
  destruct (array_alter_ok (fun _ => z2b ((value >>w i) &w 1)) mask (base + i)) as (m & -> & L'); [lia|].
  apply IH; [now rewrite L'|lia].
Qed.

Lemma safe_sb_error e : safe I (put_sb_error e) (fun _ => True).
Proof. apply safe_dm. intros d []. now constructor. Qed.

Lemma safe_sb_read : safe I sb_read (fun _ => True).
Proof.
  apply safe_get_bind. intros d D. cbv zeta. rewrite (ok_config d D).
  replace (8 <=? max_bus_master_bits c) with false by lia.
  replace (16 <=? max_bus_master_bits c) with false by lia.
  replace (32 <=? max_bus_master_bits c) with false by lia.
  replace (64 <=? max_bus_master_bits c) with false by lia.
  rewrite !andb_false_r. exact (safe_sb_error 3).
Qed.

Lemma safe_sb_write : safe I sb_write (fun _ => True).
Proof.
  apply safe_get_bind. intros d D. cbv zeta. rewrite (ok_config d D).
  replace (8 <=? max_bus_master_bits c) with false by lia.
  replace (16 <=? max_bus_master_bits c) with false by lia.
  replace (32 <=? max_bus_master_bits c) with false by lia.
  replace (64 <=? max_bus_master_bits c) with false by lia.
  rewrite !andb_false_r. exact (safe_sb_error 3).
Qed.

Lemma safe_autoincrement : safe I (dmodify sb_autoincrement) (fun _ => True).
Proof.
  apply safe_dm. intros d D. unfold sb_autoincrement. destruct (_ || _); [exact D|].
  destruct D. now constructor.
Qed.

Lemma safe_no_sb_error m : safe I m (fun _ => True) -> safe I (no_sb_error m) (fun _ => True).
Proof. intros H. apply safe_get_bind. intros d D. now apply safe_when. Qed.

Lemma safe_autoexec b : safe I (dwhen b perform_abstract_command) (fun _ => True).
Proof. apply safe_when; [|exact Logic.I]. intros _. apply safe_perform. Qed.

Lemma safe_when_report b e : safe I (dwhen b (report e)) (fun _ => True).
Proof. apply safe_when; [|exact Logic.I]. intros _. apply safe_report. Qed.

Lemma progbuf_word d i : dm_ok d -> 0 <= i < progbufsize c ->
  0 <= i /\ i * 4 + 4 <= Z.of_nat (length (program_buffer d)).
Proof. intros D H. rewrite (ok_progbuf d D). unfold buffer_bytes. destruct (support_impebreak c); lia. Qed.

Lemma data_register d a : dm_ok d -> is_data_register d a = true -> 0 <= a - DMI_DATA0 < 2.
Proof. unfold is_data_register. intros D. rewrite (ok_datacount d D). lia. Qed.
Lemma progbuf_register d a : dm_ok d -> is_progbuf_register d a = true -> 0 <= a - DMI_PROGBUF0 < progbufsize c.
Proof. unfold is_progbuf_register. intros D. rewrite (ok_config d D). lia. Qed.

Lemma safe_read_data i : 0 <= i < 2 -> safe I (read_data i) (fun _ => True).
Proof.
  intros Hi. apply safe_get_bind. intros d D. cbv zeta. apply safe_opt_bind with (P := fun _ => True).
  - rewrite read32_ok by (rewrite ?(ok_dmdata d D); lia). eauto.
  - intros v _. apply safe_seq; [apply safe_when_report|]. apply safe_seq; [apply safe_autoexec|now apply safe_ret].
Qed.

(** The autoexecution of a program buffer access. *)
Lemma safe_auto_progbuf {A} (a : abstractcs_t) v i (r : A) : i < progbufsize c ->
  safe I (auto <- (if busy a then dret false else dopt (shifted_bit v i)) ;;
          dwhen auto perform_abstract_command ;; dret r) (fun _ => True).
Proof.
  intros Hi. eapply safe_bind with (Q := fun _ => True).
  - apply safe_if; intros _; [now apply safe_ret|]. apply safe_opt. unfold shifted_bit.
    rewrite (proj2 (Z.ltb_lt i 32)) by lia. eauto.
  - intros b _. apply safe_seq; [apply safe_autoexec|now apply safe_ret].
Qed.

Lemma safe_read_progbuf i : 0 <= i < progbufsize c -> safe I (read_progbuf i) (fun _ => True).
Proof.
  intros Hi. apply safe_get_bind. intros d D. cbv zeta. destruct (progbuf_word d i D Hi) as [P1 P2].
  apply safe_opt_bind with (P := fun _ => True).
  - rewrite read32_ok by lia. eauto.
  - intros v _. now apply safe_auto_progbuf.
Qed.

Lemma safe_read_register address : safe I (read_register address) (fun _ => True).
Proof.
  apply safe_get_bind. intros d D.
  repeat (apply safe_if; intros _; [|]); try (now apply safe_ret).
  - eapply safe_bind; [apply safe_read_dmstatus|]. intros v _. now apply safe_ret.
  - apply safe_opt_bind with (P := fun _ => True); [|intros v _; now apply safe_ret].
    rewrite (ok_nprocs d D). pose proof (ok_hawindowsel d D).
    destruct (read_hawindow_ok (hart_array_mask d) (hawindowsel d * 32) (ok_mask d D) ltac:(lia) 32 0 0 ltac:(lia)) as [v ->].
    eauto.
  - apply safe_seq; [|now apply safe_ret]. apply safe_no_sb_error. apply safe_seq.
    + apply safe_when; [|exact Logic.I]. intros _. apply safe_sb_read.
    + apply safe_no_sb_error, safe_autoincrement.
  - eapply safe_bind; [apply safe_hart_at, (ok_hartsel d D)|]. intros h _. now apply safe_ret.
Qed.

Lemma safe_dmi_read address : safe I (dmi_read address) (fun _ => True).
Proof.
  apply safe_get_bind. intros d D.
  apply safe_if; intros C1; [now apply safe_read_data, (data_register d)|].
  apply safe_if; intros C2; [now apply safe_read_progbuf, (progbuf_register d)|apply safe_read_register].
Qed.

(** *** Writes *)

Lemma safe_get_machine {A} (k : dm_machine -> DM A) (Q : A -> Prop) :
  (forall x, I x -> safe I (k x) Q) -> safe I (dbind (fun x => (inr x, x)) k) Q.
Proof. intros H x Hx. exact (H x Hx x Hx). Qed.

Lemma safe_request_hart value i : 0 <= i < N -> safe I (request_hart value i) (fun _ => True).
Proof.
  intros H. pose proof (nprocs_hart_number i H) as Hn.
  eapply safe_bind; [now apply safe_hart_selected|]. intros b _. apply safe_when; [|exact Logic.I]. intros _.
  apply safe_seq; [apply safe_when; [intros _; now apply safe_hart_modify|exact Logic.I]|].
  apply safe_get_machine. intros x Hx. apply safe_when; [|exact Logic.I]. intros _. cbv zeta.
  apply safe_seq; [apply safe_halt_request|]. apply safe_seq.
  - apply safe_when; [|exact Logic.I]. intros _.
    apply safe_seq; [now apply safe_flags_modify|now apply safe_hart_modify].
  - apply safe_when; [|exact Logic.I]. intros _. apply safe_core_reset.
Qed.

Lemma safe_write_dmcontrol value : safe I (write_dmcontrol random value) (fun _ => True).
Proof.
  apply safe_get_bind. intros d D. cbv zeta.
  apply safe_seq; [apply safe_when; [intros _; apply safe_reset|exact Logic.I]|].
  apply safe_seq; [apply safe_dm; intros d' []; now constructor|].
  apply safe_get_bind. intros d1 D1. apply safe_if; intros _; [now apply safe_ret|].
  apply safe_seq; [|apply safe_seq].
  - apply safe_dm. intros d' D'. assert (W : hartsellen d' = field_width N) by apply D'.
    set (sel := _ |w _) at 1.
    assert (K : hart_number (sel &w (Z.shiftl 1 (hartsellen d') - 1))).
    { rewrite W. destruct (field_width_spec N N_ok) as (F & _). unfold hart_number.
      rewrite Z.shiftl_1_l. replace (2 ^ field_width N - 1) with (Z.ones (field_width N)) by (rewrite Z.ones_equiv; lia).
      rewrite Z.land_ones by lia. apply Z.mod_pos_bound. now apply pow2_pos. }
    destruct D'. now constructor.
  - apply safe_for_harts; [|lia|rewrite (ok_nprocs d1 D1); lia]. intros i Hi. now apply safe_request_hart.
  - apply safe_get_machine. intros x _. apply safe_when; [|exact Logic.I]. intros _.
    apply safe_for; [intros i _; apply safe_core_reset|lia].
Qed.

Lemma safe_write_authdata value : safe I (write_authdata random value) (fun _ => True).
Proof.
  apply safe_get_bind. intros d D. apply safe_when; [|exact Logic.I]. intros _.
  apply safe_if; intros _; [apply safe_dmstatus|]. apply safe_seq; [apply safe_dmstatus|].
  eapply safe_bind; [apply safe_draw|]. intros r _. apply safe_dm. intros d' []. now constructor.
Qed.

Lemma safe_keep f : (forall d, dm_ok d -> dm_ok (f d)) -> safe I (dmodify f ;; dret true) (fun _ => True).
Proof. intros H. apply safe_seq; [now apply safe_dm|now apply safe_ret]. Qed.

Lemma safe_write_data i value : 0 <= i < 2 -> safe I (write_data i value) (fun _ => True).
Proof.
  intros Hi. apply safe_get_bind. intros d D. cbv zeta. apply safe_seq.
  - apply safe_when; [|exact Logic.I]. intros _. apply safe_opt_bind with (P := fun m => length m = 8%nat).
    + destruct (write32_ok (dmdata d) i value) as (m & E & L); [lia|rewrite (ok_dmdata d D); lia|].
      exists m. now rewrite L, (ok_dmdata d D).
    + intros m L. apply safe_dm. intros d' []. now constructor.
  - apply safe_seq; [apply safe_when_report|]. apply safe_seq; [apply safe_autoexec|now apply safe_ret].
Qed.

Lemma safe_write_progbuf i value : 0 <= i < progbufsize c -> safe I (write_progbuf i value) (fun _ => True).
Proof.
  intros Hi. apply safe_get_bind. intros d D. cbv zeta. destruct (progbuf_word d i D Hi) as [P1 P2]. apply safe_seq.
  - apply safe_when; [|exact Logic.I]. intros _.
    apply safe_opt_bind with (P := fun m => Z.of_nat (length m) = buffer_bytes).
    + destruct (write32_ok (program_buffer d) i value) as (m & E & L); [lia..|].
      exists m. now rewrite L, (ok_progbuf d D).
    + intros m L. apply safe_dm. intros d' []. now constructor.
  - now apply safe_auto_progbuf.
Qed.

Lemma safe_write_register address value : 0 <= value -> safe I (write_register random address value) (fun _ => True).
Proof.
  intros Hv. apply safe_get_bind. intros d D. cbv zeta. rewrite (ok_config d D).
  apply safe_if; intros _; [apply safe_seq; [apply safe_write_dmcontrol|now apply safe_ret]|].
  apply safe_if; intros _.
  { apply safe_seq; [apply safe_dm; intros d' []; now constructor|].
    apply safe_seq; [apply safe_perform|now apply safe_ret]. }
  apply safe_if; intros _.
  { apply safe_keep. intros d' D'.
    assert (K : 0 <= value &w (Z.shiftl 1 (field_width (nprocs d')) - 1)).
    { apply Z.land_nonneg. now left. }
    destruct D'. now constructor. }
  apply safe_if; intros _.
  { pose proof (ok_hawindowsel d D). rewrite (ok_nprocs d D).
    apply safe_opt_bind with (P := fun m => Z.of_nat (length m) = N).
    - apply write_hawindow_ok; [lia|apply (ok_mask d D)|lia].
    - intros m L. apply safe_keep. intros d' []. now constructor. }
  apply safe_if; intros _; [apply safe_seq; [apply safe_report|now apply safe_ret]|].
  do 2 (apply safe_if; intros _; [apply safe_keep; intros d' []; now constructor|]).
  apply safe_if; intros _.
  { apply safe_seq; [apply safe_dm; intros d' []; now constructor|].
    apply safe_seq; [|now apply safe_ret]. apply safe_when; [|exact Logic.I]. intros _.
    apply safe_seq; [apply safe_sb_read|apply safe_autoincrement]. }
  do 3 (apply safe_if; intros _; [apply safe_keep; intros d' []; now constructor|]).
  apply safe_if; intros _.
  { apply safe_seq; [apply safe_dm; intros d' []; now constructor|].
    apply safe_seq; [|now apply safe_ret]. apply safe_no_sb_error.
    apply safe_seq; [apply safe_sb_write|apply safe_no_sb_error, safe_autoincrement]. }
  do 3 (apply safe_if; intros _; [apply safe_keep; intros d' []; now constructor|]).
  apply safe_if; intros _; [apply safe_seq; [apply safe_write_authdata|now apply safe_ret]|].
  apply safe_if; intros _; [|now apply safe_ret].
  apply safe_seq; [|now apply safe_ret]. apply safe_when; [|exact Logic.I]. intros _.
  apply safe_hart_modify, (ok_hartsel d D).
Qed.

Lemma safe_dmi_write address value : 0 <= value -> safe I (dmi_write random address value) (fun _ => True).
Proof.
  intros Hv. apply safe_get_bind. intros d D. apply safe_if; intros _; [now apply safe_ret|].
  apply safe_if; intros C1; [now apply safe_write_data, (data_register d)|].
  apply safe_if; intros C2; [now apply safe_write_progbuf, (progbuf_register d)|now apply safe_write_register].
Qed.

(** ** Sequences of operations *)

Definition op_in_range (op : dm_op) : Prop :=
  match op with
  | Op_dmi_read _ | Op_run_test_idle => True
  | Op_dmi_write _ value => fits 32 value
  | Op_load addr n => 0 <= addr /\ addr + Z.of_nat n < 2 ^ 64
  | Op_store addr bytes => store_in_range addr bytes
  | Op_proc_reset id => hart_number id
  end.

Lemma safe_drop {A} (m : DM A) : safe I m (fun _ => True) -> safe I (m ;; dret tt) (fun _ => True).
Proof. intros H. eapply safe_bind; [exact H|]. intros a _. now apply safe_ret. Qed.

Lemma safe_run op : op_in_range op -> safe I (dm_run random op) (fun _ => True).
Proof.
  destruct op; cbn [op_in_range dm_run]; intros H.
  - apply safe_drop, safe_dmi_read.
  - apply safe_drop, safe_dmi_write. apply H.
  - apply safe_run_test_idle.
  - apply safe_drop. now apply safe_load.
  - apply safe_drop. now apply safe_store.
  - now apply safe_proc_reset.
Qed.

Lemma safe_runs ops : Forall op_in_range ops -> safe I (dm_runs random ops) (fun _ => True).
Proof.
  induction 1 as [|op ops H _ IH]; cbn [dm_runs]; [now apply safe_ret|].
  apply safe_seq; [now apply safe_run|exact IH].
Qed.

(** ** The constructor establishes the invariant *)

Lemma new_ok seed d0 : 0 <= hawindowsel d0 ->
  exists d, debug_module_new N c seed d0 = Some d /\ dm_ok d.
Proof.
  intros W. unfold debug_module_new. replace (negb ((N <=? 1024) && (0 <? N))) with false by lia.
  fold buffer_bytes. destruct (field_width_spec N N_ok) as (F1 & F2 & F3).
  assert (B : u32 buffer_bytes = buffer_bytes /\ 0 <= buffer_bytes).
  { unfold buffer_bytes. destruct (support_impebreak c); (split; [apply uw_small; unfold fits|]); lia. }
  destruct B as [-> B].
  assert (P : exists b, (if support_impebreak c then write32 (repeat 0 (Z.to_nat buffer_bytes)) (progbufsize c) Asm.ebreak
      else Some (repeat 0 (Z.to_nat buffer_bytes))) = Some b /\ Z.of_nat (length b) = buffer_bytes).
  { destruct (support_impebreak c) eqn:E.
    - destruct (write32_ok (repeat 0 (Z.to_nat buffer_bytes)) (progbufsize c) Asm.ebreak) as (b & Eb & L);
        [lia|rewrite repeat_length; unfold buffer_bytes; rewrite E; lia|].
      exists b. split; [exact Eb|]. rewrite L, repeat_length. lia.
    - eexists. split; [reflexivity|]. rewrite repeat_length. lia. }
  destruct P as (b & Eb & Lb). cbv zeta. rewrite Eb. cbn [mbind option_bind].
  eexists. split; [reflexivity|]. constructor; try reflexivity; try assumption.
  - change (Z.of_nat (length (repeat (mk_hart_debug_state false false false 0)
      (Z.to_nat (Z.shiftl 1 (field_width N))))) = 2 ^ field_width N).
    rewrite repeat_length, Z.shiftl_1_l. lia.
  - change (Z.of_nat (length (repeat false (Z.to_nat N))) = N). rewrite repeat_length. lia.
  - change (hart_number 0). unfold hart_number. lia.
Qed.

End Safe.
