(* ===== verification/DebugFrame.v ===== *)
(** * DebugFrame: what operations of the debug module leave alone

    [keeps P m]: the member [m] preserves [P], however it ends.  While a command
    is busy, the Debug Module Interface does not touch the command's program,
    data and progress; while the debugger is not authenticated, it does not
    touch the harts and their memory. *)
From Stdlib Require Import ZArith Lia Bool List.
From stdpp Require Import base list gmap.
From S2P Require Import Prelude Arith Encoding Decode State Processor Mmu TrapEntry Sim DebugDefines DebugAsm DebugModule DebugFacts.
#[local] Open Scope Z_scope.
#[local] Open Scope word_scope.
#[local] Open Scope record_scope.

Section Keeps.
Context {S R : Type} `{!SimIf S, !Platform S}.
#[local] Notation DM := (DM S R).
#[local] Notation dm_machine := (dm_machine S R).
Implicit Types (x y : dm_machine).
#[local] Open Scope dm_scope.

Definition keeps {A : Type} (P : dm_machine -> Prop) (m : DM A) : Prop := forall x, P x -> P (m x).2.

Section Rules.
Context {A B : Type}.
Variable P : dm_machine -> Prop.

Lemma keeps_bind (m : DM A) (k : A -> DM B) : keeps P m -> (forall a, keeps P (k a)) -> keeps P (dbind m k).
Proof.
  intros Hm Hk x Hx. specialize (Hm x Hx). unfold dbind. destruct (m x) as [[e|a] y]; [exact Hm|].
  now apply Hk.
Qed.

Lemma keeps_ret (a : A) : keeps P (dret a).
Proof. now intros x Hx. Qed.

Lemma keeps_opt (o : option A) : keeps P (dopt o).
Proof. destruct o; now intros x Hx. Qed.

Lemma keeps_gets (f : debug_module_t -> A) : keeps P (dgets f).
Proof. now intros x Hx. Qed.

(** The members read are those of a machine that satisfies [P]. *)
Lemma keeps_get_bind (k : debug_module_t -> DM B) :
  (forall x, P x -> keeps P (k (dm x))) -> keeps P (dbind (dgets id_) k).
Proof. intros H x Hx. exact (H x Hx x Hx). Qed.

Lemma keeps_if (c : bool) (m1 m2 : DM A) :
  (c = true -> keeps P m1) -> (c = false -> keeps P m2) -> keeps P (if c then m1 else m2).
Proof. destruct c; auto. Qed.

Lemma keeps_when (c : bool) (m : DM unit) : (c = true -> keeps P m) -> keeps P (dwhen c m).
Proof. destruct c; intros H; [now apply H|now intros x Hx]. Qed.

Lemma keeps_modify f : (forall x, P x -> P (x <| dm ::= f |>)) -> keeps P (dmodify f).
Proof. intros H x Hx. now apply H. Qed.

Lemma keeps_drop (m : DM A) (b : B) : keeps P m -> keeps P (m ;; dret b).
Proof. intros H x Hx. specialize (H x Hx). unfold dbind. now destruct (m x) as [[e|a] y]. Qed.
End Rules.

Lemma keeps_for P body : (forall i, keeps P (body i)) -> forall n i, keeps P (dfor n i body).
Proof.
  intros H. induction n as [|n IH]; intros i; cbn [dfor]; [now intros x Hx|].
  apply keeps_bind; auto.
Qed.

Variable random : R -> Z * R.

(** ** Members that change only what [P] does not see *)

(** [P] does not see the change [f]. *)
Definition blind (P : dm_machine -> Prop) (f : debug_module_t -> debug_module_t) : Prop :=
  forall x, P x -> P (x <| dm ::= f |>).

Lemma keeps_hart_modify P id f :
  (forall l, blind P (fun d => d <| hart_state := l |>)) -> keeps P (hart_modify id f).
Proof.
  intros H. apply keeps_get_bind. intros x _. apply keeps_bind; [apply keeps_opt|].
  intros l. apply keeps_modify, H.
Qed.

Lemma keeps_hart_at P id : keeps P (hart_at id).
Proof. apply keeps_get_bind. intros x _. apply keeps_opt. Qed.

Lemma keeps_flags_at P id : keeps P (flags_at id).
Proof. apply keeps_get_bind. intros x _. apply keeps_opt. Qed.

Lemma keeps_hart_selected P i : keeps P (hart_selected i).
Proof.
  apply keeps_get_bind. intros x _. apply keeps_if; intros _; [|apply keeps_ret].
  apply keeps_if; intros _; [apply keeps_ret|apply keeps_opt].
Qed.

Lemma keeps_read_dmstatus P :
  (forall f, (forall s, authenticated (f s) = authenticated s) -> blind P (fun d => d <| dmstatus ::= f |>)) ->
  keeps P read_dmstatus.
Proof.
  intros H.
  assert (U : forall f, (forall s, authenticated (f s) = authenticated s) ->
    keeps P (dmodify (fun d => d <| dmstatus ::= f |>))) by (intros f Hf; now apply keeps_modify, H).
  apply keeps_bind; [now apply U|]. intros _. apply keeps_get_bind. intros x _.
  apply keeps_bind.
  { apply keeps_for. intros i. apply keeps_bind; [apply keeps_hart_selected|]. intros b.
    apply keeps_when. intros _. apply keeps_bind; [now apply U|]. intros _.
    apply keeps_bind; [apply keeps_hart_at|]. intros h.
    apply keeps_bind; [|intros _]; apply keeps_if; intros _; now apply U. }
  intros _. apply keeps_bind; [now apply U|]. intros _. apply keeps_bind; [apply keeps_hart_at|]. intros h.
  apply keeps_bind; [apply keeps_gets|]. intros s. apply keeps_ret.
Qed.

Lemma sb_autoincrement_eq d : sb_autoincrement d = d \/ exists a, sb_autoincrement d = d <| sbaddress := a |>.
Proof.
  unfold sb_autoincrement.
  destruct (negb (autoincrement (sbcs d)) || negb (z2b (max_bus_master_bits (config d)))); [now left|right; eauto].
Qed.

(** ** While a command is busy *)

Section Busy.
Variable x0 : dm_machine.

(** What a running command reads, writes and waits for. *)
Definition progress (d : debug_module_t) :=
  (dmdata d, program_buffer d, debug_abstract d, debug_rom_flags d, dmcontrol d,
   rti_remaining d, abstract_command_completed d).

Definition running (x : dm_machine) : Prop :=
  busy (abstractcs (dm x)) = true /\ progress (dm x) = progress (dm x0) /\ procs x = procs x0 /\
  platform x = platform x0 /\ max_bus_master_bits (config (dm x)) < 8.

#[local] Ltac unseen := apply keeps_modify; intros ? (? & ? & ? & ? & ?);
  refine (conj _ (conj _ (conj _ (conj _ _)))); assumption.

Lemma running_report e : keeps running (report e).
Proof. unseen. Qed.

Lemma running_perform : keeps running perform_abstract_command.
Proof.
  apply keeps_get_bind. intros x (B & _). apply keeps_if; intros _; [apply keeps_ret|].
  rewrite B. apply running_report.
Qed.

Lemma running_sb_error e : keeps running (put_sb_error e).
Proof. unseen. Qed.

Lemma running_sb_read : keeps running sb_read.
Proof.
  apply keeps_get_bind. intros x (_ & _ & _ & _ & B). cbv zeta.
  replace (8 <=? max_bus_master_bits (config (dm x))) with false by lia.
  replace (16 <=? max_bus_master_bits (config (dm x))) with false by lia.
  replace (32 <=? max_bus_master_bits (config (dm x))) with false by lia.
  replace (64 <=? max_bus_master_bits (config (dm x))) with false by lia.
  rewrite !andb_false_r. exact (running_sb_error 3).
Qed.

Lemma running_sb_write : keeps running sb_write.
Proof.
  apply keeps_get_bind. intros x (_ & _ & _ & _ & B). cbv zeta.
  replace (8 <=? max_bus_master_bits (config (dm x))) with false by lia.
  replace (16 <=? max_bus_master_bits (config (dm x))) with false by lia.
  replace (32 <=? max_bus_master_bits (config (dm x))) with false by lia.
  replace (64 <=? max_bus_master_bits (config (dm x))) with false by lia.
  rewrite !andb_false_r. exact (running_sb_error 3).
Qed.

Lemma running_autoincrement : keeps running (dmodify sb_autoincrement).
Proof.
  apply keeps_modify. intros [d ps m pl g] H.
  change (running (mk_dm_machine (sb_autoincrement d) ps m pl g)).
  destruct (sb_autoincrement_eq d) as [->|[a ->]]; exact H.
Qed.

Lemma running_no_sb_error m : keeps running m -> keeps running (no_sb_error m).
Proof. intros H. apply keeps_get_bind. intros x _. now apply keeps_when. Qed.

Lemma running_read_register address : keeps running (read_register address).
Proof.
  apply keeps_get_bind. intros x _. repeat (apply keeps_if; intros _; [|]); try apply keeps_ret.
  - apply keeps_bind; [apply keeps_read_dmstatus; intros f _; revert f|intros v; apply keeps_ret].
    intros f y (H1 & H2 & H3 & H4 & H5). exact (conj H1 (conj H2 (conj H3 (conj H4 H5)))).
  - apply keeps_bind; [apply keeps_opt|intros v; apply keeps_ret].
  - apply keeps_drop, running_no_sb_error. apply keeps_bind; [apply keeps_when; intros _; apply running_sb_read|].
    intros _. apply running_no_sb_error, running_autoincrement.
  - apply keeps_bind; [apply keeps_hart_at|intros h; apply keeps_ret].
Qed.

(** Reads of the data and of the program buffer, and writes, while busy. *)
Definition report_busy : DM unit := fun x =>
  dwhen (cmderr (abstractcs (dm x)) =? CMDERR_NONE) (report CMDERR_BUSY) x.

Lemma busy_read_data i x : busy (abstractcs (dm x)) = true ->
  read_data i x = (dopt (read32 (dmdata (dm x)) i) ;; report_busy ;; dret (Some all_ones32)) x.
Proof.
  intros B. unfold read_data, dbind at 1, dgets, id_. cbv zeta. rewrite B. cbn [negb andb].
  unfold dbind. destruct (read32 _ i); reflexivity.
Qed.

Lemma busy_read_progbuf i x : busy (abstractcs (dm x)) = true ->
  read_progbuf i x = (dopt (read32 (program_buffer (dm x)) i) ;; dret (Some all_ones32)) x.
Proof.
  intros B. unfold read_progbuf, dbind at 1, dgets, id_. cbv zeta. rewrite B. cbn [negb andb].
  unfold dbind. destruct (read32 _ i); reflexivity.
Qed.

Lemma busy_write_data i v x : busy (abstractcs (dm x)) = true ->
  write_data i v x = (report_busy ;; dret true) x.
Proof.
  intros B. unfold write_data, dbind at 1, dgets, id_. cbv zeta. rewrite B. cbn [negb andb].
  unfold dbind, report_busy. cbn [dwhen dret]. destruct (dwhen _ _ x) as [[e|[]] y]; reflexivity.
Qed.

Lemma busy_write_progbuf i v x : busy (abstractcs (dm x)) = true -> write_progbuf i v x = (inr true, x).
Proof.
  intros B. unfold write_progbuf, dbind at 1, dgets, id_. cbv zeta. rewrite B. reflexivity.
Qed.

Lemma busy_perform x : busy (abstractcs (dm x)) = true -> perform_abstract_command x = report_busy x.
Proof.
  intros B. unfold perform_abstract_command, report_busy, dbind, dgets, id_. rewrite B.
  destruct (cmderr (abstractcs (dm x)) =? CMDERR_NONE); reflexivity.
Qed.

Lemma running_report_busy : keeps running report_busy.
Proof.
  intros x H. unfold report_busy. apply (keeps_when running); [intros _; apply running_report|exact H].
Qed.

Lemma running_dmi_read address : keeps running (dmi_read address).
Proof.
  apply keeps_get_bind. intros x _. apply keeps_if; intros _; [|apply keeps_if; intros _; [|apply running_read_register]].
  - intros y Hy. rewrite busy_read_data by apply Hy. revert y Hy.
    intros y Hy. apply (keeps_bind running); [apply keeps_opt| |exact Hy].
    intros _. apply keeps_bind; [apply running_report_busy|intros _; apply keeps_ret].
  - intros y Hy. rewrite busy_read_progbuf by apply Hy.
    apply (keeps_bind running); [apply keeps_opt|intros _; apply keeps_ret|exact Hy].
Qed.

Lemma running_draw : keeps running (draw random).
Proof. intros [d ps m pl g] H. unfold draw. cbn [rng]. destruct (random g). exact H. Qed.

Lemma running_write_authdata value : keeps running (write_authdata random value).
Proof.
  apply keeps_get_bind. intros x _. apply keeps_when. intros _. apply keeps_if; intros _; [unseen|].
  apply keeps_bind; [unseen|intros _]. apply keeps_bind; [apply running_draw|intros r]. unseen.
Qed.

Lemma running_write_register address value : address <> DMI_DMCONTROL ->
  keeps running (write_register random address value).
Proof.
  intros NC%Z.eqb_neq. apply keeps_get_bind. intros x _. cbv zeta. rewrite NC.
  assert (K : forall f, keeps running (dmodify f) -> keeps running (dmodify f ;; dret true))
    by (intros f; apply keeps_drop).
  apply keeps_if; intros _.
  { apply keeps_bind; [unseen|intros _]. apply keeps_drop, running_perform. }
  apply keeps_if; intros _; [apply K; unseen|].
  apply keeps_if; intros _; [apply keeps_bind; [apply keeps_opt|intros l; apply K; unseen]|].
  apply keeps_if; intros _; [apply keeps_drop, running_report|].
  do 2 (apply keeps_if; intros _; [apply K; unseen|]).
  apply keeps_if; intros _.
  { apply keeps_bind; [unseen|intros _]. apply keeps_drop, keeps_when. intros _.
    apply keeps_bind; [apply running_sb_read|intros _; apply running_autoincrement]. }
  do 3 (apply keeps_if; intros _; [apply K; unseen|]).
  apply keeps_if; intros _.
  { apply keeps_bind; [unseen|intros _]. apply keeps_drop, running_no_sb_error.
    apply keeps_bind; [apply running_sb_write|intros _; apply running_no_sb_error, running_autoincrement]. }
  do 3 (apply keeps_if; intros _; [apply K; unseen|]).
  apply keeps_if; intros _; [apply keeps_drop, running_write_authdata|].
  apply keeps_if; intros _; [|apply keeps_ret].
  apply keeps_drop, keeps_when. intros _. apply keeps_hart_modify. intros l y H. revert y H.
  intros y (H1 & H2 & H3 & H4 & H5). exact (conj H1 (conj H2 (conj H3 (conj H4 H5)))).
Qed.

Lemma running_dmi_write address value : address <> DMI_DMCONTROL -> keeps running (dmi_write random address value).
Proof.
  intros NC. apply keeps_get_bind. intros x _. apply keeps_if; intros _; [apply keeps_ret|].
  apply keeps_if; intros _; [|apply keeps_if; intros _; [|now apply running_write_register]].
  - intros y Hy. rewrite busy_write_data by apply Hy.
    apply (keeps_bind running); [apply running_report_busy|intros _; apply keeps_ret|exact Hy].
  - intros y Hy. now rewrite busy_write_progbuf by apply Hy.
Qed.

End Busy.

(** ** While the debugger is not authenticated *)

Section Locked.
Variable x0 : dm_machine.

(** Nothing runs by itself, as after reset; the registers of the data and of
    the program buffer end below [DMI_DMCONTROL] and [DMI_AUTHDATA]. *)
Definition locked (d : debug_module_t) : Prop :=
  (require_authentication (config d) = true /\ progbufsize (config d) <= 16 /\
   length (dmdata d) = 8%nat /\ datacount (abstractcs d) = 2) /\
  authenticated (dmstatus d) = false /\
  abstractauto d = mk_abstractauto 0 0 /\
  readonaddr (sbcs d) = false /\ readondata (sbcs d) = false /\ autoincrement (sbcs d) = false.

Lemma locked_members v d : require_authentication (config d) = true -> progbufsize (config d) <= 16 ->
  length (dmdata d) = 8%nat -> locked (reset_members v d).
Proof.
  intros H1 H2 H3. split; [|split; [|now repeat split]].
  - refine (conj H1 (conj H2 (conj H3 _))).
    change (Z.of_nat (length (dmdata d)) / 4 = 2). now rewrite H3.
  - change (negb (require_authentication (config d)) = false). now rewrite H1.
Qed.

(** What the debug module lets a debugger see and change of the harts. *)
Definition contents (d : debug_module_t) :=
  (dmdata d, program_buffer d, debug_abstract d, debug_rom_flags d, hart_state d, hart_array_mask d,
   command d, sbaddress d, sbdata d, custom_base d).

Definition no_halt_request (h : hart unit) : hart unit := h <| proc ::= fun p => p <| halt_request := HR_NONE |> |>.

(** Halt requests may be withdrawn: that is what [reset] does. *)
Definition untouched (x : dm_machine) : Prop :=
  locked (dm x) /\ contents (dm x) = contents (dm x0) /\ platform x = platform x0 /\
  debug_mmu x = debug_mmu x0 /\
  Forall2 (fun h0 h => h = h0 \/ h = no_halt_request h0) (procs x0) (procs x).

Lemma untouched_start : locked (dm x0) -> untouched x0.
Proof.
  intros L. do 4 (split; [first [exact L|reflexivity]|]). induction (procs x0); constructor; auto.
Qed.

#[local] Ltac unseen := apply keeps_modify;
  intros ? ((? & ? & ? & ? & ? & ?) & ? & ? & ? & ?);
  refine (conj (conj _ (conj _ (conj _ (conj _ (conj _ _))))) (conj _ (conj _ (conj _ _)))); first [assumption|reflexivity].

Lemma untouched_draw : keeps untouched (draw random).
Proof. intros [d ps m pl g] H. unfold draw. cbn [rng]. destruct (random g). exact H. Qed.

Lemma contents_reset v d : contents (reset_members v d) = contents d.
Proof. reflexivity. Qed.
Lemma locked_reset v d : locked d -> locked (reset_members v d).
Proof. intros ((H1 & H2 & H3 & _) & _). now apply locked_members. Qed.

Lemma untouched_reset : keeps untouched (reset random).
Proof.
  apply keeps_bind; [|intros _; apply keeps_bind; [apply untouched_draw|intros v]].
  - intros [d ps m pl g] (L & C & P & M & F). refine (conj L (conj C (conj P (conj M _)))).
    change (Forall2 (fun h0 h => h = h0 \/ h = no_halt_request h0) (procs x0) (no_halt_request <$> ps)).
    clear -F. cbn [procs] in F. induction F as [|h0 h l0 l H F IH]; constructor; [|exact IH].
    right. now destruct H as [->| ->].
  - apply keeps_modify. intros [d ps m pl g] (L & C & P & M & F).
    exact (conj (locked_reset v d L) (conj (eq_trans (contents_reset v d) C) (conj P (conj M F)))).
Qed.

Lemma untouched_autoincrement : keeps untouched (dmodify sb_autoincrement).
Proof.
  intros x H. pose proof H as ((_ & _ & _ & _ & _ & A) & _).
  change (untouched (x <| dm ::= sb_autoincrement |>)).
  replace (x <| dm ::= sb_autoincrement |>) with x; [exact H|].
  destruct x as [d ps m pl g]. cbn in A.
  change (mk_dm_machine d ps m pl g = mk_dm_machine (sb_autoincrement d) ps m pl g).
  unfold sb_autoincrement. now rewrite A.
Qed.

Lemma untouched_no_sb_error m : keeps untouched m -> keeps untouched (no_sb_error m).
Proof. intros H. apply keeps_get_bind. intros x _. now apply keeps_when. Qed.

Lemma untouched_report e : keeps untouched (report e).
Proof. unseen. Qed.

(** Nothing is executed automatically. *)
Lemma untouched_auto {A} (a : abstractcs_t) i (r : A) :
  keeps untouched (auto <- (if busy a then dret false else dopt (shifted_bit 0 i)) ;;
                   dwhen auto perform_abstract_command ;; dret r).
Proof.
  intros x H. unfold shifted_bit. rewrite Z.shiftr_0_l, Z.land_0_l. now destruct (busy a), (i <? 32).
Qed.

Lemma untouched_dmi_read address : keeps untouched (dmi_read address).
Proof.
  apply keeps_get_bind. intros x _. apply keeps_if; intros _; [|apply keeps_if; intros _].
  - apply keeps_get_bind. intros y ((_ & _ & A & _) & _). cbv zeta. rewrite A. cbn [autoexecdata].
    rewrite Z.shiftr_0_l, Z.land_0_l, andb_false_r.
    apply keeps_bind; [apply keeps_opt|]. intros v.
    apply keeps_bind; [apply keeps_when; intros _; apply untouched_report|]. intros _. apply keeps_ret.
  - apply keeps_get_bind. intros y ((_ & _ & A & _) & _). cbv zeta. rewrite A. cbn [autoexecprogbuf].
    apply keeps_bind; [apply keeps_opt|intros v; apply untouched_auto].
  - apply keeps_get_bind. intros y ((_ & _ & _ & _ & B & _) & _).
    repeat (apply keeps_if; intros _; [|]); try apply keeps_ret.
    + apply keeps_bind; [|intros v; apply keeps_ret].
      apply keeps_read_dmstatus. intros f Hf z ((H1 & H2 & H3 & H4 & H5 & H6) & C & P & M & F).
      refine (conj (conj H1 (conj _ (conj H3 (conj H4 (conj H5 H6))))) (conj C (conj P (conj M F)))).
      change (authenticated (f (dmstatus (dm z))) = false). now rewrite Hf.
    + apply keeps_bind; [apply keeps_opt|intros v; apply keeps_ret].
    + apply keeps_drop, untouched_no_sb_error. rewrite B. apply keeps_bind; [apply keeps_ret|].
      intros _. apply untouched_no_sb_error, untouched_autoincrement.
    + apply keeps_bind; [apply keeps_hart_at|intros h; apply keeps_ret].
Qed.

Lemma untouched_run_test_idle : keeps untouched run_test_idle.
Proof.
  apply keeps_modify. intros [d ps m pl g] H.
  change (untouched (mk_dm_machine (rti_step d) ps m pl g)).
  destruct (rti_step_eq d) as (r & b & ->). exact H.
Qed.

Lemma untouched_write_dmcontrol value : keeps untouched (write_dmcontrol random value).
Proof.
  apply keeps_get_bind. intros x _. cbv zeta.
  apply keeps_bind; [apply keeps_when; intros _; apply untouched_reset|intros _].
  apply keeps_bind; [unseen|intros _]. apply keeps_get_bind. intros y ((_ & A & _) & _).
  rewrite A. apply keeps_ret.
Qed.

(** A wrong answer draws a new challenge. *)
Lemma untouched_wrong_answer x value : untouched x -> value <> u32 (challenge (dm x) + secret) ->
  untouched (write_authdata random value x).2.
Proof.
  intros H N%Z.eqb_neq. pose proof H as (((L & _) & _) & _).
  change (write_authdata random value x) with
    ((dwhen (require_authentication (config (dm x)))
       (if value =? u32 (challenge (dm x) + secret) then put_authenticated true
        else put_authenticated false ;; r <- draw random ;; dmodify (fun d => d <| challenge := u32 r |>))) x).
  rewrite L, N. cbn [dwhen]. revert x H L N. intros x H _ _. revert x H.
  apply keeps_bind; [unseen|intros _]. apply keeps_bind; [apply untouched_draw|intros r]. unseen.
Qed.

Lemma untouched_dmi_write address value x : untouched x ->
  (address = DMI_AUTHDATA -> value <> u32 (challenge (dm x) + secret)) ->
  untouched (dmi_write random address value x).2.
Proof.
  intros H A. pose proof H as (((_ & B & _ & D) & L & _) & _).
  unfold dmi_write, dbind at 1, dgets, id_. rewrite L. unfold is_data_register, is_progbuf_register. rewrite D.
  cbn [negb andb]. destruct (Z.eqb_spec address DMI_AUTHDATA) as [->|N]; cbn [negb andb].
  - replace ((DMI_PROGBUF0 <=? DMI_AUTHDATA) && (DMI_AUTHDATA <? DMI_PROGBUF0 + progbufsize (config (dm x)))) with false
      by (unfold DMI_AUTHDATA, DMI_PROGBUF0; lia).
    pose proof (untouched_wrong_answer x value H (A eq_refl)) as K.
    change (untouched ((write_authdata random value ;; dret true) x).2).
    unfold dbind. now destruct (write_authdata random value x) as [[e|a] y].
  - destruct (Z.eqb_spec address DMI_DMCONTROL) as [->|N']; cbn [negb]; [|exact H].
    change (untouched ((if (DMI_PROGBUF0 <=? DMI_DMCONTROL) && (DMI_DMCONTROL <? DMI_PROGBUF0 + progbufsize (config (dm x)))
      then write_progbuf (DMI_DMCONTROL - DMI_PROGBUF0) value else write_dmcontrol random value ;; dret true) x).2).
    exact (keeps_drop untouched _ true (untouched_write_dmcontrol value) x H).
Qed.

(** A debugger that gives no right answer: only the Debug Module Interface and
    idle cycles, and no write of the challenge plus the secret to [authdata]. *)
Fixpoint never_unlocks (ops : list dm_op) x : Prop :=
  match ops with
  | [] => True
  | op :: ops =>
    match op with
    | Op_dmi_read _ | Op_run_test_idle => True
    | Op_dmi_write a v => a = DMI_AUTHDATA -> v <> u32 (challenge (dm x) + secret)
    | _ => False
    end /\ never_unlocks ops (dm_run random op x).2
  end.

Lemma untouched_runs ops : forall x, untouched x -> never_unlocks ops x -> untouched (dm_runs random ops x).2.
Proof.
  induction ops as [|op ops IH]; intros x Hx; cbn [never_unlocks dm_runs]; [auto|]. intros [Ho Hn].
  assert (K : untouched (dm_run random op x).2).
  { destruct op; cbn [dm_run] in *; try contradiction.
    - exact (keeps_drop untouched _ tt (untouched_dmi_read address) x Hx).
    - pose proof (untouched_dmi_write address value x Hx Ho) as K. unfold dbind.
      now destruct (dmi_write random address value x) as [[e|b] y].
    - exact (untouched_run_test_idle x Hx). }
  unfold dbind. destruct (dm_run random op x) as [[e|u] y]; [exact K|]. now apply IH.
Qed.

End Locked.

End Keeps.
