(* ===== verification/DebugLive.v ===== *)
(** * DebugLive: a command that is busy comes to an end

    The hart that runs an abstract command stores its number to
    [DEBUG_ROM_GOING] when it starts and to [DEBUG_ROM_HALTED] when it is back
    in the debug ROM; then the Run-Test/Idle cycles of the configuration pass.
    However accesses of the debugger and of other harts come in between, the
    command does not stay busy. *)
From Stdlib Require Import ZArith Lia Bool List.
From stdpp Require Import base list gmap.
From S2P Require Import Prelude Arith Encoding Decode State Processor Mmu TrapEntry Sim DebugDefines DebugAsm DebugModule DebugFacts DebugFrame.
#[local] Open Scope Z_scope.
#[local] Open Scope word_scope.
#[local] Open Scope record_scope.

Section Live.
Context {S R : Type} `{!SimIf S, !Platform S}.
#[local] Notation DM := (DM S R).
#[local] Notation dm_machine := (dm_machine S R).
Implicit Types (x y : dm_machine).
#[local] Open Scope dm_scope.
Variable random : R -> Z * R.

(** Some state of the run satisfies [P]; an operation that fails ends the run. *)
Fixpoint reaches (P : dm_machine -> Prop) (ops : list dm_op) x : Prop :=
  P x \/ match ops with
         | [] => False
         | op :: ops => match dm_run random op x with (inr _, y) => reaches P ops y | (inl _, _) => False end
         end.

Definition is_busy x : bool := busy (abstractcs (dm x)).
Definition selected x : Z := hartsel (dmcontrol (dm x)).

(** The GO flag of hart [h] is clear. *)
Definition go_clear (h : Z) x : Prop :=
  forall f, array_get (debug_rom_flags (dm x)) h = Some f -> f &w FLAG_GO = 0.

(** What no operation but a write of [dmcontrol] takes back while the command
    is busy. *)
Definition progressing (x0 x : dm_machine) : Prop :=
  dmcontrol (dm x) = dmcontrol (dm x0) /\ 0 <= rti_remaining (dm x) <= rti_remaining (dm x0) /\
  (forall h, go_clear h x0 -> go_clear h x) /\
  (abstract_command_completed (dm x0) = true -> abstract_command_completed (dm x) = true) /\
  max_bus_master_bits (config (dm x)) < 8.

Lemma progressing_refl x : 0 <= rti_remaining (dm x) -> max_bus_master_bits (config (dm x)) < 8 -> progressing x x.
Proof. intros H1 H2. split; [reflexivity|]. split; [lia|]. now repeat split. Qed.

Lemma running_progressing x y : 0 <= rti_remaining (dm x) -> running x y -> progressing x y.
Proof.
  intros H (_ & P & _ & _ & B). unfold progress in P. injection P as P1 P2 P3 P4 P5 P6 P7.
  unfold progressing, go_clear. rewrite P4, P5, P6, P7. split; [reflexivity|]. split; [lia|]. now repeat split.
Qed.

Lemma array_alter_get {A} (f : A -> A) l id l' i v : array_alter f l id = Some l' -> array_get l' i = Some v ->
  (i = id /\ exists u, array_get l i = Some u /\ v = f u) \/ (i <> id /\ array_get l i = Some v).
Proof.
  unfold array_alter, array_get. destruct (in_array l id 1) eqn:Eid; [|discriminate]. intros [= <-].
  unfold in_array in *. rewrite length_alter. destruct ((0 <=? i) && _) eqn:Ei; [|discriminate].
  destruct (Z.eqb_spec i id) as [->|N].
  - rewrite list_lookup_alter_eq. intros H. left. split; [reflexivity|].
    destruct (l !! Z.to_nat id) as [u|]; [|discriminate]. injection H as <-. eauto.
  - rewrite list_lookup_alter_ne by lia. auto.
Qed.

Section Stores.
Variable x0 : dm_machine.
#[local] Notation P := (progressing x0).

#[local] Ltac unseen := apply keeps_modify; intros ? (? & ? & ? & ? & ?);
  refine (conj _ (conj _ (conj _ (conj _ _)))); assumption.

Lemma progressing_flags id f : (forall v, v &w FLAG_GO = 0 -> f v &w FLAG_GO = 0) -> keeps P (flags_modify id f).
Proof.
  intros Hf [d ps m pl g] H. unfold flags_modify, dbind, dgets, id_. cbn [dm].
  destruct (array_alter f (debug_rom_flags d) id) as [l|] eqn:E; [|exact H].
  destruct H as (H1 & H2 & H3 & H4 & H5). refine (conj H1 (conj H2 (conj _ (conj H4 H5)))).
  intros h G v Hv. specialize (H3 h G). unfold go_clear in H3. cbn [dm] in H3.
  destruct (array_alter_get _ _ _ _ _ _ E Hv) as [(-> & u & Hu & ->)|(_ & Hu)]; auto.
Qed.

Lemma progressing_hart id f : keeps P (hart_modify id f).
Proof.
  apply keeps_hart_modify. intros l y (H1 & H2 & H3 & H4 & H5).
  exact (conj H1 (conj H2 (conj H3 (conj H4 H5)))).
Qed.

Lemma progressing_report e : keeps P (report e).
Proof. unseen. Qed.

Lemma progressing_proc i f : keeps P (modify_proc i f).
Proof. intros [d ps m pl g] H. exact H. Qed.

Lemma keeps_mark_halted (Q : dm_machine -> Prop) id : (forall l, blind Q (fun d => d <| hart_state := l |>)) ->
  (forall i f, keeps Q (modify_proc i f)) -> keeps Q (mark_halted id).
Proof.
  intros H1 H2. apply keeps_bind; [apply keeps_hart_at|intros h].
  apply keeps_when. intros _. apply keeps_bind; [now apply keeps_hart_modify|intros _].
  apply keeps_when. intros _. apply keeps_get_bind. intros x _. apply keeps_for. intros i.
  apply keeps_bind; [apply keeps_hart_at|intros hi]. apply keeps_when. intros _. apply H2.
Qed.

Lemma progressing_store_halted id : keeps P (store_halted id).
Proof.
  apply keeps_bind; [|intros _].
  { apply keeps_mark_halted; [|apply progressing_proc]. intros l y (H1 & H2 & H3 & H4 & H5).
    exact (conj H1 (conj H2 (conj H3 (conj H4 H5)))). }
  apply keeps_get_bind. intros x _. apply keeps_when. intros _.
  apply keeps_bind; [apply keeps_flags_at|intros f]. apply keeps_when. intros _.
  apply keeps_modify. intros y (H1 & H2 & H3 & H4 & H5).
  exact (conj H1 (conj H2 (conj H3 (conj (fun _ => eq_refl) H5)))).
Qed.

Lemma land_clear v m n : v &w n = 0 -> (v &w m) &w n = 0.
Proof. intros H. rewrite <- Z.land_assoc, (Z.land_comm m), Z.land_assoc, H. apply Z.land_0_l. Qed.

Lemma progressing_store addr bytes : keeps P (store addr bytes).
Proof.
  apply keeps_get_bind. intros x _. apply keeps_bind; [apply keeps_opt|intros id]. cbv zeta.
  apply keeps_if; intros _; [apply keeps_bind; [apply keeps_opt|intros a; apply keeps_drop; unseen]|].
  apply keeps_if; intros _; [apply keeps_bind; [apply keeps_opt|intros a; apply keeps_drop; unseen]|].
  assert (A : forall b, keeps P (dassert (S:=S) (R:=R) b)) by (intros []; now intros y Hy).
  apply keeps_if; intros _.
  { apply keeps_bind; [apply A|intros _]. apply keeps_drop, progressing_store_halted. }
  apply keeps_if; intros _.
  { apply keeps_bind; [apply A|intros _]. apply keeps_drop, progressing_flags. intros v. apply land_clear. }
  apply keeps_if; intros _.
  { apply keeps_bind; [apply A|intros _]. do 2 (apply keeps_bind; [apply progressing_hart|intros _]).
    apply keeps_drop, progressing_flags. intros v. apply land_clear. }
  apply keeps_if; intros _; [|apply keeps_ret].
  apply keeps_drop, keeps_when. intros _. apply progressing_report.
Qed.

Lemma progressing_load addr n : keeps P (load addr n).
Proof.
  apply keeps_get_bind. intros x _. cbv zeta.
  repeat (apply keeps_if; intros _; [apply keeps_bind; [apply keeps_opt|intros b; apply keeps_ret]|]).
  apply keeps_ret.
Qed.

End Stores.

Lemma rti_step_value d : 0 <= rti_remaining d -> rti_remaining (rti_step d) = Z.max 0 (rti_remaining d - 1).
Proof.
  intros H. unfold rti_step. cbv zeta.
  set (d' := if 0 <? rti_remaining d then d <| rti_remaining ::= fun n => n - 1 |> else d).
  assert (E : rti_remaining d' = Z.max 0 (rti_remaining d - 1)).
  { subst d'. destruct (Z.ltb_spec 0 (rti_remaining d)).
    - change (rti_remaining d - 1 = Z.max 0 (rti_remaining d - 1)). lia.
    - lia. }
  now destruct (_ && _).
Qed.

Lemma rti_step_done d : abstract_command_completed d = true -> 0 <= rti_remaining d <= 1 ->
  busy (abstractcs (rti_step d)) = false.
Proof.
  intros C H. unfold rti_step. cbv zeta.
  set (d' := if 0 <? rti_remaining d then d <| rti_remaining ::= fun n => n - 1 |> else d).
  assert (E : rti_remaining d' = 0 /\ abstract_command_completed d' = true /\ abstractcs d' = abstractcs d).
  { subst d'. destruct (Z.ltb_spec 0 (rti_remaining d)).
    - split; [change (rti_remaining d - 1 = 0); lia|]. now split.
    - split; [lia|now split]. }
  destruct E as (-> & -> & E). rewrite Z.eqb_refl, andb_true_r. cbn [andb].
  destruct (busy (abstractcs d')) eqn:B; [reflexivity|exact B].
Qed.

Lemma progressing_rti x : 0 <= rti_remaining (dm x) -> max_bus_master_bits (config (dm x)) < 8 ->
  progressing x (x <| dm ::= rti_step |>).
Proof.
  intros H B. unfold progressing. change (dm (x <| dm ::= rti_step |>)) with (rti_step (dm x)).
  rewrite rti_step_value by lia. destruct (rti_step_eq (dm x)) as (r & b & E).
  assert (D : dmcontrol (rti_step (dm x)) = dmcontrol (dm x) /\ debug_rom_flags (rti_step (dm x)) = debug_rom_flags (dm x) /\
    abstract_command_completed (rti_step (dm x)) = abstract_command_completed (dm x) /\ config (rti_step (dm x)) = config (dm x)).
  { rewrite E. now repeat split. }
  destruct D as (D1 & D2 & D3 & D4). unfold go_clear.
  change (dm (x <| dm ::= rti_step |>)) with (rti_step (dm x)). rewrite D1, D2, D3, D4.
  split; [reflexivity|]. split; [lia|]. now repeat split.
Qed.

(** ** One operation *)

Section Machine.
Variable c : debug_module_config_t.
Variable N : Z.
Hypothesis N_ok : 1 <= N <= 1024.
Hypothesis no_bus_master : max_bus_master_bits c < 8.
Hypothesis size_ok : 0 <= progbufsize c <= 16.

#[local] Notation I := (machine_safe c N).

(** Everything but a write of [dmcontrol], which may select another hart or
    reset the debug module. *)
Definition leaves_selection (op : dm_op) : Prop :=
  match op with Op_dmi_write a _ => a <> DMI_DMCONTROL | _ => True end.

Lemma size_fits : 0 <= progbufsize c <= 32.
Proof. lia. Qed.

Lemma keeps_run {A} P (m : DM A) x : keeps P m -> P x -> P ((m ;; dret tt) x).2.
Proof. intros H Hx. exact (keeps_drop P m tt H x Hx). Qed.

Lemma op_progress op x : I x -> op_in_range N op -> leaves_selection op ->
  is_busy x = true -> 0 <= rti_remaining (dm x) ->
  exists y, dm_run random op x = (inr tt, y) /\ I y /\ progressing x y.
Proof.
  intros Hx Hop Hl Hb Hr.
  assert (B : max_bus_master_bits (config (dm x)) < 8) by (rewrite (ok_config c N _ (proj1 Hx)); exact no_bus_master).
  pose proof (safe_run random c N N_ok no_bus_master size_fits op Hop x Hx) as Hs.
  assert (Hp : progressing x (dm_run random op x).2).
  { assert (P0 : progressing x x) by (now apply progressing_refl).
    assert (R0 : running x x) by (unfold running; auto).
    destruct op; cbn [dm_run leaves_selection] in *.
    - apply running_progressing; [exact Hr|]. apply keeps_run; [apply running_dmi_read|exact R0].
    - apply running_progressing; [exact Hr|]. apply keeps_run; [now apply running_dmi_write|exact R0].
    - now apply progressing_rti.
    - apply keeps_run; [apply progressing_load|exact P0].
    - apply keeps_run; [apply progressing_store|exact P0].
    - now apply progressing_hart. }
  destruct (dm_run random op x) as [[e|[]] y]; [destruct Hs|]. exists y. now destruct Hs.
Qed.

(** ** The events of the hart that runs the command *)

Definition going (h : Z) : dm_op := Op_store DEBUG_ROM_GOING (le_bytes 4 h).
Definition halts (h : Z) : dm_op := Op_store DEBUG_ROM_HALTED (le_bytes 4 h).

Lemma store_no_window x addr h : I x -> hart_number N h -> 0 <= addr < 0x300 ->
  window addr 4 debug_data_start (datasize * 4) = false /\
  progbuf_window addr 4 (dm x) = false.
Proof.
  intros (D & _) _ Ha. unfold progbuf_window. rewrite (ok_progbuf_start c N _ D). unfold window, buffer_bytes, debug_data_start.
  assert (Hb : 0 <= (if support_impebreak c then 4 else 0) + 4 * progbufsize c <= 68)
    by (destruct (support_impebreak c); lia).
  rewrite (uw_small 32) by (unfold fits; lia). split; apply andb_false_iff; left; lia.
Qed.

Lemma hart_word h : hart_number N h -> le_value (le_bytes 4 h) = h.
Proof.
  intros H. apply hart_number_flags in H; [|exact N_ok]. rewrite le_value_bytes. apply uw_small. unfold fits. cbn. lia.
Qed.

Lemma array_alter_some {A} (f : A -> A) l i l' : array_alter f l i = Some l' ->
  forall v, array_get l' i = Some v -> exists u, v = f u.
Proof.
  intros E v Hv. destruct (array_alter_get _ _ _ _ _ _ E Hv) as [(_ & u & _ & ->)|(N' & _)]; [eauto|congruence].
Qed.

Lemma store_number x addr h : I x -> hart_number N h -> 0 <= addr < 0x300 ->
  store addr (le_bytes 4 h) x =
  (if addr =? DEBUG_ROM_HALTED then store_halted h ;; dret true
   else if addr =? DEBUG_ROM_GOING then flags_modify h (fun f => f &w Z.lnot FLAG_GO) ;; dret true
   else store addr (le_bytes 4 h)) x.
Proof.
  intros Hx Hh Ha. destruct (store_no_window x addr h Hx Hh Ha) as [W1 W2].
  destruct (addr =? DEBUG_ROM_HALTED) eqn:E1; [|destruct (addr =? DEBUG_ROM_GOING) eqn:E2; [|reflexivity]];
    unfold store, dbind at 1, dgets, id_; cbv zeta; rewrite le_bytes_length; change (Z.of_nat 4 =? 4) with true;
    cbv iota; rewrite read32_word by apply le_bytes_length; rewrite (hart_word h Hh);
    unfold dbind at 1; cbn [dopt dret]; rewrite debug_addr by lia; change (Z.of_nat 4) with 4;
    rewrite W1, W2, E1, ?E2; reflexivity.
Qed.

(** [GOING] clears the flag. *)
Lemma going_clears h x y : I x -> hart_number N h -> dm_run random (going h) x = (inr tt, y) -> go_clear h y.
Proof.
  intros Hx Hh. unfold going, dm_run, dbind at 1. rewrite (store_number x DEBUG_ROM_GOING h Hx Hh) by (unfold DEBUG_ROM_GOING; lia).
  change (DEBUG_ROM_GOING =? DEBUG_ROM_HALTED) with false. change (DEBUG_ROM_GOING =? DEBUG_ROM_GOING) with true. cbv iota.
  destruct x as [d ps m pl g]. unfold flags_modify, dbind, dgets, id_. cbn [dm].
  destruct (array_alter _ (debug_rom_flags d) h) as [l|] eqn:E; [|discriminate]. intros [= <-] v Hv.
  destruct (array_alter_some _ _ _ _ E v Hv) as [u ->].
  rewrite <- Z.land_assoc, (Z.land_comm (Z.lnot FLAG_GO)), Z.land_lnot_diag. apply Z.land_0_r.
Qed.

(** [HALTED] of the selected hart, its flag clear, completes the command. *)
Lemma halts_completes h x y : I x -> hart_number N h -> selected x = h -> go_clear h x ->
  dm_run random (halts h) x = (inr tt, y) -> abstract_command_completed (dm y) = true.
Proof.
  intros Hx Hh Hs G. unfold halts, dm_run, dbind at 1.
  rewrite (store_number x DEBUG_ROM_HALTED h Hx Hh) by (unfold DEBUG_ROM_HALTED; lia).
  change (DEBUG_ROM_HALTED =? DEBUG_ROM_HALTED) with true. cbv iota.
  assert (K : selected (mark_halted h x).2 = h /\ go_clear h (mark_halted h x).2).
  { apply (keeps_mark_halted (fun z => selected z = h /\ go_clear h z)); [..|now split].
    - intros l z Hz. exact Hz.
    - intros i f [d ps m pl g] Hz. exact Hz. }
  unfold store_halted, dbind at 1 2. destruct (mark_halted h x) as [[e|u] z]; [discriminate|].
  cbn [snd] in K. destruct K as [Ks Kg]. unfold note_completion, dbind, dgets, id_, flags_at.
  change (hartsel (dmcontrol (dm z))) with (selected z). rewrite Ks, Z.eqb_refl. cbn [dwhen].
  destruct z as [d ps m pl g]. unfold go_clear in Kg. cbn [dm] in *. unfold dbind, dgets, id_. cbn [dm].
  destruct (array_get (debug_rom_flags d) h) as [f|]; [|discriminate]. cbn [dopt dret].
  rewrite (Kg f eq_refl). cbn [Z.eqb dwhen]. intros [= <-]. reflexivity.
Qed.

(** ** Every schedule *)

(** The events still to come, and what has been reached before them; the
    cycles that are left suffice. *)
Inductive stage (h : Z) : list dm_op -> dm_machine -> Prop :=
| stage_launched n x : rti_remaining (dm x) <= Z.of_nat (Datatypes.S n) ->
    stage h (going h :: halts h :: repeat Op_run_test_idle (Datatypes.S n)) x
| stage_running n x : rti_remaining (dm x) <= Z.of_nat (Datatypes.S n) -> go_clear h x ->
    stage h (halts h :: repeat Op_run_test_idle (Datatypes.S n)) x
| stage_completed n x : rti_remaining (dm x) <= Z.of_nat (Datatypes.S n) ->
    abstract_command_completed (dm x) = true -> stage h (repeat Op_run_test_idle (Datatypes.S n)) x.

Lemma stage_progressing h events x y : stage h events x -> progressing x y -> stage h events y.
Proof. intros St (_ & H2 & H3 & H4 & _). destruct St; constructor; auto; lia. Qed.

(** The next event takes the command to its next stage, or ends it. *)
Lemma stage_event h op events x y : I x -> hart_number N h -> selected x = h -> 0 <= rti_remaining (dm x) ->
  stage h (op :: events) x -> dm_run random op x = (inr tt, y) -> progressing x y ->
  is_busy y = false \/ stage h events y.
Proof.
  intros Hx Hh Hs Hr St E (_ & H2 & H3 & H4 & _). inversion St as [n x' L|n x' L G|n x' L C]; subst.
  - right. constructor; [lia|]. now apply (going_clears (selected x) x).
  - right. constructor; [lia|]. now apply (halts_completes (selected x) x).
  - assert (Ey : y = x <| dm ::= rti_step |>) by (now injection E). subst y.
    destruct n as [|n].
    + left. apply rti_step_done; [exact C|lia].
    + right. apply stage_completed; [|now apply H4].
      change (dm (x <| dm ::= rti_step |>)) with (rti_step (dm x)). rewrite rti_step_value by exact Hr. lia.
Qed.

Lemma stage_reaches h events ops : sublist events ops -> hart_number N h ->
  Forall (op_in_range N) ops -> Forall leaves_selection ops ->
  forall x, I x -> selected x = h -> 0 <= rti_remaining (dm x) -> stage h events x ->
  reaches (fun y => is_busy y = false) ops x.
Proof.
  intros Sub Hh. induction Sub as [|op events ops Sub IH|op events ops Sub IH];
    intros Ho Hl x Hx Hs Hr St; cbn [reaches].
  - inversion St.
  - destruct (is_busy x) eqn:B; [right|now left]. inversion Ho; subst. inversion Hl; subst.
    destruct (op_progress op x) as (y & E & Hy & Py); auto. rewrite E.
    destruct (stage_event (selected x) op events x y) as [B'|St']; auto.
    + destruct ops; now left.
    + pose proof Py as (P1 & P2 & _). apply IH; auto; [unfold selected; now rewrite P1|lia].
  - destruct (is_busy x) eqn:B; [right|now left]. inversion Ho; subst. inversion Hl; subst.
    destruct (op_progress op x) as (y & E & Hy & Py); auto. rewrite E.
    pose proof Py as (P1 & P2 & _).
    apply IH; auto; [unfold selected; now rewrite P1|lia|now apply (stage_progressing _ _ x)].
Qed.

End Machine.
End Live.
