(* ===== verification/DebugProgram.v ===== *)
(** * DebugProgram: the programs abstract commands run

    The assembler functions of [riscv/opcodes.h] produce the ISA's encodings,
    which the simulator's own decoder reads back, and an accepted command
    leaves exactly the program for it in [debug_abstract]. *)
From Stdlib Require Import ZArith Lia Bool Btauto List.
From stdpp Require Import base list gmap strings.
From S2P Require Import Prelude Arith Encoding Decode Decoder State Processor Mmu TrapEntry Expand Sim DebugDefines DebugAsm DebugModule DebugFacts.
#[local] Open Scope Z_scope.
#[local] Open Scope word_scope.
#[local] Open Scope record_scope.

(** ** The assemblers encode *)

Section Encode.

Lemma pack_I i s d f o : i |w s |w d |w (f |w o) = i |w (s |w (f |w (d |w o))).
Proof. bits k. rewrite !Z.lor_spec. btauto. Qed.
Lemma pack_S h t s l f o : h |w t |w s |w l |w (f |w o) = h |w (t |w (s |w (f |w (l |w o)))).
Proof. bits k. rewrite !Z.lor_spec. btauto. Qed.

Lemma asm_bits v hi lo : 0 <= lo <= hi -> Asm.bits v hi lo = (v / 2 ^ lo) mod 2 ^ (hi + 1 - lo).
Proof.
  intros H. unfold Asm.bits. rewrite Z.shiftl_1_l, Z.shiftr_div_pow2 by lia.
  replace (2 ^ (hi + 1 - lo) - 1) with (Z.ones (hi + 1 - lo)) by (rewrite Z.ones_equiv; lia).
  now rewrite Z.land_ones by lia.
Qed.

Lemma shl_pow v n : 0 <= n -> 0 <= v -> v * 2 ^ n < 2 ^ 32 -> Asm.shl v n = Z.shiftl v n.
Proof.
  intros Hn Hv H. unfold Asm.shl. apply uw_small. rewrite Z.shiftl_mul_pow2 by lia.
  split; [pose proof (pow2_pos n Hn); nia|exact H].
Qed.

Variables rd rs1 rs2 imm op f3 : Z.
Hypothesis Hrd : fits 5 rd.
Hypothesis Hrs1 : fits 5 rs1.
Hypothesis Hrs2 : fits 5 rs2.
Hypothesis Himm : fits 12 imm.
Hypothesis Hop : fits 7 op.
Hypothesis Hf3 : fits 3 f3.

Lemma asm_I : Asm.shl imm 20 |w Asm.shl rs1 15 |w Asm.shl rd 7 |w (Z.shiftl f3 12 |w op) = enc_I op f3 rd rs1 imm.
Proof.
  clear Hrs2. unfold fits in *. rewrite !shl_pow by lia. rewrite pack_I.
  rewrite (lor_add_shift rd), (lor_add_shift f3), (lor_add_shift rs1), (lor_add_shift imm) by (unfold fits; lia).
  unfold enc_I. rewrite (Z.mod_small imm) by lia. ring.
Qed.

Lemma asm_S : Asm.shl (Asm.bits imm 11 5) 25 |w Asm.shl rs2 20 |w Asm.shl rs1 15 |w Asm.shl (Asm.bits imm 4 0) 7
  |w (Z.shiftl f3 12 |w op) = enc_S op f3 rs1 rs2 imm.
Proof.
  clear Hrd. rewrite !asm_bits by lia. change (11 + 1 - 5) with 7. change (4 + 1 - 0) with 5.
  change (2 ^ 0) with 1. rewrite Z.div_1_r. unfold fits in *.
  pose proof (Z.mod_pos_bound imm (2 ^ 5) ltac:(lia)). pose proof (Z.mod_pos_bound (imm / 2 ^ 5) (2 ^ 7) ltac:(lia)).
  rewrite !shl_pow by lia. rewrite pack_S.
  rewrite (lor_add_shift (imm mod 2 ^ 5)), (lor_add_shift f3), (lor_add_shift rs1), (lor_add_shift rs2),
    (lor_add_shift ((imm / 2 ^ 5) mod 2 ^ 7)) by (unfold fits; lia).
  unfold enc_S. ring.
Qed.

End Encode.

Lemma asm_bits_all v n : fits n v -> 0 < n -> Asm.bits v (n - 1) 0 = v.
Proof.
  intros H Hn. rewrite asm_bits by lia. rewrite Z.div_1_r.
  replace (n - 1 + 1 - 0) with n by lia. now apply Z.mod_small.
Qed.

Definition asm_bits_12 v (H : fits 12 v) : Asm.bits v 11 0 = v := asm_bits_all v 12 H ltac:(reflexivity).
Definition asm_bits_5 v (H : fits 5 v) : Asm.bits v 4 0 = v := asm_bits_all v 5 H ltac:(reflexivity).

Section Assemblers.
Variables r s offset csr : Z.
Hypothesis Hr : fits 5 r.
Hypothesis Hs : fits 5 s.
Hypothesis Ho : fits 12 offset.
Hypothesis Hc : fits 12 csr.

#[local] Ltac fit := unfold fits in *; lia.
#[local] Ltac load o f := rewrite (asm_bits_12 offset), (asm_bits_5 r) by assumption;
  apply (asm_I r s offset o f); fit.

Lemma asm_lw : Asm.lw r s offset = enc_I 0x03 2 r s offset.
Proof. unfold Asm.lw. load 0x03 2. Qed.
Lemma asm_ld : Asm.ld r s offset = enc_I 0x03 3 r s offset.
Proof. unfold Asm.ld. load 0x03 3. Qed.
Lemma asm_flw : Asm.flw r s offset = enc_I 0x07 2 r s offset.
Proof. unfold Asm.flw. load 0x07 2. Qed.
Lemma asm_fld : Asm.fld r s offset = enc_I 0x07 3 r s offset.
Proof. unfold Asm.fld. load 0x07 3. Qed.

Lemma asm_sw : Asm.sw r s offset = enc_S 0x23 2 s r offset.
Proof. apply (asm_S s r offset 0x23 2); fit. Qed.
Lemma asm_sd : Asm.sd r s offset = enc_S 0x23 3 s r offset.
Proof. apply (asm_S s r offset 0x23 3); fit. Qed.
Lemma asm_fsw : Asm.fsw r s offset = enc_S 0x27 2 s r offset.
Proof. unfold Asm.fsw. rewrite (asm_bits_5 r) by assumption. apply (asm_S s r offset 0x27 2); fit. Qed.
Lemma asm_fsd : Asm.fsd r s offset = enc_S 0x27 3 s r offset.
Proof. unfold Asm.fsd. rewrite (asm_bits_5 r) by assumption. apply (asm_S s r offset 0x27 3); fit. Qed.

Lemma asm_csrrs : Asm.csrrs r s csr = enc_I 0x73 2 r s csr.
Proof. apply (asm_I r s csr 0x73 2); fit. Qed.
Lemma asm_csrr : Asm.csrr r csr = enc_I 0x73 2 r 0 csr.
Proof. rewrite <- (asm_I r 0 csr 0x73 2) by fit. unfold Asm.csrr. now rewrite Z.lor_0_r. Qed.
Lemma asm_csrw : Asm.csrw s csr = enc_I 0x73 1 0 s csr.
Proof. rewrite <- (asm_I 0 s csr 0x73 1) by fit. unfold Asm.csrw. now rewrite Z.lor_0_r. Qed.

End Assemblers.

(** ** Instructions and their words *)

(** The instructions a command is made of; memory operands are relative to [x0]. *)
Inductive rv :=
| LOADI (name : string) (rd offset : Z)
| STOREI (name : string) (rs2 offset : Z)
| CSRRW (rd rs1 csr : Z)
| CSRRS (rd rs1 csr : Z)
| LUI (rd imm : Z)
| JAL (offset : Z)
| EBREAK.

(** What the simulator's decoder makes of a word. *)
Definition decodes (w : Z) (i : rv) : Prop :=
  let f := fetched32 w in
  fits 32 w /\
  match i with
  | LOADI name rd offset => encodes name f /\ Insn.rd f = rd /\ Insn.rs1 f = 0 /\ Insn.i_imm f = offset
  | STOREI name rs2 offset => encodes name f /\ Insn.rs2 f = rs2 /\ Insn.rs1 f = 0 /\ Insn.s_imm f = offset
  | CSRRW rd rs1 csr => encodes "csrrw" f /\ Insn.rd f = rd /\ Insn.rs1 f = rs1 /\ Insn.csr f = csr
  | CSRRS rd rs1 csr => encodes "csrrs" f /\ Insn.rd f = rd /\ Insn.rs1 f = rs1 /\ Insn.csr f = csr
  | LUI rd imm => encodes "lui" f /\ Insn.rd f = rd /\ Insn.u_imm f = imm
  | JAL offset => encodes "jal" f /\ Insn.rd f = 0 /\ Insn.uj_imm f = offset
  | EBREAK => encodes "ebreak" f
  end.

Definition program_table : list (string * (Z * Z)) :=
  [("lw", (0x2003, 0x707f)); ("ld", (0x3003, 0x707f)); ("flw", (0x2007, 0x707f)); ("fld", (0x3007, 0x707f));
   ("sw", (0x2023, 0x707f)); ("sd", (0x3023, 0x707f)); ("fsw", (0x2027, 0x707f)); ("fsd", (0x3027, 0x707f));
   ("csrrw", (0x1073, 0x707f)); ("csrrs", (0x2073, 0x707f)); ("lui", (0x37, 0x7f)); ("jal", (0x6f, 0x7f));
   ("ebreak", (0x100073, 0xffffffff))]%string.

Lemma program_masks name m : In (name, m) program_table -> match_mask name = Some m.
Proof.
  assert (E : map (fun e => match_mask (fst e)) program_table = map (fun e => Some (snd e)) program_table) by reflexivity.
  rewrite map_ext_in_iff in E. apply E.
Qed.

Lemma encodes_word name w mt mk : In (name, (mt, mk)) program_table -> fits 32 w ->
  w mod 2 ^ 5 = mt mod 2 ^ 5 -> mt mod 2 ^ 2 = 3 -> mt mod 2 ^ 5 <> 31 -> w &w mk = mt ->
  encodes name (fetched32 w).
Proof.
  intros E F H7 H2 H5 Hm. unfold encodes. rewrite (program_masks _ _ E). unfold matches. cbn [d_match d_mask].
  rewrite bits_fetched32; [now apply Z.eqb_eq|exact F| |]; Z.div_mod_to_equations; lia.
Qed.

Section Decodes.
Variables op f3 rd rs1 rs2 imm : Z.
Hypothesis Hrd : fits 5 rd.
Hypothesis Hrs1 : fits 5 rs1.
Hypothesis Hrs2 : fits 5 rs2.
Hypothesis Hop : fits 7 op.
Hypothesis Hf3 : fits 3 f3.
Hypothesis Hlow : op mod 2 ^ 2 = 3 /\ op mod 2 ^ 5 <> 31.

Lemma encodes_I name : In (name, (op + f3 * 2 ^ 12, 0x707f)) program_table ->
  fits 32 (enc_I op f3 rd rs1 imm) /\ encodes name (fetched32 (enc_I op f3 rd rs1 imm)).
Proof.
  clear rs2 Hrs2. intros E. pose proof (enc_I_fits op f3 rd rs1 imm Hop Hf3 Hrd Hrs1) as F. split; [exact F|].
  pose proof (enc_I_op op f3 rd rs1 imm Hop Hf3 Hrd Hrs1) as E7.
  pose proof (enc_I_f3 op f3 rd rs1 imm Hop Hf3 Hrd Hrs1) as E3.
  apply (encodes_word name _ _ _ E F).
  - unfold fits in *. Z.div_mod_to_equations; lia.
  - unfold fits in *. destruct Hlow. Z.div_mod_to_equations; lia.
  - unfold fits in *. destruct Hlow. Z.div_mod_to_equations; lia.
  - rewrite land_op_f3, E7, E3. reflexivity.
Qed.

Lemma encodes_S name : In (name, (op + f3 * 2 ^ 12, 0x707f)) program_table ->
  fits 32 (enc_S op f3 rs1 rs2 imm) /\ encodes name (fetched32 (enc_S op f3 rs1 rs2 imm)).
Proof.
  clear rd Hrd. intros E. pose proof (enc_S_fits op f3 rs1 rs2 imm Hop Hf3 Hrs1 Hrs2) as F. split; [exact F|].
  pose proof (enc_S_op op f3 rs1 rs2 imm Hop Hf3 Hrs1 Hrs2) as E7.
  pose proof (enc_S_f3 op f3 rs1 rs2 imm Hop Hf3 Hrs1 Hrs2) as E3.
  apply (encodes_word name _ _ _ E F).
  - unfold fits in *. Z.div_mod_to_equations; lia.
  - unfold fits in *. destruct Hlow. Z.div_mod_to_equations; lia.
  - unfold fits in *. destruct Hlow. Z.div_mod_to_equations; lia.
  - rewrite land_op_f3, E7, E3. reflexivity.
Qed.

Lemma I_csr : fits 12 imm -> Insn.csr (fetched32 (enc_I op f3 rd rs1 imm)) = imm.
Proof.
  clear rs2 Hrs2 Hlow. intros H. unfold Insn.csr. rewrite x_fetched32 by lia. unfold enc_I, fits in *.
  Z.div_mod_to_equations; lia.
Qed.
End Decodes.

Section Instructions.
Variables r s csr : Z.
Hypothesis Hr : fits 5 r.
Hypothesis Hs : fits 5 s.
Hypothesis Hc : fits 12 csr.

#[local] Ltac fit := unfold fits in *; lia.
#[local] Ltac in_table := cbn [In program_table]; repeat (first [left; reflexivity | right]).
#[local] Notation data := debug_data_start.
#[local] Notation x0 := Asm.ZERO.

Lemma data_offset : fits 12 data /\ sfits 12 data.
Proof. now repeat split. Qed.
Lemma x0_fits : fits 5 x0.
Proof. now split. Qed.

#[local] Ltac loadi o f n lem :=
  pose proof x0_fits; destruct data_offset as [Do Ds]; rewrite lem by assumption;
  destruct (encodes_I o f r x0 data Hr x0_fits ltac:(fit) ltac:(fit) ltac:(split; [reflexivity|discriminate]) n ltac:(in_table)) as [F E];
  destruct (I_format o f r x0 data ltac:(fit) ltac:(fit) Hr x0_fits Ds) as (E1 & E2 & _ & E3);
  exact (conj F (conj E (conj E1 (conj E2 E3)))).
#[local] Ltac storei o f n lem :=
  pose proof x0_fits; destruct data_offset as [Do Ds]; rewrite lem by assumption;
  destruct (encodes_S o f x0 r data x0_fits Hr ltac:(fit) ltac:(fit) ltac:(split; [reflexivity|discriminate]) n ltac:(in_table)) as [F E];
  destruct (S_format o f x0 r data ltac:(fit) ltac:(fit) x0_fits Hr Ds) as (E1 & E2 & _ & E3);
  exact (conj F (conj E (conj E2 (conj E1 E3)))).

Lemma is_lw : decodes (Asm.lw r x0 data) (LOADI "lw" r data).
Proof. loadi 0x03 2 "lw"%string asm_lw. Qed.
Lemma is_ld : decodes (Asm.ld r x0 data) (LOADI "ld" r data).
Proof. loadi 0x03 3 "ld"%string asm_ld. Qed.
Lemma is_flw : decodes (Asm.flw r x0 data) (LOADI "flw" r data).
Proof. loadi 0x07 2 "flw"%string asm_flw. Qed.
Lemma is_fld : decodes (Asm.fld r x0 data) (LOADI "fld" r data).
Proof. loadi 0x07 3 "fld"%string asm_fld. Qed.
Lemma is_sw : decodes (Asm.sw r x0 data) (STOREI "sw" r data).
Proof. storei 0x23 2 "sw"%string asm_sw. Qed.
Lemma is_sd : decodes (Asm.sd r x0 data) (STOREI "sd" r data).
Proof. storei 0x23 3 "sd"%string asm_sd. Qed.
Lemma is_fsw : decodes (Asm.fsw r x0 data) (STOREI "fsw" r data).
Proof. storei 0x27 2 "fsw"%string asm_fsw. Qed.
Lemma is_fsd : decodes (Asm.fsd r x0 data) (STOREI "fsd" r data).
Proof. storei 0x27 3 "fsd"%string asm_fsd. Qed.

Lemma csr_decodes f3 rd rs1 n : fits 5 rd -> fits 5 rs1 -> fits 3 f3 -> In (n, (0x73 + f3 * 2 ^ 12, 0x707f)) program_table ->
  let w := enc_I 0x73 f3 rd rs1 csr in
  fits 32 w /\ encodes n (fetched32 w) /\ Insn.rd (fetched32 w) = rd /\ Insn.rs1 (fetched32 w) = rs1 /\ Insn.csr (fetched32 w) = csr.
Proof.
  intros H1 H2 H3 Ht w. assert (Hop : fits 7 0x73) by fit.
  destruct (encodes_I 0x73 f3 rd rs1 csr H1 H2 Hop H3 ltac:(split; [reflexivity|discriminate]) n Ht) as [F E].
  split; [exact F|]. split; [exact E|]. subst w.
  assert (W : enc_I 0x73 f3 rd rs1 csr = enc_I 0x73 f3 rd rs1 (sw 12 csr)).
  { unfold enc_I. f_equal. f_equal. symmetry. apply (uw_sw 12). lia. }
  destruct (I_format 0x73 f3 rd rs1 (sw 12 csr) Hop H3 H1 H2 (sw_fits 12 csr ltac:(lia))) as (E1 & E2 & _).
  rewrite <- W in E1, E2. split; [exact E1|split; [exact E2|]]. apply (I_csr 0x73 f3 rd rs1); assumption.
Qed.

Lemma is_csrw : decodes (Asm.csrw s csr) (CSRRW 0 s csr).
Proof. rewrite asm_csrw by assumption. apply csr_decodes; [fit|assumption|fit|in_table]. Qed.
Lemma is_csrr : decodes (Asm.csrr r csr) (CSRRS r 0 csr).
Proof. rewrite asm_csrr by assumption. apply csr_decodes; [assumption|fit|fit|in_table]. Qed.
Lemma is_csrrs : decodes (Asm.csrrs r s csr) (CSRRS r s csr).
Proof. rewrite asm_csrrs by assumption. apply csr_decodes; [assumption|assumption|fit|in_table]. Qed.

End Instructions.

(** The constant instructions: [lui] with the FS field, jumps inside the
    program area, [ebreak]. *)
Lemma is_lui : decodes (Asm.lui Asm.S0 (MSTATUS_FS >>w 12)) (LUI Asm.S0 MSTATUS_FS).
Proof.
  split; [now split|]. split; [|split; reflexivity].
  apply (encodes_word _ _ 0x37 0x7f); try reflexivity; try discriminate;
    [cbn [In program_table]; repeat (first [left; reflexivity | right])|now split].
Qed.

Lemma is_ebreak : decodes Asm.ebreak EBREAK.
Proof.
  split; [now split|].
  apply (encodes_word _ _ 0x100073 0xffffffff); try reflexivity; try discriminate;
    [cbn [In program_table]; repeat (first [left; reflexivity | right])|now split].
Qed.

Lemma is_jal n : (n < 12)%nat -> decodes (Asm.jal Asm.ZERO (48 - 4 * Z.of_nat n)) (JAL (48 - 4 * Z.of_nat n)).
Proof.
  intros H. do 12 (destruct n as [|n]; [
    split; [now split|]; split; [|split; reflexivity];
    apply (encodes_word _ _ 0x6f 0x7f); try reflexivity; try discriminate;
      [cbn [In program_table]; repeat (first [left; reflexivity | right])|now split]|]). lia.
Qed.

(** ** Words of an array *)

Lemma lookup_copy_in (a : list Z) off bs k : 0 <= off -> off + Z.of_nat (length bs) <= Z.of_nat (length a) ->
  copy_in a off bs !! k =
  if decide (Z.to_nat off <= k < Z.to_nat off + length bs)%nat then bs !! (k - Z.to_nat off)%nat else a !! k.
Proof.
  intros H1 H2. unfold copy_in. change (@firstn Z) with (@take Z). change (@skipn Z) with (@drop Z).
  assert (L : length (take (Z.to_nat off) a) = Z.to_nat off) by (rewrite length_take; lia).
  destruct (decide _) as [D|D].
  - rewrite lookup_app_r, lookup_app_l by (rewrite ?L; lia). now rewrite L.
  - destruct (decide (k < Z.to_nat off)%nat) as [K|K].
    + rewrite lookup_app_l by lia. now apply lookup_take_lt.
    + rewrite lookup_app_r by lia. rewrite lookup_app_r by lia. rewrite L, lookup_drop. f_equal. lia.
Qed.

Lemma lookup_copy_out (a : list Z) off n k : copy_out a off n !! k =
  if decide (k < n)%nat then a !! (Z.to_nat off + k)%nat else None.
Proof.
  unfold copy_out. change (@firstn Z) with (@take Z). change (@skipn Z) with (@drop Z).
  destruct (decide _) as [D|D].
  - rewrite lookup_take_lt by lia. apply lookup_drop.
  - now apply lookup_take_ge; lia.
Qed.

Lemma write32_reads a i v a' : write32 a i v = Some a' ->
  length a' = length a /\ read32 a' i = Some (u32 v) /\
  (forall j w, j <> i -> read32 a j = Some w -> read32 a' j = Some w).
Proof.
  unfold write32, array_in. pose proof (le_bytes_length 4 v) as LB. pose proof (le_value_bytes 4 v) as VB.
  generalize dependent (le_bytes 4 v). intros bs LB VB. rewrite LB.
  destruct (in_array a (i * 4) (Z.of_nat 4)) eqn:E; [|discriminate]. intros [= <-].
  pose proof E as E'. apply in_array_spec in E'.
  assert (L : length (copy_in a (i * 4) bs) = length a) by (apply copied_length; now rewrite LB).
  split; [exact L|]. unfold read32, array_out.
  assert (EQ : forall j n, in_array (copy_in a (i * 4) bs) j n = in_array a j n)
    by (intros; unfold in_array; now rewrite L).
  split.
  - rewrite EQ, E. cbn [mbind option_bind].
    rewrite (list_eq (copy_out (copy_in a (i * 4) bs) (i * 4) 4) bs); [now rewrite VB|].
    intros k. rewrite lookup_copy_out. destruct (decide _) as [D|D].
    + rewrite lookup_copy_in, LB by (rewrite ?LB; lia). rewrite decide_True by lia. f_equal. lia.
    + symmetry. apply lookup_ge_None_2. lia.
  - intros j w N. rewrite EQ. destruct (in_array a (j * 4) (Z.of_nat 4)) eqn:Ej; [|discriminate].
    apply in_array_spec in Ej. cbn [mbind option_bind]. intros [= <-]. do 2 f_equal.
    apply list_eq. intros k. rewrite !lookup_copy_out. destruct (decide _) as [D|D]; [|reflexivity].
    rewrite lookup_copy_in, LB by (rewrite ?LB; lia). rewrite decide_False; [reflexivity|]. lia.
Qed.

(** ** Building a program *)

Section Build.
Context {S R : Type} `{!SimIf S, !Platform S}.
#[local] Notation DM := (DM S R).
#[local] Notation dm_machine := (dm_machine S R).
Implicit Types (x y : dm_machine) (p : list rv).
#[local] Open Scope dm_scope.

Definition with_abstract (a : list Z) x : dm_machine := x <| dm ::= fun d => d <| debug_abstract := a |> |>.

(** The words of an array decode to the instructions of a program. *)
Definition holds_program (a : list Z) p : Prop :=
  forall i ins, p !! i = Some ins -> exists w, read32 a (Z.of_nat i) = Some w /\ decodes w ins.

(** [x] is [x0] with the program [p] at the start of [debug_abstract]. *)
Definition written x0 p x : Prop :=
  exists a, length a = 48%nat /\ holds_program a p /\ x = with_abstract a x0.

Definition len p : Z := Z.of_nat (length p).

Definition builds {A} x0 p (m : DM A) (r : A) p' : Prop := forall x, written x0 p x ->
  exists y, m x = (inr r, y) /\ written x0 p' y.

Lemma written_start x : length (debug_abstract (dm x)) = 48%nat -> written x [] x.
Proof.
  intros L. exists (debug_abstract (dm x)). split; [exact L|]. split; [intros i ins H; now rewrite lookup_nil in H|].
  destruct x as [[] ? ? ? ?]. reflexivity.
Qed.

Lemma builds_ret {A} x0 p (a : A) : builds x0 p (dret a) a p.
Proof. intros x H. exists x. now split. Qed.

Lemma builds_bind {A B} x0 p p' p'' (m : DM A) (k : A -> DM B) a b :
  builds x0 p m a p' -> builds x0 p' (k a) b p'' -> builds x0 p (dbind m k) b p''.
Proof.
  intros Hm Hk x Hx. destruct (Hm x Hx) as (y & E & Hy). destruct (Hk y Hy) as (z & E' & Hz).
  exists z. unfold dbind. rewrite E. now split.
Qed.

Lemma builds_emit x0 p w ins : len p < 12 -> decodes w ins -> builds x0 p (emit (len p) w) (len (p ++ [ins])) (p ++ [ins]).
Proof.
  intros Hl D x (a & L & H & ->). unfold emit, dbind, dgets, id_.
  change (debug_abstract (dm (with_abstract a x0))) with a. unfold len in *.
  destruct (write32_ok a (Z.of_nat (length p)) w) as (a' & E & L'); [lia..|]. rewrite E. cbn [dopt dret].
  destruct (write32_reads _ _ _ _ E) as (_ & R1 & R2).
  exists (with_abstract a' x0). split.
  - rewrite length_app. cbn [length]. rewrite Nat2Z.inj_add. reflexivity.
  - exists a'. split; [now rewrite L'|]. split; [|reflexivity]. intros i jns Hi.
    apply lookup_app_Some in Hi as [Hi|[Hi Hi']].
    + destruct (H i jns Hi) as (v & Ev & Dv). exists v. split; [|exact Dv]. apply R2; [|exact Ev].
      apply lookup_lt_Some in Hi. lia.
    + destruct (i - length p)%nat as [|k] eqn:Ek; [|discriminate]. injection Hi' as <-.
      replace (Z.of_nat i) with (Z.of_nat (length p)) by lia. exists (u32 w). split; [exact R1|].
      destruct D as [F D]. rewrite uw_small by assumption. now split.
Qed.

(** One more word, then the rest. *)
Lemma builds_emit_bind {A} x0 p p' w ins (k : Z -> DM A) r : len p < 12 -> decodes w ins ->
  builds x0 (p ++ [ins]) (k (len (p ++ [ins]))) r p' -> builds x0 p (dbind (emit (len p) w) k) r p'.
Proof. intros H D K. eapply builds_bind; [exact (builds_emit x0 p w ins H D)|exact K]. Qed.

(** ** The program of a command *)

Definition data := debug_data_start.

(** "[switch (size)]": the 32-bit and the 64-bit access. *)
Definition sized (size : Z) (word double : rv) : option rv :=
  if size =? 2 then Some word else if size =? 3 then Some double else None.

Definition csr_program (size : Z) (write : bool) (regno : Z) : option (list rv) :=
  access ← sized size (if write then LOADI "lw" Asm.S0 data else STOREI "sw" Asm.S0 data)
                      (if write then LOADI "ld" Asm.S0 data else STOREI "sd" Asm.S0 data);
  let body := if write then [access; CSRRW 0 Asm.S0 regno] else [CSRRS Asm.S0 0 regno; access] in
  Some (if is_fpu_reg regno then body
        else [CSRRW 0 Asm.S0 CSR_DSCRATCH0] ++ body ++ [CSRRS Asm.S0 0 CSR_DSCRATCH0]).

(** The access to a register; [None] where there is no program for it. *)
Definition register_program (c : debug_module_config_t) (size : Z) (write : bool) (regno : Z) : option (list rv) :=
  if (regno <? 0x1000) && support_abstract_csr_access c then csr_program size write regno
  else if (0x1000 <=? regno) && (regno <? 0x1020) then
    let r := regno - 0x1000 in
    i ← (if write then sized size (LOADI "lw" r data) (LOADI "ld" r data)
         else sized size (STOREI "sw" r data) (STOREI "sd" r data)); Some [i]
  else if (0x1020 <=? regno) && (regno <? 0x1040) then
    let r := regno - 0x1020 in
    i ← (if write then sized size (LOADI "flw" r data) (LOADI "fld" r data)
         else sized size (STOREI "fsw" r data) (STOREI "fsd" r data)); Some [i]
  else None.

(** Floating-point state is accessed with FS set: [s0] and [mstatus] are saved and restored. *)
Definition save_fs : list rv :=
  [CSRRW 0 Asm.S0 CSR_DSCRATCH0; CSRRS Asm.S0 0 CSR_MSTATUS; CSRRW 0 Asm.S0 CSR_DSCRATCH1;
   LUI Asm.S0 MSTATUS_FS; CSRRS 0 Asm.S0 CSR_MSTATUS].
Definition restore_fs : list rv :=
  [CSRRS Asm.S0 0 CSR_DSCRATCH1; CSRRW 0 Asm.S0 CSR_MSTATUS; CSRRS Asm.S0 0 CSR_DSCRATCH0].

Definition transfer_program (c : debug_module_config_t) (size : Z) (write : bool) (regno : Z) : option (list rv) :=
  p ← register_program c size write regno;
  Some (if is_fpu_reg regno then save_fs ++ p ++ restore_fs else p).

(** After the access the program ends, or goes on with the program buffer,
    which follows the twelve words of [debug_abstract]. *)
Definition command_program (c : debug_module_config_t) (command : Z) : option (list rv) :=
  p ← (if z2b (get_field command AC_ACCESS_REGISTER_TRANSFER) then
         transfer_program c (get_field command AC_ACCESS_REGISTER_AARSIZE)
           (z2b (get_field command AC_ACCESS_REGISTER_WRITE)) (get_field command AC_ACCESS_REGISTER_REGNO)
       else Some []);
  Some (p ++ [if z2b (get_field command AC_ACCESS_REGISTER_POSTEXEC) then JAL (48 - 4 * len p) else EBREAK]).

(** ** The code builds the program *)

Section Commands.
Variable x0 : dm_machine.
Hypothesis no_error : cmderr (abstractcs (dm x0)) = CMDERR_NONE.

(** The command is refused, with some of its words already written. *)
Definition refused x : Prop := exists a, length a = 48%nat /\
  x = (with_abstract a x0) <| dm ::= fun d => d <| abstractcs ::= fun s => s <| cmderr := CMDERR_NOTSUP |> |> |>.

(** [m] appends the words of [r], or refuses. *)
Definition yields p (m : DM (option Z)) (r : option (list rv)) : Prop := forall x, written x0 p x ->
  match r with
  | Some q => exists y, m x = (inr (Some (len (p ++ q))), y) /\ written x0 (p ++ q) y
  | None => exists y, m x = (inr None, y) /\ refused y
  end.

Lemma yields_notsup p : yields p notsup None.
Proof.
  intros x (a & L & _ & ->). eexists. split; [reflexivity|]. exists a. split; [exact L|reflexivity].
Qed.

Lemma yields_sized p size w32 w64 i32 i64 : len p < 12 -> decodes w32 i32 -> decodes w64 i64 ->
  yields p (emit_sized size (len p) w32 w64) (i ← sized size i32 i64; Some [i]).
Proof.
  intros H D1 D2. unfold emit_sized, sized.
  destruct (size =? 2); [|destruct (size =? 3)]; cbn [mbind option_bind]; [..|apply yields_notsup];
    intros x Hx.
  - destruct (builds_emit x0 p w32 i32 H D1 x Hx) as (y & E & Hy). exists y. unfold dbind. now rewrite E.
  - destruct (builds_emit x0 p w64 i64 H D2 x Hx) as (y & E & Hy). exists y. unfold dbind. now rewrite E.
Qed.

(** A chain of words that ends in a refusal. *)
Definition refuses p (m : DM (option Z)) : Prop := forall x, written x0 p x -> exists y, m x = (inr None, y) /\ refused y.

Lemma refuses_emit_bind p w ins (k : Z -> DM (option Z)) : len p < 12 -> decodes w ins ->
  refuses (p ++ [ins]) (k (len (p ++ [ins]))) -> refuses p (dbind (emit (len p) w) k).
Proof.
  intros H D K x Hx. destruct (builds_emit x0 p w ins H D x Hx) as (y & E & Hy).
  destruct (K y Hy) as (z & E' & Hz). exists z. unfold dbind. rewrite E. now split.
Qed.

Lemma refuses_notsup p : refuses p notsup.
Proof. exact (yields_notsup p). Qed.

Lemma refuses_bind p (m : DM (option Z)) (k : option Z -> DM (option Z)) :
  refuses p m -> k None = dret None -> refuses p (dbind m k).
Proof.
  intros H K x Hx. destruct (H x Hx) as (y & E & Hy). exists y. unfold dbind. rewrite E, K. now split.
Qed.

Lemma refuses_ret_bind {A} p (a : A) (k : A -> DM (option Z)) : refuses p (k a) -> refuses p (dbind (dret a) k).
Proof. exact (fun H => H). Qed.

Lemma builds_as {A} p (m : DM A) r r' q q' : builds x0 p m r q -> r = r' -> q = q' -> builds x0 p m r' q'.
Proof. now intros H <- <-. Qed.

Lemma yields_some p m q : builds x0 p m (Some (len (p ++ q))) (p ++ q) -> yields p m (Some q).
Proof. exact (fun H => H). Qed.
Lemma yields_none p m : refuses p m -> yields p m None.
Proof. exact (fun H => H). Qed.

#[local] Ltac small := unfold len; cbn [length app save_fs]; lia.
#[local] Ltac fit5 := now split.
#[local] Ltac word :=
  lazymatch goal with
  | |- decodes (Asm.csrw _ _) _ => apply is_csrw; first [assumption | fit5]
  | |- decodes (Asm.csrr _ _) _ => apply is_csrr; first [assumption | fit5]
  | |- decodes (Asm.csrrs _ _ _) _ => apply is_csrrs; first [assumption | fit5]
  | |- decodes (Asm.lui _ _) _ => exact is_lui
  | |- decodes (Asm.lw _ _ _) _ => apply is_lw; first [assumption | fit5]
  | |- decodes (Asm.ld _ _ _) _ => apply is_ld; first [assumption | fit5]
  | |- decodes (Asm.sw _ _ _) _ => apply is_sw; first [assumption | fit5]
  | |- decodes (Asm.sd _ _ _) _ => apply is_sd; first [assumption | fit5]
  | |- decodes (Asm.flw _ _ _) _ => apply is_flw; first [assumption | fit5]
  | |- decodes (Asm.fld _ _ _) _ => apply is_fld; first [assumption | fit5]
  | |- decodes (Asm.fsw _ _ _) _ => apply is_fsw; first [assumption | fit5]
  | |- decodes (Asm.fsd _ _ _) _ => apply is_fsd; first [assumption | fit5]
  end.
(** Walk through a chain of words. *)
#[local] Ltac chain :=
  lazymatch goal with
  | |- builds _ _ (dbind (emit _ _) _) _ _ => eapply builds_emit_bind; [small|word|]; cbv beta iota; chain
  | |- builds _ _ (dbind _ _) _ _ => eapply builds_bind; [chain|cbv beta iota; chain]
  | |- builds _ _ (emit _ _) _ _ => apply builds_emit; [small|word]
  | |- builds _ _ (dret _) _ _ => apply builds_ret
  | |- refuses _ (dbind (emit _ _) _) => eapply refuses_emit_bind; [small|word|]; cbv beta iota; chain
  | |- refuses _ (dbind notsup _) => apply refuses_bind; [apply refuses_notsup|reflexivity]
  | |- refuses _ (dbind (dret _) _) => apply refuses_ret_bind; cbv beta iota; chain
  | |- refuses _ (dbind _ _) => apply refuses_bind; [chain|reflexivity]
  | |- refuses _ notsup => apply refuses_notsup
  end.
#[local] Ltac built := eapply builds_as; [chain|reflexivity|reflexivity].

Definition start (f : bool) : list rv := if f then save_fs else [].

Lemma yields_csr size write regno : fits 12 regno ->
  yields (start (is_fpu_reg regno)) (transfer_csr size write regno (len (start (is_fpu_reg regno))))
    (csr_program size write regno).
Proof.
  intros F. unfold csr_program, transfer_csr, emit_sized, sized.
  destruct (is_fpu_reg regno); cbn [start negb];
    destruct write; (destruct (size =? 2); [|destruct (size =? 3)]); cbn [mbind option_bind].
  all: first [apply yields_some; built | apply yields_none; chain].
Qed.

(** Registers that are not control and status registers: one word. *)
Lemma yields_one f size w32 w64 i32 i64 : decodes w32 i32 -> decodes w64 i64 ->
  yields (start f) (emit_sized size (len (start f)) w32 w64) (i ← sized size i32 i64; Some [i]).
Proof. intros D1 D2. apply yields_sized; [destruct f; reflexivity|exact D1|exact D2]. Qed.

Definition custom (regno : Z) : bool := (0xc000 <=? regno) && (regno &w 1 =? 1).

Lemma gpr_fits k n : (k <=? n) && (n <? k + 32) = true -> fits 5 (n - k).
Proof. intros [H1%Z.leb_le H2%Z.ltb_lt]%andb_true_iff. unfold fits. change (2 ^ 5) with 32. lia. Qed.

Lemma yields_register size write regno : 0 <= regno -> custom regno = false ->
  yields (start (is_fpu_reg regno))
    (if (regno <? 0x1000) && support_abstract_csr_access (config (dm x0)) then
       transfer_csr size write regno (len (start (is_fpu_reg regno)))
     else if (0x1000 <=? regno) && (regno <? 0x1020) then
       let regnum := regno - 0x1000 in
       if write then emit_sized size (len (start (is_fpu_reg regno))) (Asm.lw regnum Asm.ZERO data) (Asm.ld regnum Asm.ZERO data)
       else emit_sized size (len (start (is_fpu_reg regno))) (Asm.sw regnum Asm.ZERO data) (Asm.sd regnum Asm.ZERO data)
     else if (0x1020 <=? regno) && (regno <? 0x1040) then
       let fprnum := regno - 0x1020 in
       if write then emit_sized size (len (start (is_fpu_reg regno))) (Asm.flw fprnum Asm.ZERO data) (Asm.fld fprnum Asm.ZERO data)
       else emit_sized size (len (start (is_fpu_reg regno))) (Asm.fsw fprnum Asm.ZERO data) (Asm.fsd fprnum Asm.ZERO data)
     else if (0xc000 <=? regno) && (regno &w 1 =? 1) then transfer_custom write regno
     else notsup)
    (register_program (config (dm x0)) size write regno).
Proof.
  intros Hr C. unfold register_program. fold (custom regno). rewrite C.
  destruct ((regno <? 0x1000) && _) eqn:E1; [apply yields_csr; unfold fits; lia|].
  destruct ((0x1000 <=? regno) && (regno <? 0x1020)) eqn:E2.
  { pose proof (gpr_fits 0x1000 regno E2). destruct write; apply yields_one; word. }
  destruct ((0x1020 <=? regno) && (regno <? 0x1040)) eqn:E3; [|apply yields_notsup].
  pose proof (gpr_fits 0x1020 regno E3). destruct write; apply yields_one; word.
Qed.

Lemma len_app p q : len (p ++ q) = len p + len q.
Proof. unfold len. rewrite length_app. lia. Qed.

Lemma register_length c size write regno q : register_program c size write regno = Some q ->
  len q <= if is_fpu_reg regno then 2 else 4.
Proof.
  unfold register_program, csr_program, sized.
  destruct ((regno <? 0x1000) && _); [|destruct ((0x1000 <=? regno) && _); [|destruct ((0x1020 <=? regno) && _); [|discriminate]]];
    destruct write, (size =? 2), (size =? 3), (is_fpu_reg regno); cbn [mbind option_bind]; intros [= <-]; vm_compute; congruence.
Qed.

Lemma builds_restore (f : bool) (q : list rv) : (if f then len q <= 2 else True) ->
  let p := start f ++ q in
  let p' := if f then save_fs ++ q ++ restore_fs else q in
  builds x0 p (i <- (if f then
      i <- emit (len p) (Asm.csrr Asm.S0 CSR_DSCRATCH1) ;;
      i <- emit i (Asm.csrw Asm.S0 CSR_MSTATUS) ;;
      emit i (Asm.csrr Asm.S0 CSR_DSCRATCH0)
    else dret (len p)) ;; dret (Some i)) (Some (len p')) p'.
Proof.
  intros H. destruct f; cbn zeta; [|exact (builds_ret x0 q (Some (len q)))].
  assert (B : len (save_fs ++ q) <= 7) by (rewrite len_app; change (len save_fs) with 5; lia).
  assert (L : forall p i, len (p ++ [i]) = len p + 1) by (intros; now rewrite len_app).
  eapply builds_as.
  - eapply builds_bind.
    + eapply builds_emit_bind; [cbn [start]; lia|word|].
      eapply builds_emit_bind; [cbn [start]; rewrite L; lia|word|].
      apply builds_emit; [cbn [start]; rewrite !L; lia|word].
    + apply builds_ret.
  - f_equal. f_equal. cbn [start]. now rewrite <- !app_assoc.
  - cbn [start]. now rewrite <- !app_assoc.
Qed.

Lemma yields_transfer size write regno : 0 <= regno -> custom regno = false ->
  yields [] (transfer size write regno 0) (transfer_program (config (dm x0)) size write regno).
Proof.
  intros Hr C x Hx. unfold transfer_program. set (f := is_fpu_reg regno).
  assert (Hp : builds x0 [] (if f then
      i <- emit 0 (Asm.csrw Asm.S0 CSR_DSCRATCH0) ;;
      i <- emit i (Asm.csrr Asm.S0 CSR_MSTATUS) ;;
      i <- emit i (Asm.csrw Asm.S0 CSR_DSCRATCH1) ;;
      i <- emit i (Asm.lui Asm.S0 (MSTATUS_FS >>w 12)) ;;
      emit i (Asm.csrrs Asm.ZERO Asm.S0 CSR_MSTATUS)
    else dret 0) (len (start f)) (start f)).
  { destruct f; [|apply builds_ret]. change (emit 0) with (emit (S:=S) (R:=R) (len [])). built. }
  destruct (Hp x Hx) as (y & Ey & Hy).
  pose proof (yields_register size write regno Hr C y Hy) as K. fold f in K.
  assert (Ec : config (dm x) = config (dm x0)) by (destruct Hx as (a & _ & _ & ->); reflexivity).
  remember (transfer size write regno 0 x) as t eqn:T. unfold transfer in T. fold f in T.
  unfold dbind at 1, dgets, id_ in T. cbv zeta in T. rewrite Ec in T.
  unfold dbind at 1 in T. rewrite Ey in T. unfold dbind at 1 in T.
  unfold data in K. rewrite T. clear t T.
  destruct (register_program (config (dm x0)) size write regno) as [q|] eqn:E; cbn [mbind option_bind];
    destruct K as (z & -> & Hz); [|now exists z].
  apply (builds_restore f q); [|exact Hz].
  pose proof (register_length _ _ _ _ _ E) as L. fold f in L. destruct f; [exact L|exact Logic.I].
Qed.

End Commands.

(** ** The command is launched *)

(** The hart that fetches word [i] of [debug_abstract] gets the instruction. *)
Definition fetches y (i : nat) (ins : rv) : Prop := exists b,
  load (debug_abstract_start (dm y) + 4 * Z.of_nat i) 4 y = (inr (Some b), y) /\ decodes (le_value b) ins.

(** The hart is to run [p], and nothing else it can see has changed. *)
Definition runs p x y : Prop :=
  (forall i ins, p !! i = Some ins -> fetches y i ins) /\
  array_alter (fun f => f |w FLAG_GO) (debug_rom_flags (dm x)) (hartsel (dmcontrol (dm x))) = Some (debug_rom_flags (dm y)) /\
  busy (abstractcs (dm y)) = true /\ cmderr (abstractcs (dm y)) = CMDERR_NONE /\
  rti_remaining (dm y) = abstract_rti (config (dm x)) /\ abstract_command_completed (dm y) = false /\
  dmdata (dm y) = dmdata (dm x) /\ program_buffer (dm y) = program_buffer (dm x) /\
  hart_state (dm y) = hart_state (dm x) /\ procs y = procs x /\ platform y = platform x.

(** The command is refused: it is not started and the error is recorded. *)
Definition not_supported x y : Prop :=
  cmderr (abstractcs (dm y)) = CMDERR_NOTSUP /\ busy (abstractcs (dm y)) = false /\
  debug_rom_flags (dm y) = debug_rom_flags (dm x) /\
  dmdata (dm y) = dmdata (dm x) /\ program_buffer (dm y) = program_buffer (dm x) /\
  hart_state (dm y) = hart_state (dm x) /\ procs y = procs x /\ platform y = platform x.

(** A command that transfers a custom register. *)
Definition names_custom (command : Z) : bool :=
  z2b (get_field command AC_ACCESS_REGISTER_TRANSFER) && custom (get_field command AC_ACCESS_REGISTER_REGNO).

(** Its whole effect: data register 0 and [custom_base]. *)
Definition custom_access x y : Prop :=
  let n := get_field (command (dm x)) AC_ACCESS_REGISTER_REGNO - 0xc000 in
  (if z2b (get_field (command (dm x)) AC_ACCESS_REGISTER_WRITE) then
     exists v, read32 (dmdata (dm x)) 0 = Some v /\ custom_base (dm y) = u32 (v - n) /\ dmdata (dm y) = dmdata (dm x)
   else read32 (dmdata (dm y)) 0 = Some (u32 (n + custom_base (dm x))) /\ read32 (dmdata (dm y)) 1 = Some 0 /\
     custom_base (dm y) = custom_base (dm x)) /\
  cmderr (abstractcs (dm y)) = CMDERR_NONE /\ busy (abstractcs (dm y)) = false /\
  debug_rom_flags (dm y) = debug_rom_flags (dm x) /\ debug_abstract (dm y) = debug_abstract (dm x) /\
  program_buffer (dm y) = program_buffer (dm x) /\ hart_state (dm y) = hart_state (dm x) /\
  procs y = procs x /\ platform y = platform x.

Lemma custom_written n x v : read32 (dmdata (dm x)) 0 = Some v ->
  transfer_custom true n x = (inr None, x <| dm ::= fun d => d <| abstractcs ::= fun a => a <| cmderr := CMDERR_NONE |> |> |>
    <| dm ::= fun d => d <| custom_base := u32 (v - (n - 0xc000)) |> |>).
Proof.
  intros E. unfold transfer_custom, dbind, report, dmodify, dgets, id_. cbv beta iota zeta.
  change (read32 _ 0) with (read32 (dmdata (dm x)) 0). now rewrite E.
Qed.

Lemma custom_read n x a1 a2 : write32 (dmdata (dm x)) 0 (u32 (n - 0xc000 + custom_base (dm x))) = Some a1 ->
  write32 a1 1 0 = Some a2 ->
  transfer_custom false n x = (inr None, x <| dm ::= fun d => d <| abstractcs ::= fun a => a <| cmderr := CMDERR_NONE |> |> |>
    <| dm ::= fun d => d <| dmdata := a2 |> |>).
Proof.
  intros E1 E2. unfold transfer_custom, dbind, report, dmodify, dgets, id_. cbv beta iota zeta.
  change (write32 _ 0 _) with (write32 (dmdata (dm x)) 0 (u32 (n - 0xc000 + custom_base (dm x)))).
  rewrite E1. unfold dret. cbn [dopt dret]. unfold dopt, dret. rewrite E2. reflexivity.
Qed.

Lemma transfer_is_custom size write regno x : custom regno = true ->
  transfer size write regno 0 x = transfer_custom write regno x.
Proof.
  intros C. pose proof C as [Hr _]%andb_true_iff. apply Z.leb_le in Hr.
  assert (F : is_fpu_reg regno = false).
  { unfold is_fpu_reg. change CSR_FFLAGS with 1. change CSR_FRM with 2. change CSR_FCSR with 3. lia. }
  unfold transfer. rewrite F. unfold dbind at 1, dgets, id_. cbv zeta. unfold dbind at 1. cbn [dret].
  rewrite (proj2 (Z.ltb_ge regno 0x1000)), (proj2 (Z.ltb_ge regno 0x1020)), (proj2 (Z.ltb_ge regno 0x1040)) by lia.
  fold (custom regno). rewrite C, !andb_false_r. cbn [andb].
  assert (N : forall y r, (transfer_custom write regno y).1 = inr r -> r = None).
  { intros y r. unfold transfer_custom, dbind, report, dmodify, dgets, id_, dopt, dfail, dret.
    destruct write; repeat match goal with |- context [match ?o with Some _ => _ | None => _ end] => destruct o end; cbn; congruence. }
  unfold dbind. specialize (N x). destruct (transfer_custom write regno x) as [[e|r] y]; [reflexivity|].
  now rewrite (N r eq_refl).
Qed.

Lemma transfer_length c size write regno q : transfer_program c size write regno = Some q -> len q <= 10.
Proof.
  unfold transfer_program. destruct (register_program c size write regno) as [r|] eqn:E; [|discriminate].
  cbn [mbind option_bind]. intros <-%(inj Some). pose proof (register_length _ _ _ _ _ E) as L.
  destruct (is_fpu_reg regno); [|lia]. rewrite !len_app. change (len save_fs) with 5. change (len restore_fs) with 3. lia.
Qed.

Lemma regno_nonneg v : 0 <= get_field v AC_ACCESS_REGISTER_REGNO.
Proof.
  unfold get_field. change (field_lsb AC_ACCESS_REGISTER_REGNO) with 1. rewrite Z.div_1_r.
  apply Z.land_nonneg. right. discriminate.
Qed.

Section Perform.
Variable c : debug_module_config_t.
Variable N : Z.
Variable x : dm_machine.
Hypothesis N_ok : 1 <= N <= 1024.
Hypothesis size_ok : 0 <= progbufsize c <= 16.
Hypothesis D : dm_ok c N (dm x).
#[local] Notation sel := (hartsel (dmcontrol (dm x))).

Lemma abstract_layout : debug_abstract_start (dm x) = debug_data_start - buffer_bytes c - 48 /\
  debug_progbuf_start (dm x) = debug_data_start - buffer_bytes c /\ 0 <= buffer_bytes c <= 68.
Proof.
  rewrite (ok_abstract_start c N _ D), (ok_progbuf_start c N _ D).
  assert (B : 0 <= buffer_bytes c <= 68) by (unfold buffer_bytes; destruct (support_impebreak c); lia).
  unfold debug_data_start, debug_abstract_size.
  rewrite (uw_small 32 (0x380 - buffer_bytes c)) by (unfold fits; lia). rewrite uw_small by (unfold fits; lia). lia.
Qed.

(** A word of the program is what a load in its window returns. *)
Lemma word_fetched y i ins : config (dm y) = config (dm x) -> debug_abstract_start (dm y) = debug_abstract_start (dm x) ->
  (i < 12)%nat -> length (debug_abstract (dm y)) = 48%nat ->
  (exists w, read32 (debug_abstract (dm y)) (Z.of_nat i) = Some w /\ decodes w ins) -> fetches y i ins.
Proof.
  intros Ec Ea Hi L (w & Ew & Dw). destruct abstract_layout as (E1 & E2 & B).
  unfold debug_data_start in E1. unfold fetches. rewrite Ea, E1.
  set (k := Z.of_nat i) in *. set (ad := 0x380 - buffer_bytes c - 48 + 4 * k).
  assert (W : DEBUG_START +w ad = ad) by (apply uw_small; subst ad; unfold fits, DEBUG_START; lia).
  assert (W4 : ad +w 4 = ad + 4) by (apply uw_small; subst ad; unfold fits; lia).
  unfold load, dbind at 1, dgets, id_. cbv zeta. rewrite W. unfold window. change (Z.of_nat 4) with 4. rewrite W4, Ea, E1.
  replace ((DEBUG_ROM_ENTRY <=? ad) && _) with false by (subst ad; unfold DEBUG_ROM_ENTRY; lia).
  replace ((DEBUG_ROM_WHERETO <=? ad) && _) with false by (subst ad; unfold DEBUG_ROM_WHERETO; lia).
  replace ((DEBUG_ROM_FLAGS <=? ad) && _) with false by (subst ad; unfold DEBUG_ROM_FLAGS; lia).
  replace ((0x380 - buffer_bytes c - 48 <=? ad) && _) with true by (subst ad; unfold debug_abstract_size; lia).
  cbv iota. replace (ad - (0x380 - buffer_bytes c - 48)) with (k * 4) by (subst ad; lia).
  unfold read32 in Ew. destruct (array_out (debug_abstract (dm y)) (k * 4) 4) as [b|]; [|discriminate].
  exists b. split; [reflexivity|]. injection Ew as ->. exact Dw.
Qed.

Lemma launch_runs p y : cmderr (abstractcs (dm x)) = CMDERR_NONE -> len p <= 10 -> written x p y ->
  let last := if z2b (get_field (command (dm x)) AC_ACCESS_REGISTER_POSTEXEC) then JAL (48 - 4 * len p) else EBREAK in
  exists z, launch (len p) y = (inr tt, z) /\ runs (p ++ [last]) x z.
Proof.
  intros Ee Hl Hy last. destruct abstract_layout as (E1 & E2 & B).
  assert (Lp : 0 <= len p) by (unfold len; lia).
  assert (Ed : decodes (if z2b (get_field (command (dm x)) AC_ACCESS_REGISTER_POSTEXEC)
                        then Asm.jal Asm.ZERO (u32 (debug_progbuf_start (dm x) - debug_abstract_start (dm x) - 4 * len p))
                        else Asm.ebreak) last).
  { subst last. destruct (z2b _); [|exact is_ebreak]. rewrite E1, E2.
    replace (_ - _ - _) with (48 - 4 * len p) by lia. rewrite uw_small by (unfold fits; lia).
    apply is_jal. unfold len in Hl. lia. }
  destruct (builds_emit x p _ _ ltac:(lia) Ed y Hy) as (z & Ez & (a & La & Ha & ->)).
  destruct Hy as (a0 & _ & _ & ->).
  destruct (array_alter_ok (fun f => f |w FLAG_GO) (debug_rom_flags (dm x)) sel) as (l & El & _).
  { rewrite (ok_flags c N _ D). apply (hart_number_flags N N_ok), (ok_hartsel c N _ D). }
  eexists. split.
  - unfold launch, dbind at 1, dgets, id_. unfold dbind at 1.
    change (debug_progbuf_start (dm (with_abstract a0 x))) with (debug_progbuf_start (dm x)).
    change (debug_abstract_start (dm (with_abstract a0 x))) with (debug_abstract_start (dm x)).
    change (command (dm (with_abstract a0 x))) with (command (dm x)).
    rewrite Ez. unfold flags_modify, dbind, dgets, id_.
    change (debug_rom_flags (dm (with_abstract a x))) with (debug_rom_flags (dm x)).
    change (hartsel (dmcontrol (dm (with_abstract a0 x)))) with sel. rewrite El. reflexivity.
  - repeat split; try reflexivity; [|exact El|exact Ee].
    intros i ins Hi. apply word_fetched; try reflexivity; [|exact La|exact (Ha i ins Hi)].
    apply lookup_lt_Some in Hi. rewrite length_app in Hi. cbn [length] in Hi. unfold len in Hl. lia.
Qed.

Lemma perform_command : cmderr (abstractcs (dm x)) = CMDERR_NONE -> busy (abstractcs (dm x)) = false ->
  command (dm x) >>w 24 = 0 ->
  (exists h, array_get (hart_state (dm x)) sel = Some h /\ halted h = true) ->
  z2b (get_field (command (dm x)) AC_ACCESS_REGISTER_TRANSFER) && custom (get_field (command (dm x)) AC_ACCESS_REGISTER_REGNO) = false ->
  exists y, perform_abstract_command x = (inr tt, y) /\
    match command_program c (command (dm x)) with Some p => runs p x y | None => not_supported x y end.
Proof.
  intros Ee Eb E0 (h & Eh & Hh) C. unfold perform_abstract_command, dbind at 1, dgets, id_.
  rewrite Ee, Eb, E0. change (0 =? CMDERR_NONE) with true. change (CMDERR_NONE =? CMDERR_NONE) with true. cbn [negb Z.eqb].
  unfold hart_at, dbind at 1, dbind at 1, dgets, id_. rewrite Eh. cbn [dopt dret]. rewrite Hh. cbn [negb].
  unfold command_program.
  assert (W : written x [] x) by (apply written_start, (ok_abstract c N _ D)).
  destruct (z2b (get_field _ AC_ACCESS_REGISTER_TRANSFER)) eqn:Et; cbn [andb] in C.
  - pose proof (yields_transfer x (get_field (command (dm x)) AC_ACCESS_REGISTER_AARSIZE)
      (z2b (get_field (command (dm x)) AC_ACCESS_REGISTER_WRITE)) (get_field (command (dm x)) AC_ACCESS_REGISTER_REGNO)
      (regno_nonneg _) C x W) as K.
    rewrite (ok_config c N _ D) in K. unfold dbind.
    destruct (transfer_program _ _ _ _) as [q|] eqn:Eq; cbn [mbind option_bind].
    + destruct K as (y & -> & Hy). apply (launch_runs q y Ee); [|exact Hy]. exact (transfer_length _ _ _ _ _ Eq).
    + destruct K as (y & -> & (a & La & ->)). eexists. split; [reflexivity|]. repeat split. exact Eb.
  - cbn [mbind option_bind]. exact (launch_runs [] x Ee ltac:(discriminate) W).
Qed.

Lemma perform_custom : cmderr (abstractcs (dm x)) = CMDERR_NONE -> busy (abstractcs (dm x)) = false ->
  command (dm x) >>w 24 = 0 ->
  (exists h, array_get (hart_state (dm x)) sel = Some h /\ halted h = true) -> names_custom (command (dm x)) = true ->
  exists y, perform_abstract_command x = (inr tt, y) /\ custom_access x y.
Proof.
  intros Ee Eb E0 (h & Eh & Hh) [T C]%andb_true_iff. unfold perform_abstract_command, dbind at 1, dgets, id_.
  rewrite Ee, Eb, E0. change (0 =? CMDERR_NONE) with true. change (CMDERR_NONE =? CMDERR_NONE) with true. cbn [negb Z.eqb].
  unfold hart_at, dbind at 1, dbind at 1, dgets, id_. rewrite Eh. cbn [dopt dret]. rewrite Hh. cbn [negb].
  unfold dbind at 1. rewrite T, (transfer_is_custom _ _ _ _ C).
  set (n := get_field (command (dm x)) AC_ACCESS_REGISTER_REGNO) in *.
  assert (L : length (dmdata (dm x)) = 8%nat) by exact (ok_dmdata c N _ D).
  unfold custom_access. fold n. cbv zeta. destruct (z2b (get_field (command (dm x)) AC_ACCESS_REGISTER_WRITE)).
  - destruct (read32 (dmdata (dm x)) 0) as [v|] eqn:Ev; [|rewrite read32_ok in Ev by lia; discriminate].
    rewrite (custom_written n x v Ev). eexists. split; [reflexivity|].
    repeat split; [exists v; now repeat split|exact Eb].
  - destruct (write32_ok (dmdata (dm x)) 0 (u32 (n - 0xc000 + custom_base (dm x)))) as (a1 & E1 & L1); [lia..|].
    destruct (write32_ok a1 1 0) as (a2 & E2 & L2); [lia..|].
    rewrite (custom_read n x a1 a2 E1 E2). eexists. split; [reflexivity|].
    destruct (write32_reads _ _ _ _ E1) as (_ & R1 & _). destruct (write32_reads _ _ _ _ E2) as (_ & R2 & K).
    repeat split; [|exact R2|exact Eb].
    change (read32 a2 0 = Some (u32 (n - 0xc000 + custom_base (dm x)))). apply K; [lia|]. now rewrite R1, uw_idem.
Qed.

End Perform.

End Build.
