(* ===== verification/DebugProps.v ===== *)
(** * DebugProps: the properties of the debug module

    Memory safety of every sequence of operations, what a busy command and a
    missing authentication protect, and the end of every command, each with an
    example on a machine of one hart. *)
From Stdlib Require Import ZArith Lia Bool List.
From stdpp Require Import base list gmap strings.
From S2P Require Import Prelude Arith Encoding Decode State Processor Pmp Mmu TrapEntry CsrFacts Sim DebugDefines DebugAsm DebugModule DebugFacts DebugFrame DebugLive DebugProgram.
#[local] Open Scope Z_scope.
#[local] Open Scope word_scope.
#[local] Open Scope record_scope.

(** ** Never outside an array, never an assertion *)

Section Lemmas.
Context {S R : Type} `{!SimIf S, !Platform S}.
Variable random : R -> Z * R.
#[local] Notation dm_machine := (dm_machine S R).

Lemma fresh_machine_runs c N seed d0 harts m (s : S) g ops :
  1 <= N <= 1024 -> max_bus_master_bits c < 8 -> 0 <= progbufsize c <= 32 ->
  0 <= hawindowsel d0 -> Z.of_nat (length harts) = N -> Forall (proc_ok N) harts -> Forall (op_in_range N) ops ->
  exists d y, debug_module_new N c seed d0 = Some d /\
    dm_runs random ops (mk_dm_machine d harts m s g) = (inr tt, y) /\ machine_safe c N y.
Proof.
  intros HN HB HS HW HL HP HO. destruct (new_ok c N HN HS seed d0 HW) as (d & E & D).
  exists d. pose proof (safe_runs random c N HN HB HS ops HO (mk_dm_machine d harts m s g) (conj D (conj HL HP))) as K.
  destruct (dm_runs random ops _) as [[e|[]] y]; [destruct K|]. exists y. now destruct K.
Qed.

(** ** What a busy command keeps from the debugger *)

Section Busy.
Variable c : debug_module_config_t.
Variable N : Z.
Variable x : dm_machine.
Hypothesis N_ok : 1 <= N <= 1024.
Hypothesis no_bus_master : max_bus_master_bits c < 8.
Hypothesis size_ok : 0 <= progbufsize c <= 16.
Hypothesis Hx : machine_safe c N x.
Hypothesis Hb : is_busy x = true.
Open Scope dm_scope.

(** The error a busy command reports, unless one is pending. *)
Definition reports_busy (e : Z) : Z := if e =? CMDERR_NONE then CMDERR_BUSY else e.
Definition error_of (y : dm_machine) : Z := cmderr (abstractcs (dm y)).

Definition data_address (a : Z) : Prop := DMI_DATA0 <= a < DMI_DATA0 + 2.
Definition progbuf_address (a : Z) : Prop := DMI_PROGBUF0 <= a < DMI_PROGBUF0 + progbufsize c.

Lemma busy_running : running x x.
Proof. repeat split; [exact Hb|]. destruct Hx as (D & _). now rewrite (ok_config c N _ D). Qed.

Lemma report_busy_result z : exists y, report_busy z = (inr tt, y) /\ error_of y = reports_busy (error_of z).
Proof.
  unfold error_of, reports_busy, report_busy.
  destruct (cmderr (abstractcs (dm z)) =? CMDERR_NONE); (eexists; split; [reflexivity|]); [now destruct z|reflexivity].
Qed.

Lemma data_dispatch a : data_address a -> is_data_register (dm x) a = true.
Proof. intros H. destruct Hx as (D & _). unfold is_data_register. rewrite (ok_datacount c N _ D). unfold data_address in H. lia. Qed.

Lemma progbuf_dispatch a : progbuf_address a -> is_data_register (dm x) a = false /\ is_progbuf_register (dm x) a = true.
Proof.
  intros H. destruct Hx as (D & _). unfold is_data_register, is_progbuf_register.
  rewrite (ok_datacount c N _ D), (ok_config c N _ D). unfold progbuf_address, DMI_PROGBUF0, DMI_DATA0 in *. lia.
Qed.

Lemma busy_reads a : exists r y, dmi_read a x = (inr r, y) /\ machine_safe c N y /\ running x y /\
  (data_address a -> r = Some all_ones32 /\ error_of y = reports_busy (error_of x)) /\
  (progbuf_address a -> r = Some all_ones32 /\ error_of y = error_of x).
Proof.
  pose proof (safe_dmi_read c N N_ok no_bus_master ltac:(lia) a x Hx) as Sf.
  pose proof (running_dmi_read x a x busy_running) as Rn.
  assert (D1 : data_address a -> exists y, dmi_read a x = (inr (Some all_ones32), y) /\ error_of y = reports_busy (error_of x)).
  { intros Ha. unfold dmi_read, dbind at 1, dgets, id_. rewrite (data_dispatch a Ha), busy_read_data by exact Hb.
    destruct Hx as (D & _). unfold data_address in Ha. rewrite read32_ok by (rewrite ?(ok_dmdata c N _ D); lia).
    destruct (report_busy_result x) as (y & E & Ey). exists y. unfold dbind at 1. cbn [dopt dret]. unfold dbind. now rewrite E. }
  assert (D2 : progbuf_address a -> dmi_read a x = (inr (Some all_ones32), x)).
  { intros Ha. unfold dmi_read, dbind at 1, dgets, id_. destruct (progbuf_dispatch a Ha) as [-> ->].
    rewrite busy_read_progbuf by exact Hb. destruct Hx as (D & _). unfold progbuf_address in Ha.
    destruct (progbuf_word c N (dm x) (a - DMI_PROGBUF0) D) as [P1 P2]; [lia|]. now rewrite read32_ok by lia. }
  destruct (dmi_read a x) as [[e|r] y]; [destruct Sf|]. destruct Sf as [Sy _]. exists r, y.
  split; [reflexivity|]. split; [exact Sy|]. split; [exact Rn|]. split.
  - intros Ha. destruct (D1 Ha) as (y' & [= -> ->] & Ey). now split.
  - intros Ha. specialize (D2 Ha). injection D2 as -> ->. now split.
Qed.

Lemma busy_writes a v : fits 32 v -> a <> DMI_DMCONTROL -> authenticated (dmstatus (dm x)) = true ->
  exists r y, dmi_write random a v x = (inr r, y) /\ machine_safe c N y /\ running x y /\
  (data_address a \/ a = DMI_COMMAND -> r = true /\ error_of y = reports_busy (error_of x)) /\
  (progbuf_address a -> r = true /\ y = x).
Proof.
  intros Hv NC Au.
  pose proof (safe_dmi_write random c N N_ok no_bus_master ltac:(lia) a v (proj1 Hv) x Hx) as Sf.
  pose proof (running_dmi_write random x a v NC x busy_running) as Rn.
  assert (D1 : data_address a -> exists y, dmi_write random a v x = (inr true, y) /\ error_of y = reports_busy (error_of x)).
  { intros Ha. unfold dmi_write, dbind at 1, dgets, id_. rewrite Au, (data_dispatch a Ha). cbn [negb andb].
    rewrite busy_write_data by exact Hb.
    destruct (report_busy_result x) as (y & E & Ey). exists y. unfold dbind. now rewrite E. }
  assert (D2 : progbuf_address a -> dmi_write random a v x = (inr true, x)).
  { intros Ha. unfold dmi_write, dbind at 1, dgets, id_. destruct (progbuf_dispatch a Ha) as [-> ->]. rewrite Au.
    exact (busy_write_progbuf _ v x Hb). }
  assert (D3 : a = DMI_COMMAND -> exists y, dmi_write random a v x = (inr true, y) /\ error_of y = reports_busy (error_of x)).
  { intros ->. destruct (Hx) as (D & _). unfold dmi_write, dbind at 1, dgets, id_. rewrite Au.
    unfold is_data_register, is_progbuf_register. rewrite (ok_datacount c N _ D), (ok_config c N _ D).
    replace ((DMI_PROGBUF0 <=? DMI_COMMAND) && _) with false by reflexivity. cbn [negb andb].
    change ((DMI_DATA0 <=? DMI_COMMAND) && (DMI_COMMAND <? DMI_DATA0 + 2)) with false. cbv iota.
    set (x' := x <| dm ::= fun d => d <| command := v |> |>).
    change (exists y, (perform_abstract_command ;; dret true) x' = (inr true, y) /\ error_of y = reports_busy (error_of x')).
    destruct (report_busy_result x') as (y & E & Ey). exists y.
    unfold dbind. rewrite (busy_perform x' Hb), E. now split. }
  destruct (dmi_write random a v x) as [[e|r] y]; [destruct Sf|]. destruct Sf as [Sy _]. exists r, y.
  split; [reflexivity|]. split; [exact Sy|]. split; [exact Rn|]. split.
  - intros [Ha|Ha]; [destruct (D1 Ha) as (y' & [= -> ->] & Ey)|destruct (D3 Ha) as (y' & [= -> ->] & Ey)]; now split.
  - intros Ha. specialize (D2 Ha). injection D2 as -> ->. now split.
Qed.
End Busy.

(** A fresh debug module that requires authentication is locked. *)
Lemma new_locked c N seed d0 d : debug_module_new N c seed d0 = Some d ->
  require_authentication c = true -> progbufsize c <= 16 -> locked d.
Proof.
  unfold debug_module_new. destruct (negb _); [discriminate|]. cbv zeta.
  destruct (if support_impebreak c then write32 _ _ _ else Some _) as [b|]; [|discriminate]. cbn [mbind option_bind].
  destruct (write32 _ _ _) as [w|]; [|discriminate]. cbn [mbind option_bind]. intros [= <-] A B.
  apply locked_members; assumption || reflexivity.
Qed.
End Lemmas.

(** ** An example: one hart, the default configuration *)

(** What the constructor leaves uninitialised. *)
Definition example_uninit : debug_module_t :=
  mk_debug_module 0 default_dm_config 0 0 0 0 0 [] [] [] [] [] []
    (mk_dmcontrol false false false 0 false false false)
    (mk_dmstatus false false false false false false false false false false false false false false false false 0)
    (mk_abstractcs false 0 0 0) (mk_abstractauto 0 0) 0 0 []
    (mk_sbcs 0 false 0 false false 0 0 false false false false false) [0; 0; 0; 0] [0; 0; 0; 0] 0 false 0.
Definition example_random (r : Z) : Z * Z := (r, 5 * r + 1).
Definition example_core : hart unit := mk_hart (state_reset 0) example_processor example_mmu tt (SoftFloat.mk_fenv 0 0).
Definition example_dm (c : debug_module_config_t) : debug_module_t :=
  default example_uninit (debug_module_new 1 c 7 example_uninit).
Definition example_debug_machine (d : debug_module_t) : dm_machine (sim_t example_bus) Z :=
  mk_dm_machine d [example_core] example_mmu (mk_sim example_bus ∅ (mk_clint 0 [0])) 7.

Lemma example_core_ok : Forall (proc_ok 1) [example_core].
Proof. constructor; [|constructor]. split; [now right|]. split; [discriminate|reflexivity]. Qed.

Lemma example_safe c : max_bus_master_bits c < 8 -> 0 <= progbufsize c <= 16 ->
  machine_safe c 1 (example_debug_machine (example_dm c)).
Proof.
  intros HB HS. destruct (new_ok c 1 ltac:(lia) ltac:(lia) 7 example_uninit ltac:(cbn; lia)) as (d & E & D).
  split; [|split; [reflexivity|apply example_core_ok]].
  cbn [dm example_debug_machine]. unfold example_dm. now rewrite E.
Qed.

(** Hart 0 is halted and a command is waiting for it. *)
Definition launched (d : debug_module_t) : debug_module_t := d
  <| dmstatus ::= fun s => s <| authenticated := true |> |>
  <| abstractcs ::= fun a => a <| busy := true |> |>
  <| debug_rom_flags := FLAG_GO :: repeat 0 1023 |>.

Lemma launched_ok c N d : dm_ok c N d -> dm_ok c N (launched d).
Proof. intros []. now constructor. Qed.

Definition example_busy : dm_machine (sim_t example_bus) Z :=
  example_debug_machine (launched (example_dm default_dm_config)).

Lemma example_busy_safe : machine_safe default_dm_config 1 example_busy.
Proof.
  split; [|split; [reflexivity|apply example_core_ok]]. apply launched_ok.
  apply (example_safe default_dm_config); [reflexivity|split; [discriminate|now compute]].
Qed.

(** ** Properties *)

(** C14.  The debug module never accesses memory outside its arrays and never
    fails an assertion, if the harts store hart numbers in range.  For every
    configuration without bus master and with at most 32 words of program buffer
    and every number of harts up to 1024, the constructor succeeds, and after it
    any sequence of reads and writes of the Debug Module Interface, of idle
    cycles, of loads and stores in its memory window and of hart resets returns,
    and leaves the object well formed: every array of its size, the selected
    hart in range, no command's program longer than its buffer.  The condition
    on the harts, which the code does not check, is that what they store to
    HALTED, GOING and RESUMING, and the number that is reset, is a four-byte
    number below the power of two that the hart selection can express, as the
    hart's own [mhartid], which the debug ROM stores, is. *)
Theorem debug_module_memory_safe {S R : Type} `{!SimIf S, !Platform S} (random : R -> Z * R)
    (c : debug_module_config_t) (N seed : Z) (d0 : debug_module_t) (harts : list (hart unit))
    (m : mmu_t) (s : S) (g : R) (ops : list dm_op) :
  1 <= N <= 1024 -> max_bus_master_bits c < 8 -> 0 <= progbufsize c <= 32 ->
  0 <= hawindowsel d0 -> Z.of_nat (length harts) = N -> Forall (proc_ok N) harts ->
  Forall (op_in_range N) ops ->
  exists d y, debug_module_new N c seed d0 = Some d /\
    dm_runs random ops (mk_dm_machine d harts m s g) = (inr tt, y) /\ machine_safe c N y.
Proof. exact (fresh_machine_runs random c N seed d0 harts m s g ops). Qed.

(** A debugging session: activate, halt hart 0, write a register. *)
Definition example_session : list dm_op :=
  [Op_dmi_write DMI_DMCONTROL 1; Op_dmi_write DMI_DMCONTROL 0x80000001; halts 0;
   Op_dmi_write DMI_DATA0 0xdeadbeef; Op_dmi_write DMI_COMMAND 0x231008;
   Op_load 0x400 1; going 0; Op_load 0x300 4; halts 0; Op_run_test_idle; Op_dmi_read DMI_ABSTRACTCS].

Lemma debug_module_memory_safe_witness : exists d y,
  debug_module_new 1 default_dm_config 7 example_uninit = Some d /\
  dm_runs example_random example_session (example_debug_machine d) = (inr tt, y) /\
  machine_safe default_dm_config 1 y.
Proof.
  apply (debug_module_memory_safe example_random default_dm_config 1 7 example_uninit [example_core]).
  - lia.
  - reflexivity.
  - split; discriminate.
  - discriminate.
  - reflexivity.
  - exact example_core_ok.
  - repeat constructor; cbn; try (split; [discriminate|reflexivity]); try discriminate; try reflexivity;
      unfold hart_number, fits; cbn; lia.
Defined.

(** C19.  A command in progress is protected.  In a well-formed debug module
    without bus master and with at most 16 words of program buffer, while a
    command is busy, no read of the Debug Module Interface, and no write by an
    authenticated debugger but that of [dmcontrol], throws, leaves an array, or
    changes the harts or memory, or the command's program, data, flags and
    progress (accesses of unknown registers report failure and are harmless
    too).  Reads of the data registers and of the program buffer return all
    ones, writes to them are dropped; an access to the data registers and a new
    command also record the error [busy] unless an error is pending, an access
    to the program buffer does not. *)
Theorem busy_command_protected {S R : Type} `{!SimIf S, !Platform S} (random : R -> Z * R)
    (c : debug_module_config_t) (N : Z) (x : dm_machine S R) (a v : Z) :
  1 <= N <= 1024 -> max_bus_master_bits c < 8 -> 0 <= progbufsize c <= 16 ->
  machine_safe c N x -> is_busy x = true ->
  (exists r y, dmi_read a x = (inr r, y) /\ machine_safe c N y /\ running x y /\
     (data_address a -> r = Some all_ones32 /\ error_of y = reports_busy (error_of x)) /\
     (progbuf_address c a -> r = Some all_ones32 /\ error_of y = error_of x)) /\
  (fits 32 v -> a <> DMI_DMCONTROL -> authenticated (dmstatus (dm x)) = true ->
   exists r y, dmi_write random a v x = (inr r, y) /\ machine_safe c N y /\ running x y /\
     (data_address a \/ a = DMI_COMMAND -> r = true /\ error_of y = reports_busy (error_of x)) /\
     (progbuf_address c a -> r = true /\ y = x)).
Proof. intros HN HB HS Hx Hb. split; [now apply busy_reads|intros Hv NC Au; now apply busy_writes]. Qed.

Lemma busy_command_protected_witness :
  exists r y, dmi_read DMI_DATA0 example_busy = (inr r, y) /\
    r = Some all_ones32 /\ error_of y = CMDERR_BUSY.
Proof.
  destruct (busy_command_protected example_random default_dm_config 1 example_busy DMI_DATA0 0)
    as [(r & y & E & _ & _ & K & _) _];
    [lia|cbn; lia|cbn; lia|exact example_busy_safe|reflexivity|].
  exists r, y. split; [exact E|]. destruct K as [-> ->]; [unfold data_address; lia|]. now split.
Defined.

(** C18.  A debugger that has not authenticated is confined.  The debug module
    requires authentication, has at most 16 words of program buffer, so that
    [authdata] is not one of them, and starts as it is after its reset: not
    authenticated, with no automatic command or bus access enabled ([locked]).
    Whatever the debugger then reads and writes through the Debug Module
    Interface, as long as it does not write the challenge plus the secret to
    [authdata], the debug module stays locked and the harts, their memory, the
    data and program buffers, the flags the harts poll and the system bus
    registers stay as they were; only halt requests can be withdrawn, by
    activating the debug module. *)
Theorem unauthenticated_debugger_confined {S R : Type} `{!SimIf S, !Platform S} (random : R -> Z * R)
    (x : dm_machine S R) (ops : list dm_op) :
  locked (dm x) -> never_unlocks random ops x -> untouched x (dm_runs random ops x).2.
Proof. intros L H. apply untouched_runs; [now apply untouched_start|exact H]. Qed.

Definition example_locked_config : debug_module_config_t := default_dm_config <| require_authentication := true |>.

Lemma unauthenticated_debugger_confined_witness :
  let x := example_debug_machine (example_dm example_locked_config) in
  untouched x (dm_runs example_random
    [Op_dmi_write DMI_AUTHDATA 0; Op_dmi_write DMI_DMCONTROL 0x80000001; Op_dmi_write DMI_COMMAND 0x231008;
     Op_dmi_read DMI_DATA0] x).2.
Proof.
  intros x. apply (unauthenticated_debugger_confined example_random x).
  - apply (new_locked example_locked_config 1 7 example_uninit); [reflexivity|reflexivity|discriminate].
  - split; [intros _; discriminate|]. do 2 (split; [discriminate|]). now split.
Defined.

(** C16.  Every abstract command ends.  From a well-formed state with a busy command,
    without bus master and with at most 16 words of program buffer, in every
    schedule of operations without a write of [dmcontrol] in which the selected
    hart picks the command up ([DEBUG_ROM_GOING]), later comes back to the debug
    ROM ([DEBUG_ROM_HALTED]), and after that enough Run-Test/Idle cycles pass, a
    state is reached in which the debug module is no longer busy.  All other
    accesses of the debugger, of other harts (storing hart numbers in range),
    stores of the command's own program and further idle cycles may come in
    between. *)
Theorem busy_command_completes {S R : Type} `{!SimIf S, !Platform S} (random : R -> Z * R)
    (c : debug_module_config_t) (N : Z) (x : dm_machine S R) (n : nat) (ops : list dm_op) :
  1 <= N <= 1024 -> max_bus_master_bits c < 8 -> 0 <= progbufsize c <= 16 ->
  machine_safe c N x -> 0 <= rti_remaining (dm x) <= Z.of_nat (Datatypes.S n) ->
  Forall (op_in_range N) ops -> Forall leaves_selection ops ->
  sublist (going (selected x) :: halts (selected x) :: repeat Op_run_test_idle (Datatypes.S n)) ops ->
  reaches random (fun y => is_busy y = false) ops x.
Proof.
  intros HN HB HS Hx [Hr1 Hr2] Ho Hl Hs.
  eapply (stage_reaches random c N HN HB HS (selected x)); try eassumption; try reflexivity.
  - destruct Hx as (D & _). apply (ok_hartsel c N _ D).
  - now constructor.
Qed.

Lemma busy_command_completes_witness : reaches example_random (fun y => is_busy y = false)
  [Op_dmi_write DMI_DATA0 5; going 0; Op_dmi_read DMI_DATA0; halts 0; Op_run_test_idle] example_busy.
Proof.
  apply (busy_command_completes example_random default_dm_config 1 example_busy 0).
  - lia.
  - reflexivity.
  - split; discriminate.
  - exact example_busy_safe.
  - split; discriminate.
  - repeat constructor; try discriminate.
  - repeat constructor; discriminate.
  - change (selected example_busy) with 0. repeat constructor.
Defined.

(** C15.  An accepted command runs exactly its program.  In a well-formed debug
    module with a program buffer of at most 16 words, no error pending, no
    command busy and the selected hart halted, an access-register command has
    one of three results.  One that names a custom register (an odd number from
    0xc000, [n] above it) is carried out at once, on nothing but [custom_base]
    and the data registers: a write sets [custom_base] to data register 0 less
    [n], a read sets data register 0 to [custom_base] plus [n] and the next one
    to 0.  Another one is refused with the error [not supported], and neither
    the flags the harts poll, the data and program buffers nor the harts have
    changed (words of [debug_abstract] may have been written).  Or it is
    launched: the words the hart will fetch from [debug_abstract] decode, in the
    simulator's own decoder, to the program of the command (the access to the
    register from or to the data registers, with [s0] and [mstatus] saved around
    it where it needs them, and then [ebreak] or the jump to the program
    buffer), the hart's GO flag is set, and the data registers, the program
    buffer, the harts and the other flags are as they were. *)
Theorem abstract_command_program {S R : Type} `{!SimIf S, !Platform S}
    (c : debug_module_config_t) (N : Z) (x : dm_machine S R) :
  1 <= N <= 1024 -> 0 <= progbufsize c <= 16 -> machine_safe c N x ->
  cmderr (abstractcs (dm x)) = CMDERR_NONE -> busy (abstractcs (dm x)) = false -> command (dm x) >>w 24 = 0 ->
  (exists h, array_get (hart_state (dm x)) (hartsel (dmcontrol (dm x))) = Some h /\ halted h = true) ->
  exists y, perform_abstract_command x = (inr tt, y) /\ machine_safe c N y /\
    if names_custom (command (dm x)) then custom_access x y
    else match command_program c (command (dm x)) with Some p => runs p x y | None => not_supported x y end.
Proof.
  intros HN HS Hx Ee Eb E0 Hh.
  assert (P : exists y, perform_abstract_command x = (inr tt, y) /\
    if names_custom (command (dm x)) then custom_access x y
    else match command_program c (command (dm x)) with Some p => runs p x y | None => not_supported x y end).
  { destruct (names_custom _) eqn:C; [now apply (perform_custom c N x (proj1 Hx))|now apply (perform_command c N x HN HS (proj1 Hx))]. }
  destruct P as (y & E & H). exists y. split; [exact E|]. split; [|exact H].
  pose proof (safe_perform c N HN ltac:(lia) x Hx) as K. rewrite E in K. exact (proj1 K).
Qed.

(** Hart 0 is halted, and the debugger has written [command]. *)
Definition waiting (v : Z) (d : debug_module_t) : debug_module_t := d
  <| abstractcs ::= fun a => a <| cmderr := CMDERR_NONE |> <| busy := false |> |>
  <| command := v |>
  <| hart_state ::= fmap (fun h => h <| halted := true |>) |>.
Definition example_waiting (v : Z) : dm_machine (sim_t example_bus) Z :=
  example_debug_machine (waiting v (example_dm default_dm_config)).

Lemma waiting_ok c N v d : dm_ok c N d -> dm_ok c N (waiting v d).
Proof. intros []. constructor; try assumption. refine (eq_trans (f_equal Z.of_nat (length_fmap _ _)) _). assumption. Qed.

Lemma example_waiting_safe v : machine_safe default_dm_config 1 (example_waiting v).
Proof.
  split; [|split; [reflexivity|apply example_core_ok]]. apply waiting_ok.
  apply (example_safe default_dm_config); [reflexivity|split; [discriminate|now compute]].
Qed.

(** [x8] from data register 0, then the program buffer. *)
Lemma abstract_command_program_witness : exists y, perform_abstract_command (example_waiting 0x271008) = (inr tt, y) /\
  runs [LOADI "lw" 8 0x380; JAL 44] (example_waiting 0x271008) y.
Proof.
  destruct (abstract_command_program default_dm_config 1 (example_waiting 0x271008)) as (y & E & _ & H).
  - lia.
  - split; discriminate.
  - exact (example_waiting_safe _).
  - reflexivity.
  - reflexivity.
  - reflexivity.
  - eexists. split; reflexivity.
  - exists y. split; [exact E|].
    assert (P : command_program default_dm_config 0x271008 = Some [LOADI "lw" 8 0x380; JAL 44]) by reflexivity.
    change (command (dm (example_waiting 0x271008))) with 0x271008 in H.
    change (names_custom 0x271008) with false in H. cbv iota in H. rewrite P in H. exact H.
Defined.
