(* ===== verification/Jtag.v ===== *)
(** * Jtag: the JTAG transport of the debug module

    [riscv/jtag_dtm.cc]: the test access port as a state machine on pin changes,
    its instruction and data registers, and the accesses to the Debug Module
    Interface that an update of the data register starts; and the commands of
    [riscv/remote_bitbang.cc] that drive the pins.  The port is a value passed
    along; the debug module is the state of the [DM] monad.  What the
    constructor leaves uninitialised is a parameter; a shift by a count that is
    not a width is undefined in C++ and is the failure [F_bounds]. *)
From Stdlib Require Import ZArith Lia Bool List.
From stdpp Require Import base list gmap.
From S2P Require Import Prelude Arith Encoding Decode State Processor Mmu TrapEntry Fields Sim DebugDefines DebugAsm DebugModule.
#[local] Open Scope Z_scope.
#[local] Open Scope word_scope.
#[local] Open Scope record_scope.
#[local] Open Scope dm_scope.

Module Jtag.

Inductive jtag_state_t :=
| TEST_LOGIC_RESET | RUN_TEST_IDLE
| SELECT_DR_SCAN | CAPTURE_DR | SHIFT_DR | EXIT1_DR | PAUSE_DR | EXIT2_DR | UPDATE_DR
| SELECT_IR_SCAN | CAPTURE_IR | SHIFT_IR | EXIT1_IR | PAUSE_IR | EXIT2_IR | UPDATE_IR.
#[export] Instance jtag_state_eq_dec : EqDecision jtag_state_t.
Proof. solve_decision. Defined.

Definition IR_IDCODE : Z := 1.
Definition IR_DTMCONTROL : Z := 0x10.
Definition IR_DBUS : Z := 0x11.

Definition DTMCONTROL_DMIRESET : Z := Z.shiftl 1 16.
Definition DTMCONTROL_DMIHARDRESET : Z := Z.shiftl 1 17.

(** [const unsigned] members. *)
Definition idcode : Z := 0xdeadbeef.
Definition ir_length : Z := 5.
Definition abits : Z := 6.

Definition DMI_OP : Z := 3.
Definition DMI_DATA : Z := Z.shiftl 0xffffffff 2.
Definition DMI_ADDRESS : Z := Z.shiftl 1 (abits + 34) - Z.shiftl 1 34.

Definition DMI_OP_STATUS_SUCCESS : Z := 0.
Definition DMI_OP_STATUS_FAILED : Z := 2.
Definition DMI_OP_STATUS_BUSY : Z := 3.
Definition DMI_OP_READ : Z := 1.
Definition DMI_OP_WRITE : Z := 2.

Record jtag_dtm_t := mk_jtag_dtm {
  required_rti_cycles : Z;
  tck : bool;
  tms : bool;
  tdi : bool;
  tdo : bool;
  ir : Z;
  dr : Z;
  dr_length : Z;
  dtmcontrol : Z;
  dmi : Z;
  rti_remaining : Z;
  busy_stuck : bool;
  state : jtag_state_t
}.
#[export] Instance eta_jtag_dtm_t : Eta jtag_dtm_t := fun s =>
  mk_jtag_dtm (required_rti_cycles s) (tck s) (tms s) (tdi s) (tdo s) (ir s) (dr s) (dr_length s)
    (dtmcontrol s) (dmi s) (rti_remaining s) (busy_stuck s) (state s).
#[export] Instance set_required_rti_cycles : Setter required_rti_cycles := ltac:(derive_setter).
#[export] Instance set_tck : Setter tck := ltac:(derive_setter).
#[export] Instance set_tms : Setter tms := ltac:(derive_setter).
#[export] Instance set_tdi : Setter tdi := ltac:(derive_setter).
#[export] Instance set_tdo : Setter tdo := ltac:(derive_setter).
#[export] Instance set_ir : Setter ir := ltac:(derive_setter).
#[export] Instance set_dr : Setter dr := ltac:(derive_setter).
#[export] Instance set_dr_length : Setter dr_length := ltac:(derive_setter).
#[export] Instance set_dtmcontrol : Setter dtmcontrol := ltac:(derive_setter).
#[export] Instance set_dmi : Setter dmi := ltac:(derive_setter).
#[export] Instance set_jtag_rti_remaining : Setter rti_remaining := ltac:(derive_setter).
#[export] Instance set_busy_stuck : Setter busy_stuck := ltac:(derive_setter).
#[export] Instance set_state : Setter state := ltac:(derive_setter).

(** The constructor, on memory that held [j0]. *)
Definition jtag_dtm_new (cycles : Z) (j0 : jtag_dtm_t) : jtag_dtm_t := j0
  <| required_rti_cycles := cycles |>
  <| tck := false |> <| tms := false |> <| tdi := false |> <| tdo := false |>
  <| dtmcontrol := Z.shiftl abits DTM_DTMCS_ABITS_OFFSET |w 1 |>
  <| dmi := Z.shiftl DMI_OP_STATUS_SUCCESS DTM_DMI_OP_OFFSET |>
  <| state := TEST_LOGIC_RESET |>.

Definition reset (j : jtag_dtm_t) : jtag_dtm_t := j
  <| state := TEST_LOGIC_RESET |> <| busy_stuck := false |> <| rti_remaining := 0 |> <| dmi := 0 |>.

(** The table [next] of [set_pins], on [_tms]. *)
Definition next (s : jtag_state_t) (tms : bool) : jtag_state_t :=
  match s with
  | TEST_LOGIC_RESET => if tms then TEST_LOGIC_RESET else RUN_TEST_IDLE
  | RUN_TEST_IDLE => if tms then SELECT_DR_SCAN else RUN_TEST_IDLE
  | SELECT_DR_SCAN => if tms then SELECT_IR_SCAN else CAPTURE_DR
  | CAPTURE_DR => if tms then EXIT1_DR else SHIFT_DR
  | SHIFT_DR => if tms then EXIT1_DR else SHIFT_DR
  | EXIT1_DR => if tms then UPDATE_DR else PAUSE_DR
  | PAUSE_DR => if tms then EXIT2_DR else PAUSE_DR
  | EXIT2_DR => if tms then UPDATE_DR else SHIFT_DR
  | UPDATE_DR => if tms then SELECT_DR_SCAN else RUN_TEST_IDLE
  | SELECT_IR_SCAN => if tms then TEST_LOGIC_RESET else CAPTURE_IR
  | CAPTURE_IR => if tms then EXIT1_IR else SHIFT_IR
  | SHIFT_IR => if tms then EXIT1_IR else SHIFT_IR
  | EXIT1_IR => if tms then UPDATE_IR else PAUSE_IR
  | PAUSE_IR => if tms then EXIT2_IR else PAUSE_IR
  | EXIT2_IR => if tms then UPDATE_IR else SHIFT_IR
  | UPDATE_IR => if tms then SELECT_DR_SCAN else RUN_TEST_IDLE
  end.

Definition capture_dr (j : jtag_dtm_t) : jtag_dtm_t :=
  if ir j =? IR_IDCODE then j <| dr := idcode |> <| dr_length := 32 |>
  else if ir j =? IR_DTMCONTROL then j <| dr := dtmcontrol j |> <| dr_length := 32 |>
  else if ir j =? IR_DBUS then
    (if (0 <? rti_remaining j) || busy_stuck j then j <| dr := DMI_OP_STATUS_BUSY |> <| busy_stuck := true |>
     else j <| dr := dmi j |>) <| dr_length := abits + 34 |>
  else j.

Section Transport.
Context {S R : Type} `{!SimIf S, !Platform S}.
Variable random : R -> Z * R.
#[local] Notation DM := (DM S R).
#[local] Notation dmi_write := (dmi_write random).

Definition update_dr (j : jtag_dtm_t) : DM jtag_dtm_t :=
  if ir j =? IR_DTMCONTROL then
    let j := if z2b (dr j &w DTMCONTROL_DMIRESET) then j <| busy_stuck := false |> else j in
    dret (if z2b (dr j &w DTMCONTROL_DMIHARDRESET) then reset j else j)
  else if (ir j =? IR_DBUS) && negb (busy_stuck j) then
    let op := get_field (dr j) DMI_OP in
    let data := get_field (dr j) DMI_DATA in
    let address := get_field (dr j) DMI_ADDRESS in
    r <- (if op =? DMI_OP_READ then
            v <- dmi_read address ;;
            dret (match v with Some value => (set_field (dr j) DMI_DATA value, true) | None => (dr j, false) end)
          else if op =? DMI_OP_WRITE then s <- dmi_write address data ;; dret (dr j, s)
          else dret (dr j, true)) ;;
    let '(word, success) := r in
    dret (j <| dmi := set_field word DMI_OP (if success then DMI_OP_STATUS_SUCCESS else DMI_OP_STATUS_FAILED) |>
            <| rti_remaining := required_rti_cycles j |>)
  else dret j.

(** [x |= (uint64_t)_tdi << (dr_length - 1)] after the shift to the right. *)
Definition shift_dr (j : jtag_dtm_t) : DM jtag_dtm_t :=
  if (1 <=? dr_length j) && (dr_length j <=? 64) then
    dret (j <| dr ::= fun d => (d >>w 1) |w Z.shiftl (b2z (tdi j)) (dr_length j - 1) |>)
  else dfail F_bounds.
Definition shift_ir (j : jtag_dtm_t) : jtag_dtm_t :=
  j <| ir ::= fun i => (i >>w 1) |w Z.shiftl (b2z (tdi j)) (ir_length - 1) |>.

(** The positive clock edge: the state is left, *)
Definition leave (j : jtag_dtm_t) : DM jtag_dtm_t :=
  match state j with
  | SHIFT_DR => shift_dr j
  | SHIFT_IR => dret (shift_ir j)
  | _ => dret j
  end.
(** and the next one entered. *)
Definition enter (j : jtag_dtm_t) : DM jtag_dtm_t :=
  match state j with
  | RUN_TEST_IDLE =>
      run_test_idle ;;
      dret (if 0 <? rti_remaining j then j <| rti_remaining ::= fun r => r - 1 |> else j)
  | TEST_LOGIC_RESET => dret (j <| ir := IR_IDCODE |>)
  | CAPTURE_DR => dret (capture_dr j)
  | SHIFT_DR => dret (j <| tdo := z2b (dr j &w 1) |>)
  | UPDATE_DR => update_dr j
  | SHIFT_IR => dret (j <| tdo := z2b (ir j &w 1) |>)
  | _ => dret j
  end.

Definition edge (j : jtag_dtm_t) : DM jtag_dtm_t :=
  j <- leave j ;; enter (j <| state := next (state j) (tms j) |>).

(** The edge sees [_tms] and [_tdi] as they were before. *)
Definition set_pins (k m i : bool) (j : jtag_dtm_t) : DM jtag_dtm_t :=
  j <- (if negb (tck j) && k then edge j else dret j) ;;
  dret (j <| tck := k |> <| tms := m |> <| tdi := i |>).

(** *** [remote_bitbang_t::execute_commands] *)

(** A command: the port, what is sent back, whether the remote quits. *)
Definition bitbang_command (command : Z) (j : jtag_dtm_t) : DM (jtag_dtm_t * list Z * bool) :=
  let pins k m i := j <- set_pins k m i j ;; dret (j, [], false) in
  if command =? 66 (* B *) then dret (j, [], false)
  else if command =? 98 (* b *) then dret (j, [], false)
  else if command =? 114 (* r *) then dret (reset j, [], false)
  else if command =? 48 then pins false false false
  else if command =? 49 then pins false false true
  else if command =? 50 then pins false true false
  else if command =? 51 then pins false true true
  else if command =? 52 then pins true false false
  else if command =? 53 then pins true false true
  else if command =? 54 then pins true true false
  else if command =? 55 then pins true true true
  else if command =? 82 (* R *) then dret (j, [if tdo j then 49 else 48], false)
  else if command =? 81 (* Q *) then dret (j, [], true)
  else dret (j, [], false).

(** The result of the inner loop: the port, [send_buf], [quit], [entered_rti]
    and the rest of [recv_buf]. *)
Record batch := mk_batch {
  tap : jtag_dtm_t; send_buf : list Z; quit : bool; entered_rti : bool; rest : list Z }.

(** The inner loop on the bytes of [recv_buf]; it stops when it enters
    Run-Test/Idle. *)
Fixpoint bitbang_loop (recv_buf : list Z) (in_rti : bool) (sent : list Z) (q : bool) (j : jtag_dtm_t) : DM batch :=
  match recv_buf with
  | [] => dret (mk_batch j sent q false [])
  | command :: recv_buf =>
      r <- bitbang_command command j ;;
      let '(j, out, q') := r in
      if negb in_rti && bool_decide (state j = RUN_TEST_IDLE)
      then dret (mk_batch j (sent ++ out) (q || q') true recv_buf)
      else bitbang_loop recv_buf false (sent ++ out) (q || q') j
  end.

Definition execute_commands (recv_buf : list Z) (j : jtag_dtm_t) : DM batch :=
  bitbang_loop recv_buf (bool_decide (state j = RUN_TEST_IDLE)) [] false j.

(** ** A debugger's scans *)

(** One clock: the pins are set while the clock is low. *)
Definition clock (m i : bool) (j : jtag_dtm_t) : DM jtag_dtm_t :=
  j <- set_pins false m i j ;; set_pins true m i j.
(** Clocks with TDI low, by their TMS. *)
Fixpoint clocks (ms : list bool) (j : jtag_dtm_t) : DM jtag_dtm_t :=
  match ms with [] => dret j | m :: ms => j <- clock m false j ;; clocks ms j end.
(** Shift [bs] in, the last with TMS high, and sample TDO before each clock. *)
Fixpoint shifts (bs : list bool) (j : jtag_dtm_t) : DM (list bool * jtag_dtm_t) :=
  match bs with
  | [] => dret ([], j)
  | b :: bs =>
      j' <- clock (match bs with [] => true | _ => false end) b j ;;
      r <- shifts bs j' ;; dret (tdo j :: r.1, r.2)
  end.
Definition bits (n : nat) (v : Z) : list bool := map (fun i => Z.testbit v (Z.of_nat i)) (seq 0 n).
(** From Run-Test/Idle, through the register, and back. *)
Definition dr_scan (n : nat) (v : Z) (j : jtag_dtm_t) : DM (list bool * jtag_dtm_t) :=
  j <- clocks [true; false; false] j ;; r <- shifts (bits n v) j ;;
  j <- clocks [true; false] r.2 ;; dret (r.1, j).
Definition ir_scan (v : Z) (j : jtag_dtm_t) : DM (list bool * jtag_dtm_t) :=
  j <- clocks [true; true; false; false] j ;; r <- shifts (bits 5 v) j ;;
  j <- clocks [true; false] r.2 ;; dret (r.1, j).

(** ** What the scans mean *)

Definition dmi_word (address data status : Z) : Z := address * 2 ^ 34 + data * 2 ^ 2 + status.

(** The access that a word of the data register asks for, and the answer. *)
Definition access (v : Z) : DM Z :=
  let op := v mod 4 in
  let data := (v / 2 ^ 2) mod 2 ^ 32 in
  let address := v / 2 ^ 34 in
  if op =? 1 then
    r <- dmi_read address ;;
    dret (match r with Some value => dmi_word address (u32 value) 0 | None => dmi_word address data 2 end)
  else if op =? 2 then
    ok <- dmi_write address data ;; dret (dmi_word address data (if (ok : bool) then 0 else 2))
  else dret (dmi_word address data 0).

Definition elapse (r : Z) : Z := if 0 <? r then r - 1 else r.

(** A scan of the bus register: an access, or the answer that the last one is
    not over, which sticks. *)
Definition dbus_scan (v : Z) (j : jtag_dtm_t) : DM (list bool * jtag_dtm_t) :=
  let pending := (0 <? rti_remaining j) || busy_stuck j in
  let out := if pending then DMI_OP_STATUS_BUSY else dmi j in
  r <- (if pending then dret (dmi j, rti_remaining j)
        else w <- access v ;; dret (w, required_rti_cycles j)) ;;
  run_test_idle ;;
  dret (bits 40 out,
        mk_jtag_dtm (required_rti_cycles j) true false false (Z.testbit out 39) IR_DBUS v 40
          (dtmcontrol j) r.1 (elapse r.2) pending RUN_TEST_IDLE).

End Transport.

End Jtag.
