(* ===== verification/JtagProps.v ===== *)
(** * JtagProps: scans of the JTAG transport

    Bit by bit, the state machine of the test access port carries out the
    word-level scans: what is shifted in and out, and the access of the debug
    module that an update of the bus register makes. *)
From Stdlib Require Import ZArith Lia Bool List.
From stdpp Require Import base list gmap.
From S2P Require Import Prelude Arith Encoding Decode State Processor Pmp Mmu TrapEntry Fields Sim DebugDefines DebugAsm DebugModule DebugFacts DebugProps Jtag.
#[local] Open Scope Z_scope.
#[local] Open Scope word_scope.
#[local] Open Scope record_scope.
#[local] Open Scope dm_scope.
Import Jtag.

(** ** Shift registers *)

(** A register of [n] bits takes a bit in at the top. *)
Definition shift_in (n : Z) (d : Z) (b : bool) : Z := (d >>w 1) |w Z.shiftl (b2z b) (n - 1).
(** The bits it gives out. *)
Fixpoint outs (n d : Z) (bs : list bool) : list bool :=
  match bs with [] => [] | b :: bs => Z.testbit d 0 :: outs n (shift_in n d b) bs end.

Lemma shift_in_bit n d b i : 0 < n -> 0 <= i ->
  Z.testbit (shift_in n d b) i = (Z.testbit d (i + 1) || (i =? n - 1) && b).
Proof.
  intros Hn Hi. unfold shift_in. rewrite Z.lor_spec, Z.shiftr_spec by lia. f_equal.
  destruct (Z.ltb_spec i (n - 1)).
  - rewrite Z.shiftl_spec_low by lia. bcases; lia || reflexivity.
  - rewrite Z.shiftl_spec by lia. destruct (Z.eqb_spec i (n - 1)) as [->|].
    + rewrite Z.sub_diag. now destruct b.
    + cbn. replace (i - (n - 1)) with (Z.succ (i - n)) by lia. destruct b; [|now rewrite Z.bits_0].
      apply Z.bits_above_log2; cbn; lia.
Qed.

Lemma shift_in_fits n d b : 0 < n -> fits n d -> fits n (shift_in n d b).
Proof.
  intros Hn [D1 D2]. apply fits_bits; [lia| |].
  - unfold shift_in. apply Z.lor_nonneg. split; [now apply Z.shiftr_nonneg|].
    apply Z.shiftl_nonneg. now destruct b.
  - intros i Hi. rewrite shift_in_bit by lia. rewrite (fits_testbit n d) by (lia || now split).
    destruct (Z.eqb_spec i (n - 1)); [lia|reflexivity].
Qed.

Lemma shifted_bit n bs : 0 < n -> forall d i, fits n d -> 0 <= i < n -> Z.of_nat (length bs) <= n ->
  Z.testbit (foldl (shift_in n) d bs) i =
  if i + Z.of_nat (length bs) <? n then Z.testbit d (i + Z.of_nat (length bs))
  else nth (Z.to_nat (i + Z.of_nat (length bs) - n)) bs false.
Proof.
  intros Hn. induction bs as [|b bs IH]; intros d i Hd Hi Hl.
  - cbn [foldl length]. rewrite Z.add_0_r. now rewrite (proj2 (Z.ltb_lt i n)) by lia.
  - cbn [foldl length] in *. rewrite Nat2Z.inj_succ in *.
    rewrite IH by (lia || now apply shift_in_fits). set (l := Z.of_nat (length bs)) in *.
    destruct (Z.ltb_spec (i + l) n).
    + rewrite shift_in_bit by lia. replace (i + l + 1) with (i + Z.succ l) by lia.
      destruct (Z.ltb_spec (i + Z.succ l) n).
      * destruct (Z.eqb_spec (i + l) (n - 1)); [lia|]. apply orb_false_r.
      * rewrite (fits_testbit n d) by (lia || assumption). replace (Z.to_nat _) with O by lia.
        now rewrite (proj2 (Z.eqb_eq (i + l) (n - 1))) by lia.
    + rewrite (proj2 (Z.ltb_ge _ n)) by lia. now replace (Z.to_nat (i + Z.succ l - n)) with (Datatypes.S (Z.to_nat (i + l - n))) by lia.
Qed.

Lemma length_bits n v : length (bits n v) = n.
Proof. unfold bits. now rewrite length_map, length_seq. Qed.

Lemma nth_bits n v k : (k < n)%nat -> nth k (bits n v) false = Z.testbit v (Z.of_nat k).
Proof.
  intros H. unfold bits. rewrite (nth_indep _ false (Z.testbit v (Z.of_nat 0))) by now rewrite length_map, length_seq.
  rewrite (map_nth (fun i => Z.testbit v (Z.of_nat i))). now rewrite seq_nth.
Qed.

(** A full shift replaces the register, *)
Lemma shifted_word n d v : (0 < n)%nat -> fits (Z.of_nat n) d -> fits (Z.of_nat n) v ->
  foldl (shift_in (Z.of_nat n)) d (bits n v) = v.
Proof.
  intros Hn Hd Hv. assert (F : forall bs d, fits (Z.of_nat n) d -> fits (Z.of_nat n) (foldl (shift_in (Z.of_nat n)) d bs))
    by (induction bs as [|b bs IH]; intros d' H'; [exact H'|apply IH, shift_in_fits; [lia|exact H']]).
  apply Z.bits_inj'. intros i Hi. destruct (Z.ltb_spec i (Z.of_nat n)).
  - rewrite shifted_bit by (rewrite ?length_bits; lia || assumption). rewrite length_bits.
    rewrite (proj2 (Z.ltb_ge _ _)) by lia. rewrite nth_bits by lia. f_equal. lia.
  - now rewrite !(fits_testbit (Z.of_nat n)) by (lia || auto).
Qed.

(** and gives out what it held. *)
Lemma outs_bits n m d v : (0 < n <= m)%nat -> outs (Z.of_nat m) d (bits n v) = bits n d.
Proof.
  intros [Hn Hm]. unfold bits. assert (G : forall k bs d', (k + length bs <= m)%nat ->
    (forall i, 0 <= i < Z.of_nat (m - k) -> Z.testbit d' i = Z.testbit d (i + Z.of_nat k)) ->
    outs (Z.of_nat m) d' bs = map (fun i => Z.testbit d (Z.of_nat i)) (seq k (length bs))).
  { intros k bs. revert k. induction bs as [|b bs IH]; intros k d' Hk H; [reflexivity|].
    cbn [outs length seq map] in *. f_equal; [rewrite H by lia; f_equal; lia|].
    apply IH; [lia|]. intros i Hi. rewrite shift_in_bit by lia. rewrite H by lia.
    destruct (Z.eqb_spec i (Z.of_nat m - 1)); [lia|]. rewrite orb_false_r. f_equal. lia. }
  rewrite (G O); [now rewrite length_map, length_seq|rewrite length_map, length_seq; lia|].
  intros i Hi. f_equal. lia.
Qed.

(** ** The fields of the bus register *)

Lemma dmi_word_testbit a d s i : fits 32 d -> fits 2 s -> 0 <= i ->
  Z.testbit (dmi_word a d s) i =
  if i <? 2 then Z.testbit s i else if i <? 34 then Z.testbit d (i - 2) else Z.testbit a (i - 34).
Proof.
  intros Hd Hs Hi. unfold dmi_word.
  replace (a * 2 ^ 34 + d * 2 ^ 2 + s) with ((a * 2 ^ 32 + d) * 2 ^ 2 + s) by lia.
  rewrite <- (lor_add_shift a), <- lor_add_shift by (lia || assumption). rewrite Z.lor_spec.
  destruct (Z.ltb_spec i 2); [now rewrite Z.shiftl_spec_low by lia|].
  rewrite (fits_testbit 2 s i) by (lia || assumption). rewrite orb_false_r, Z.shiftl_spec, Z.lor_spec by lia.
  destruct (Z.ltb_spec i 34); [now rewrite Z.shiftl_spec_low by lia|].
  rewrite (fits_testbit 32 d) by (lia || assumption). rewrite orb_false_r, Z.shiftl_spec by lia. f_equal. lia.
Qed.

Lemma dmi_fields v : fits 40 v ->
  get_field v DMI_OP = v mod 4 /\ get_field v DMI_DATA = (v / 2 ^ 2) mod 2 ^ 32 /\ get_field v DMI_ADDRESS = v / 2 ^ 34.
Proof.
  intros [H1 H2]. change DMI_OP with (field 0 2). change DMI_DATA with (field 2 32). change DMI_ADDRESS with (field 34 6).
  rewrite !get_field_bits, Z.div_1_r by lia. repeat split. apply Z.mod_small. Z.div_mod_to_equations. lia.
Qed.

Lemma set_field_outside k w reg v i : 0 <= k -> 0 < w -> k + w <= 64 -> fits 64 reg -> 64 <= i ->
  Z.testbit (set_field reg (field k w) v) i = false.
Proof. intros. apply (fits_testbit 64); [now apply set_field_fits|lia|lia]. Qed.

(** The answer: the address and the data that were scanned, the status in place of the operation, *)
Lemma answer_status v s : fits 40 v -> fits 2 s ->
  set_field v DMI_OP s = dmi_word (v / 2 ^ 34) ((v / 2 ^ 2) mod 2 ^ 32) s.
Proof.
  intros Hv Hs. change DMI_OP with (field 0 2). assert (Hv' : fits 64 v) by (unfold fits in *; lia). bits i.
  assert (Hd : fits 32 ((v / 2 ^ 2) mod 2 ^ 32)) by (apply Z.mod_pos_bound; lia).
  rewrite dmi_word_testbit by assumption. destruct (Z.ltb_spec i 64).
  - rewrite set_field_testbit by lia. rewrite Z.sub_0_r.
    destruct (Z.ltb_spec i 2); [now rewrite (proj2 (Z.leb_le 0 i)), (proj2 (Z.ltb_lt i (0 + 2))) by lia|].
    rewrite (proj2 (Z.ltb_ge i (0 + 2))), andb_false_r by lia.
    fold (uw 32 (v / 2 ^ 2)). destruct (Z.ltb_spec i 34).
    + rewrite uw_testbit, Z.div_pow2_bits, (proj2 (Z.ltb_lt (i - 2) 32)) by lia. cbn. f_equal. lia.
    + rewrite Z.div_pow2_bits by lia. f_equal. lia.
  - rewrite set_field_outside by (lia || assumption). bcases; try lia.
    rewrite Z.div_pow2_bits by lia. now rewrite (fits_testbit 64 v) by (lia || assumption).
Qed.

(** or with the data that was read. *)
Lemma answer_read v d s : fits 40 v -> fits 2 s ->
  set_field (set_field v DMI_DATA d) DMI_OP s = dmi_word (v / 2 ^ 34) (u32 d) s.
Proof.
  intros Hv Hs. assert (E : fits 40 (set_field v DMI_DATA d)).
  { change DMI_DATA with (field 2 32). apply fits_bits; [lia|apply (set_field_fits 2 32 v d); unfold fits in *; lia|].
    intros i Hi. destruct (Z.ltb_spec i 64).
    - rewrite set_field_testbit by lia. rewrite (proj2 (Z.ltb_ge i (2 + 32))), andb_false_r by lia.
      now apply (fits_testbit 40).
    - apply set_field_outside; unfold fits in *; lia. }
  rewrite (answer_status _ s E Hs). f_equal.
  - destruct (dmi_fields _ E) as (_ & _ & <-). destruct (dmi_fields v Hv) as (_ & _ & <-).
    apply (get_set_field_other 2 32 34 6); lia.
  - destruct (dmi_fields _ E) as (_ & <- & _). apply (get_set_field_same 2 32); lia.
Qed.

(** ** The state machine *)

Section Scans.
Context {S R : Type} `{!SimIf S, !Platform S}.
Variable random : R -> Z * R.
#[local] Notation DM := (DM S R).
#[local] Notation dm_machine := (dm_machine S R).
#[local] Notation clock := (clock (S:=S) random).
#[local] Notation clocks := (clocks (S:=S) random).
#[local] Notation shifts := (shifts (S:=S) random).

Lemma masked_bit d : z2b (d &w 1) = Z.testbit d 0.
Proof.
  unfold z2b. change (d &w 1) with (Z.land d (Z.ones 1)). rewrite Z.land_ones, Z.pow_1_r, <- Z.bit0_mod by lia. now destruct (Z.testbit d 0).
Qed.

(** A clock is an edge that sees the new pins. *)
Lemma clock_edge m i j x :
  clock m i j x = match edge random (j <| tck := false |> <| tms := m |> <| tdi := i |>) x with
                  | (inr j', y) => (inr (j' <| tck := true |> <| tms := m |> <| tdi := i |>), y)
                  | (inl e, y) => (inl e, y)
                  end.
Proof. destruct j as [? k]. now destruct k. Qed.

Lemma shift_dr_word n c k m i t r d dtm w rti st : 0 < n <= 64 ->
  shift_dr (S:=S) (R:=R) (mk_jtag_dtm c k m i t r d n dtm w rti st SHIFT_DR) =
  dret (mk_jtag_dtm c k m i t r (shift_in n d i) n dtm w rti st SHIFT_DR).
Proof.
  intros Hn. unfold shift_dr. change (dr_length _) with n.
  rewrite (proj2 (Z.leb_le 1 n)), (proj2 (Z.leb_le n 64)) by lia. reflexivity.
Qed.

Lemma clock_shift_dr (m : bool) n b c k m' i t r d dtm w rti st x : 0 < n <= 64 ->
  clock m b (mk_jtag_dtm c k m' i t r d n dtm w rti st SHIFT_DR) x =
  (inr (mk_jtag_dtm c true m b (if m then t else Z.testbit (shift_in n d b) 0) r (shift_in n d b) n dtm w rti st
         (if m then EXIT1_DR else SHIFT_DR)), x).
Proof.
  intros Hn. rewrite clock_edge.
  match goal with |- context [edge random ?j] =>
    change (edge random j) with (dbind (shift_dr (mk_jtag_dtm c false m b t r d n dtm w rti st SHIFT_DR))
      (fun q => enter random (q <| state := next (state q) (tms q) |>))) end. rewrite shift_dr_word by exact Hn.
  rewrite <- masked_bit. destruct m; reflexivity.
Qed.

Lemma clock_shift_ir (m : bool) b c k m' i t r d n dtm w rti st x :
  clock m b (mk_jtag_dtm c k m' i t r d n dtm w rti st SHIFT_IR) x =
  (inr (mk_jtag_dtm c true m b (if m then t else Z.testbit (shift_in 5 r b) 0) (shift_in 5 r b) d n dtm w rti st
         (if m then EXIT1_IR else SHIFT_IR)), x).
Proof.
  rewrite clock_edge. rewrite <- masked_bit. destruct m; reflexivity.
Qed.

Lemma shifts_dr n bs : 0 < n <= 64 -> bs <> [] -> forall c k m i r d dtm w rti st x,
  exists t' i', (last bs = Some i' /\ t' = Z.testbit (foldl (shift_in n) d (removelast bs)) 0) /\
  shifts bs (mk_jtag_dtm c k m i (Z.testbit d 0) r d n dtm w rti st SHIFT_DR) x =
  (inr (outs n d bs, mk_jtag_dtm c true true i' t' r (foldl (shift_in n) d bs) n dtm w rti st EXIT1_DR), x).
Proof.
  intros Hn. induction bs as [|b bs IH]; [congruence|]. intros _ c k m i r d dtm w rti st x.
  cbn [Jtag.shifts]. unfold dbind at 1. rewrite clock_shift_dr by exact Hn.
  destruct bs as [|b' bs].
  - exists (Z.testbit d 0), b. split; [now split|]. reflexivity.
  - destruct (IH ltac:(discriminate) c true false b r (shift_in n d b) dtm w rti st x) as (t' & i' & (L & T) & E).
    exists t', i'. split; [split; [exact L|exact T]|]. unfold dbind at 1. rewrite E. reflexivity.
Qed.

Lemma shifts_ir bs : bs <> [] -> forall c k m i r d n dtm w rti st x,
  exists t' i', (last bs = Some i' /\ t' = Z.testbit (foldl (shift_in 5) r (removelast bs)) 0) /\
  shifts bs (mk_jtag_dtm c k m i (Z.testbit r 0) r d n dtm w rti st SHIFT_IR) x =
  (inr (outs 5 r bs, mk_jtag_dtm c true true i' t' (foldl (shift_in 5) r bs) d n dtm w rti st EXIT1_IR), x).
Proof.
  induction bs as [|b bs IH]; [congruence|]. intros _ c k m i r d n dtm w rti st x.
  cbn [Jtag.shifts]. unfold dbind at 1. rewrite clock_shift_ir.
  destruct bs as [|b' bs].
  - exists (Z.testbit r 0), b. split; [now split|]. reflexivity.
  - destruct (IH ltac:(discriminate) c true false b (shift_in 5 r b) d n dtm w rti st x) as (t' & i' & (L & T) & E).
    exists t', i'. split; [split; [exact L|exact T]|]. unfold dbind at 1. rewrite E. reflexivity.
Qed.

Lemma clocks_cons m ms j j' x y : clock m false j x = (inr j', y) -> clocks (m :: ms) j x = clocks ms j' y.
Proof. intros E. cbn [Jtag.clocks]. unfold dbind. now rewrite E. Qed.

(** *** The whole scans *)

Lemma last_out n d v : (0 < n)%nat -> fits (Z.of_nat n) d ->
  Z.testbit (foldl (shift_in (Z.of_nat n)) d (removelast (bits n v))) 0 = Z.testbit d (Z.of_nat n - 1).
Proof.
  intros Hn Hd. assert (L : Z.of_nat (length (removelast (bits n v))) = Z.of_nat n - 1).
  { rewrite removelast_firstn_len, firstn_length_le; rewrite length_bits; lia. }
  rewrite shifted_bit by (rewrite ?L; lia || assumption). rewrite L.
  now rewrite (proj2 (Z.ltb_lt _ _)) by lia.
Qed.

Lemma bits_nonempty n v : (0 < n)%nat -> bits n v <> [].
Proof. intros H E. apply (f_equal length) in E. rewrite length_bits in E. cbn in E. lia. Qed.

(** Back to Run-Test/Idle. *)
Lemma idle_clock s c k m i t r d n dtm w rti st x : s = UPDATE_DR \/ s = UPDATE_IR ->
  clock false false (mk_jtag_dtm c k m i t r d n dtm w rti st s) x =
  (run_test_idle ;; dret (mk_jtag_dtm c true false false t r d n dtm w (elapse rti) st RUN_TEST_IDLE)) x.
Proof. unfold elapse. destruct k; intros [-> | ->]; destruct (0 <? rti) eqn:E; cbv -[Z.ltb]; now rewrite E. Qed.

Lemma ir_scan_word v j x : state j = RUN_TEST_IDLE -> fits 5 v -> fits 5 (ir j) ->
  ir_scan random v j x =
  (run_test_idle ;;
   dret (bits 5 (ir j),
         mk_jtag_dtm (required_rti_cycles j) true false false (Z.testbit (ir j) 4) v (dr j) (dr_length j)
           (dtmcontrol j) (dmi j) (elapse (rti_remaining j)) (busy_stuck j) RUN_TEST_IDLE)) x.
Proof.
  destruct j as [c k m i t r d n dtm w rti st s]. cbn [state ir]. intros -> Hv Hr.
  unfold ir_scan. unfold dbind at 1.
  assert (C : clocks [true; true; false; false] (mk_jtag_dtm c k m i t r d n dtm w rti st RUN_TEST_IDLE) x =
    (inr (mk_jtag_dtm c true false false (Z.testbit r 0) r d n dtm w rti st SHIFT_IR), x)).
  { rewrite <- masked_bit. now destruct k. }
  rewrite C. destruct (shifts_ir (bits 5 v) (bits_nonempty 5 v ltac:(lia)) c true false false r d n dtm w rti st x)
    as (t' & i' & (_ & ->) & E).
  unfold dbind at 1. rewrite E. rewrite (last_out 5), (shifted_word 5), (outs_bits 5 5) by (lia || assumption).
  cbn [fst snd Jtag.clocks].
  assert (U : clock true false (mk_jtag_dtm c true true i' (Z.testbit r (Z.of_nat 5 - 1)) v d n dtm w rti st EXIT1_IR) x =
    (inr (mk_jtag_dtm c true true false (Z.testbit r 4) v d n dtm w rti st UPDATE_IR), x)) by reflexivity.
  unfold dbind at 1 2. rewrite U. unfold dbind at 1 2. rewrite idle_clock by auto.
  reflexivity.
Qed.

Lemma update_dbus v c k m i t n dtm w rti x : fits 40 v ->
  update_dr random (mk_jtag_dtm c k m i t IR_DBUS v n dtm w rti false UPDATE_DR) x =
  (w' <- access random v ;; dret (mk_jtag_dtm c k m i t IR_DBUS v n dtm w' c false UPDATE_DR)) x.
Proof.
  intros Hv. destruct (dmi_fields v Hv) as (E1 & E2 & E3).
  transitivity ((r <- (if get_field v DMI_OP =? 1 then
      o <- dmi_read (get_field v DMI_ADDRESS) ;;
      dret (match o with Some value => (set_field v DMI_DATA value, true) | None => (v, false) end)
    else if get_field v DMI_OP =? 2 then
      s <- DebugModule.dmi_write random (get_field v DMI_ADDRESS) (get_field v DMI_DATA) ;; dret (v, s)
    else dret (v, true)) ;;
    let '(word, success) := r in
    dret (mk_jtag_dtm c k m i t IR_DBUS v n dtm (set_field word DMI_OP (if success then 0 else 2)) c false UPDATE_DR)) x);
    [reflexivity|].
  rewrite E1, E2, E3. unfold access. cbv zeta.
  assert (F : forall s, fits 2 s -> set_field v DMI_OP s = dmi_word (v / 2 ^ 34) ((v / 2 ^ 2) mod 2 ^ 32) s)
    by (intros; now apply answer_status).
  destruct (v mod 4 =? 1); [|destruct (v mod 4 =? 2)]; unfold dbind.
  - destruct (dmi_read _ x) as [[e|[value|]] y]; [reflexivity| |]; cbn [dret];
      [rewrite answer_read by easy|rewrite F by easy]; reflexivity.
  - destruct (DebugModule.dmi_write _ _ _ x) as [[e|[]] y]; [reflexivity| |]; cbn [dret]; rewrite F by easy; reflexivity.
  - cbn [dret]. rewrite F by easy. reflexivity.
Qed.

Lemma update_clock v c k m i t dtm w rti p x : fits 40 v ->
  clock true false (mk_jtag_dtm c k m i t IR_DBUS v 40 dtm w rti p EXIT1_DR) x =
  (r <- (if p then dret (w, rti) else w' <- access random v ;; dret (w', c)) ;;
   dret (mk_jtag_dtm c true true false t IR_DBUS v 40 dtm r.1 r.2 p UPDATE_DR)) x.
Proof.
  intros Hv. rewrite clock_edge.
  match goal with |- context [edge random ?a x] =>
    change (edge random a x) with (update_dr random (mk_jtag_dtm c false true false t IR_DBUS v 40 dtm w rti p UPDATE_DR) x) end.
  destruct p; [reflexivity|]. rewrite update_dbus by exact Hv. unfold dbind.
  destruct (access random v x) as [[e|q] y]; reflexivity.
Qed.

(** What a capture of the bus register shows. *)
Definition captured (j : jtag_dtm_t) : Z :=
  if (0 <? rti_remaining j) || busy_stuck j then DMI_OP_STATUS_BUSY else dmi j.

Lemma capture_dr_dbus c k m i t d n dtm w rti st s :
  let j := mk_jtag_dtm c k m i t IR_DBUS d n dtm w rti st s in
  capture_dr j = mk_jtag_dtm c k m i t IR_DBUS (captured j) 40 dtm w rti ((0 <? rti) || st) s.
Proof.
  intros j. unfold capture_dr, captured, j. cbn [rti_remaining busy_stuck dmi ir].
  change (IR_DBUS =? IR_IDCODE) with false. change (IR_DBUS =? IR_DTMCONTROL) with false.
  change (IR_DBUS =? IR_DBUS) with true. cbv iota.
  destruct ((0 <? rti) || st) eqn:E; [reflexivity|]. apply orb_false_elim in E as [_ ->]. reflexivity.
Qed.

Lemma capture_dbus c k m i t d n dtm w rti st x :
  let j := mk_jtag_dtm c k m i t IR_DBUS d n dtm w rti st RUN_TEST_IDLE in
  clocks [true; false; false] j x =
  (inr (mk_jtag_dtm c true false false (Z.testbit (captured j) 0) IR_DBUS (captured j) 40 dtm w rti
          ((0 <? rti) || st) SHIFT_DR), x).
Proof.
  intros j.
  rewrite (clocks_cons true _ j (mk_jtag_dtm c true true false t IR_DBUS d n dtm w rti st SELECT_DR_SCAN) x x) by now destruct k.
  rewrite (clocks_cons false _ _ (mk_jtag_dtm c true false false t IR_DBUS (captured j) 40 dtm w rti ((0 <? rti) || st) CAPTURE_DR) x x).
  - rewrite <- masked_bit. reflexivity.
  - rewrite clock_edge.
    match goal with |- context [edge random ?a x] =>
      change (edge random a x) with (@inr dm_fail _ (capture_dr (mk_jtag_dtm c false false false t IR_DBUS d n dtm w rti st CAPTURE_DR)), x) end.
    now rewrite capture_dr_dbus.
Qed.

Lemma dr_scan_word v j x : state j = RUN_TEST_IDLE -> ir j = IR_DBUS -> fits 40 v -> fits 40 (dmi j) ->
  dr_scan random 40 v j x = dbus_scan random v j x.
Proof.
  destruct j as [c k m i t r d n dtm w rti st s]. cbn [state ir dmi]. intros -> -> Hv Hw.
  unfold dr_scan. unfold dbind at 1. rewrite capture_dbus.
  set (out := captured _). set (p := (0 <? rti) || st).
  assert (Ho : fits 40 out) by (unfold out, captured; destruct (_ || _); [easy|exact Hw]).
  destruct (shifts_dr 40 (bits 40 v) ltac:(lia) (bits_nonempty 40 v ltac:(lia)) c true false false IR_DBUS out dtm w rti p x)
    as (t' & i' & (_ & ->) & E).
  unfold dbind at 1. rewrite E. rewrite (last_out 40), (shifted_word 40), (outs_bits 40 40) by (lia || assumption).
  cbn [fst snd].
  set (tdo := Z.testbit out (Z.of_nat 40 - 1)).
  unfold dbus_scan. cbn [rti_remaining busy_stuck dmi required_rti_cycles dtmcontrol]. fold p.
  change (if p then DMI_OP_STATUS_BUSY else w) with out.
  cbn [Jtag.clocks]. unfold dbind. rewrite update_clock by exact Hv. unfold dbind.
  destruct p; [|destruct (access random v x) as [[e|q] y]; [reflexivity|]]; cbn [dret fst snd];
    rewrite idle_clock by auto; reflexivity.
Qed.

End Scans.

(** Five clocks with TMS high reset the port from every state. *)
Lemma five_ones s : Nat.iter 5 (fun s => next s true) s = TEST_LOGIC_RESET.
Proof. now destruct s. Qed.

(** ** Properties *)

(** C17.  The transport carries out the scans.  From Run-Test/Idle, the pin
    changes of a scan of the instruction register replace it, give out the old
    one and do nothing else; those of a scan of the bus register have exactly
    the effect and the answer of the access the forty bits describe: one read or
    write of the Debug Module Interface at the scanned address, whose data and
    success the next scan gives out, or, when the last access is not over,
    no access and the answer [busy], which sticks.  Either ends in
    Run-Test/Idle with one idle cycle of the debug module. *)
Theorem jtag_scans {S R : Type} `{!SimIf S, !Platform S} (random : R -> Z * R)
    (j : jtag_dtm_t) (v : Z) (x : dm_machine S R) :
  state j = RUN_TEST_IDLE ->
  (fits 5 v -> fits 5 (ir j) ->
   ir_scan random v j x =
   (run_test_idle ;;
    dret (bits 5 (ir j),
          mk_jtag_dtm (required_rti_cycles j) true false false (Z.testbit (ir j) 4) v (dr j) (dr_length j)
            (dtmcontrol j) (dmi j) (elapse (rti_remaining j)) (busy_stuck j) RUN_TEST_IDLE)) x) /\
  (ir j = IR_DBUS -> fits 40 v -> fits 40 (dmi j) -> dr_scan random 40 v j x = dbus_scan random v j x).
Proof.
  intros Hs. split.
  - intros Hv Hi. now apply ir_scan_word.
  - intros Hi Hv Hd. now apply dr_scan_word.
Qed.

(** A port that has been reset and holds the instruction [DBUS]. *)
Definition example_jtag : jtag_dtm_t :=
  (reset (jtag_dtm_new 0 (mk_jtag_dtm 0 false false false false IR_DBUS 0 0 0 0 0 false RUN_TEST_IDLE)))
    <| state := RUN_TEST_IDLE |>.

(** The write of [dmcontrol] that activates the debug module. *)
Lemma jtag_scans_witness :
  dr_scan example_random 40 (dmi_word DMI_DMCONTROL 1 2) example_jtag
    (example_debug_machine (example_dm default_dm_config)) =
  dbus_scan example_random (dmi_word DMI_DMCONTROL 1 2) example_jtag
    (example_debug_machine (example_dm default_dm_config)).
Proof.
  apply (jtag_scans example_random example_jtag).
  - reflexivity.
  - reflexivity.
  - split; [discriminate|reflexivity].
  - split; [discriminate|reflexivity].
Defined.
