(* ===== verification/Examples.v ===== *)
(** * Examples: the theorems at concrete machines

    Witnesses of the properties of instructions and of the execution loop, on
    the machine of [Sim.v]. *)
From Stdlib Require Import ZArith Lia Bool List String.
From stdpp Require Import base list gmap strings.
From S2P Require Import Prelude SoftFloat Ieee Arith Encoding Decode Decoder State Processor Pmp Mmu Csr TrapEntry Macros Base Float Compressed System Fetch Execute Fields CsrFacts MmuFacts Registers Hoare InsnFacts InsnProps FetchFacts TrapFacts StepFacts StepProps InsnRuns Alu Control Expand Precise TrapReturn Isolation FloatProps Sim.
#[local] Open Scope Z_scope.
#[local] Open Scope word_scope.
#[local] Open Scope record_scope.
#[local] Open Scope monad_scope.

(** The instructions outside the model trap as illegal ones. *)
Definition no_others (name : string) : body (sim_t example_bus) :=
  fun xlen insn pc npc => throw_trap (trap_illegal_instruction (Insn.bits insn)).

Lemma no_others_ok name : body_ok 64 (no_others name).
Proof. apply body_runs_ok. intros insn pc npc _ _ _ _. apply runs_throw_trap. Qed.

(** [example_soc] with the decoder of its instruction set. *)
Definition example_machine : State.hart (sim_t example_bus) :=
  example_soc <| proc ::= fun p => p <| decoder := base_decoder |> |>.

Lemma example_machine_resettable : resettable 64 example_machine.
Proof.
  split; [split; [now right|reflexivity]|]. split; [reflexivity|]. split; [reflexivity|].
  split; [exact decoder_inv_base|]. intros idx e L. exfalso.
  change (icache (mmu example_machine)) with (∅ : gmap Z icache_entry_t) in L. rewrite lookup_empty in L. discriminate.
Qed.

Definition example_booted : State.hart (sim_t example_bus) := (processor_reset example_machine).2.
Lemma example_booted_ok : machine_ok 64 example_booted.
Proof. exact (reset_machine_ok 64 example_machine example_machine_resettable). Qed.

(** [addi x5, x0, 7] at the reset vector. *)
Lemma instruction_type_soundness_witness :
  outcome_ok 64 example_booted (RVI.addi 64 (mk_insn 0x00700293) 0x1000 0x1004 example_booted) /\
  (RVI.addi 64 (mk_insn 0x00700293) 0x1000 0x1004 example_booted).1 = inr 0x1004.
Proof.
  split; [|reflexivity].
  apply (instruction_type_soundness 64 "addi" RVI.addi); try reflexivity.
  - now right.
  - right. now left.
  - exact example_booted_ok.
Defined.

Lemma simulation_stays_legal_witness :
  match run_calls no_others 100 [(∅, 5); ({[0x1000 := 2]}, 3)] example_booted with
  | Some (r, h') => machine_ok 64 h' /\ (r = inl E_abort -> reserved_action (st h'))
  | None => True
  end.
Proof.
  apply (simulation_stays_legal no_others 64 100 [(∅, 5); ({[0x1000 := 2]}, 3)] example_machine).
  - exact no_others_ok.
  - exact example_machine_resettable.
  - repeat apply List.Forall_cons; try apply List.Forall_nil; cbn; lia.
Defined.

Lemma step_returns_witness :
  (exists r h', step no_others ∅ 24 5 example_booted = Some (r, h')) \/
  (exists n' h', iterations no_others ∅ 5 (halt_requests example_booted).2 n' h' /\ 0 < n' /\
     throws_trigger no_others ∅ n' h').
Proof.
  apply (step_returns no_others ∅ 64 5 24 example_booted).
  - now right.
  - exact no_others_ok.
  - lia.
  - exact example_booted_ok.
  - lia.
Defined.

(** ** Instructions on the booted machine *)

Lemma alu_refines_manual_witness :
  insn_body no_others "sub" 64 (mk_insn 0x40628233) 0x1000 0x1004 example_booted =
  alu_run 64 (mk_alu Ref.sub RegReg false false) (mk_insn 0x40628233) 0x1000 0x1004 example_booted.
Proof.
  apply (alu_refines_manual no_others 64 "sub" (mk_alu Ref.sub RegReg false false)); try reflexivity.
  - now right.
  - right. now left.
  - exact (ok_regs _ _ example_booted_ok).

Defined.

Lemma transfers_refine_manual_witness :
  insn_body no_others "beq" 64 (mk_insn 0x00000463) 0x1000 0x1004 example_booted =
  transfer_run 64 (Branch (fun _ a b => a =? b)) (mk_insn 0x00000463) 0x1000 0x1004 example_booted.
Proof.
  apply (transfers_refine_manual no_others 64 "beq"); [now right|now left|exact (ok_regs _ _ example_booted_ok)].
Defined.

(** [c.addi x10, 1] is [addi x10, x10, 1]. *)
Lemma compressed_is_expansion_witness :
  encodes "addi" (mk_insn 0x00150513) /\
  insn_body no_others "c_addi" 64 (mk_insn 0x0505) 0x1000 0x1002 example_booted =
  insn_body no_others "addi" 64 (mk_insn 0x00150513) 0x1000 0x1002 example_booted.
Proof.
  assert (K : In ("c_addi", nth 1 expansions.*2 (mk_expansion "" (fun i => i) (fun _ _ => true))) expansions)
    by (right; now left).
  exact (compressed_is_expansion no_others 64 "c_addi" _ (mk_insn 0x0505) 0x1000 0x1002 example_booted
    (or_intror eq_refl) K (ok_regs _ _ example_booted_ok) eq_refl eq_refl).
Defined.

Lemma ecall_traps : Sys.ecall 64 (mk_insn 0x73) 0x1000 0x1004 example_booted = (inl (E_trap trap_machine_ecall), example_booted).
Proof.
  unfold Sys.ecall. rewrite run_gets. assert (P : prv (st example_booted) = PRV_M) by reflexivity. now rewrite P.
Qed.

Lemma exceptions_precise_witness :
  proc example_booted = proc example_booted /\
  exists v z, st example_booted = (st example_booted) <| mip := v |> <| serialized := z |>.
Proof.
  apply (exceptions_precise "ecall" Sys.ecall 64 (mk_insn 0x73) 0x1000 0x1004 example_booted example_booted
    (E_trap trap_machine_ecall)); [|exact ecall_traps|exact I].
  unfold modelled_insns. rewrite !List.in_app_iff. do 6 right. left. unfold insns_priv.
  do 8 right. now left.
Defined.

(** An illegal instruction at the reset vector, and its handler's [mret]. *)
Definition example_trap : trap_t := trap_illegal_instruction 0.
Lemma trap_mret_roundtrip_witness : exists h1 h2 m,
    take_trap example_trap 0x1000 example_booted = (inr tt, h1) /\ mepc (st h1) = 0x1000 /\
    mcause (st h1) = cause example_trap /\ prv (st h1) = PRV_M /\
    get_field (mstatus (st h1)) MSTATUS_MPP = prv (st example_booted) /\ Z.testbit (mstatus (st h1)) 3 = false /\
    Z.testbit (mstatus (st h1)) 7 = Z.testbit (mstatus (st example_booted)) 3 /\
    Sys.mret 64 (mk_insn 0x30200073) 0x2000 0x2004 h1 = (inr PC_SERIALIZE_AFTER, h2) /\
    proc h2 = proc example_booted /\
    st h2 = (st example_booted) <| State.pc := 0x1000 &w pc_alignment_mask (st example_booted) (proc example_booted) |>
      <| mepc := 0x1000 |> <| mcause := cause example_trap |> <| mtval := rocket_tval (get_tval example_trap) |>
      <| mtval2 := get_tval2 example_trap |> <| mtinst := get_tinst example_trap |> <| mstatus := m |> /\
    forall i, 0 <= i < 64 -> i <> 7 -> ~ 11 <= i < 13 ->
      Z.testbit m i = Z.testbit (with_fixed_xl (st example_booted) (proc example_booted) (mstatus (st example_booted))) i.
Proof.
  assert (D : debug_mode (st example_booted) = false) by reflexivity.
  assert (B : (cause example_trap =? CAUSE_BREAKPOINT) && ebreak_debug (st example_booted) = false) by reflexivity.
  assert (T : trap_target_of (st example_booted) (proc example_booted) (cause example_trap) = To_M) by reflexivity.
  exact (trap_mret_roundtrip example_trap 0x1000 64 (mk_insn 0x30200073) 0x2000 0x2004 example_booted
    (ok_csr _ _ example_booted_ok) D B T).
Defined.

(** The devices drive the machine-level software and timer interrupts. *)
Definition device_bits : Z := MIP_MSIP |w MIP_MTIP.

Lemma within_masked mask mip r : (forall i, 0 <= i < 64 -> Z.testbit device_bits i = false -> Z.testbit mask i = false) ->
  r = mip &w not64 mask \/ r = (mip &w not64 mask) |w mask -> within device_bits mip r.
Proof.
  intros M H i Hi D. pose proof (M i Hi D) as F.
  assert (B : Z.testbit (mip &w not64 mask) i = Z.testbit mip i).
  { rewrite Z.land_spec, not64_bits, F by lia. replace (i <? 64) with true by lia. apply andb_true_r. }
  destruct H as [-> | ->]; [exact B|]. rewrite Z.lor_spec, B, F. apply orb_false_r.
Qed.

Lemma device_mask mask : mask = MIP_MSIP \/ mask = MIP_MTIP ->
  forall i, 0 <= i < 64 -> Z.testbit device_bits i = false -> Z.testbit mask i = false.
Proof.
  intros H i _. unfold device_bits. rewrite Z.lor_spec. intros [A B]%orb_false_elim. now destruct H as [-> | ->].
Qed.

Lemma increment_within c mip inc : within device_bits mip (clint_increment c mip inc).2.
Proof.
  apply (within_masked MIP_MTIP); [apply device_mask; auto|]. unfold clint_increment. cbn [snd].
  destruct (_ <=? _); auto.
Qed.

Lemma increments_within {A} (a : A) c mip0 mip inc : within device_bits mip0 mip ->
  within device_bits mip0 (let '(c, mip) := clint_increment c mip inc in (a, c, mip)).2.
Proof.
  intros H. pose proof (increment_within c mip inc) as K. destruct (clint_increment c mip inc). exact (within_trans _ _ _ _ H K).
Qed.

Lemma clint_load_within c mip addr n : within device_bits mip (clint_load c mip addr n).2.
Proof.
  unfold clint_load. pose proof (increment_within c mip 0) as K. destruct (clint_increment c mip 0) as [c' mip'].
  now repeat destruct (_ && _).
Qed.

Lemma clint_store_within c mip addr bytes : within device_bits mip (clint_store c mip addr bytes).2.
Proof.
  unfold clint_store. cbv zeta. destruct (_ && _); [|destruct (_ && _); [|destruct (_ && _)]].
  - apply increments_within. destruct (negb _); [apply within_refl|].
    apply (within_masked MIP_MSIP); [apply device_mask; auto|]. destruct (z2b _); auto.
  - apply increments_within, within_refl.
  - apply increments_within, within_refl.
  - apply within_refl.
Qed.

Lemma sim_driven bus : driven_bits (sim_t bus) device_bits.
Proof.
  split.
  - intros s m a n. cbn. unfold sim_mmio_load, bus_load. destruct (negb _); [apply within_refl|].
    assert (G : forall d b, within device_bits m (device_load d (clint s) m b n).2)
      by (intros [] b; try apply within_refl; apply clint_load_within).
    destruct (find_device bus a) as [[base d]|]; [|apply within_refl].
    specialize (G d (a -w base)). now destruct (device_load _ _ _ _ _) as [[r c] m'].
  - intros s m a bs. cbn. unfold sim_mmio_store, bus_store. destruct (negb _); [apply within_refl|].
    assert (G : forall d b, within device_bits m (device_store d (clint s) m b bs).2)
      by (intros [] b; try apply within_refl; apply clint_store_within).
    destruct (find_device bus a) as [[base d]|]; [|apply within_refl].
    specialize (G d (a -w base)). now destruct (device_store _ _ _ _ _) as [[r c] m'].
Qed.

(** A user-mode program writes [fcsr]. *)
Definition example_user : State.hart (sim_t example_bus) := (set_privilege PRV_U example_booted).2.
Lemma example_user_legal : csr_inv (st example_user) (proc example_user).
Proof. exact (keeps_set_privilege PRV_U example_booted ltac:(unfold PRV_U; lia) (ok_csr _ _ example_booted_ok)). Qed.

Lemma unprivileged_code_confined_witness :
  let h' := (Sys.csrrw 64 (mk_insn 0x00329073) 0x1000 0x1004 example_user).2 in
  isolated device_bits (proc example_user) (st example_user) (st h') /\ csr_inv (st h') (proc h') /\
  exists vu, proc h' = (proc example_user) <| VU := vu |>.
Proof.
  apply (unprivileged_code_confined "csrrw" Sys.csrrw (mk_insn 0x00329073) 0x1000 0x1004 example_user device_bits).
  - exact (sim_driven example_bus).
  - exact example_user_legal.
  - discriminate.
  - reflexivity.
  - reflexivity.
  - unfold modelled_insns. rewrite !List.in_app_iff. do 6 right. left. unfold insns_priv.
    do 4 right. now left.
Defined.

(** A program can crash the simulator: [tdata1] takes a reserved action, and
    the next instruction that matches the trigger reaches [abort()]. *)
Definition example_reserved : State.hart (sim_t example_bus) :=
  (set_csr CSR_TDATA1 (MCONTROL_EXECUTE |w MCONTROL_M |w Z.shiftl 2 12 |w 0x100) example_booted).2
    <| st ::= fun s => s <| pc := 0x80000000 |> <| tdata2 := [0x80000000; 0; 0; 0] |> |>.
Example reserved_action_aborts : (step_iteration no_others ∅ 1 example_reserved).1 = inl E_abort.
Proof. vm_compute. reflexivity. Qed.

(** ** Floating point on the booted machine *)

(** The floating-point unit on; [f1] holds 1.5 and [f2] 2.5 in single
    precision, [f4] a quiet NaN and [f5] -7.5 in double precision. *)
Definition example_float : State.hart (sim_t example_bus) :=
  example_booted <| st ::= fun s => s <| mstatus := MSTATUS_FS |>
    <| FPR := [mk_freg 0 0; freg32 0x3FC00000; freg32 0x40200000; mk_freg 0 0; freg64 0x7FF8000000000000; freg64 0xC01E000000000000] |> |>.

Lemma example_float_ok : float_ok example_float.
Proof.
  split; [|split; [now apply Z.leb_le|reflexivity]].
  change (FPR (st example_float)) with [mk_freg 0 0; freg32 0x3FC00000; freg32 0x40200000; mk_freg 0 0; freg64 0x7FF8000000000000; freg64 0xC01E000000000000].
  repeat constructor; now apply Z.leb_le || now apply Z.ltb_lt.
Qed.

(** [fadd.s f3, f1, f2] gives 4; [fdiv.s f3, f1, f2] gives the nearest to 0.6, inexact. *)
Lemma fp_arithmetic_refines_ieee_witness :
  insn_body no_others "fadd_s" 64 (mk_insn 0x002081D3) 0x1000 0x1004 example_float =
    (inr 0x1004, fp_done 64 (write_f 64 3 (freg32 0x40800000)) 0 0 example_float) /\
  insn_body no_others "fdiv_s" 64 (mk_insn 0x182081D3) 0x1000 0x1004 example_float =
    (inr 0x1004, fp_done 64 (write_f 64 3 (freg32 0x3F19999A)) 0 softfloat_flag_inexact example_float).
Proof.
  split.
  - exact (fp_arithmetic_refines_ieee no_others 64 _ _ _ _ "fadd_s" (single Ieee.add) example_float_ok ltac:(now left)).
  - exact (fp_arithmetic_refines_ieee no_others 64 _ _ _ _ "fdiv_s" (single Ieee.div) example_float_ok ltac:(do 3 right; now left)).
Defined.

(** [flt.d x3, f4, f5] with a NaN gives 0 and raises invalid. *)
Lemma fp_comparisons_refine_ieee_witness :
  insn_body no_others "flt_d" 64 (mk_insn 0xA25211D3) 0x1000 0x1004 example_float =
    (inr 0x1004, fp_done 64 (fun s => s <| XPR ::= regfile_write true 3 0 |>) 0 softfloat_flag_invalid example_float).
Proof.
  exact (fp_comparisons_refine_ieee no_others 64 _ _ _ _ "flt_d" (mk_fp_test chr_D binary64 f64 is_lt false) example_float_ok
    ltac:(do 4 right; now left)).
Defined.

(** [fcvt.w.d x3, f5, rdn] gives -8, inexact. *)
Lemma fp_conversions_refine_ieee_witness :
  insn_body no_others "fcvt_w_d" 64 (mk_insn 0xC202A1D3) 0x1000 0x1004 example_float =
    (inr 0x1004, fp_done 64 (fun s => s <| XPR ::= regfile_write true 3 (2 ^ 64 - 8) |>) softfloat_round_min softfloat_flag_inexact example_float).
Proof.
  exact (proj2 (fp_conversions_refine_ieee no_others 64 (mk_insn 0xC202A1D3) 0x1000 0x1004 example_float example_float_ok ltac:(split; [now apply Z.leb_le|now apply Z.ltb_lt]))
    "fcvt_w_d" (mk_fp_to_integer chr_D false binary64 f64 (- 2 ^ 31) (2 ^ 31 - 1)) ltac:(do 4 right; now left)).
Defined.
